(* ===== verification/_CoqProject ===== *)
-Q . S2P
Prelude.v
Float32.v
Crc.v
Proto.v
Text.v
ParamPayload.v
Frame.v
StreamPacket.v
Beacon.v
Discovery.v
BrokerInfo.v
Upstream.v
History.v
Broker.v
BrokerLaws.v
BrokerRuns.v
BrokerConfig.v
BrokerDuration.v
Storage.v
Phase.v
Harmonics.v
Filter.v
Ssi.v
Ad7609.v
Ad5064.v
Optoncdt.v
AnalogSpi.v
RtMem.v
Pio.v
SsiPio.v
PulsePio.v
Pid.v
Table.v
TableBuffer.v
Pll.v
Channels.v
HwTimer.v
StreamTask.v
Shared.v
Laser.v
Rig.v
Program.v
RtLoop.v
Params.v
Groups.v
Ticks.v
ControlServer.v
GroupLaws.v
PicoRig.v
ExternalRig.v
ServiceRig.v
ControlDemo.v
EndToEnd.v
Capture.v
Conformance.v
ProtoTests.v
CoreTests.v
PllTests.v
DriverTests.v
RtTests.v
ParamTests.v
HostTests.v
SystemTests.v
