(* ===== verification/Prelude.v ===== *)
(** * HELIC-DAQ: a verification of the data acquisition and control platform

    HELIC-DAQ runs a sampled control experiment on a dual-core RP2350.  Core 1
    runs a hard real-time loop: at each tick it measures, applies at most two
    queued commands, steps a programme (harmonic generator, waveform table and a
    control policy), gates the output and hands over a record.  Core 0 serves a
    framed TCP control connection (self-described parameters, stream sessions,
    arming), streams records over UDP and answers discovery.  On the host a
    broker shares one device between several clients, keeps a history of recent
    packets and records captures as chained HDF5 segments.  This library
    translates the Rust implementation into executable definitions and proves
    the properties that make it correct.  The reader is assumed to have the
    repository; paths below are relative to its root.

    ** Conventions

    - Integers are [Z].  A [uN] is a value of [fits N]; arithmetic that wraps or
      saturates in the source names its width ([wrapping_add 32], [saturating_add
      8], ...).  An overflow that the source does not handle is a panic, as with
      overflow checks on.  Counters of 64 bits that only ever count events of a
      run (client numbers, connection generations, received records) are
      unbounded; [ap_epoch] and the rest wrap.
    - [f32] and [f64] are the Standard Library's [spec_float] (Float32.v), so every
      operation is evaluated bit by bit in the order of the source.  A NaN has no
      payload.  Functions of [libm] are arguments, and no property needs to know
      more of them than that they are functions.
    - A fallible function gives an [outcome]: [Ok], [Err] with the source's error,
      or [Panic]; [option] where there is no error type.  An index out of range, a
      failed assertion and an [unwrap] of nothing are panics, and the theorems
      say where none can happen.
    - Mutable state is passed explicitly; [r <| field := v |>] is an update.
      Interfaces (traits) are classes: [Rig], [Program], [StandardControl],
      [ParamGroup], [SpscQueue], each with a class of laws, against which the
      clients are proved and which the implementations discharge.
    - Loops are structural where the data is, and otherwise have fuel that is
      computed from the input ([Z.to_nat length] in RtMem.v, the entries left of a
      paged registry, five doublings in Ssi.v); that it is enough is part of the
      theorem, and running out of it is a panic or [None], never a result.
    - What the code cannot decide is an argument: the answers of a peripheral or
      of the file system, the bytes that arrive, the clock, the schedule.
      Properties hold for all of them, or for those that meet a named hypothesis.

    ** Files and what they model

    Shared vocabulary: Prelude.v (widths, outcomes, slices, loops, little-endian
    words, automation), Float32.v, Text.v.

    Wire protocol (helic-proto/src): Crc.v (crc.rs), Proto.v (lib.rs), Frame.v
    (frame.rs), ParamPayload.v (payload.rs), StreamPacket.v (stream.rs), Beacon.v
    (beacon.rs), BrokerInfo.v (broker.rs).

    Signal processing and control (helic-core/src): Phase.v (phase.rs, safety.rs),
    Harmonics.v (lut.rs, generator.rs, harmonics.rs, fourier.rs), Filter.v
    (filter.rs), Pid.v (pid.rs), Table.v (table.rs), TableBuffer.v
    (table_buffer.rs, the lock-free double buffer between the cores), Pll.v
    (pll.rs).

    Real-time platform (helic-rt/src and firmware/rt/src): Channels.v
    (sample_rate.rs, channels.rs), Shared.v (shared.rs: [World] is all memory the
    cores share), Rig.v (rig.rs, safety.rs, the [Program] trait), Program.v
    (control.rs, program.rs), RtLoop.v (firmware/rt/src/rt_loop.rs), Ticks.v
    (many ticks and the record ring), Params.v
    (params.rs: the transactional parameter store), Groups.v and GroupLaws.v
    (params/groups.rs and the law each group discharges), RtMem.v (rt_mem.rs),
    HwTimer.v (firmware/rt/src/rig.rs, firmware/support/src/time_watchdog.rs),
    Pio.v, SsiPio.v and PulsePio.v (ssi_pio.rs, pulse_pio.rs with their embedded
    state-machine programs), AnalogSpi.v (analog_spi.rs).

    Drivers (helic-drivers/src): Ssi.v, Ad7609.v, Ad5064.v (with pwm_out.rs),
    Optoncdt.v; Laser.v is the task over the last one
    (firmware/integrations/optoncdt/src/laser.rs).

    Core 0 (firmware/support/src/comms): StreamTask.v (udp.rs), ControlServer.v
    (tcp.rs), Discovery.v (beacon.rs, with the identity of firmware/build).

    Host broker (helic-broker/src): BrokerConfig.v and BrokerDuration.v
    (config.rs), Upstream.v and Broker.v (server.rs), History.v (history.rs), Storage.v (storage.rs);
    BrokerLaws.v is the proof that the shared state is sound under every schedule,
    BrokerRuns.v follows single tasks and particular runs.

    Experiments: PicoRig.v (firmware/experiments/pico2w-rig), ExternalRig.v and
    ServiceRig.v (tests/external-rig: the fixture programme with its minimal
    firmware, and the one with the services of core 0).  ControlDemo.v and
    EndToEnd.v compose the server, the store and the broker; Capture.v composes
    streamer, broker and recorder.

    The repository's own tests, translated statement by statement to programs
    over the model and evaluated by the kernel: Conformance.v (assertions, and a
    sine for the tests that need one), ProtoTests.v (helic-proto), CoreTests.v and
    PllTests.v (helic-core), DriverTests.v (helic-drivers), RtTests.v and
    ParamTests.v (helic-rt), HostTests.v (helic-broker and firmware/build), and
    SystemTests.v (helic-broker/tests: the broker's tasks between two clients and
    a simulated device).

    ** What is shown

    - The wire: encoders and decoders are inverse to each other and accept nothing
      else; the CRC is polynomial division, and a frame damaged in one byte or in two
      adjacent ones is never accepted, but for one pattern that is named;
      paging visits a registry completely and terminates, from the device's answers
      to the broker's table of parameters.
    - The boundary between the cores: the double buffer refines a specification
      with one staged and one active value and is free of races; the safety words
      commute; a command that was accepted is applied, and a refused one leaves no
      trace in the store; whatever the host does keeps the invariant of the loop.
    - The loop: for every lawful rig, programme and pair of queues a tick returns,
      applies at most two commands in order and records what was really actuated; a
      gated output is the clamped command only when armed, untripped, finite and
      without fault, and the safe vector otherwise; a reboot quiesces the rig before
      it is published to core 0.
      The standard programme and its policies are lawful; the phase-locked loop
      stays in its frequency window and follows its state machine.
    - The hardware edge: the copy and clear routines are exact and fault-free; the
      tick waits equal their reference whatever the wrap of the timer; the watchdog
      always has an interrupt within 50 ms; the SSI program reads the positions the
      encoders latched; the pulse program counts the interval it says, less a fixed
      offset; an SPI exchange sends the buffer it overwrites.
    - Core 0: a stream session sends the decimated records of the ring once each and
      in order, up to the number requested; a control connection answers every
      well-formed frame in order for as long as it stands, and its end disarms.
    - The broker: its invariant holds under every interleaving, and no task panics
      unless an MCU announces more than 65330 parameters, where the index of its
      discovery can overflow (Upstream.v has such a device); the last client that
      leaves disarms the rig; the history replays exactly the last records; a
      recording reads back as the packets it was given, and after a failed call of
      the file system nothing further is done to it.
    - The whole path of a session: while core 0 empties the ring in time, it gets
      one record for each tick, numbered consecutively; and the segments of a
      recording hold exactly the decimated records that the ring delivered, with
      their sample indices, when datagrams arrive in order and no other task of the
      broker interferes; under every other schedule a recording still holds exactly
      the packets the recorder was given, all of the layout it was announced with.
    - The shipped configuration boots into the invariants of all of these, and so
      does the service firmware of the acceptance rig.
    - The model gives the known answers of the repository's tests.

    ** Abstractions worth knowing

    - The bank words of the double buffer are sequentially consistent; its steps
      are the accesses of the source, in every interleaving.  Other atomics are
      single words with one writer or with updates that commute (Shared.v).
    - In Broker.v a task is a program of atomic steps, one for each stretch between
      two points where another task may run.  The guard of [upstream] spans only the
      exchange with the device and is one step with it; the guard of
      [stream_operations] spans others and is a lock.  TCP and UDP are lists of what
      arrives; time-outs are errors the environment may choose.
    - Queues between the cores and the recorder's channel are third-party code:
      the first are an interface with laws and a list instance, the second is
      the list of commands the worker gets.
    - The rig-shared laser words are fields of the rig at the moment it reads them;
      the words of telemetry are padded to the sixteen that [World] has.
    - The instructions of the programmable IO and the alarm of the timer are modelled
      from their documented behaviour, only as far as the code uses them.

    ** Not modelled

    Network bring-up, pin maps, logging and the entry points, which are calls of
    third-party crates; running git and reading paths in the build script; the
    HAL calls that configure the state machines; the feature-gated measurement
    rigs and probes of the firmware; the Python, Julia and MATLAB clients.  Of the
    tests: sweeps over 10^4 and more points, where a theorem states the same or
    the numerical quality of an approximation is at stake (each file lists its
    own), the size of a type, and those that start processes. *)

From Stdlib Require Export ZArith Lia.
From stdpp Require Export base decidable numbers option list.
From coqutil Require Export Datatypes.RecordSettersUsingExistingGetters.

#[export] Set Default Goal Selector "!".
Open Scope Z_scope.

(** Record updates are written [r <| field := v |>]. *)
#[global] Arguments const {E} newValue _ /.

(** ** Fixed-width unsigned integers

    A Rust [uN] is a [Z] in [0, 2^N); the arithmetic that wraps or saturates in
    the source names its width here. *)

Definition umax (w : Z) : Z := 2 ^ w - 1.
Definition fits (w z : Z) : Prop := 0 <= z < 2 ^ w.
Definition wrap (w z : Z) : Z := z mod 2 ^ w.
Definition wrapping_add (w a b : Z) : Z := wrap w (a + b).
Definition wrapping_sub (w a b : Z) : Z := wrap w (a - b).
Definition wrapping_mul (w a b : Z) : Z := wrap w (a * b).
Definition saturating_add (w a b : Z) : Z := Z.min (a + b) (umax w).
Definition saturating_sub (a b : Z) : Z := Z.max (a - b) 0.

(** [overflowing_add]: the wrapped sum and whether it wrapped. *)
Definition overflowing_add (w a b : Z) : Z * bool :=
  (wrap w (a + b), 2 ^ w <=? a + b).

#[export] Instance fits_dec w z : Decision (fits w z).
Proof. unfold fits. apply _. Defined.

Lemma pow2_pos w : 0 <= w -> 0 < 2 ^ w.
Proof. intros. by apply Z.pow_pos_nonneg. Qed.

Lemma wrap_fits w z : 0 <= w -> fits w (wrap w z).
Proof. intros Hw. apply Z.mod_pos_bound. by apply pow2_pos. Qed.

Lemma wrap_id w z : fits w z -> wrap w z = z.
Proof. apply Z.mod_small. Qed.

Lemma wrap_wrap w z : wrap w (wrap w z) = wrap w z.
Proof. apply Zmod_mod. Qed.

Lemma wrap_add_l w a b : wrap w (wrap w a + b) = wrap w (a + b).
Proof. apply Zplus_mod_idemp_l. Qed.

Lemma wrap_add_r w a b : wrap w (a + wrap w b) = wrap w (a + b).
Proof. apply Zplus_mod_idemp_r. Qed.

Lemma wrap_mul_l w a b : wrap w (wrap w a * b) = wrap w (a * b).
Proof. apply Zmult_mod_idemp_l. Qed.

Lemma wrap_mul_r w a b : wrap w (a * wrap w b) = wrap w (a * b).
Proof. apply Zmult_mod_idemp_r. Qed.

(** ** Outcomes

    A Rust call returns a value, returns an error of its error type, or panics
    (index out of range, failed assertion, [unwrap] of [None]). *)

Inductive outcome (E A : Type) : Type :=
  | Ok (a : A)
  | Err (e : E)
  | Panic.
Arguments Ok {E A} a.
Arguments Err {E A} e.
Arguments Panic {E A}.

Lemma Ok_inj {E A} (a b : A) : @Ok E A a = Ok b -> a = b.
Proof. congruence. Qed.

#[export] Instance outcome_ret {E} : MRet (outcome E) := fun _ a => Ok a.
#[export] Instance outcome_bind {E} : MBind (outcome E) := fun _ _ f m =>
  match m with Ok a => f a | Err e => Err e | Panic => Panic end.
#[export] Instance outcome_fmap {E} : FMap (outcome E) := fun _ _ f m =>
  match m with Ok a => Ok (f a) | Err e => Err e | Panic => Panic end.

#[export] Instance outcome_eq_dec {E A} `{EqDecision E, EqDecision A} :
  EqDecision (outcome E A).
Proof. solve_decision. Defined.

(** Rewriting a bind instead of computing it keeps the kernel from unfolding
    what follows. *)
Lemma bind_Some {A B} (a : A) (f : A -> option B) : (x ← Some a; f x) = f a.
Proof. done. Qed.
Lemma bind_Ok {E A B} (a : A) (f : A -> outcome E B) : (x ← Ok a; f x) = f a.
Proof. done. Qed.
Lemma bind_Err {E A B} (e : E) (f : A -> outcome E B) : (x ← Err e; f x) = Err e.
Proof. done. Qed.

(** A partial library operation whose [None] is a panic. *)
Definition or_panic {E A} (o : option A) : outcome E A :=
  match o with Some a => Ok a | None => Panic end.

Lemma bind_or_panic {E A B} (a : A) (f : A -> outcome E B) : (x ← or_panic (Some a); f x) = f a.
Proof. done. Qed.

(** [Option::ok_or(e)?]. *)
Definition ok_or {E A} (o : option A) (e : E) : outcome E A :=
  match o with Some a => Ok a | None => Err e end.

(** [Result::map_err(f)?]. *)
Definition map_err {E E' A} (f : E -> E') (m : outcome E A) : outcome E' A :=
  match m with Ok a => Ok a | Err e => Err (f e) | Panic => Panic end.

(** [call()?] when the state survives an error. *)
Definition and_then {St E A B} (m : St * outcome E A) (f : St -> A -> St * outcome E B)
    : St * outcome E B :=
  match m with
  | (s, Ok a) => f s a
  | (s, Err e) => (s, Err e)
  | (s, Panic) => (s, Panic)
  end.

(** [if c { return Err(e) }]. *)
Definition guard_err {E} (c : bool) (e : E) : outcome E unit :=
  if c then Err e else Ok ().

(** [assert!(c)]. *)
Definition assert_that {E} (c : bool) : outcome E unit :=
  if c then Ok () else Panic.

(** ** Slices

    [len] is [usize]; ranges out of bounds panic, hence [option]. *)

Section slices.
Context {A : Type}.
Implicit Types l src : list A.

Definition len l : Z := Z.of_nat (length l).

(** [l[i]] *)
Definition index l (i : Z) : option A :=
  if 0 <=? i then l !! Z.to_nat i else None.

(** [&l[a..b]] *)
Definition slice l (a b : Z) : option (list A) :=
  if (0 <=? a) && (a <=? b) && (b <=? len l)
  then Some (take (Z.to_nat (b - a)) (drop (Z.to_nat a) l))
  else None.

(** [l[off..off + src.len()].copy_from_slice(src)] *)
Definition blit l (off : Z) src : option (list A) :=
  if (0 <=? off) && (off + len src <=? len l)
  then Some (take (Z.to_nat off) l ++ src
              ++ drop (Z.to_nat (off + len src)) l)
  else None.

(** [dst.copy_from_slice(src)] *)
Definition copy_from_slice (dst src : list A) : option (list A) :=
  if len dst =? len src then Some src else None.

(** [l[i] = v] *)
Definition put l (i : Z) (v : A) : option (list A) := blit l i [v].

Lemma len_nonneg l : 0 <= len l.
Proof. unfold len. lia. Qed.

Lemma len_nil : len [] = 0.
Proof. done. Qed.

Lemma len_cons x l : len (x :: l) = 1 + len l.
Proof. unfold len. rewrite length_cons. lia. Qed.

Lemma len_app l1 l2 : len (l1 ++ l2) = len l1 + len l2.
Proof. unfold len. rewrite length_app. lia. Qed.

Lemma len_take n l : 0 <= n <= len l -> len (take (Z.to_nat n) l) = n.
Proof. unfold len. rewrite length_take. lia. Qed.

Lemma len_drop n l : 0 <= n <= len l -> len (drop (Z.to_nat n) l) = len l - n.
Proof. unfold len. rewrite length_drop. lia. Qed.

Lemma len_zero l : len l = 0 -> l = [].
Proof. destruct l; [done|]. rewrite len_cons. pose proof (len_nonneg l). lia. Qed.

(** Writing at the cursor: the first [len l1] elements are already written. *)
Lemma blit_cursor l1 l2 src off :
  off = len l1 -> len src <= len l2 ->
  blit (l1 ++ l2) off src = Some ((l1 ++ src) ++ drop (length src) l2).
Proof.
  intros -> Hle. unfold blit. rewrite len_app.
  rewrite !(proj2 (Z.leb_le _ _)) by (unfold len in *; lia). simpl.
  f_equal. rewrite <-app_assoc. f_equal.
  - apply take_app_length'. unfold len. lia.
  - f_equal. rewrite drop_app_ge by (unfold len; lia).
    f_equal. unfold len. lia.
Qed.

Lemma put_cursor l1 l2 v i :
  i = len l1 -> 1 <= len l2 -> put (l1 ++ l2) i v = Some ((l1 ++ [v]) ++ drop 1 l2).
Proof. intros. unfold put. by rewrite blit_cursor. Qed.

Lemma len_drop_nat n l : len (drop n l) = Z.max 0 (len l - Z.of_nat n).
Proof. unfold len. rewrite length_drop. lia. Qed.

Lemma slice_app l1 l2 l3 a b :
  a = len l1 -> b = len l1 + len l2 ->
  slice (l1 ++ l2 ++ l3) a b = Some l2.
Proof.
  intros -> ->. unfold slice. rewrite !len_app.
  rewrite !(proj2 (Z.leb_le _ _)) by (unfold len; lia). simpl. f_equal.
  rewrite drop_app_length' by (unfold len; lia).
  apply take_app_length'. unfold len. lia.
Qed.

Lemma slice_ok l a b :
  0 <= a -> a <= b -> b <= len l ->
  slice l a b = Some (take (Z.to_nat (b - a)) (drop (Z.to_nat a) l)).
Proof.
  intros. unfold slice. by rewrite !(proj2 (Z.leb_le _ _)) by lia.
Qed.

Lemma slice_length l a b s : slice l a b = Some s -> len s = b - a.
Proof.
  unfold slice. destruct (_ && _) eqn:E; [|done]. intros [= <-].
  apply andb_prop in E as [E ?%Z.leb_le].
  apply andb_prop in E as [?%Z.leb_le ?%Z.leb_le].
  unfold len in *. rewrite length_take, length_drop. lia.
Qed.

Lemma blit_length l off src l' : blit l off src = Some l' -> len l' = len l.
Proof.
  unfold blit. destruct (_ && _) eqn:E; [|done]. intros [= <-].
  apply andb_prop in E as [?%Z.leb_le ?%Z.leb_le].
  unfold len in *. rewrite !length_app, length_take, length_drop. lia.
Qed.

Lemma index_Some l i x : index l i = Some x <-> 0 <= i /\ l !! Z.to_nat i = Some x.
Proof.
  unfold index. destruct (Z.leb_spec 0 i).
  - split; [done|]. by intros [_ ?].
  - split; [done|]. intros [? _]. lia.
Qed.

Lemma index_app l1 l2 x i : i = len l1 -> index (l1 ++ x :: l2) i = Some x.
Proof.
  intros ->. apply index_Some. split; [apply len_nonneg|].
  unfold len. rewrite Nat2Z.id. by apply list_lookup_middle.
Qed.

Lemma index_is_Some l i : 0 <= i < len l -> is_Some (index l i).
Proof.
  intros Hi. unfold index. rewrite (proj2 (Z.leb_le _ _)) by lia.
  apply lookup_lt_is_Some_2. unfold len in Hi. lia.
Qed.
Lemma put_insert l i v : 0 <= i < len l -> put l i v = Some (<[Z.to_nat i := v]> l).
Proof.
intros Hi. unfold put, blit. rewrite len_cons, len_nil, !(proj2 (Z.leb_le _ _)) by lia.
cbn [andb]. f_equal. rewrite insert_take_drop by (unfold len in Hi; lia).
cbn [app]. do 3 f_equal. lia.
Qed.

Lemma put_spec l i v :
  0 <= i < len l ->
  exists l', put l i v = Some l' /\ len l' = len l
    /\ forall j, index l' j = if j =? i then Some v else index l j.
Proof.
intros Hi. rewrite put_insert by done. eexists. split; [done|]. split.
- unfold len. by rewrite length_insert.
- intros j. unfold index. destruct (Z.leb_spec 0 j), (Z.eqb_spec j i); try lia; try done.
  + subst. apply list_lookup_insert_eq. unfold len in Hi. lia.
  + apply list_lookup_insert_ne. lia.
Qed.

Lemma slice_index l a b s j :
  slice l a b = Some s -> 0 <= j < b - a -> index s j = index l (a + j).
Proof.
unfold slice. destruct (_ && _) eqn:E; [|done].
apply andb_prop in E as [E ?%Z.leb_le]. apply andb_prop in E as [?%Z.leb_le ?%Z.leb_le].
intros Hs Hj. apply (inj Some) in Hs as <-. unfold index.
rewrite !(proj2 (Z.leb_le _ _)) by lia. rewrite lookup_take_lt by lia.
rewrite lookup_drop. f_equal. lia.
Qed.

Lemma blit_spec l off src :
  0 <= off -> off + len src <= len l ->
  exists l', blit l off src = Some l' /\ len l' = len l
    /\ forall j, index l' j = if (off <=? j) && (j <? off + len src) then index src (j - off)
                             else index l j.
Proof.
intros H0 H1. destruct (blit l off src) as [l'|] eqn:E.
- exists l'. split; [done|]. split; [by eapply blit_length|]. intros j. unfold blit in E.
  rewrite !(proj2 (Z.leb_le _ _)) in E by done. cbn [andb] in E. apply (inj Some) in E as <-.
  unfold index. destruct (Z.leb_spec 0 j) as [Hj|Hj].
  + unfold len in *. destruct (Z.leb_spec off j), (Z.ltb_spec j (off + Z.of_nat (length src)));
      cbn [andb]; rewrite ?(proj2 (Z.leb_le 0 (j - off))) by lia.
    * rewrite lookup_app_r by (rewrite length_take; lia).
      rewrite lookup_app_l by (rewrite length_take; lia). f_equal. rewrite length_take. lia.
    * rewrite lookup_app_r by (rewrite length_take; lia).
      rewrite lookup_app_r by (rewrite length_take; lia).
      rewrite lookup_drop, length_take. f_equal. lia.
    * rewrite lookup_app_l by (rewrite length_take; lia). by rewrite lookup_take_lt by lia.
    * lia.
  + by rewrite (proj2 (Z.leb_gt off j)) by lia.
- unfold blit in E. by rewrite !(proj2 (Z.leb_le _ _)) in E by done.
Qed.

Lemma list_eq_index l l' : len l = len l' -> (forall i, 0 <= i < len l -> index l i = index l' i) -> l = l'.
Proof.
unfold len, index. intros Hlen H. apply list_eq_same_length with (length l); [lia|done|].
intros i x y Hi Hx Hy. specialize (H (Z.of_nat i) ltac:(lia)).
rewrite (proj2 (Z.leb_le _ _)), Nat2Z.id in H by lia. congruence.
Qed.
End slices.

(** An encoder given the slice [out] fills a prefix of it and says how long, or
    returns an error; it never panics. *)
Definition fills {E A} (out : list A) (r : outcome E (list A * Z)) : Prop :=
  match r with
  | Ok (out', n) => len out' = len out /\ 0 <= n <= len out
  | Err _ => True
  | Panic => False
  end.

Lemma fills_map_err {E E' A} (f : E -> E') (out : list A) r : fills out r -> fills out (map_err f r).
Proof. by destruct r. Qed.

(** Unfolding [fold_left] by rewriting keeps the kernel from evaluating the
    folded function. *)
Lemma fold_left_cons {A B} (f : A -> B -> A) x l s :
  fold_left f (x :: l) s = fold_left f l (f s x).
Proof. done. Qed.

(** ** Loops

    A [for] loop whose body may fail: the state is threaded through the
    elements in order.  [for i in 0..n] is [for_each _ (seqZ 0 n)]. *)

Fixpoint for_each {M : Type -> Type} `{MRet M, MBind M} {A S : Type}
    (f : A -> S -> M S) (l : list A) (s : S) : M S :=
  match l with
  | [] => mret s
  | x :: l => s' ← f x s; for_each f l s'
  end.

(** Loop rule: an invariant that every iteration establishes for the next. *)
Lemma for_range_inv {S} (f : Z -> S -> option S) (I : Z -> S -> Prop) a n s :
  0 <= n ->
  (forall i s, a <= i < a + n -> I i s -> exists s', f i s = Some s' /\ I (i + 1) s') ->
  I a s ->
  exists s', for_each f (seqZ a n) s = Some s' /\ I (a + n) s'.
Proof.
  intros Hn. revert a s. pattern n. apply natlike_ind; [| |done].
  - intros a s _ Hs. exists s. by rewrite Z.add_0_r.
  - intros m Hm IH a s Hf Hs. rewrite seqZ_cons by lia. rewrite Z.pred_succ.
    destruct (Hf a s) as (s1 & E1 & H1); [lia|done|].
    destruct (IH (Z.succ a) s1) as (s2 & E2 & H2).
    + intros. apply Hf; [lia|done].
    + done.
    + exists s2. cbn [for_each]. rewrite E1. split; [done|].
      by replace (a + Z.succ m) with (Z.succ a + m) by lia.
Qed.

Lemma for_range_Some {S} (f : Z -> S -> option S) a n s :
  0 <= n -> (forall i s, a <= i < a + n -> is_Some (f i s)) ->
  is_Some (for_each f (seqZ a n) s).
Proof.
  intros Hn Hf. destruct (for_range_inv f (fun _ _ => True) a n s Hn) as (s' & -> & _); eauto.
  intros i s1 Hi _. destruct (Hf i s1 Hi) as [s2 ->]. eauto.
Qed.

Lemma for_each_app {A S : Type} (f : A -> S -> option S) (l1 l2 : list A) (s : S) :
  for_each f (l1 ++ l2) s = (s' ← for_each f l1 s; for_each f l2 s').
Proof.
  revert s. induction l1 as [|x l1 IH]; intros s; [done|]. cbn [for_each app].
  destruct (f x s) as [s1|]; [|done]. rewrite !bind_Some. apply IH.
Qed.

Lemma for_each_ext {A S : Type}
    (f g : A -> S -> option S) (l : list A) (s : S) :
  (forall x s, x ∈ l -> f x s = g x s) -> for_each f l s = for_each g l s.
Proof.
  revert s. induction l as [|x l IH]; intros s Hfg; [done|]. cbn [for_each].
  rewrite Hfg by (apply list_elem_of_here). destruct (g x s); [|done]. cbn. apply IH.
  intros y s' Hy. apply Hfg. by apply list_elem_of_further.
Qed.

(** Loop rule for bodies that may return an error but do not panic. *)
Lemma for_each_outcome_inv {E A S} (f : A -> S -> outcome E S) (I : S -> Prop) (l : list A) s :
  (forall x s, x ∈ l -> I s -> match f x s with Ok s' => I s' | Err _ => True | Panic => False end) ->
  I s -> match for_each f l s with Ok s' => I s' | Err _ => True | Panic => False end.
Proof.
  revert s. induction l as [|x l IH]; intros s Hf Hs; [done|]. cbn [for_each].
  pose proof (Hf x s ltac:(apply list_elem_of_here) Hs) as Hx. destruct (f x s) as [s'| |]; [|done|done].
  rewrite bind_Ok. apply IH; [|done]. intros y t Hy. apply Hf. by apply list_elem_of_further.
Qed.

Lemma imap_replicate {A B} (f : nat -> A -> B) (c : B) (l : list A) :
  (forall j x, l !! j = Some x -> f j x = c) -> imap f l = replicate (length l) c.
Proof.
  revert f. induction l as [|x l IH]; intros f Hf; [done|].
  rewrite imap_cons. cbn [length replicate]. f_equal; [by apply Hf|].
  apply IH. intros j y Hy. by apply (Hf (S j)).
Qed.

(** ** Bits *)

Lemma lor_shift a d k : 0 <= k -> 0 <= a < 2 ^ k -> Z.lor a (Z.shiftl d k) = a + 2 ^ k * d.
Proof.
  intros Hk Ha. assert (Hl : Z.land a (Z.shiftl d k) = 0).
  { apply Z.bits_inj'. intros n Hn. rewrite Z.land_spec, Z.bits_0, Z.shiftl_spec by done.
    destruct (Z.lt_ge_cases n k); [rewrite (Z.testbit_neg_r d) by lia; apply andb_false_r|].
    rewrite <-(Z.mod_small a (2 ^ k)), Z.mod_pow2_bits_high by lia. done. }
  rewrite <-(Z.lxor_lor _ _ Hl), <-(Z.add_nocarry_lxor _ _ Hl), Z.shiftl_mul_pow2 by done. lia.
Qed.

(** Bits at and above [n] are clear. *)
Definition bits_below (n x : Z) : Prop := forall i, n <= i -> Z.testbit x i = false.

Lemma fits_bits n x : 0 <= n -> 0 <= x -> fits n x <-> bits_below n x.
Proof.
  intros Hn Hx. split.
  - intros [_ H] i Hi. destruct (Z.eq_dec x 0) as [->|]; [apply Z.bits_0|].
    apply Z.bits_above_log2; [done|]. apply Z.lt_le_trans with n; [|done]. apply Z.log2_lt_pow2; lia.
  - intros H. split; [done|]. destruct (Z.eq_dec x 0) as [->|Hne]; [by apply Z.pow_pos_nonneg|].
    apply Z.log2_lt_pow2; [lia|]. apply Z.nle_gt. intros Hl. specialize (H _ Hl).
    rewrite Z.bit_log2 in H; [done|lia].
Qed.

(** ** Bytes and little-endian words *)

Definition is_byte (b : Z) : Prop := fits 8 b.
Definition bytes_ok (l : list Z) : Prop := Forall is_byte l.

(** [to_le_bytes] of an [8 * n]-bit word. *)
Fixpoint le_bytes (n : nat) (z : Z) : list Z :=
  match n with
  | O => []
  | S n => z mod 256 :: le_bytes n (z / 256)
  end.

(** [from_le_bytes]. *)
Fixpoint of_le_bytes (l : list Z) : Z :=
  match l with
  | [] => 0
  | b :: l => b + 256 * of_le_bytes l
  end.

Lemma length_le_bytes n z : length (le_bytes n z) = n.
Proof. revert z. induction n as [|n IH]; intros z; simpl; [done|]. by rewrite IH. Qed.

Lemma len_le_bytes n z : len (le_bytes n z) = Z.of_nat n.
Proof. unfold len. by rewrite length_le_bytes. Qed.

Lemma le_bytes_ok n z : bytes_ok (le_bytes n z).
Proof.
  revert z. induction n as [|n IH]; intros z; simpl; constructor; [|apply IH].
  apply Z.mod_pos_bound. lia.
Qed.

Lemma of_le_le_bytes n z : of_le_bytes (le_bytes n z) = z mod 256 ^ Z.of_nat n.
Proof.
  revert z. induction n as [|n IH]; intros z.
  - by rewrite Z.mod_1_r.
  - simpl le_bytes. simpl of_le_bytes. rewrite IH.
    rewrite Nat2Z.inj_succ, Z.pow_succ_r by lia.
    rewrite Z.rem_mul_r by lia. lia.
Qed.

Lemma of_le_bytes_bound l :
  bytes_ok l -> 0 <= of_le_bytes l < 256 ^ len l.
Proof.
  induction 1 as [|b l Hb _ IH]; [done|].
  rewrite len_cons, Z.add_comm, Z.pow_add_r by (pose proof (len_nonneg l); lia).
  unfold is_byte, fits in Hb. simpl of_le_bytes.
  change (2 ^ 8) with 256 in Hb. change (256 ^ 1) with 256. lia.
Qed.

Lemma le_of_le_bytes l : bytes_ok l -> le_bytes (length l) (of_le_bytes l) = l.
Proof.
  induction 1 as [|b l Hb _ IH]; [done|].
  unfold is_byte, fits in Hb. change (2 ^ 8) with 256 in Hb. simpl.
  f_equal.
  - rewrite (Z.mul_comm 256), Z_mod_plus_full. by apply Z.mod_small.
  - replace ((b + 256 * of_le_bytes l) / 256) with (of_le_bytes l); [done|].
    rewrite (Z.mul_comm 256), Z.div_add by lia.
    rewrite (Z.div_small b) by lia. lia.
Qed.

Definition le16 (z : Z) : list Z := le_bytes 2 z.
Definition le32 (z : Z) : list Z := le_bytes 4 z.

Lemma le16_eq z : le16 z = [z mod 256; z / 256 mod 256].
Proof. done. Qed.

Lemma of_le16 z : fits 16 z -> of_le_bytes (le16 z) = z.
Proof. intros H. unfold le16. rewrite of_le_le_bytes. by apply Z.mod_small. Qed.

Lemma of_le32 z : fits 32 z -> of_le_bytes (le32 z) = z.
Proof. intros H. unfold le32. rewrite of_le_le_bytes. by apply Z.mod_small. Qed.

Lemma of_le_bytes_fits l w :
  bytes_ok l -> 8 * len l = w -> fits w (of_le_bytes l).
Proof.
  intros Hl <-. unfold fits. rewrite Z.pow_mul_r by (pose proof (len_nonneg l); lia).
  by apply of_le_bytes_bound.
Qed.

(** [u16::from_le_bytes([l[i], l[i + 1]])], [u32::from_le_bytes([..])]. *)
Definition u16_at (l : list Z) (i : Z) : option Z :=
  b0 ← index l i; b1 ← index l (i + 1); Some (of_le_bytes [b0; b1]).
Definition u32_at (l : list Z) (i : Z) : option Z :=
  b0 ← index l i; b1 ← index l (i + 1); b2 ← index l (i + 2); b3 ← index l (i + 3);
  Some (of_le_bytes [b0; b1; b2; b3]).

Lemma le16_of_bytes a b : is_byte a -> is_byte b -> le16 (of_le_bytes [a; b]) = [a; b].
Proof. intros Ha Hb. apply (le_of_le_bytes [a; b]). repeat (constructor; [done|]). constructor. Qed.

Lemma le32_of_bytes a b c d :
  is_byte a -> is_byte b -> is_byte c -> is_byte d ->
  le32 (of_le_bytes [a; b; c; d]) = [a; b; c; d].
Proof.
  intros. apply (le_of_le_bytes [a; b; c; d]). repeat (constructor; [done|]). constructor.
Qed.

Lemma of_le16_fits a b : is_byte a -> is_byte b -> fits 16 (of_le_bytes [a; b]).
Proof.
  intros. apply of_le_bytes_fits; [|done]. repeat (constructor; [done|]). constructor.
Qed.

Lemma of_le32_fits a b c d :
  is_byte a -> is_byte b -> is_byte c -> is_byte d -> fits 32 (of_le_bytes [a; b; c; d]).
Proof.
  intros. apply of_le_bytes_fits; [|done]. repeat (constructor; [done|]). constructor.
Qed.

(** ** Reading a buffer field by field

    A decoder reads constant ranges; these lemmas relate each read to the
    concatenation of the fields, in both directions. *)

Lemma drop_slice {A} (l : list A) a b s :
  slice l a b = Some s -> drop (Z.to_nat a) l = s ++ drop (Z.to_nat b) l.
Proof.
  unfold slice. destruct (_ && _) eqn:E; [|done]. intros Hs. apply (inj Some) in Hs as <-.
  apply andb_prop in E as [E ?%Z.leb_le]. apply andb_prop in E as [?%Z.leb_le ?%Z.leb_le].
  replace (drop (Z.to_nat b) l) with (drop (Z.to_nat (b - a)) (drop (Z.to_nat a) l)).
  - by rewrite take_drop.
  - rewrite drop_drop. f_equal. lia.
Qed.

Lemma drop_index {A} (l : list A) i x :
  index l i = Some x -> drop (Z.to_nat i) l = x :: drop (Z.to_nat (i + 1)) l.
Proof.
  intros [Hi Hx]%index_Some. rewrite (drop_S l x) by done. do 2 f_equal. lia.
Qed.

Lemma index_byte l i x : bytes_ok l -> index l i = Some x -> is_byte x.
Proof. intros Hl [_ Hx]%index_Some. by apply (Forall_lookup_1 _ _ _ _ Hl Hx). Qed.

Lemma slice_bytes_ok l a b s : bytes_ok l -> slice l a b = Some s -> bytes_ok s.
Proof.
  intros Hl. unfold slice. destruct (_ && _); [|done]. intros Hs. apply (inj Some) in Hs as <-.
  by apply Forall_take, Forall_drop.
Qed.

Lemma index_app_at {A} (l1 pre l2 : list A) x i :
  i = len l1 + len pre -> index (l1 ++ pre ++ x :: l2) i = Some x.
Proof. intros ->. rewrite app_assoc. apply index_app. by rewrite len_app. Qed.

Lemma u16_at_app l1 l2 z i : i = len l1 -> fits 16 z -> u16_at (l1 ++ le16 z ++ l2) i = Some z.
Proof.
  intros Hi Hz. rewrite <-(of_le16 z Hz) at 2.
  assert (exists a b, le16 z = [a; b]) as (a & b & ->) by (by repeat eexists).
  unfold u16_at. cbn [app]. rewrite (index_app l1 (b :: l2) a i) by done. rewrite bind_Some.
  assert (index (l1 ++ a :: b :: l2) (i + 1) = Some b) as -> by (by apply (index_app_at l1 [a]); rewrite Hi).
  done.
Qed.

Lemma u32_at_app l1 l2 z i : i = len l1 -> fits 32 z -> u32_at (l1 ++ le32 z ++ l2) i = Some z.
Proof.
  intros Hi Hz. rewrite <-(of_le32 z Hz) at 2.
  assert (exists a b c d, le32 z = [a; b; c; d]) as (a & b & c & d & ->) by (by repeat eexists).
  unfold u32_at. cbn [app]. rewrite (index_app l1 (b :: c :: d :: l2) a i) by done. rewrite bind_Some.
  set (l := l1 ++ a :: b :: c :: d :: l2).
  assert (index l (i + 1) = Some b) as -> by (by apply (index_app_at l1 [a]); rewrite Hi).
  assert (index l (i + 2) = Some c) as -> by (by apply (index_app_at l1 [a; b]); rewrite Hi).
  assert (index l (i + 3) = Some d) as -> by (by apply (index_app_at l1 [a; b; c]); rewrite Hi).
  done.
Qed.

Lemma u16_at_is_Some l i : 0 <= i -> i + 2 <= len l -> is_Some (u16_at l i).
Proof.
  intros. unfold u16_at. destruct (index_is_Some l i) as [? ->]; [lia|].
  destruct (index_is_Some l (i + 1)) as [? ->]; [lia|]. by eexists.
Qed.

Lemma u32_at_is_Some l i : 0 <= i -> i + 4 <= len l -> is_Some (u32_at l i).
Proof.
  intros. unfold u32_at. destruct (index_is_Some l i) as [? ->]; [lia|].
  destruct (index_is_Some l (i + 1)) as [? ->]; [lia|].
  destruct (index_is_Some l (i + 2)) as [? ->]; [lia|].
  destruct (index_is_Some l (i + 3)) as [? ->]; [lia|]. by eexists.
Qed.

Lemma len_replicate {A} n (x : A) : len (replicate n x) = Z.of_nat n.
Proof. unfold len. by rewrite length_replicate. Qed.

Lemma drop_u16_at l i z :
  bytes_ok l -> u16_at l i = Some z ->
  fits 16 z /\ drop (Z.to_nat i) l = le16 z ++ drop (Z.to_nat (i + 2)) l.
Proof.
  intros Hl. unfold u16_at. destruct (index l i) as [a|] eqn:Ea; [|done]. rewrite bind_Some.
  destruct (index l (i + 1)) as [b|] eqn:Eb; [|done]. rewrite bind_Some.
  intros E. apply (inj Some) in E as <-.
  pose proof (index_byte _ _ _ Hl Ea). pose proof (index_byte _ _ _ Hl Eb).
  split; [by apply of_le16_fits|]. rewrite le16_of_bytes by done.
  rewrite (drop_index _ _ _ Ea), (drop_index _ _ _ Eb). cbn [app]. do 3 f_equal. lia.
Qed.

Lemma drop_u32_at l i z :
  bytes_ok l -> u32_at l i = Some z ->
  fits 32 z /\ drop (Z.to_nat i) l = le32 z ++ drop (Z.to_nat (i + 4)) l.
Proof.
  intros Hl. unfold u32_at. destruct (index l i) as [a|] eqn:Ea; [|done]. rewrite bind_Some.
  destruct (index l (i + 1)) as [b|] eqn:Eb; [|done]. rewrite bind_Some.
  destruct (index l (i + 2)) as [c|] eqn:Ec; [|done]. rewrite bind_Some.
  destruct (index l (i + 3)) as [d|] eqn:Ed; [|done]. rewrite bind_Some.
  intros E. apply (inj Some) in E as <-.
  pose proof (index_byte _ _ _ Hl Ea). pose proof (index_byte _ _ _ Hl Eb).
  pose proof (index_byte _ _ _ Hl Ec). pose proof (index_byte _ _ _ Hl Ed).
  split; [by apply of_le32_fits|]. rewrite le32_of_bytes by done.
  rewrite (drop_index _ _ _ Ea), (drop_index _ _ _ Eb).
  replace (i + 1 + 1) with (i + 2) by lia. rewrite (drop_index _ _ _ Ec).
  replace (i + 2 + 1) with (i + 3) by lia. rewrite (drop_index _ _ _ Ed).
  cbn [app]. do 5 f_equal. lia.
Qed.

(** ** Automation *)

Create HintDb helic discriminated.
Create Rewrite HintDb len.
#[export] Hint Resolve wrap_fits len_nonneg le_bytes_ok : helic.
#[export] Hint Rewrite @length_nil @length_cons @length_app @length_drop @length_take
  @length_replicate length_le_bytes : len.

(** Lengths of explicit lists and buffers, closed by [lia]. *)
Ltac len_solve :=
  unfold le16, le32, len in *; autorewrite with len in *; lia.

(** Run the next write of a buffer filled from left to right. *)
Ltac cursor_step :=
  first [rewrite blit_cursor by len_solve | rewrite put_cursor by len_solve];
  cbn [or_panic mbind outcome_bind option_bind].

(** Normal form of a filled buffer: written parts, then what is left. *)
Ltac cursor_norm := rewrite ?drop_drop, <-?app_assoc; cbn [app].

(** [bytes_ok] of explicit lists; literal bytes are evaluated. *)
Ltac bytes_solve :=
  unfold bytes_ok in *;
  repeat first
    [ assumption | apply le_bytes_ok | apply Forall_nil; exact I
    | apply Forall_cons; split | apply Forall_app; split
    | by (vm_compute; split; congruence) ].

(** Linear arithmetic with division and remainder by constants. *)
Ltac div_lia := Z.to_euclidean_division_equations; lia.

(** Split boolean conjunctions and comparisons in the context. *)
Ltac bool_facts :=
  repeat match goal with
  | H : _ && _ = true |- _ => apply andb_prop in H as [? ?]
  | H : _ || _ = false |- _ => apply orb_false_elim in H as [? ?]
  | H : negb _ = true |- _ => apply negb_true_iff in H
  | H : negb _ = false |- _ => apply negb_false_iff in H
  | H : (_ <=? _) = true |- _ => apply Z.leb_le in H
  | H : (_ <=? _) = false |- _ => apply Z.leb_gt in H
  | H : (_ <? _) = true |- _ => apply Z.ltb_lt in H
  | H : (_ <? _) = false |- _ => apply Z.ltb_ge in H
  | H : (_ =? _) = true |- _ => apply Z.eqb_eq in H
  | H : (_ =? _) = false |- _ => apply Z.eqb_neq in H
  | H : (_ >? _) = true |- _ => rewrite Z.gtb_ltb in H
  | H : (_ >? _) = false |- _ => rewrite Z.gtb_ltb in H
  | H : bool_decide _ = true |- _ => apply bool_decide_eq_true in H
  | H : bool_decide _ = false |- _ => apply bool_decide_eq_false in H
  end.

(** Run the reads of a decoder that returned: one equation for each. *)
Ltac read_inv H :=
  repeat match type of H with
  | mbind _ (or_panic ?m) = Ok _ =>
      let E := fresh "E" in destruct m eqn:E; [cbn [or_panic] in H; rewrite bind_Ok in H|done]
  end.
