(* ===== verification/Float32.v ===== *)
(** * IEEE 754 single and double precision

    Rust's [f32] and [f64] as the axiom-free [spec_float] of the Standard
    Library ([SpecFloat]), at precision 24 / exponent 128 and 53 / 1024.  Every
    operation rounds to nearest even, as the FPU and the host do.  [spec_float]
    has a single NaN, so the payload of a NaN is not modelled; nothing below
    depends on one. *)

From Stdlib Require Export SpecFloat.
From S2P Require Import Prelude.

(** [emax] of the library would shadow ordinary names. *)
Abbreviation float := spec_float (only parsing).

#[export] Instance spec_float_eq_dec : EqDecision spec_float.
Proof. solve_decision. Defined.

(** ** Arithmetic *)

Definition fadd (x y : float) : float := SFadd 24 128 x y.
Definition fsub (x y : float) : float := SFsub 24 128 x y.
Definition fmul (x y : float) : float := SFmul 24 128 x y.
Definition fdiv (x y : float) : float := SFdiv 24 128 x y.
Definition fneg (x : float) : float := SFopp x.
Definition fabs (x : float) : float := SFabs x.

Definition dadd (x y : float) : float := SFadd 53 1024 x y.
Definition dsub (x y : float) : float := SFsub 53 1024 x y.
Definition dmul (x y : float) : float := SFmul 53 1024 x y.
Definition ddiv (x y : float) : float := SFdiv 53 1024 x y.

(** ** Comparisons (all false on a NaN) *)

Definition feq (x y : float) : bool := SFeqb x y.
Definition flt (x y : float) : bool := SFltb x y.
Definition fle (x y : float) : bool := SFleb x y.
Definition fgt (x y : float) : bool := flt y x.
Definition fge (x y : float) : bool := fle y x.
(** Rust's [!=], true on a NaN. *)
Definition fne (x y : float) : bool := negb (feq x y).

Definition is_nan (x : float) : bool :=
  match x with S754_nan => true | _ => false end.

Definition is_finite (x : float) : bool :=
  match x with
  | S754_zero _ | S754_finite _ _ _ => true
  | S754_infinity _ | S754_nan => false
  end.

(** ** Conversions *)

(** [z as f32] / [z as f64] of an integer. *)
Definition f32_of_Z (z : Z) : float := binary_normalize 24 128 z 0 false.
Definition f64_of_Z (z : Z) : float := binary_normalize 53 1024 z 0 false.

(** [x as f64] of an [f32]: exact. *)
Definition f64_of_f32 (x : float) : float :=
  match x with
  | S754_finite s m e => binary_round 53 1024 s m e
  | _ => x
  end.

(** [x as f32] of an [f64]: rounded to nearest even. *)
Definition f32_of_f64 (x : float) : float :=
  match x with
  | S754_finite s m e => binary_round 24 128 s m e
  | _ => x
  end.

(** The integer part of a finite float, rounded towards zero. *)
Definition ftrunc (s : bool) (m : positive) (e : Z) : Z :=
  let a := if 0 <=? e then Z.pos m * 2 ^ e else Z.pos m / 2 ^ (- e) in
  if s then - a else a.

(** [x as T] for an integer type of the range [lo, hi]: truncating,
    saturating, and zero on a NaN. *)
Definition saturating_cast (lo hi : Z) (x : float) : Z :=
  match x with
  | S754_zero _ | S754_nan => 0
  | S754_infinity s => if s then lo else hi
  | S754_finite s m e => Z.max lo (Z.min hi (ftrunc s m e))
  end.

Definition cast_u16 (x : float) : Z := saturating_cast 0 (umax 16) x.
Definition cast_u32 (x : float) : Z := saturating_cast 0 (umax 32) x.
Definition cast_i32 (x : float) : Z := saturating_cast (- 2 ^ 31) (2 ^ 31 - 1) x.

(** [f32::from_bits]. *)
Definition f32_of_bits (b : Z) : float :=
  let s := 2 ^ 31 <=? b in
  let ex := (b / 2 ^ 23) mod 256 in
  let m := b mod 2 ^ 23 in
  if ex =? 0 then
    match m with Zpos p => S754_finite s p (-149) | _ => S754_zero s end
  else if ex =? 255 then
    if m =? 0 then S754_infinity s else S754_nan
  else
    match m + 2 ^ 23 with
    | Zpos p => S754_finite s p (ex - 150)
    | _ => S754_nan (* not reached *)
    end.

(** [f32::to_bits]. *)
Definition f32_to_bits (x : float) : Z :=
  match x with
  | S754_zero s => if s then 2 ^ 31 else 0
  | S754_infinity s => (if s then 2 ^ 31 else 0) + 255 * 2 ^ 23
  | S754_nan => 255 * 2 ^ 23 + 2 ^ 22
  | S754_finite s m e =>
      (if s then 2 ^ 31 else 0)
      + (if Z.pos m <? 2 ^ 23 then Z.pos m
         else (e + 150) * 2 ^ 23 + (Z.pos m - 2 ^ 23))
  end.

Definition f32_of_le_bytes (l : list Z) : float := f32_of_bits (of_le_bytes l).
Definition f32_to_le_bytes (x : float) : list Z := le32 (f32_to_bits x).

(** ** Constants *)

Definition f0 : float := S754_zero false.
Definition f1 : float := f32_of_Z 1.
(** A decimal literal [n / d] with [n] and [d] exact in single precision: the
    correctly rounded quotient is the nearest [f32]. *)
Definition flit (n d : Z) : float := fdiv (f32_of_Z n) (f32_of_Z d).
Definition f32_MAX : float := SFmax_float 24 128.
Definition f32_MIN : float := fneg f32_MAX.
(** [1.0 / 4294967296.0]. *)
Definition f2pm32 : float := fdiv f1 (f32_of_Z (2 ^ 32)).

(** [f32::min] and [f32::max]: the other operand if one is a NaN (either one of
    two equal operands may be returned; the first is chosen here). *)
Definition fmin (x y : float) : float :=
  if is_nan x then y else if flt y x then y else x.
Definition fmax (x y : float) : float :=
  if is_nan x then y else if flt x y then y else x.

(** [f32::clamp]: panics unless [lo <= hi]; a NaN is returned unchanged. *)
Definition fclamp (x lo hi : float) : option float :=
  if fle lo hi then
    let x := if flt x lo then lo else x in
    Some (if flt hi x then hi else x)
  else None.

(** ** Order lemmas *)

Lemma SFcompare_antisym x y : SFcompare y x = CompOpp <$> SFcompare x y.
Proof.
  destruct x as [s|s| |s m e], y as [t|t| |t n f]; simpl; try done;
    try (by destruct s); try (by destruct t); try (by destruct s, t).
  destruct s, t; simpl; try done; f_equal;
    rewrite (Z.compare_antisym e f);
    destruct (e ?= f) eqn:E; simpl; try done;
    change (Pos.compare_cont Eq) with Pos.compare;
    by rewrite (Pos.compare_antisym m n), ?CompOpp_involutive.
Qed.

Lemma SFcompare_refl x : is_nan x = false -> SFcompare x x = Some Eq.
Proof.
  destruct x as [s|s| |s m e]; simpl; try done; intros _; [by destruct s|].
  rewrite Z.compare_refl. change (Pos.compare_cont Eq) with Pos.compare.
  rewrite Pos.compare_refl. by destruct s.
Qed.

Lemma flt_irrefl x : flt x x = false.
Proof.
  unfold flt, SFltb. destruct (is_nan x) eqn:Hx; [by destruct x|].
  by rewrite SFcompare_refl.
Qed.

Lemma fle_flt x y : fle x y = true -> flt y x = false.
Proof.
  unfold fle, flt, SFleb, SFltb. rewrite (SFcompare_antisym x y).
  by destruct (SFcompare x y) as [[]|].
Qed.

Lemma flt_fle x y : flt x y = true -> fle x y = true.
Proof. unfold flt, fle, SFltb, SFleb. by destruct (SFcompare x y) as [[]|]. Qed.

Lemma fle_nan x y : fle x y = true -> is_nan x = false /\ is_nan y = false.
Proof. by destruct x, y. Qed.

Lemma fle_total x y :
  is_nan x = false -> is_nan y = false -> flt y x = false -> fle x y = true.
Proof.
  unfold fle, flt, SFleb, SFltb. rewrite (SFcompare_antisym x y).
  intros Hx Hy. destruct (SFcompare x y) as [[]|] eqn:E; try done.
  exfalso. by destruct x, y.
Qed.

(** The order as a lexicographic order of integers. *)
Definition fkey (x : float) : Z * Z * Z :=
  match x with
  | S754_zero _ | S754_nan => (0, 0, 0)
  | S754_infinity s => (if s then -2 else 2, 0, 0)
  | S754_finite s m e => if s then (-1, - e, - Z.pos m) else (1, e, Z.pos m)
  end.

Definition klt (k k' : Z * Z * Z) : Prop :=
  let '(a, b, c) := k in let '(a', b', c') := k' in
  a < a' \/ a = a' /\ (b < b' \/ b = b' /\ c < c').

Lemma flt_key x y :
  is_nan x = false -> is_nan y = false -> flt x y = true <-> klt (fkey x) (fkey y).
Proof.
  unfold flt, SFltb, klt, fkey.
  destruct x as [s|[]| |[] m e], y as [t|[]| |[] n f]; try done; intros _ _; cbn [SFcompare];
    try (split; [intros; (done || lia)|intros; (done || lia)]).
  all: destruct (Z.compare_spec e f); cbn [CompOpp];
    try (split; [intros; (done || lia)|intros; (done || lia)]).
  all: change (Pos.compare_cont Eq) with Pos.compare;
    destruct (Pos.compare_spec m n); cbn [CompOpp];
    split; intros; (done || lia).
Qed.

Lemma flt_nan x y : flt x y = true -> is_nan x = false /\ is_nan y = false.
Proof. intros H. by apply fle_nan, flt_fle. Qed.

Lemma flt_trans x y z : flt x y = true -> flt y z = true -> flt x z = true.
Proof.
  intros H1 H2. destruct (flt_nan _ _ H1), (flt_nan _ _ H2).
  apply flt_key in H1, H2; try done. apply flt_key; try done.
  unfold klt in *. destruct (fkey x) as [[??]?], (fkey y) as [[??]?], (fkey z) as [[??]?]. lia.
Qed.

(** Within [lo, hi]; false on a NaN. *)
Definition fin_range (lo hi x : float) : Prop := fle lo x = true /\ fle x hi = true.

Lemma fclamp_spec x lo hi :
  fle lo hi = true ->
  exists r, fclamp x lo hi = Some r
    /\ (is_nan x = true -> r = x)
    /\ (is_nan x = false -> fin_range lo hi r).
Proof.
  intros Hlh. unfold fclamp. rewrite Hlh. eexists. split; [done|].
  destruct (fle_nan _ _ Hlh) as [Hl Hh]. split.
  - destruct x; try done. intros _. by destruct lo, hi.
  - intros Hx. unfold fin_range. destruct (flt x lo) eqn:E1.
    + rewrite (fle_flt _ _ Hlh). split; [|done].
      apply fle_total; auto using flt_irrefl.
    + destruct (flt hi x) eqn:E2.
      * split; [done|]. apply fle_total; auto using flt_irrefl.
      * split; by apply fle_total.
Qed.

(** ** Bits *)

Lemma f32_bits_roundtrip b :
  fits 32 b -> is_nan (f32_of_bits b) = false -> f32_to_bits (f32_of_bits b) = b.
Proof.
  unfold fits. intros Hb. unfold f32_of_bits, f32_to_bits.
  change (2 ^ 22) with 4194304 in *. change (2 ^ 23) with 8388608 in *.
  change (2 ^ 31) with 2147483648 in *. change (2 ^ 32) with 4294967296 in *.
  set (ex := (b / 8388608) mod 256). set (m := b mod 8388608).
  assert (Hm : 0 <= m < 8388608) by (apply Z.mod_pos_bound; lia).
  assert (Hb' : b = (if 2147483648 <=? b then 2147483648 else 0)
                    + ex * 8388608 + m).
  { subst ex m. clear Hm. destruct (Z.leb_spec 2147483648 b); div_lia. }
  assert (Hex : 0 <= ex < 256) by (apply Z.mod_pos_bound; lia).
  destruct (ex =? 0) eqn:E0; bool_facts.
  { destruct m eqn:Em; simpl; intros _; try lia.
    rewrite (proj2 (Z.ltb_lt _ _)) by lia. lia. }
  destruct (ex =? 255) eqn:E1; bool_facts.
  { destruct (m =? 0) eqn:E2; bool_facts; simpl; [|done]. intros _. lia. }
  destruct (m + 8388608) eqn:Em; try lia. intros _.
  rewrite (proj2 (Z.ltb_ge _ _)) by lia. lia.
Qed.

Lemma f32_le_bytes_roundtrip l :
  bytes_ok l -> length l = 4%nat -> is_nan (f32_of_le_bytes l) = false ->
  f32_to_le_bytes (f32_of_le_bytes l) = l.
Proof.
  intros Hl Hlen Hn. unfold f32_to_le_bytes, f32_of_le_bytes in *.
  rewrite f32_bits_roundtrip; [| |done].
  - unfold le32. rewrite <-Hlen. by apply le_of_le_bytes.
  - apply of_le_bytes_fits; [done|]. unfold len. lia.
Qed.

Lemma is_finite_not_nan x : is_finite x = true -> is_nan x = false.
Proof. by destruct x. Qed.

(** ** Integer conversions *)

Lemma cast_bounds lo hi x : lo <= 0 <= hi -> lo <= saturating_cast lo hi x <= hi.
Proof. intros ?. destruct x as [s|s| |s m e]; simpl; [|destruct s| |]; lia. Qed.

Lemma cast_u32_fits x : fits 32 (cast_u32 x).
Proof. pose proof (cast_bounds 0 (umax 32) x). unfold cast_u32, fits, umax in *. lia. Qed.

Lemma cast_u16_fits x : fits 16 (cast_u16 x).
Proof. pose proof (cast_bounds 0 (umax 16) x). unfold cast_u16, fits, umax in *. lia. Qed.

(** Sign of a float: neither negative nor a NaN. *)
Definition fnonneg (x : float) : bool :=
  match x with
  | S754_zero _ => true
  | S754_infinity s | S754_finite s _ _ => negb s
  | S754_nan => false
  end.

Lemma fnonneg_fle x : fnonneg x = true <-> fle f0 x = true.
Proof. by destruct x as [s|[]| |[] m e]. Qed.

(** ** Integers converted to single precision *)

Lemma shr_1_nonneg r : 0 <= shr_m r -> 0 <= shr_m (shr_1 r).
Proof. destruct r as [[|p|p] r s]; try done. destruct p; cbn; lia. Qed.

Lemma shr_nonneg r e n : 0 <= shr_m r -> 0 <= shr_m (shr r e n).1.
Proof.
  intros Hr. destruct n as [|p|p]; cbn [shr fst]; try done.
  revert r Hr. induction p as [p IH|p IH|]; intros r Hr; cbn [iter_pos];
    repeat first [exact Hr | apply IH | apply shr_1_nonneg].
Qed.

Lemma round_nearest_even_nonneg m l : 0 <= m -> 0 <= round_nearest_even m l.
Proof. destruct l as [|[]]; cbn; try lia. destruct (Z.even m); lia. Qed.

Lemma shr_fexp_nonneg prec emax m e l : 0 <= m -> 0 <= shr_m (shr_fexp prec emax m e l).1.
Proof. intros Hm. apply shr_nonneg. by destruct l as [|[]]. Qed.

Lemma binary_round_nonneg prec emax m e : fnonneg (binary_round prec emax false m e) = true.
Proof.
  unfold binary_round, binary_round_aux. destruct (shl_align _ _ _) as [mz ez].
  assert (Hm : 0 <= Z.pos mz) by done.
  pose proof (shr_fexp_nonneg prec emax _ ez loc_Exact Hm) as H1.
  destruct (shr_fexp prec emax (Z.pos mz) ez loc_Exact) as [r1 e1]. cbn [fst] in H1.
  pose proof (shr_fexp_nonneg prec emax _ e1 loc_Exact
    (round_nearest_even_nonneg _ (loc_of_shr_record r1) H1)) as H2.
  destruct (shr_fexp prec emax _ e1 loc_Exact) as [r2 e2]. cbn [fst] in H2.
  destruct (shr_m r2); [done| |lia]. by destruct (e2 <=? emax - prec).
Qed.

Lemma f32_of_Z_nonneg z : 0 <= z -> fnonneg (f32_of_Z z) = true.
Proof.
  unfold f32_of_Z, binary_normalize. destruct z; [done| |lia]. intros _.
  apply binary_round_nonneg.
Qed.

(** A negated and a plain natural number are ordered. *)
Lemma f32_neg_le a b : 0 <= a -> 0 <= b -> fle (fneg (f32_of_Z a)) (f32_of_Z b) = true.
Proof.
  intros Ha%f32_of_Z_nonneg Hb%f32_of_Z_nonneg.
  by destruct (f32_of_Z a) as [|[]| |[]], (f32_of_Z b) as [|[]| |[]].
Qed.
