(* ===== verification/Crc.v ===== *)
(** * CRC-16/CCITT-FALSE (helic-proto/src/crc.rs)

    [crc16] is the bitwise loop of the source.  It is related to its algebraic
    specification, the remainder of the message polynomial modulo
    x^16 + x^12 + x^5 + 1 over GF(2), and to the error bursts it detects. *)

From Stdlib Require Import Btauto.
From S2P Require Import Prelude.

(** ** The code *)

(** One iteration of the inner loop on a [u16]. *)
Definition crc_bit (crc : Z) : Z :=
  if Z.land crc 0x8000 =? 0
  then wrap 16 (Z.shiftl crc 1)
  else Z.lxor (wrap 16 (Z.shiftl crc 1)) 0x1021.

(** One iteration of the outer loop. *)
Definition crc_byte (crc byte : Z) : Z :=
  Nat.iter 8 crc_bit (Z.lxor crc (wrap 16 (Z.shiftl byte 8))).

Definition crc16 (data : list Z) : Z := fold_left crc_byte data 0xFFFF.

(** ** Bit-level facts *)

(** Equalities of exclusive ors, modulo associativity, commutativity and
    cancellation. *)
Ltac lxor_solve :=
  apply Z.bits_inj'; intros; rewrite ?Z.lxor_spec, ?Z.testbit_0_l; btauto.

Lemma fits_testbit w z i : 0 <= w -> fits w z -> w <= i -> Z.testbit z i = false.
Proof.
  intros Hw Hz Hi. rewrite <-(wrap_id w z Hz). by apply Z.mod_pow2_bits_high.
Qed.

Lemma testbit_fits w z :
  0 <= w -> (forall i, w <= i -> Z.testbit z i = false) -> 0 <= z -> fits w z.
Proof.
  intros Hw Hb Hz. assert (z = z mod 2 ^ w) as ->; [|by apply wrap_fits].
  apply Z.bits_inj'. intros i Hi. destruct (Z.lt_ge_cases i w).
  - by rewrite Z.mod_pow2_bits_low.
  - by rewrite Z.mod_pow2_bits_high, Hb by lia.
Qed.

Lemma lxor_fits w a b : 0 <= w -> fits w a -> fits w b -> fits w (Z.lxor a b).
Proof.
  intros Hw Ha Hb. apply testbit_fits; [done| |].
  - intros i Hi. rewrite Z.lxor_spec.
    by rewrite (fits_testbit w a), (fits_testbit w b) by done.
  - apply Z.lxor_nonneg. unfold fits in *. lia.
Qed.

Lemma wrap_testbit w z i :
  0 <= w -> Z.testbit (wrap w z) i = (i <? w) && Z.testbit z i.
Proof.
  intros Hw. destruct (Z.lt_ge_cases i 0).
  { by rewrite !Z.testbit_neg_r, andb_false_r by done. }
  destruct (Z.ltb_spec i w).
  - by apply Z.mod_pow2_bits_low.
  - by apply Z.mod_pow2_bits_high.
Qed.

Lemma land_pow2_eqb z n :
  0 <= n -> (Z.land z (2 ^ n) =? 0) = negb (Z.testbit z n).
Proof.
  intros Hn.
  assert (Hl : Z.land z (2 ^ n) = if Z.testbit z n then 2 ^ n else 0).
  { apply Z.bits_inj'. intros i Hi. rewrite Z.land_spec, Z.pow2_bits_eqb by done.
    destruct (Z.eqb_spec n i) as [<-|Hne].
    - destruct (Z.testbit z n) eqn:E; [|by rewrite Z.testbit_0_l].
      by rewrite Z.pow2_bits_true.
    - rewrite andb_false_r. destruct (Z.testbit z n); [|by rewrite Z.testbit_0_l].
      by rewrite Z.pow2_bits_false. }
  rewrite Hl. destruct (Z.testbit z n); [|done]. simpl.
  apply Z.eqb_neq. pose proof (pow2_pos n Hn). lia.
Qed.

(** ** The polynomial view of one step *)

(** x^16 + x^12 + x^5 + 1 *)
Definition crc_poly : Z := 0x11021.

Lemma crc_bit_poly c :
  fits 16 c ->
  crc_bit c = Z.lxor (Z.shiftl c 1) (if Z.testbit c 15 then crc_poly else 0).
Proof.
  intros Hc. unfold crc_bit. change 0x8000 with (2 ^ 15).
  rewrite land_pow2_eqb by lia.
  assert (Hw : wrap 16 (Z.shiftl c 1)
               = Z.lxor (Z.shiftl c 1) (if Z.testbit c 15 then 2 ^ 16 else 0)).
  { apply Z.bits_inj'. intros i Hi.
    rewrite wrap_testbit, Z.lxor_spec, Z.shiftl_spec by lia.
    destruct (Z.ltb_spec i 16); cbn [andb].
    - assert (Z.testbit (if Z.testbit c 15 then 2 ^ 16 else 0) i = false) as ->.
      { destruct (Z.testbit c 15); [|by rewrite Z.testbit_0_l].
        apply Z.pow2_bits_false. lia. }
      by rewrite xorb_false_r.
    - destruct (Z.eq_dec i 16) as [->|].
      + change (16 - 1) with 15. by destruct (Z.testbit c 15).
      + rewrite (fits_testbit 16 c) by (done || lia). cbn [xorb].
        destruct (Z.testbit c 15); [|by rewrite Z.testbit_0_l].
        symmetry. apply Z.pow2_bits_false. lia. }
  rewrite Hw. destruct (Z.testbit c 15); cbn [negb]; [|by rewrite !Z.lxor_0_r].
  by rewrite Z.lxor_assoc.
Qed.

Lemma crc_bit_fits c : fits 16 c -> fits 16 (crc_bit c).
Proof.
  intros Hc. unfold crc_bit. destruct (_ =? _); [by apply wrap_fits|].
  apply lxor_fits; [done|by apply wrap_fits|by vm_compute].
Qed.

Lemma iter_crc_bit_fits n c : fits 16 c -> fits 16 (Nat.iter n crc_bit c).
Proof. induction n; [done|]. intros. simpl. auto using crc_bit_fits. Qed.

Lemma crc_input_fits c b :
  fits 16 c -> is_byte b -> fits 16 (Z.lxor c (wrap 16 (Z.shiftl b 8))).
Proof. intros. apply lxor_fits; [done..|by apply wrap_fits]. Qed.

Lemma crc_byte_fits c b : fits 16 c -> is_byte b -> fits 16 (crc_byte c b).
Proof. intros. by apply iter_crc_bit_fits, crc_input_fits. Qed.

Lemma crc_fold_fits data c :
  bytes_ok data -> fits 16 c -> fits 16 (fold_left crc_byte data c).
Proof.
  intros Hd. revert c. induction Hd as [|b data Hb _ IH]; intros c Hc; [done|].
  simpl. apply IH. by apply crc_byte_fits.
Qed.

Lemma crc16_fits data : bytes_ok data -> fits 16 (crc16 data).
Proof. intros. by apply crc_fold_fits. Qed.

#[export] Hint Resolve crc16_fits crc_bit_fits crc_byte_fits : helic.

(** ** Linearity and injectivity *)

Lemma crc_bit_lxor a b :
  fits 16 a -> fits 16 b -> crc_bit (Z.lxor a b) = Z.lxor (crc_bit a) (crc_bit b).
Proof.
  intros Ha Hb. rewrite !crc_bit_poly by auto using lxor_fits with lia.
  rewrite Z.lxor_spec, Z.shiftl_lxor.
  assert ((if xorb (Z.testbit a 15) (Z.testbit b 15) then crc_poly else 0)
          = Z.lxor (if Z.testbit a 15 then crc_poly else 0)
                   (if Z.testbit b 15 then crc_poly else 0)) as ->.
  { by destruct (Z.testbit a 15), (Z.testbit b 15). }
  lxor_solve.
Qed.

Lemma iter_crc_bit_lxor n a b :
  fits 16 a -> fits 16 b ->
  Nat.iter n crc_bit (Z.lxor a b)
  = Z.lxor (Nat.iter n crc_bit a) (Nat.iter n crc_bit b).
Proof.
  intros Ha Hb. induction n as [|n IH]; [done|]. simpl. rewrite IH.
  apply crc_bit_lxor; by apply iter_crc_bit_fits.
Qed.

Lemma crc_bit_zero c : fits 16 c -> crc_bit c = 0 -> c = 0.
Proof.
  intros Hc. rewrite crc_bit_poly by done. intros H0%Z.lxor_eq.
  destruct (Z.testbit c 15) eqn:E.
  - apply (f_equal (fun z => Z.testbit z 0)) in H0.
    by rewrite Z.shiftl_spec_low in H0 by lia.
  - rewrite Z.shiftl_mul_pow2 in H0 by lia. lia.
Qed.

Lemma iter_crc_bit_zero n c : fits 16 c -> Nat.iter n crc_bit c = 0 -> c = 0.
Proof.
  intros Hc. induction n as [|n IH]; [done|]. simpl. intros H0.
  apply IH. by apply crc_bit_zero; [apply iter_crc_bit_fits|].
Qed.

Lemma iter_crc_bit_inj n a b :
  fits 16 a -> fits 16 b ->
  Nat.iter n crc_bit a = Nat.iter n crc_bit b -> a = b.
Proof.
  intros Ha Hb Heq. apply Z.lxor_eq.
  apply (iter_crc_bit_zero n); [by apply lxor_fits|].
  rewrite iter_crc_bit_lxor by done. rewrite Heq. apply Z.lxor_nilpotent.
Qed.

Lemma crc_byte_inj_state c c' b :
  fits 16 c -> fits 16 c' -> is_byte b -> crc_byte c b = crc_byte c' b -> c = c'.
Proof.
  intros Hc Hc' Hb Heq.
  apply iter_crc_bit_inj in Heq; [|by apply crc_input_fits..].
  rewrite (Z.lxor_comm c), (Z.lxor_comm c') in Heq.
  apply (f_equal (Z.lxor (wrap 16 (Z.shiftl b 8)))) in Heq.
  by rewrite <-!Z.lxor_assoc, Z.lxor_nilpotent, !Z.lxor_0_l in Heq.
Qed.

Lemma crc_fold_inj data c c' :
  bytes_ok data -> fits 16 c -> fits 16 c' ->
  fold_left crc_byte data c = fold_left crc_byte data c' -> c = c'.
Proof.
  intros Hd. revert c c'. induction Hd as [|b data Hb _ IH]; intros c c' Hc Hc'; [done|].
  simpl. intros Heq. apply IH in Heq; [|by apply crc_byte_fits..].
  by apply crc_byte_inj_state in Heq.
Qed.

(** ** Specification: the remainder of a polynomial division *)

(** Multiples of [crc_poly] among the polynomials over GF(2), a polynomial
    being the [Z] of its coefficient bits: Horner's rule on the quotient. *)
Inductive poly_multiple : Z -> Prop :=
  | pm_zero : poly_multiple 0
  | pm_step m (q : bool) :
      poly_multiple m ->
      poly_multiple (Z.lxor (Z.shiftl m 1) (if q then crc_poly else 0)).

(** The message as a polynomial, first byte most significant. *)
Definition msg_poly (data : list Z) : Z :=
  fold_left (fun acc b => Z.lxor (Z.shiftl acc 8) b) data 0.

(** The dividend: the message times x^16, the initial register 0xFFFF added
    to its leading coefficients. *)
Definition crc_dividend (data : list Z) : Z :=
  Z.lxor (Z.shiftl 0xFFFF (8 * len data)) (Z.shiftl (msg_poly data) 16).

Lemma poly_multiple_lxor m1 m2 :
  poly_multiple m1 -> poly_multiple m2 -> poly_multiple (Z.lxor m1 m2).
Proof.
  intros H1. revert m2. induction H1 as [|m1 q1 H1 IH]; intros m2 H2.
  - by rewrite Z.lxor_0_l.
  - destruct H2 as [|m2 q2 H2]; [rewrite Z.lxor_0_r; by constructor|].
    replace (Z.lxor _ _) with
      (Z.lxor (Z.shiftl (Z.lxor m1 m2) 1) (if xorb q1 q2 then crc_poly else 0)).
    + constructor. by apply IH.
    + rewrite Z.shiftl_lxor. destruct q1, q2; cbn [xorb]; lxor_solve.
Qed.

Lemma poly_multiple_shiftl m n :
  0 <= n -> poly_multiple m -> poly_multiple (Z.shiftl m n).
Proof.
  intros Hn Hm. revert Hn. apply (natlike_ind (fun n => poly_multiple (Z.shiftl m n))).
  - done.
  - intros k Hk IH. rewrite <-Z.add_1_r, <-Z.shiftl_shiftl by done.
    rewrite <-(Z.lxor_0_r (Z.shiftl _ 1)). by apply (pm_step _ false).
Qed.

Lemma poly_multiple_degree m : poly_multiple m -> m = 0 \/ 2 ^ 16 <= m.
Proof.
  induction 1 as [|m q Hm [->|IH]]; [by left|by destruct q; [right|left]|right].
  assert (Hb : Z.testbit (Z.lxor (Z.shiftl m 1) (if q then crc_poly else 0))
                 (Z.log2 m + 1) = true).
  { rewrite Z.lxor_spec, Z.shiftl_spec by (pose proof (Z.log2_nonneg m); lia).
    rewrite Z.add_simpl_r, Z.bit_log2 by lia.
    assert (16 <= Z.log2 m) by (apply Z.log2_le_pow2; lia).
    replace (Z.testbit (if q then _ else _) _) with false; [done|].
    symmetry. apply (fits_testbit 17); [done|by destruct q|lia]. }
  assert (Hn : 0 <= Z.lxor (Z.shiftl m 1) (if q then crc_poly else 0)).
  { apply Z.lxor_nonneg. rewrite Z.shiftl_nonneg. unfold crc_poly. destruct q; lia. }
  destruct (Z.lt_ge_cases (Z.lxor (Z.shiftl m 1) (if q then crc_poly else 0)) (2 ^ 16))
    as [Hlt|]; [|done].
  rewrite (fits_testbit 16) in Hb; [done..|].
  assert (16 <= Z.log2 m) by (apply Z.log2_le_pow2; lia). lia.
Qed.

Lemma iter_crc_bit_cong n c :
  fits 16 c -> poly_multiple (Z.lxor (Nat.iter n crc_bit c) (Z.shiftl c (Z.of_nat n))).
Proof.
  intros Hc. induction n as [|n IH].
  { simpl. rewrite Z.lxor_nilpotent. constructor. }
  rewrite Nat2Z.inj_succ, <-Z.add_1_r, <-Z.shiftl_shiftl by lia.
  rewrite Nat.iter_succ, crc_bit_poly by by apply iter_crc_bit_fits.
  set (x := Nat.iter n crc_bit c) in *.
  replace (Z.lxor _ _) with
    (Z.lxor (Z.shiftl (Z.lxor x (Z.shiftl c (Z.of_nat n))) 1)
            (if Z.testbit x 15 then crc_poly else 0)); [by constructor|].
  rewrite Z.shiftl_lxor. lxor_solve.
Qed.

Lemma wrap16_byte b : is_byte b -> wrap 16 (Z.shiftl b 8) = Z.shiftl b 8.
Proof.
  unfold is_byte, fits. intros. apply wrap_id.
  rewrite Z.shiftl_mul_pow2 by lia. unfold fits. lia.
Qed.

Lemma crc_byte_cong c b :
  fits 16 c -> is_byte b ->
  poly_multiple (Z.lxor (crc_byte c b) (Z.lxor (Z.shiftl c 8) (Z.shiftl b 16))).
Proof.
  intros Hc Hb. pose proof (iter_crc_bit_cong 8 _ (crc_input_fits c b Hc Hb)) as H.
  rewrite wrap16_byte, Z.shiftl_lxor, Z.shiftl_shiftl in H by (done || lia).
  unfold crc_byte. by rewrite wrap16_byte.
Qed.

Lemma crc_dividend_snoc data b :
  crc_dividend (data ++ [b])
  = Z.lxor (Z.shiftl (crc_dividend data) 8) (Z.shiftl b 16).
Proof.
  unfold crc_dividend, msg_poly. rewrite fold_left_app. cbn [fold_left].
  rewrite len_app, len_cons, len_nil, !Z.shiftl_lxor.
  rewrite !Z.shiftl_shiftl by (pose proof (len_nonneg data); lia).
  replace (8 * (len data + (1 + 0))) with (8 * len data + 8) by lia.
  rewrite (Z.add_comm 8 16). lxor_solve.
Qed.

Lemma crc16_cong data :
  bytes_ok data -> poly_multiple (Z.lxor (crc16 data) (crc_dividend data)).
Proof.
  induction data as [|b data IH] using rev_ind; intros Hd.
  { vm_compute. constructor. }
  apply Forall_app in Hd as [Hd Hb]. apply Forall_cons in Hb as [Hb _].
  rewrite crc_dividend_snoc. unfold crc16. rewrite fold_left_app. cbn [fold_left].
  fold (crc16 data). specialize (IH Hd).
  pose proof (crc_byte_cong (crc16 data) b (crc16_fits data Hd) Hb) as H.
  pose proof (poly_multiple_lxor _ _ H (poly_multiple_shiftl _ 8 ltac:(lia) IH)) as H'.
  rewrite Z.shiftl_lxor in H'.
  replace (Z.lxor (crc_byte _ _) _) with
    (Z.lxor (Z.lxor (crc_byte (crc16 data) b)
      (Z.lxor (Z.shiftl (crc16 data) 8) (Z.shiftl b 16)))
      (Z.lxor (Z.shiftl (crc16 data) 8) (Z.shiftl (crc_dividend data) 8)));
    [done|lxor_solve].
Qed.

Lemma poly_remainder_unique d r1 r2 :
  fits 16 r1 -> fits 16 r2 ->
  poly_multiple (Z.lxor r1 d) -> poly_multiple (Z.lxor r2 d) -> r1 = r2.
Proof.
  intros Hr1 Hr2 H1 H2. pose proof (poly_multiple_lxor _ _ H1 H2) as H.
  replace (Z.lxor (Z.lxor r1 d) (Z.lxor r2 d)) with (Z.lxor r1 r2) in H by lxor_solve.
  apply poly_multiple_degree in H as [?%Z.lxor_eq|Hge]; [done|].
  assert (fits 16 (Z.lxor r1 r2)) as [_ ?] by by apply lxor_fits. lia.
Qed.

(** ** Error bursts *)

(** The register difference after one differing byte. *)
Definition crc_shift8 (d : Z) : Z := Nat.iter 8 crc_bit d.

Lemma crc_shift8_0 : crc_shift8 0 = 0.
Proof. by vm_compute. Qed.

(** A difference [d] in one byte reaches the low half of the register after
    that byte, so the next byte cannot cancel it. *)
Definition burst_spreads (d : Z) : bool :=
  (d =? 0) || negb (wrap 8 (crc_shift8 (Z.shiftl d 8)) =? 0).

Lemma all_bursts_spread d : is_byte d -> burst_spreads d = true.
Proof.
  assert (Hall : forallb burst_spreads (seqZ 0 256) = true) by by vm_compute.
  intros Hd. rewrite forallb_forall in Hall. apply Hall.
  apply list_elem_of_In, elem_of_seqZ. unfold is_byte, fits in Hd. lia.
Qed.

Lemma lxor_exchange x y u v : Z.lxor x u = Z.lxor y v -> Z.lxor x y = Z.lxor u v.
Proof.
  intros H. replace (Z.lxor x y) with (Z.lxor (Z.lxor x u) (Z.lxor y u)) by lxor_solve.
  rewrite H. lxor_solve.
Qed.

Lemma crc_byte_lxor s a a' :
  fits 16 s -> is_byte a -> is_byte a' ->
  Z.lxor (crc_byte s a) (crc_byte s a')
  = Nat.iter 8 crc_bit (Z.shiftl (Z.lxor a a') 8).
Proof.
  intros Hs Ha Ha'. unfold crc_byte.
  rewrite <-iter_crc_bit_lxor by by apply crc_input_fits.
  rewrite !wrap16_byte, Z.shiftl_lxor by done. f_equal. lxor_solve.
Qed.

Lemma crc_byte_inj c b c' b' :
  fits 16 c -> is_byte b -> fits 16 c' -> is_byte b' ->
  crc_byte c b = crc_byte c' b' -> Z.lxor c c' = Z.shiftl (Z.lxor b b') 8.
Proof.
  intros Hc Hb Hc' Hb' Heq. unfold crc_byte in Heq.
  apply iter_crc_bit_inj in Heq; [|by apply crc_input_fits..].
  rewrite !wrap16_byte in Heq by done. apply lxor_exchange in Heq.
  by rewrite Heq, <-Z.shiftl_lxor.
Qed.

(** A difference in the last byte reaches the high half of the register, with
    one exception. *)
Definition tail_spreads (d : Z) : bool :=
  (d =? 0) || (d =? 0x89) || negb (Z.shiftr (crc_shift8 (Z.shiftl d 8)) 8 =? 0).

Lemma all_tails_spread d : is_byte d -> tail_spreads d = true.
Proof.
  assert (Hall : forallb tail_spreads (seqZ 0 256) = true) by by vm_compute.
  intros Hd. rewrite forallb_forall in Hall. apply Hall.
  apply list_elem_of_In, elem_of_seqZ. unfold is_byte, fits in Hd. lia.
Qed.

Lemma crc_last_byte_inj s a a' :
  fits 16 s -> is_byte a -> is_byte a' ->
  crc_byte s a / 256 = crc_byte s a' / 256 -> a = a' \/ Z.lxor a a' = 0x89.
Proof.
  intros Hs Ha Ha' Heq.
  assert (Hbyte : is_byte (Z.lxor a a')) by by apply lxor_fits.
  pose proof (all_tails_spread _ Hbyte) as Hall. unfold tail_spreads in Hall.
  apply orb_prop in Hall as [[H0|H0]%orb_prop|H0]; bool_facts;
    [left; by apply Z.lxor_eq|by right|].
  destruct H0. unfold crc_shift8. rewrite <-(crc_byte_lxor s a a') by done.
  rewrite Z.shiftr_lxor, !Z.shiftr_div_pow2 by lia. change (2 ^ 8) with 256.
  by rewrite Heq, Z.lxor_nilpotent.
Qed.

Lemma crc_two_bytes_inj s a b a' b' :
  fits 16 s -> is_byte a -> is_byte b -> is_byte a' -> is_byte b' ->
  crc_byte (crc_byte s a) b = crc_byte (crc_byte s a') b' -> a = a' /\ b = b'.
Proof.
  intros Hs Ha Hb Ha' Hb' Heq.
  apply crc_byte_inj in Heq; [|by auto using crc_byte_fits..].
  rewrite crc_byte_lxor in Heq by done. fold (crc_shift8 (Z.shiftl (Z.lxor a a') 8)) in Heq.
  assert (Hbyte : is_byte (Z.lxor a a')) by by apply lxor_fits.
  pose proof (all_bursts_spread _ Hbyte) as Hall. unfold burst_spreads in Hall.
  rewrite Heq in Hall. apply orb_prop in Hall as [H0|H0]; bool_facts.
  - apply Z.lxor_eq in H0 as ->. split; [done|].
    rewrite Z.lxor_nilpotent in Heq. symmetry in Heq.
    rewrite Z.shiftl_0_l, crc_shift8_0 in Heq.
    apply Z.lxor_eq. rewrite Z.shiftl_mul_pow2 in Heq by lia. lia.
  - destruct H0. unfold wrap. rewrite Z.shiftl_mul_pow2 by lia. by apply Z_mod_mult.
Qed.

Lemma crc16_burst_inj pre a b a' b' post :
  bytes_ok (pre ++ a :: b :: post) -> is_byte a' -> is_byte b' ->
  crc16 (pre ++ a :: b :: post) = crc16 (pre ++ a' :: b' :: post) ->
  a = a' /\ b = b'.
Proof.
  intros Hok Ha' Hb'. apply Forall_app in Hok as [Hpre Hok].
  apply Forall_cons in Hok as [Ha Hok]. apply Forall_cons in Hok as [Hb Hpost].
  unfold crc16. rewrite !fold_left_app.
  assert (H0 : fits 16 0xFFFF) by (unfold fits; lia).
  pose proof (crc_fold_fits pre 0xFFFF Hpre H0) as Hs.
  revert Hs. generalize (fold_left crc_byte pre 0xFFFF). intros s Hs.
  rewrite !fold_left_cons. intros Heq. apply crc_fold_inj in Heq; [|auto using crc_byte_fits..].
  exact (crc_two_bytes_inj s a b a' b' Hs Ha Hb Ha' Hb' Heq).
Qed.

Lemma crc16_snoc pre b : crc16 (pre ++ [b]) = crc_byte (crc16 pre) b.
Proof. unfold crc16. by rewrite fold_left_app, fold_left_cons. Qed.

Lemma crc16_tail_inj pre a a' :
  bytes_ok pre -> is_byte a -> is_byte a' ->
  crc16 (pre ++ [a]) / 256 = crc16 (pre ++ [a']) / 256 ->
  a = a' \/ Z.lxor a a' = 0x89.
Proof. rewrite !crc16_snoc. eauto using crc_last_byte_inj, crc16_fits. Qed.

(** ** Properties *)

(** The frame check is the mathematical CRC: on every byte string, [crc16] is
    the one 16-bit value congruent to the message polynomial (with the 0xFFFF
    preset) modulo x^16 + x^12 + x^5 + 1. *)
Theorem crc16_is_remainder data r :
  bytes_ok data ->
  (r = crc16 data <-> fits 16 r /\ poly_multiple (Z.lxor r (crc_dividend data))).
Proof.
  intros Hd. split.
  - intros ->. split; [by apply crc16_fits|by apply crc16_cong].
  - intros [Hr Hm]. eapply poly_remainder_unique; eauto using crc16_fits, crc16_cong.
Qed.

Lemma crc16_is_remainder_witness :
  0x29B1 = crc16 [49;50;51;52;53;54;55;56;57]
  <-> fits 16 0x29B1
      /\ poly_multiple (Z.lxor 0x29B1 (crc_dividend [49;50;51;52;53;54;55;56;57])).
Proof.
  apply (crc16_is_remainder [49;50;51;52;53;54;55;56;57] 0x29B1).
  repeat constructor; vm_compute; congruence.
Defined.

(** Corruption confined to two adjacent bytes (so any burst of up to nine bits,
    and any single corrupted byte) always changes the CRC. *)
Theorem crc16_detects_burst pre a b a' b' post :
  bytes_ok (pre ++ a :: b :: post) -> is_byte a' -> is_byte b' ->
  a <> a' \/ b <> b' ->
  crc16 (pre ++ a :: b :: post) <> crc16 (pre ++ a' :: b' :: post).
Proof.
  intros Hok Ha' Hb' Hne Heq.
  destruct (crc16_burst_inj pre a b a' b' post) as [-> ->]; [done..|]. by destruct Hne.
Qed.

Lemma crc16_detects_burst_witness :
  crc16 [1; 2; 3; 4] <> crc16 [1; 7; 0; 4].
Proof.
  apply (crc16_detects_burst [1] 2 3 7 0 [4]).
  - repeat constructor; vm_compute; congruence.
  - vm_compute; split; congruence.
  - vm_compute; split; congruence.
  - left. congruence.
Defined.
