(* ===== verification/Proto.v ===== *)
(** * Protocol constants and codes (helic-proto/src/lib.rs)

    The magic number, version and ports, the error codes of an [Error]
    response, and the self-described parameter types. *)

From S2P Require Import Prelude.

Definition MAGIC : Z := 0x4C48.
Definition VERSION : Z := 3.
Definition CONTROL_PORT : Z := 2350.
Definition STREAM_PORT : Z := 2351.
Definition DISCOVERY_PORT : Z := 2352.
Definition MCU_REBOOT_CONFIRMATION : Z := 0x52454254.

Inductive ErrorCode :=
  | BadFrame | UnknownType | BadIndex | BadLength | ReadOnly | BadValue | Busy.

#[export] Instance ErrorCode_eq_dec : EqDecision ErrorCode.
Proof. solve_decision. Defined.

(** [code as u8]. *)
Definition ErrorCode_u8 (c : ErrorCode) : Z :=
  match c with
  | BadFrame => 1 | UnknownType => 2 | BadIndex => 3 | BadLength => 4
  | ReadOnly => 5 | BadValue => 6 | Busy => 7
  end.

Inductive ParamType := U8 | I8 | U16 | I16 | U32 | I32 | F32 | Char.

#[export] Instance ParamType_eq_dec : EqDecision ParamType.
Proof. solve_decision. Defined.

(** [ty as u8]: the Python [struct] format characters. *)
Definition ParamType_u8 (t : ParamType) : Z :=
  match t with
  | U8 => 66 (* B *) | I8 => 98 (* b *) | U16 => 72 (* H *) | I16 => 104 (* h *)
  | U32 => 73 (* I *) | I32 => 105 (* i *) | F32 => 102 (* f *) | Char => 99 (* c *)
  end.

Definition ParamType_size (t : ParamType) : Z :=
  match t with
  | U8 | I8 | Char => 1
  | U16 | I16 => 2
  | U32 | I32 | F32 => 4
  end.

Definition ParamType_from_code (code : Z) : option ParamType :=
  if code =? 66 then Some U8 else if code =? 98 then Some I8
  else if code =? 72 then Some U16 else if code =? 104 then Some I16
  else if code =? 73 then Some U32 else if code =? 105 then Some I32
  else if code =? 102 then Some F32 else if code =? 99 then Some Char
  else None.

Lemma ParamType_from_code_u8 t : ParamType_from_code (ParamType_u8 t) = Some t.
Proof. by destruct t. Qed.

Lemma ParamType_u8_byte t : is_byte (ParamType_u8 t).
Proof. by destruct t. Qed.
