(* ===== verification/Text.v ===== *)
(** * Text

    A [&str] of the source is a [string]; the sources only build ASCII names,
    and the tests [is_ascii] and [len] look at its bytes. *)

From Stdlib Require Ascii String.
From stdpp Require Import strings.
From S2P Require Import Prelude.

(** The bytes of a [&str]. *)
Definition str_bytes (s : string) : list Z :=
  (fun c => Z.of_N (Ascii.N_of_ascii c)) <$> String.list_ascii_of_string s.
Definition str_len (s : string) : Z := len (str_bytes s).
Definition bytes_is_ascii (l : list Z) : bool := forallb (fun b => b <? 128) l.
Definition str_is_ascii (s : string) : bool := bytes_is_ascii (str_bytes s).

Lemma str_bytes_ok s : bytes_ok (str_bytes s).
Proof.
  unfold str_bytes, bytes_ok. apply Forall_fmap, Forall_true. intros c.
  destruct c as [[] [] [] [] [] [] [] []]; by vm_compute.
Qed.

Lemma str_len_nonneg s : 0 <= str_len s.
Proof. apply len_nonneg. Qed.

Lemma str_bytes_app (a b : string) : str_bytes (a +:+ b) = str_bytes a ++ str_bytes b.
Proof.
  unfold str_bytes. rewrite <-fmap_app. f_equal. induction a as [|c a IH]; [done|]. change (c :: String.list_ascii_of_string (a +:+ b) = c :: String.list_ascii_of_string a ++ String.list_ascii_of_string b). by rewrite IH.
Qed.

Lemma str_bytes_inj (a b : string) : str_bytes a = str_bytes b -> a = b.
Proof.
  unfold str_bytes. intros E. rewrite <-(String.string_of_list_ascii_of_string a), <-(String.string_of_list_ascii_of_string b).
  f_equal. revert E. generalize (String.list_ascii_of_string a) (String.list_ascii_of_string b).
  intros l. induction l as [|x l IH]; intros [|y l'] E; try done. injection E as E1 E2. apply N2Z.inj in E1.
  f_equal; [|by apply IH]. rewrite <-(Ascii.ascii_N_embedding x), <-(Ascii.ascii_N_embedding y). by f_equal.
Qed.

#[export] Hint Resolve str_bytes_ok str_len_nonneg : helic.
