(* ===== verification/ParamPayload.v ===== *)
(** * Discovery payloads (helic-proto/src/payload.rs)

    The variable-length payloads of discovery and bulk parameter writes: entry
    encoders, the paged registry and the request decoders.  An encoder takes
    the output slice and gives back its new contents with the bytes used. *)

From stdpp Require Import strings.
From S2P Require Import Prelude Proto Text.

Definition MAX_PARAM_NAME_LEN : Z := 23.
Definition MAX_NAME_LEN : Z := 15.
Definition MAX_UNIT_LEN : Z := 7.
Definition PARAM_PAGE_HEADER_LEN : Z := 4.

Inductive PayloadError := InvalidText | InvalidIndex | InvalidLength | TooLong | Truncated.

#[export] Instance PayloadError_eq_dec : EqDecision PayloadError.
Proof. solve_decision. Defined.

(** What the registry callback returns for an index. *)
Definition Definition_ : Type := string * ParamType * Z * bool.

Definition decode_param_page_request (payload : list Z) : outcome PayloadError Z :=
  if negb (len payload =? 2) then Err InvalidLength
  else or_panic (u16_at payload 0).

Definition encode_param (out : list Z) (name : string) (ty : ParamType) (count : Z)
    (writable : bool) : outcome PayloadError (list Z * Z) :=
  if (MAX_PARAM_NAME_LEN <? str_len name) || negb (str_is_ascii name) then Err InvalidText
  else
    let n := str_len name + 5 in
    if len out <? n then Err TooLong
    else
      out ← or_panic (blit out 0 (str_bytes name));
      out ← or_panic (put out (str_len name) 0);
      out ← or_panic (put out (str_len name + 1) (ParamType_u8 ty));
      out ← or_panic (blit out (str_len name + 2) (le16 count));
      out ← or_panic (put out (str_len name + 4) (Z.b2z writable));
      Ok (out, n).

Definition encode_source (out : list Z) (name unit : string)
    : outcome PayloadError (list Z * Z) :=
  if (MAX_NAME_LEN <? str_len name) || (MAX_UNIT_LEN <? str_len unit)
     || negb (str_is_ascii name) || negb (str_is_ascii unit) then Err InvalidText
  else
    let n := str_len name + str_len unit + 2 in
    if len out <? n then Err TooLong
    else
      out ← or_panic (blit out 0 (str_bytes name));
      out ← or_panic (put out (str_len name) 0);
      let unit_start := str_len name + 1 in
      out ← or_panic (blit out unit_start (str_bytes unit));
      out ← or_panic (put out (n - 1) 0);
      Ok (out, n).

(** The [while next < total] loop; the first argument is [total - next]. *)
Fixpoint page_loop (remaining : nat) (definition : Z -> option Definition_)
    (out : list Z) (next offset : Z) : outcome PayloadError (list Z * Z * Z) :=
  match remaining with
  | O => Ok (out, next, offset)
  | S remaining =>
      '(name, ty, count, writable) ← ok_or (definition next) InvalidIndex;
      if (MAX_PARAM_NAME_LEN <? str_len name) || negb (str_is_ascii name) then Err InvalidText
      else
        let encoded_len := str_len name + 5 in
        if len out - offset <? encoded_len then Ok (out, next, offset)
        else
          rest ← or_panic (slice out offset (len out));
          '(rest, n) ← encode_param rest name ty count writable;
          out ← or_panic (blit out offset rest);
          page_loop remaining definition out (next + 1) (offset + n)
  end.

Definition encode_param_page (out : list Z) (start total : Z)
    (definition : Z -> option Definition_) : outcome PayloadError (list Z * Z) :=
  if total <? start then Err InvalidIndex
  else if len out <? PARAM_PAGE_HEADER_LEN then Err TooLong
  else
    out ← or_panic (blit out 0 (le16 start));
    '(out, next, offset) ←
      page_loop (Z.to_nat (total - start)) definition out start PARAM_PAGE_HEADER_LEN;
    if (next =? start) && (start <? total) then Err TooLong
    else
      out ← or_panic (blit out 2 (le16 next));
      Ok (out, offset).

Definition decode_param_page (payload : list Z) : outcome PayloadError (Z * Z * list Z) :=
  if len payload <? PARAM_PAGE_HEADER_LEN then Err Truncated
  else
    start ← or_panic (u16_at payload 0);
    next ← or_panic (u16_at payload 2);
    if next <? start then Err InvalidIndex
    else
      rest ← or_panic (slice payload PARAM_PAGE_HEADER_LEN (len payload));
      Ok (start, next, rest).

Definition decode_set_block (payload : list Z) : outcome PayloadError (Z * Z * list Z) :=
  if len payload <? 6 then Err Truncated
  else
    index ← or_panic (u16_at payload 0);
    offset ← or_panic (u32_at payload 2);
    rest ← or_panic (slice payload 6 (len payload));
    Ok (index, offset, rest).

Definition decode_commit (payload : list Z) : outcome PayloadError (Z * Z) :=
  if negb (len payload =? 6) then Err Truncated
  else
    index ← or_panic (u16_at payload 0);
    n ← or_panic (u32_at payload 2);
    Ok (index, n).

(** ** Specification *)

Definition name_ok (name : string) : bool :=
  (str_len name <=? MAX_PARAM_NAME_LEN) && str_is_ascii name.

Definition param_bytes (d : Definition_) : list Z :=
  let '(name, ty, count, writable) := d in
  str_bytes name ++ [0; ParamType_u8 ty] ++ le16 count ++ [Z.b2z writable].

Definition source_bytes (name unit : string) : list Z :=
  str_bytes name ++ 0 :: str_bytes unit ++ [0].

Lemma len_param_bytes name ty count writable :
  len (param_bytes (name, ty, count, writable)) = str_len name + 5.
Proof. unfold param_bytes, str_len. rewrite !len_app. len_solve. Qed.

Lemma name_ok_test name :
  (MAX_PARAM_NAME_LEN <? str_len name) || negb (str_is_ascii name) = negb (name_ok name).
Proof. unfold name_ok. rewrite Z.ltb_antisym. by destruct (_ <=? _), (str_is_ascii name). Qed.

Lemma encode_param_spec out name ty count writable :
  encode_param out name ty count writable
  = if negb (name_ok name) then Err InvalidText
    else if len out <? str_len name + 5 then Err TooLong
    else Ok (param_bytes (name, ty, count, writable) ++ drop (Z.to_nat (str_len name + 5)) out,
             str_len name + 5).
Proof.
  unfold encode_param. rewrite name_ok_test. destruct (name_ok name); [|done]. cbn [negb].
  destruct (Z.ltb_spec (len out) (str_len name + 5)) as [|Hl]; [done|].
  unfold str_len in *. set (b := str_bytes name) in *.
  rewrite (blit_cursor [] out) by len_solve. cbn [or_panic mbind outcome_bind].
  do 3 cursor_step. rewrite put_cursor by len_solve. cbn [or_panic mbind outcome_bind].
  do 2 f_equal. unfold param_bytes. fold b. cursor_norm. do 6 f_equal.
  f_equal. len_solve.
Qed.

Lemma encode_source_spec out name unit :
  encode_source out name unit
  = if negb ((str_len name <=? MAX_NAME_LEN) && (str_len unit <=? MAX_UNIT_LEN)
             && str_is_ascii name && str_is_ascii unit) then Err InvalidText
    else if len out <? str_len name + str_len unit + 2 then Err TooLong
    else Ok (source_bytes name unit ++ drop (Z.to_nat (str_len name + str_len unit + 2)) out,
             str_len name + str_len unit + 2).
Proof.
  unfold encode_source. rewrite !Z.ltb_antisym.
  destruct (_ <=? MAX_NAME_LEN), (_ <=? MAX_UNIT_LEN), (str_is_ascii name), (str_is_ascii unit);
    try done. cbn [negb orb andb].
  rewrite <-Z.ltb_antisym.
  destruct (Z.ltb_spec (len out) (str_len name + str_len unit + 2)) as [|Hl]; [done|].
  unfold str_len in *. set (b := str_bytes name) in *. set (u := str_bytes unit) in *.
  rewrite (blit_cursor [] out) by len_solve. cbn [or_panic mbind outcome_bind].
  do 2 cursor_step. rewrite put_cursor by len_solve. cbn [or_panic mbind outcome_bind].
  do 2 f_equal. unfold source_bytes. fold b u. cursor_norm. rewrite <-app_assoc. cbn [app]. do 5 f_equal. len_solve.
Qed.

(** ** Paging *)

(** The entries [start .. start + n) of a registry. *)
Fixpoint entries_bytes (definition : Z -> option Definition_) (start : Z) (n : nat) : list Z :=
  match n with
  | O => []
  | S n => match definition start with
           | Some d => param_bytes d ++ entries_bytes definition (start + 1) n
           | None => []
           end
  end.

(** Every index below [total] has an entry with an encodable name. *)
Definition registry_ok (definition : Z -> option Definition_) (total : Z) : Prop :=
  forall i, 0 <= i < total ->
    exists name ty count writable, definition i = Some (name, ty, count, writable)
      /\ name_ok name = true.

Lemma entries_bytes_snoc definition total start n d :
  registry_ok definition total -> 0 <= start -> start + Z.of_nat n < total ->
  definition (start + Z.of_nat n) = Some d ->
  entries_bytes definition start (S n) = entries_bytes definition start n ++ param_bytes d.
Proof.
  intros Hr. revert start. induction n as [|n IH]; intros start H0 H1 Hd.
  - cbn [entries_bytes]. rewrite Z.add_0_r in Hd. by rewrite Hd, app_nil_r.
  - destruct (Hr start) as (name & ty & count & writable & E & _); [lia|].
    cbn [entries_bytes]. cbn [entries_bytes] in IH. rewrite E, <-app_assoc. f_equal.
    apply IH; [lia|lia|]. rewrite <-Hd. f_equal. lia.
Qed.

Lemma entries_bytes_app definition total start n m :
  registry_ok definition total -> 0 <= start -> start + Z.of_nat n + Z.of_nat m <= total ->
  entries_bytes definition start (n + m)
  = entries_bytes definition start n ++ entries_bytes definition (start + Z.of_nat n) m.
Proof.
  intros Hr. revert start. induction n as [|n IH]; intros start H0 H1.
  - cbn. by rewrite Z.add_0_r.
  - destruct (Hr start) as (name & ty & count & writable & E & _); [lia|].
    cbn [entries_bytes Nat.add]. rewrite E, IH, <-app_assoc by lia. do 3 f_equal. lia.
Qed.

(** The loop writes the longest run of whole entries that fits. *)
Lemma page_loop_spec definition total remaining pre out next :
  registry_ok definition total -> 0 <= next -> next + Z.of_nat remaining = total ->
  exists k : nat, (k <= remaining)%nat
    /\ len (entries_bytes definition next k) <= len out
    /\ page_loop remaining definition (pre ++ out) next (len pre)
       = Ok (pre ++ entries_bytes definition next k
                 ++ drop (length (entries_bytes definition next k)) out,
             next + Z.of_nat k, len pre + len (entries_bytes definition next k))
    /\ ((k < remaining)%nat -> exists name ty count writable,
          definition (next + Z.of_nat k) = Some (name, ty, count, writable)
          /\ len out < len (entries_bytes definition next k) + (str_len name + 5)).
Proof.
  intros Hr. revert pre out next. induction remaining as [|remaining IH]; intros pre out next H0 H1.
  { exists 0%nat. cbn. rewrite drop_0, !Z.add_0_r. split_and!; [lia|apply len_nonneg|done|lia]. }
  destruct (Hr next) as (name & ty & count & writable & E & Hn); [lia|].
  cbn [page_loop]. rewrite E. cbn [ok_or mbind outcome_bind]. rewrite name_ok_test, Hn. cbn [negb].
  rewrite len_app. replace (len pre + len out - len pre) with (len out) by lia.
  destruct (Z.ltb_spec (len out) (str_len name + 5)) as [Hl|Hl].
  - exists 0%nat. cbn. rewrite drop_0, !Z.add_0_r. split_and!; [lia|apply len_nonneg|done|].
    intros _. exists name, ty, count, writable. split; [done|]. rewrite len_nil. lia.
  - assert (Es : slice (pre ++ out) (len pre) (len pre + len out) = Some out).
    { rewrite <-(app_nil_r out) at 1. by apply slice_app. }
    rewrite Es. cbn [or_panic mbind outcome_bind]. rewrite encode_param_spec, Hn. cbn [negb].
    rewrite (proj2 (Z.ltb_ge _ _)) by done. cbn [or_panic mbind outcome_bind].
    set (d := (name, ty, count, writable)) in *. set (m := Z.to_nat (str_len name + 5)).
    pose proof (str_len_nonneg name) as Hs0.
    assert (Lp : len (param_bytes d) = str_len name + 5) by apply len_param_bytes.
    assert (Lr : len (param_bytes d ++ drop m out) = len out).
    { rewrite len_app, Lp. unfold m. rewrite len_drop by lia. lia. }
    rewrite blit_cursor by lia. cbn [or_panic mbind outcome_bind].
    rewrite (drop_ge out (length (param_bytes d ++ drop m out))) by (unfold len in Lr; lia).
    rewrite app_nil_r.
    rewrite app_assoc, <-Lp, <-len_app.
    destruct (IH (pre ++ param_bytes d) (drop m out) (next + 1)) as (k & Hk & Hfit & Ek & Hmax);
      [lia|lia|].
    exists (S k). cbn [entries_bytes]. rewrite E. fold d. split; [lia|].
    rewrite Ek, !len_app, Lp. rewrite len_drop_nat in Hfit. split; [lia|]. split.
    + rewrite <-!app_assoc, length_app. rewrite drop_drop.
      replace (length (param_bytes d)) with m by (unfold m, len in *; lia).
      do 2 f_equal; [f_equal; lia|lia].
    + intros Hk'. destruct Hmax as (name' & ty' & c' & w' & E' & Hl'); [lia|].
      exists name', ty', c', w'. split; [rewrite <-E'; f_equal; lia|].
      rewrite len_drop_nat in Hl'. lia.
Qed.

Lemma encode_param_page_spec out start total definition :
  registry_ok definition total -> 0 <= start <= total -> PARAM_PAGE_HEADER_LEN <= len out ->
  exists k : nat, start + Z.of_nat k <= total
    /\ (start + Z.of_nat k < total -> exists name ty count writable,
          definition (start + Z.of_nat k) = Some (name, ty, count, writable)
          /\ len out < PARAM_PAGE_HEADER_LEN + len (entries_bytes definition start k)
                       + (str_len name + 5))
    /\ encode_param_page out start total definition
       = if bool_decide (k = 0%nat) && (start <? total) then Err TooLong
         else let page := le16 start ++ le16 (start + Z.of_nat k) ++ entries_bytes definition start k in
              Ok (page ++ drop (length page) out, len page).
Proof.
  intros Hr H0 Ho. unfold PARAM_PAGE_HEADER_LEN in *.
  destruct (page_loop_spec definition total (Z.to_nat (total - start)) (le16 start ++ take 2 (drop 2 out))
    (drop 4 out) start) as (k & Hk & Hfit & E & Hmax); [done|lia|lia|].
  assert (Lh : len (le16 start ++ take 2 (drop 2 out)) = 4).
  { rewrite len_app. unfold len in *. rewrite length_take, length_drop. change (length (le16 start)) with 2%nat. lia. }
  rewrite len_drop_nat in Hfit, Hmax. exists k. split; [lia|]. split.
  - intros Hlt. destruct Hmax as (name & ty & count & writable & Ed & Hl); [lia|].
    exists name, ty, count, writable. split; [done|lia].
  - unfold encode_param_page, PARAM_PAGE_HEADER_LEN.
    rewrite (proj2 (Z.ltb_ge total start)), (proj2 (Z.ltb_ge (len out) 4)) by lia.
    rewrite (blit_cursor [] out) by len_solve. cbn [or_panic mbind outcome_bind app].
    change (length (le16 start)) with 2%nat.
    replace (le16 start ++ drop 2 out)
      with ((le16 start ++ take 2 (drop 2 out)) ++ drop 4 out)
      by (rewrite <-app_assoc; f_equal; rewrite <-(take_drop 2 (drop 2 out)) at 2; by rewrite drop_drop).
    rewrite Lh in E. rewrite E. cbn [or_panic mbind outcome_bind].
    replace (start + Z.of_nat k =? start) with (bool_decide (k = 0%nat))
      by (destruct (Z.eqb_spec (start + Z.of_nat k) start); case_bool_decide; (done || lia)).
    destruct (bool_decide (k = 0%nat) && (start <? total)); [done|]. cbv zeta.
    set (es := entries_bytes definition start k).
    rewrite <-app_assoc, blit_cursor;
      [|done|rewrite len_app; change (len (le16 _)) with 2; unfold len in *;
        rewrite length_take, length_drop; lia].
    cbn [or_panic mbind outcome_bind]. change (length (le16 _)) with 2%nat.
    assert (Lt : length (take 2 (drop 2 out)) = 2%nat)
      by (rewrite length_take, length_drop; unfold len in Ho; lia).
    rewrite drop_app_length' by done. do 2 f_equal.
    + rewrite <-!app_assoc, drop_drop, !length_app. do 4 f_equal.
    + rewrite !len_app. change (len (le16 _)) with 2. lia.
Qed.

(** The host's discovery loop: pages are requested from the index the last one
    stopped at, until a page is empty.  The first argument is fuel. *)
Fixpoint fetch_pages (fuel : nat) (out : list Z) (total : Z)
    (definition : Z -> option Definition_) (start : Z) : outcome PayloadError (list Z) :=
  match fuel with
  | O => Panic
  | S fuel =>
      '(page, n) ← encode_param_page out start total definition;
      payload ← or_panic (slice page 0 n);
      '(_, next, entries) ← decode_param_page payload;
      if next =? start then Ok entries
      else
        rest ← fetch_pages fuel out total definition next;
        Ok (entries ++ rest)
  end.

Lemma decode_param_page_bytes start next entries :
  fits 16 start -> fits 16 next -> start <= next ->
  decode_param_page (le16 start ++ le16 next ++ entries) = Ok (start, next, entries).
Proof.
  intros Hs Hn Hle. unfold decode_param_page, PARAM_PAGE_HEADER_LEN.
  rewrite (proj2 (Z.ltb_ge _ _)) by (rewrite !len_app; change (len (le16 _)) with 2;
    pose proof (len_nonneg entries); lia).
  change (u16_at (le16 start ++ le16 next ++ entries) 0) with (Some (of_le_bytes (le16 start))).
  change (u16_at (le16 start ++ le16 next ++ entries) 2) with (Some (of_le_bytes (le16 next))).
  cbn [or_panic mbind outcome_bind]. rewrite !of_le16 by done.
  rewrite (proj2 (Z.ltb_ge _ _)) by done.
  rewrite app_assoc.
  assert (Es : slice ((le16 start ++ le16 next) ++ entries) 4
    (len ((le16 start ++ le16 next) ++ entries)) = Some entries).
  { rewrite <-(app_nil_r entries) at 1. apply slice_app; [done|].
    rewrite !len_app. done. }
  by rewrite Es.
Qed.

(** ** Properties *)

(** C29. Registry discovery is complete: whatever the registry, if its names are
    encodable and the response buffer holds one maximal entry, the host's
    sequence of page requests ends after at most [total + 1] pages, no page
    fails, and the concatenated pages are exactly the entries [0 .. total), each
    once, in order and never split across pages. *)
Theorem param_paging_complete (out : list Z) (total : Z) (definition : Z -> option Definition_)
    (Hr : registry_ok definition total) (Ht : fits 16 total)
    (Ho : PARAM_PAGE_HEADER_LEN + MAX_PARAM_NAME_LEN + 5 <= len out) :
  fetch_pages (S (Z.to_nat total)) out total definition 0
  = Ok (entries_bytes definition 0 (Z.to_nat total)).
Proof.
  assert (Hg : forall fuel start, 0 <= start <= total -> (Z.to_nat (total - start) < fuel)%nat ->
    fetch_pages fuel out total definition start
    = Ok (entries_bytes definition start (Z.to_nat (total - start)))).
  2:{ rewrite Hg by (unfold fits in Ht; lia). by rewrite Z.sub_0_r. }
  unfold PARAM_PAGE_HEADER_LEN, MAX_PARAM_NAME_LEN in Ho.
  intros fuel. induction fuel as [|fuel IH]; intros start Hs Hf; [lia|].
  destruct (encode_param_page_spec out start total definition Hr Hs) as (k & Hk & Hmax & E);
    [unfold PARAM_PAGE_HEADER_LEN; lia|].
  assert (Hprog : start < total -> k <> 0%nat).
  { intros Hlt ->. destruct Hmax as (name & ty & count & writable & Ed & Hl); [lia|].
    destruct (Hr start) as (name' & ty' & c' & w' & Ed' & Hn); [lia|].
    cbn [entries_bytes] in Hl. rewrite Z.add_0_r in Ed. rewrite Ed in Ed'.
    apply (inj Some) in Ed'. assert (name' = name) as -> by congruence.
    unfold name_ok, MAX_PARAM_NAME_LEN in Hn. bool_facts.
    unfold PARAM_PAGE_HEADER_LEN in Hl. rewrite len_nil in Hl. lia. }
  cbn [fetch_pages]. rewrite E.
  replace (bool_decide (k = 0%nat) && (start <? total)) with false
    by (case_bool_decide; [|done]; destruct (Z.ltb_spec start total); [|done]; by destruct Hprog).
  cbv zeta. cbn [or_panic mbind outcome_bind].
  set (page := le16 start ++ _).
  rewrite (slice_app [] page (drop (length page) out) 0 (len page) eq_refl eq_refl
    : slice (page ++ drop (length page) out) 0 (len page) = Some page).
  cbn [or_panic mbind outcome_bind]. unfold page.
  rewrite decode_param_page_bytes by (unfold fits in *; lia). cbn [or_panic mbind outcome_bind].
  destruct (Z.eqb_spec (start + Z.of_nat k) start) as [Ek|Ek].
  - assert (k = 0%nat) as -> by lia. assert (start = total) as -> by (destruct (Z.eq_dec start total);
      [done|]; destruct Hprog; lia). by rewrite Z.sub_diag.
  - rewrite IH by lia. cbn [mbind outcome_bind]. f_equal.
    replace (Z.to_nat (total - start)) with (k + Z.to_nat (total - (start + Z.of_nat k)))%nat by lia.
    symmetry. apply entries_bytes_app with total; [done|lia|lia].
Qed.

(** ** Examples *)

Definition demo_registry (i : Z) : option Definition_ :=
  index [("a", F32, 1, false); ("long_name", U32, 1, true); ("tail", U16, 4, false)]%string i.

Lemma demo_registry_ok : registry_ok demo_registry 3.
Proof.
  intros i Hi. assert (i = 0 \/ i = 1 \/ i = 2) as [-> | [-> | ->]] by lia;
    by eexists _, _, _, _.
Defined.

Lemma param_paging_complete_witness :
  exists entries, fetch_pages 4 (replicate 32 0) 3 demo_registry 0 = Ok entries
    /\ len entries = 6 + 14 + 9.
Proof.
  eexists. split.
  - apply (param_paging_complete (replicate 32 0) 3 demo_registry demo_registry_ok).
    + unfold fits. lia.
    + by vm_compute.
  - reflexivity.
Defined.
