(* ===== verification/Frame.v ===== *)
(** * Control-channel framing (helic-proto/src/frame.rs)

    [encode] and [decode] as the source writes them, on byte buffers.  The
    frame layout [frame_bytes] is the abstract specification both refine. *)

From S2P Require Import Prelude Proto Crc.

Definition HEADER_LEN : Z := 6.
Definition TRAILER_LEN : Z := 2.
Definition MAX_PAYLOAD : Z := 1024.
Definition MAX_FRAME : Z := HEADER_LEN + MAX_PAYLOAD + TRAILER_LEN.

Inductive MsgType :=
  | GetParams | GetSources | GetPar | SetPar | SetBlock | Commit
  | StreamSetup | StreamStart | StreamStop | Status | MsgError.

#[export] Instance MsgType_eq_dec : EqDecision MsgType.
Proof. solve_decision. Defined.

(** [msg as u8]. *)
Definition MsgType_u8 (m : MsgType) : Z :=
  match m with
  | GetParams => 1 | GetSources => 2 | GetPar => 3 | SetPar => 4 | SetBlock => 5
  | Commit => 6 | StreamSetup => 7 | StreamStart => 8 | StreamStop => 9
  | Status => 10 | MsgError => 0xFF
  end.

Definition MsgType_from_u8 (v : Z) : option MsgType :=
  if v =? 1 then Some GetParams else if v =? 2 then Some GetSources
  else if v =? 3 then Some GetPar else if v =? 4 then Some SetPar
  else if v =? 5 then Some SetBlock else if v =? 6 then Some Commit
  else if v =? 7 then Some StreamSetup else if v =? 8 then Some StreamStart
  else if v =? 9 then Some StreamStop else if v =? 10 then Some Status
  else if v =? 0xFF then Some MsgError else None.

Inductive FrameError := BadMagic | BadCrc | TooLong | Truncated.

#[export] Instance FrameError_eq_dec : EqDecision FrameError.
Proof. solve_decision. Defined.

(** [encode]: the total length and the buffer it leaves. *)
Definition encode (buf : list Z) (msg_type seq : Z) (payload : list Z) :
    outcome FrameError (Z * list Z) :=
  let total := HEADER_LEN + len payload + TRAILER_LEN in
  _ ← guard_err (len payload >? MAX_PAYLOAD) TooLong;
  _ ← guard_err (len buf <? total) Truncated;
  buf ← or_panic (blit buf 0 (le16 MAGIC));
  buf ← or_panic (put buf 2 msg_type);
  buf ← or_panic (put buf 3 seq);
  buf ← or_panic (blit buf 4 (le16 (len payload)));
  buf ← or_panic (blit buf 6 payload);
  covered ← or_panic (slice buf 2 (6 + len payload));
  buf ← or_panic (blit buf (6 + len payload) (le16 (crc16 covered)));
  Ok (total, buf).

(** [decode]: type, sequence number and payload of exactly one frame. *)
Definition decode (buf : list Z) : outcome FrameError (Z * Z * list Z) :=
  _ ← guard_err (len buf <? HEADER_LEN + TRAILER_LEN) Truncated;
  magic ← or_panic (slice buf 0 2);
  _ ← guard_err (negb (bool_decide (magic = le16 MAGIC))) BadMagic;
  lo ← or_panic (index buf 4);
  hi ← or_panic (index buf 5);
  let n := of_le_bytes [lo; hi] in
  _ ← guard_err (n >? MAX_PAYLOAD) TooLong;
  _ ← guard_err (negb (len buf =? HEADER_LEN + n + TRAILER_LEN)) Truncated;
  clo ← or_panic (index buf (HEADER_LEN + n));
  chi ← or_panic (index buf (HEADER_LEN + n + 1));
  let crc_stored := of_le_bytes [clo; chi] in
  covered ← or_panic (slice buf 2 (HEADER_LEN + n));
  _ ← guard_err (negb (crc16 covered =? crc_stored)) BadCrc;
  ty ← or_panic (index buf 2);
  seq ← or_panic (index buf 3);
  payload ← or_panic (slice buf HEADER_LEN (HEADER_LEN + n));
  Ok (ty, seq, payload).

(** ** Specification *)

(** The bytes the CRC covers, and the complete frame. *)
Definition frame_body (ty seq : Z) (payload : list Z) : list Z :=
  ty :: seq :: le16 (len payload) ++ payload.
Definition frame_bytes (ty seq : Z) (payload : list Z) : list Z :=
  le16 MAGIC ++ frame_body ty seq payload
  ++ le16 (crc16 (frame_body ty seq payload)).

Lemma MsgType_from_u8_Some v m : MsgType_from_u8 v = Some m -> v = MsgType_u8 m.
Proof.
  unfold MsgType_from_u8. repeat (case_match; [intros [= <-]; by bool_facts|]). done.
Qed.

Lemma len_frame_body ty seq p : len (frame_body ty seq p) = 4 + len p.
Proof. unfold frame_body. len_solve. Qed.

Lemma len_frame_bytes ty seq p :
  len (frame_bytes ty seq p) = HEADER_LEN + len p + TRAILER_LEN.
Proof.
  unfold frame_bytes, HEADER_LEN, TRAILER_LEN. rewrite !len_app, len_frame_body. len_solve.
Qed.

Lemma frame_body_ok ty seq p :
  is_byte ty -> is_byte seq -> bytes_ok p -> bytes_ok (frame_body ty seq p).
Proof.
  intros. do 2 (constructor; [done|]). apply Forall_app. split; [apply le_bytes_ok|done].
Qed.

Lemma frame_bytes_ok ty seq p :
  is_byte ty -> is_byte seq -> bytes_ok p -> bytes_ok (frame_bytes ty seq p).
Proof.
  intros. apply Forall_app. split; [apply le_bytes_ok|].
  apply Forall_app. split; [by apply frame_body_ok|apply le_bytes_ok].
Qed.

Lemma encode_exact buf ty seq p :
  len p <= MAX_PAYLOAD -> HEADER_LEN + len p + TRAILER_LEN <= len buf ->
  encode buf ty seq p
  = Ok (HEADER_LEN + len p + TRAILER_LEN,
        frame_bytes ty seq p ++ drop (length (frame_bytes ty seq p)) buf).
Proof.
  unfold encode, MAX_PAYLOAD, HEADER_LEN, TRAILER_LEN. intros Hp Hb.
  pose proof (len_nonneg p).
  rewrite Z.gtb_ltb, !(proj2 (Z.ltb_ge _ _)) by lia. cbn [guard_err mbind outcome_bind].
  rewrite (blit_cursor [] buf) by len_solve. cbn [or_panic mbind outcome_bind].
  do 4 cursor_step.
  set (rest := drop (length p) _).
  replace (((((([] ++ le16 MAGIC) ++ [ty]) ++ [seq]) ++ le16 (len p)) ++ p) ++ rest)
    with ((le16 MAGIC ++ frame_body ty seq p) ++ rest)
    by (unfold frame_body; by cursor_norm).
  rewrite <-(app_assoc (le16 MAGIC)), slice_app by (unfold frame_body; len_solve).
  cbn [or_panic mbind outcome_bind].
  rewrite (app_assoc (le16 MAGIC)), blit_cursor
    by (subst rest; unfold frame_body; len_solve).
  cbn [or_panic mbind outcome_bind]. do 2 f_equal. subst rest.
  unfold frame_bytes. cursor_norm. do 3 f_equal. f_equal.
  unfold frame_body. autorewrite with len. unfold le16. autorewrite with len. lia.
Qed.

(** ** [decode] *)

(** [decode] on a buffer whose length field is right. *)
Lemma decode_shape m0 m1 ty seq n0 n1 p c0 c1 :
  of_le_bytes [n0; n1] = len p ->
  decode ([m0; m1; ty; seq; n0; n1] ++ p ++ [c0; c1])
  = if bool_decide ([m0; m1] = le16 MAGIC) then
      if len p >? MAX_PAYLOAD then Err TooLong
      else if crc16 ([ty; seq; n0; n1] ++ p) =? of_le_bytes [c0; c1]
      then Ok (ty, seq, p) else Err BadCrc
    else Err BadMagic.
Proof.
  intros Hn. pose proof (len_nonneg p).
  set (buf := [m0; m1; ty; seq; n0; n1] ++ p ++ [c0; c1]).
  assert (Hlen : len buf = 8 + len p) by (subst buf; len_solve).
  assert (H0 : slice buf 0 2 = Some [m0; m1]) by by apply (slice_app [] [m0; m1]).
  assert (Hb : slice buf 2 (6 + len p) = Some ([ty; seq; n0; n1] ++ p)).
  { apply (slice_app [m0; m1] ([ty; seq; n0; n1] ++ p) [c0; c1]); len_solve. }
  assert (Hp : slice buf 6 (6 + len p) = Some p).
  { apply (slice_app [m0; m1; ty; seq; n0; n1]); len_solve. }
  assert (H6 : index buf (6 + len p) = Some c0).
  { subst buf. rewrite app_assoc. apply index_app. len_solve. }
  assert (H7 : index buf (6 + len p + 1) = Some c1).
  { subst buf. rewrite app_assoc, (cons_middle c0), (app_assoc _ [c0]).
    apply index_app. len_solve. }
  unfold decode. rewrite Hlen, H0. unfold HEADER_LEN, TRAILER_LEN.
  rewrite (proj2 (Z.ltb_ge _ _)) by lia. cbn [guard_err or_panic mbind outcome_bind].
  destruct (bool_decide _); cbn [negb guard_err mbind outcome_bind]; [|done].
  change (index buf 4) with (Some n0). change (index buf 5) with (Some n1).
  change (index buf 2) with (Some ty). change (index buf 3) with (Some seq).
  cbn [or_panic mbind outcome_bind]. rewrite Hn.
  destruct (len p >? MAX_PAYLOAD); cbn [guard_err mbind outcome_bind]; [done|].
  rewrite (proj2 (Z.eqb_eq _ _)) by lia. cbn [negb guard_err mbind outcome_bind].
  rewrite H6, H7, Hb, Hp. cbn [or_panic mbind outcome_bind].
  by destruct (_ =? _).
Qed.

Lemma frame_shape (buf : list Z) :
  8 <= len buf ->
  exists m0 m1 ty seq n0 n1 p c0 c1,
    buf = [m0; m1; ty; seq; n0; n1] ++ p ++ [c0; c1].
Proof.
  intros Hlen.
  destruct buf as [|m0 [|m1 [|ty [|seq [|n0 [|n1 rest]]]]]];
    try (unfold len in Hlen; simpl in Hlen; lia).
  destruct rest as [|c1 rest _] using rev_ind; [unfold len in Hlen; simpl in Hlen; lia|].
  destruct rest as [|c0 p _] using rev_ind; [unfold len in Hlen; simpl in Hlen; lia|].
  exists m0, m1, ty, seq, n0, n1, p, c0, c1. by rewrite <-app_assoc.
Qed.

(** A length field that disagrees with the buffer. *)
Lemma decode_bad_length m0 m1 ty seq n0 n1 (p : list Z) c0 c1 :
  of_le_bytes [n0; n1] <> len p ->
  decode ([m0; m1; ty; seq; n0; n1] ++ p ++ [c0; c1])
  = if bool_decide ([m0; m1] = le16 MAGIC) then
      if of_le_bytes [n0; n1] >? MAX_PAYLOAD then Err TooLong else Err Truncated
    else Err BadMagic.
Proof.
  intros Hn. pose proof (len_nonneg p).
  set (buf := [m0; m1; ty; seq; n0; n1] ++ p ++ [c0; c1]).
  assert (Hlen : len buf = 8 + len p) by (subst buf; len_solve).
  assert (H0 : slice buf 0 2 = Some [m0; m1]) by by apply (slice_app [] [m0; m1]).
  unfold decode. rewrite Hlen, H0. unfold HEADER_LEN, TRAILER_LEN.
  rewrite (proj2 (Z.ltb_ge _ _)) by lia. cbn [guard_err or_panic mbind outcome_bind].
  destruct (bool_decide _); cbn [negb guard_err mbind outcome_bind]; [|done].
  change (index buf 4) with (Some n0). change (index buf 5) with (Some n1).
  cbn [or_panic mbind outcome_bind].
  destruct (_ >? MAX_PAYLOAD); cbn [guard_err mbind outcome_bind]; [done|].
  by rewrite (proj2 (Z.eqb_neq _ _)) by lia.
Qed.

Lemma decode_short (buf : list Z) : len buf < 8 -> decode buf = Err Truncated.
Proof.
  intros Hb. unfold decode, HEADER_LEN, TRAILER_LEN.
  by rewrite (proj2 (Z.ltb_lt _ _)) by lia.
Qed.

Lemma decode_sound buf ty seq p :
  bytes_ok buf -> decode buf = Ok (ty, seq, p) ->
  buf = frame_bytes ty seq p /\ len p <= MAX_PAYLOAD.
Proof.
  intros Hok Hd. destruct (Z.lt_ge_cases (len buf) 8) as [Hs|Hl].
  { by rewrite decode_short in Hd. }
  destruct (frame_shape buf Hl) as (m0&m1&ty'&seq'&n0&n1&p'&c0&c1&->).
  assert (Hb : Forall is_byte [m0; m1; ty'; seq'; n0; n1] /\ Forall is_byte p'
               /\ Forall is_byte [c0; c1]) by (by rewrite <-!Forall_app).
  destruct Hb as (Hh & Hp & Hc). repeat (apply Forall_cons in Hh as [? Hh]).
  repeat (apply Forall_cons in Hc as [? Hc]).
  destruct (Z.eq_dec (of_le_bytes [n0; n1]) (len p')) as [Hn|Hn].
  2:{ rewrite decode_bad_length in Hd by done. by repeat case_match. }
  rewrite decode_shape in Hd by done.
  destruct (bool_decide_reflect ([m0; m1] = le16 MAGIC)) as [Hm|]; [|done].
  destruct (len p' >? MAX_PAYLOAD) eqn:Hlong; [done|].
  destruct (crc16 _ =? _) eqn:Hcrc; [|done]. injection Hd as -> -> ->. bool_facts.
  split; [|lia].
  assert (Hbody : frame_body ty seq p = [ty; seq; n0; n1] ++ p).
  { unfold frame_body. by rewrite <-Hn, le16_of_bytes. }
  unfold frame_bytes. rewrite <-Hm, Hbody, Hcrc, le16_of_bytes by done. done.
Qed.

Lemma decode_no_panic buf : decode buf <> Panic.
Proof.
  destruct (Z.lt_ge_cases (len buf) 8) as [Hs|Hl]; [by rewrite decode_short|].
  destruct (frame_shape buf Hl) as (m0&m1&ty&seq&n0&n1&p&c0&c1&->).
  destruct (Z.eq_dec (of_le_bytes [n0; n1]) (len p)).
  - rewrite decode_shape by done. by repeat case_match.
  - rewrite decode_bad_length by done. by repeat case_match.
Qed.

Lemma decode_frame_bytes ty seq p :
  is_byte ty -> is_byte seq -> bytes_ok p -> len p <= MAX_PAYLOAD ->
  decode (frame_bytes ty seq p) = Ok (ty, seq, p).
Proof.
  intros Hty Hseq Hp Hlen. pose proof (len_nonneg p). unfold MAX_PAYLOAD in Hlen.
  assert (Hn : of_le_bytes [len p mod 256; len p / 256 mod 256] = len p).
  { rewrite <-le16_eq. apply of_le16. unfold fits. lia. }
  set (crc := crc16 (frame_body ty seq p)).
  assert (Hcrc : of_le_bytes [crc mod 256; crc / 256 mod 256] = crc).
  { rewrite <-le16_eq. by apply of_le16, crc16_fits, frame_body_ok. }
  change (frame_bytes ty seq p) with
    ([MAGIC mod 256; MAGIC / 256 mod 256; ty; seq; len p mod 256; len p / 256 mod 256]
     ++ p ++ [crc mod 256; crc / 256 mod 256]).
  rewrite decode_shape, Hcrc by done.
  rewrite Z.gtb_ltb, (proj2 (Z.ltb_ge _ _)) by (unfold MAX_PAYLOAD; lia).
  rewrite bool_decide_eq_true_2 by done.
  change ([ty; seq; len p mod 256; len p / 256 mod 256] ++ p) with (frame_body ty seq p).
  by rewrite Z.eqb_refl.
Qed.

(** ** Corrupted frames *)

(** The one error of two adjacent bytes the frame check cannot see: the CRC is
    sent low byte first, so an error 0x89 in the last covered byte can be
    cancelled by an error in the low check byte that follows it. *)
Definition crc_blind_spot (a a' : Z) (post : list Z) : Prop :=
  length post = 1%nat /\ Z.lxor a a' = 0x89.

(** Two checked bodies of the same length that differ in two adjacent bytes,
    check bytes included, are equal outside the blind spot: the difference would
    have to satisfy the CRC. *)
Lemma bodies_apart w w' pre a b a' b' post :
  bytes_ok w -> bytes_ok w' -> length w = length w' ->
  is_byte a -> is_byte b -> is_byte a' -> is_byte b' ->
  w ++ le16 (crc16 w) = pre ++ a :: b :: post ->
  w' ++ le16 (crc16 w') = pre ++ a' :: b' :: post ->
  ~ crc_blind_spot a a' post -> a = a' /\ b = b'.
Proof.
  intros Hw Hw' Hlen Ha Hb Ha' Hb' H H' Hns. rewrite !le16_eq in H, H'.
  set (C := crc16 w) in *. set (C' := crc16 w') in *.
  destruct post as [|x1 post _] using rev_ind.
  { apply app_inj_2 in H as [-> [= <- <-]]; [|done].
    apply app_inj_2 in H' as [-> [= <- <-]]; [|done]. done. }
  destruct post as [|x0 post _] using rev_ind; cbn [app] in H, H'.
  - assert (Hs : forall z y, pre ++ [z; y; x1] = (pre ++ [z]) ++ [y; x1])
      by (intros; by rewrite <-app_assoc).
    rewrite Hs in H, H'.
    apply app_inj_2 in H as [-> [= <- Hx]]; [|done].
    apply app_inj_2 in H' as [-> [= <- Hx']]; [|done].
    apply Forall_app in Hw as [Hpre _]. rewrite <-Hx in Hx'.
    assert (Hhi : C / 256 = C' / 256).
    { assert (fits 16 C) by (apply crc16_fits; bytes_solve).
      assert (fits 16 C') by (apply crc16_fits; bytes_solve).
      unfold fits in *. rewrite !Z.mod_small in Hx' by div_lia. done. }
    apply crc16_tail_inj in Hhi as [<-|Hbl]; [done| |done..]. by destruct Hns.
  - assert (Hs : forall z y, pre ++ z :: y :: ((post ++ [x0]) ++ [x1])
                           = (pre ++ z :: y :: post) ++ [x0; x1])
      by (intros; rewrite <-!app_assoc; done).
    rewrite Hs in H, H'.
    apply app_inj_2 in H as [-> [= <- <-]]; [|done].
    apply app_inj_2 in H' as [-> [= Hlo Hhi]]; [|done].
    apply (crc16_burst_inj pre a b a' b' post); [done..|].
    assert (fits 16 C) by by apply crc16_fits.
    assert (fits 16 C') by by apply crc16_fits.
    fold C C'. unfold fits in *. div_lia.
Qed.

Lemma frames_apart ty seq p ty' seq' p' pre a b a' b' post :
  bytes_ok (frame_bytes ty seq p) -> bytes_ok (frame_bytes ty' seq' p') ->
  frame_bytes ty seq p = pre ++ a :: b :: post ->
  frame_bytes ty' seq' p' = pre ++ a' :: b' :: post ->
  ~ crc_blind_spot a a' post -> a = a' /\ b = b'.
Proof.
  unfold frame_bytes.
  assert (Hmin : (4 <= length (frame_body ty seq p))%nat) by (simpl; lia).
  revert Hmin. generalize (frame_body ty seq p) (frame_body ty' seq' p').
  intros w w' Hmin Hok Hok' H H' Hns.
  assert (Hlen : length w = length w').
  { apply (f_equal length) in H, H'. autorewrite with len in *. unfold le16 in *.
    autorewrite with len in *. lia. }
  assert (Hall := Hok). rewrite H in Hall. assert (Hall' := Hok'). rewrite H' in Hall'.
  apply Forall_app in Hall as [Hpre Hall]. apply Forall_app in Hall' as [_ Hall'].
  apply Forall_cons in Hall as [Ha Hall]. apply Forall_cons in Hall as [Hb Hpost].
  apply Forall_cons in Hall' as [Ha' Hall']. apply Forall_cons in Hall' as [Hb' _].
  apply Forall_app in Hok as [_ [Hw _]%Forall_app].
  apply Forall_app in Hok' as [_ [Hw' _]%Forall_app].
  destruct pre as [|m0 [|m1 pre]].
  - injection H as <- <- H. by injection H' as <- <- H'.
  - injection H as _ <- H. injection H' as _ <- H'. split; [done|].
    destruct post as [|c post].
    { apply (f_equal length) in H. autorewrite with len in H. simpl in H. lia. }
    apply Forall_cons in Hpost as [Hc _].
    assert (Hnb : ~ crc_blind_spot b b' post).
    { intros [Hp _]. apply (f_equal length) in H. autorewrite with len in H.
      unfold le16 in H. rewrite length_le_bytes in H. simpl in H. lia. }
    by destruct (bodies_apart w w' [] b c b' c post).
  - injection H as _ _ H. injection H' as _ _ H'.
    by apply (bodies_apart w w' pre a b a' b' post).
Qed.

(** ** Properties *)

(** [encode] on every branch: a payload over 1024 bytes is [TooLong], a buffer
    that cannot hold the frame is [Truncated], and otherwise exactly the
    specified frame is written to the front of the buffer, the rest is left
    alone, and its length is returned. *)
Theorem encode_spec buf ty seq p :
  encode buf ty seq p
  = if len p >? MAX_PAYLOAD then Err TooLong
    else if len buf <? HEADER_LEN + len p + TRAILER_LEN then Err Truncated
    else Ok (len (frame_bytes ty seq p),
             frame_bytes ty seq p ++ drop (length (frame_bytes ty seq p)) buf).
Proof.
  destruct (len p >? MAX_PAYLOAD) eqn:E; [unfold encode; by rewrite E|].
  destruct (_ <? _) eqn:E'; [unfold encode; by rewrite E, E'|]. bool_facts.
  by rewrite encode_exact, len_frame_bytes by lia.
Qed.

(** C21. Round trip: what [encode] writes for a payload, [decode] reads back, type
    and sequence number included. *)
Theorem encode_decode_roundtrip buf ty seq p n buf' :
  is_byte ty -> is_byte seq -> bytes_ok p ->
  encode buf ty seq p = Ok (n, buf') ->
  decode (take (Z.to_nat n) buf') = Ok (ty, seq, p).
Proof.
  intros Hty Hseq Hp He. destruct (len p >? MAX_PAYLOAD) eqn:E.
  { unfold encode in He. by rewrite E in He. }
  destruct (len buf <? HEADER_LEN + len p + TRAILER_LEN) eqn:E'.
  { unfold encode in He. by rewrite E, E' in He. }
  bool_facts. rewrite encode_exact in He by lia.
  apply Ok_inj, pair_equal_spec in He as [<- <-].
  rewrite take_app_length' by
    (pose proof (len_frame_bytes ty seq p); unfold len in *; lia).
  by apply decode_frame_bytes.
Qed.

Lemma encode_decode_roundtrip_witness :
  decode [0x48; 0x4C; 0x0A; 0x01; 0x00; 0x00; 0x5B; 0xDB] = Ok (10, 1, []).
Proof.
  apply (encode_decode_roundtrip (replicate 16 0) 10 1 [] 8
           ([0x48; 0x4C; 0x0A; 0x01; 0x00; 0x00; 0x5B; 0xDB] ++ replicate 8 0)).
  - vm_compute. split; congruence.
  - vm_compute. split; congruence.
  - constructor.
  - vm_compute. reflexivity.
Defined.

(** C23. [decode] never panics, and it accepts a byte string only if that is exactly
    the frame of what it returns. *)
Theorem decode_accepts_only_frames buf :
  decode buf <> Panic
  /\ (bytes_ok buf -> forall ty seq p, decode buf = Ok (ty, seq, p) ->
      buf = frame_bytes ty seq p /\ len p <= MAX_PAYLOAD).
Proof. split; [apply decode_no_panic|]. intros. by apply decode_sound. Qed.

Lemma decode_accepts_only_frames_witness :
  [0x48; 0x4C; 0x0A; 0x01; 0x00; 0x00; 0x5B; 0xDB] = frame_bytes 10 1 []
  /\ len (@nil Z) <= MAX_PAYLOAD.
Proof.
  apply (decode_accepts_only_frames [0x48; 0x4C; 0x0A; 0x01; 0x00; 0x00; 0x5B; 0xDB]).
  - bytes_solve.
  - vm_compute. reflexivity.
Defined.

(** C18. A frame corrupted in one byte, or in two adjacent bytes, anywhere from the
    magic to the check bytes, is never accepted, but for the one error pattern
    of [crc_blind_spot] at the last covered byte. *)
Theorem corrupted_frame_rejected ty seq p pre a b a' b' post r :
  is_byte ty -> is_byte seq -> bytes_ok p ->
  frame_bytes ty seq p = pre ++ a :: b :: post ->
  is_byte a' -> is_byte b' -> a <> a' \/ b <> b' ->
  ~ crc_blind_spot a a' post ->
  decode (pre ++ a' :: b' :: post) <> Ok r.
Proof.
  intros Hty Hseq Hp Hf Ha' Hb' Hne Hns Hd. destruct r as [[ty' seq'] p'].
  pose proof (frame_bytes_ok ty seq p Hty Hseq Hp) as Hok. assert (Hok1 := Hok).
  rewrite Hf in Hok. apply Forall_app in Hok as [Hpre Hok].
  apply Forall_cons in Hok as [_ Hok]. apply Forall_cons in Hok as [_ Hpost].
  assert (Hok2 : bytes_ok (pre ++ a' :: b' :: post)) by bytes_solve.
  destruct (decode_sound _ _ _ _ Hok2 Hd) as [Hf' _]. rewrite Hf' in Hok2.
  destruct (frames_apart ty seq p ty' seq' p' pre a b a' b' post) as [-> ->];
    [done..|]. by destruct Hne.
Qed.

Lemma corrupted_frame_rejected_witness :
  decode [0x48; 0x4C; 0x0A; 0x01; 0x00; 0x00; 0x5A; 0xDB] <> Ok (10, 1, []).
Proof.
  apply (corrupted_frame_rejected 10 1 [] [0x48; 0x4C; 0x0A; 0x01; 0x00] 0x00 0x5B
           0x00 0x5A [0xDB] (10, 1, [])).
  - vm_compute. split; congruence.
  - vm_compute. split; congruence.
  - constructor.
  - vm_compute. reflexivity.
  - vm_compute. split; congruence.
  - vm_compute. split; congruence.
  - right. congruence.
  - intros [_ H]. vm_compute in H. congruence.
Defined.

(** The blind spot is real: this corrupted frame is accepted. *)
Example crc_blind_spot_exists :
  frame_bytes 3 0 [0x2A] = [0x48; 0x4C; 3; 0; 1; 0; 0x2A; 0xc6; 0x4d]
  /\ decode [0x48; 0x4C; 3; 0; 1; 0; Z.lxor 0x2A 0x89; Z.lxor 0xc6 0xA1; 0x4d]
     = Ok (3, 0, [0xA3]).
Proof. vm_compute. done. Qed.
