(* ===== verification/StreamPacket.v ===== *)
(** * UDP stream packet header (helic-proto/src/stream.rs) *)

From S2P Require Import Prelude Proto.

Definition STREAM_HEADER_LEN : Z := 20.

Record StreamHeader := mkStreamHeader {
  sh_n_sources : Z;      (* u8 *)
  sh_seq : Z;            (* u32 *)
  sh_first_index : Z;    (* u32 *)
  sh_dropped : Z;        (* u32 *)
  sh_decimation : Z;     (* u16 *)
  sh_n_records : Z       (* u16 *)
}.

#[export] Instance StreamHeader_eq_dec : EqDecision StreamHeader.
Proof. solve_decision. Defined.

(** [StreamHeader::encode]; [None] when the buffer is too short (a panic). *)
Definition StreamHeader_encode (h : StreamHeader) (buf : list Z) : option (list Z) :=
  buf ← blit buf 0 (le16 MAGIC);
  buf ← put buf 2 VERSION;
  buf ← put buf 3 (sh_n_sources h);
  buf ← blit buf 4 (le32 (sh_seq h));
  buf ← blit buf 8 (le32 (sh_first_index h));
  buf ← blit buf 12 (le32 (sh_dropped h));
  buf ← blit buf 16 (le16 (sh_decimation h));
  blit buf 18 (le16 (sh_n_records h)).

(** [StreamHeader::decode]: [Err tt] is its [None]. *)
Definition StreamHeader_decode (buf : list Z) : outcome unit StreamHeader :=
  if len buf <? STREAM_HEADER_LEN then Err tt else
  magic ← or_panic (slice buf 0 2);
  if negb (bool_decide (magic = le16 MAGIC)) then Err tt else
  version ← or_panic (index buf 2);
  if negb (version =? VERSION) then Err tt else
  n_sources ← or_panic (index buf 3);
  seq ← or_panic (u32_at buf 4);
  first_index ← or_panic (u32_at buf 8);
  dropped ← or_panic (u32_at buf 12);
  decimation ← or_panic (u16_at buf 16);
  n_records ← or_panic (u16_at buf 18);
  Ok (mkStreamHeader n_sources seq first_index dropped decimation n_records).

(** ** Specification *)

Record sh_wf (h : StreamHeader) : Prop := {
  sh_wf_n_sources : fits 8 (sh_n_sources h);
  sh_wf_seq : fits 32 (sh_seq h);
  sh_wf_first_index : fits 32 (sh_first_index h);
  sh_wf_dropped : fits 32 (sh_dropped h);
  sh_wf_decimation : fits 16 (sh_decimation h);
  sh_wf_n_records : fits 16 (sh_n_records h)
}.

Definition stream_header_bytes (h : StreamHeader) : list Z :=
  le16 MAGIC ++ [VERSION; sh_n_sources h] ++ le32 (sh_seq h) ++ le32 (sh_first_index h)
  ++ le32 (sh_dropped h) ++ le16 (sh_decimation h) ++ le16 (sh_n_records h).

Lemma StreamHeader_encode_exact h buf :
  STREAM_HEADER_LEN <= len buf ->
  StreamHeader_encode h buf = Some (stream_header_bytes h ++ drop 20 buf).
Proof.
  unfold STREAM_HEADER_LEN. intros Hb. unfold StreamHeader_encode.
  rewrite (blit_cursor [] buf) by len_solve. cbn [mbind option_bind].
  do 6 cursor_step. rewrite blit_cursor by len_solve.
  f_equal. unfold stream_header_bytes. by cursor_norm.
Qed.

Lemma StreamHeader_encode_short h buf :
  len buf < STREAM_HEADER_LEN -> StreamHeader_encode h buf = None.
Proof.
  unfold STREAM_HEADER_LEN. intros Hb. destruct (StreamHeader_encode h buf) eqn:E; [|done].
  unfold StreamHeader_encode in E.
  repeat match type of E with
  | mbind _ ?m = Some _ => destruct m eqn:?; [cbn [mbind option_bind] in E|done]
  end.
  repeat match goal with
  | H : put _ _ _ = Some _ |- _ => unfold put in H
  | H : blit _ _ _ = Some _ |- _ =>
      let H' := fresh in pose proof (blit_length _ _ _ _ H) as H'; revert H H'
  end.
  intros. unfold blit in E. destruct (_ && _) eqn:Hc; [|done]. bool_facts.
  change (len (le16 (sh_n_records h))) with 2 in *. lia.
Qed.

Lemma StreamHeader_decode_shape m0 m1 v ns a0 a1 a2 a3 b0 b1 b2 b3 c0 c1 c2 c3 d0 d1 e0 e1 t :
  StreamHeader_decode ([m0; m1; v; ns; a0; a1; a2; a3; b0; b1; b2; b3; c0; c1; c2; c3;
                        d0; d1; e0; e1] ++ t)
  = if bool_decide ([m0; m1] = le16 MAGIC) && (v =? VERSION)
    then Ok (mkStreamHeader ns (of_le_bytes [a0; a1; a2; a3]) (of_le_bytes [b0; b1; b2; b3])
               (of_le_bytes [c0; c1; c2; c3]) (of_le_bytes [d0; d1]) (of_le_bytes [e0; e1]))
    else Err tt.
Proof.
  set (buf := [m0; m1; v; ns; a0; a1; a2; a3; b0; b1; b2; b3; c0; c1; c2; c3;
                        d0; d1; e0; e1] ++ t).
  assert (Hs : slice buf 0 2 = Some [m0; m1]) by by apply (slice_app [] [m0; m1]).
  unfold StreamHeader_decode, STREAM_HEADER_LEN.
  rewrite (proj2 (Z.ltb_ge _ _)) by (subst buf; len_solve). rewrite Hs. cbn [or_panic mbind outcome_bind].
  destruct (bool_decide _); [|done]. cbn [negb andb].
  change (index _ 2) with (Some v). cbn [or_panic mbind outcome_bind].
  by destruct (v =? VERSION).
Qed.

Lemma header_shape (buf : list Z) :
  STREAM_HEADER_LEN <= len buf ->
  exists m0 m1 v ns a0 a1 a2 a3 b0 b1 b2 b3 c0 c1 c2 c3 d0 d1 e0 e1 t,
    buf = [m0; m1; v; ns; a0; a1; a2; a3; b0; b1; b2; b3; c0; c1; c2; c3; d0; d1; e0; e1]
          ++ t.
Proof.
  unfold STREAM_HEADER_LEN, len. intros H.
  do 20 (destruct buf as [|? buf]; [simpl in H; lia|]).
  repeat eexists.
Qed.

Lemma StreamHeader_decode_bytes h t :
  sh_wf h -> StreamHeader_decode (stream_header_bytes h ++ t) = Ok h.
Proof.
  intros []. etransitivity; [apply StreamHeader_decode_shape|].
  rewrite bool_decide_eq_true_2 by done. cbn [andb Z.eqb]. f_equal.
  destruct h; cbn in *. f_equal; by (apply of_le32 || apply of_le16).
Qed.

Lemma StreamHeader_decode_inv buf h :
  bytes_ok buf -> StreamHeader_decode buf = Ok h ->
  sh_wf h /\ buf = stream_header_bytes h ++ drop 20 buf.
Proof.
  intros Hok Hd. destruct (Z.lt_ge_cases (len buf) STREAM_HEADER_LEN) as [Hs|Hl].
  { unfold StreamHeader_decode in Hd. by rewrite (proj2 (Z.ltb_lt _ _) Hs) in Hd. }
  destruct (header_shape buf Hl) as
    (m0&m1&v&ns&a0&a1&a2&a3&b0&b1&b2&b3&c0&c1&c2&c3&d0&d1&e0&e1&t&->).
  rewrite StreamHeader_decode_shape in Hd. destruct (_ && _) eqn:E; [|done].
  apply Ok_inj in Hd as <-. bool_facts. subst v. apply Forall_app in Hok as [Hok _].
  repeat (apply Forall_cons in Hok as [? Hok]).
  split; [constructor; cbn [sh_n_sources sh_seq sh_first_index sh_dropped sh_decimation
    sh_n_records]; first [assumption | apply of_le32_fits; assumption | apply of_le16_fits; assumption]|].
  unfold stream_header_bytes. cbn [sh_n_sources sh_seq sh_first_index sh_dropped
    sh_decimation sh_n_records].
  by rewrite !le16_of_bytes, !le32_of_bytes, <-H by done.
Qed.

(** ** Properties *)

(** Round trip of the stream header in a packet buffer: [encode] writes the 20
    header bytes and leaves the records alone, it panics only on a buffer under
    20 bytes, and [decode] returns every field. *)
Theorem stream_header_roundtrip h buf :
  sh_wf h ->
  if len buf <? STREAM_HEADER_LEN then StreamHeader_encode h buf = None
  else exists buf', StreamHeader_encode h buf = Some buf'
         /\ len buf' = len buf /\ drop 20 buf' = drop 20 buf
         /\ StreamHeader_decode buf' = Ok h.
Proof.
  intros Hwf. destruct (_ <? _) eqn:E; bool_facts.
  { by apply StreamHeader_encode_short. }
  unfold STREAM_HEADER_LEN in E. eexists. rewrite StreamHeader_encode_exact by done.
  split; [done|]. split; [|split; [done|by apply StreamHeader_decode_bytes]].
  unfold len in *. rewrite length_app, length_drop. change (length (stream_header_bytes h)) with 20%nat. lia.
Qed.

Lemma stream_header_roundtrip_witness :
  exists buf', StreamHeader_encode (mkStreamHeader 12 123456 42 3 2 28) (replicate 20 0)
               = Some buf'
    /\ len buf' = 20 /\ drop 20 buf' = []
    /\ StreamHeader_decode buf' = Ok (mkStreamHeader 12 123456 42 3 2 28).
Proof.
  apply (stream_header_roundtrip (mkStreamHeader 12 123456 42 3 2 28) (replicate 20 0)).
  constructor; vm_compute; split; congruence.
Defined.

(** [decode] accepts only canonical headers: whatever it returns is in range and
    re-encoding it reproduces the packet byte for byte. *)
Theorem stream_header_decode_canonical buf h :
  bytes_ok buf -> StreamHeader_decode buf = Ok h ->
  sh_wf h /\ StreamHeader_encode h buf = Some buf.
Proof.
  intros Hok Hd. destruct (StreamHeader_decode_inv buf h Hok Hd) as [Hwf Heq].
  split; [done|]. rewrite StreamHeader_encode_exact; [by rewrite <-Heq|].
  rewrite Heq. unfold STREAM_HEADER_LEN, len. rewrite length_app.
  change (length (stream_header_bytes h)) with 20%nat. lia.
Qed.

Lemma stream_header_decode_canonical_witness :
  sh_wf (mkStreamHeader 1 0 7 0 1 1)
  /\ StreamHeader_encode (mkStreamHeader 1 0 7 0 1 1)
       [0x48; 0x4C; 3; 1; 0; 0; 0; 0; 7; 0; 0; 0; 0; 0; 0; 0; 1; 0; 1; 0; 9; 9; 9; 9]
     = Some [0x48; 0x4C; 3; 1; 0; 0; 0; 0; 7; 0; 0; 0; 0; 0; 0; 0; 1; 0; 1; 0; 9; 9; 9; 9].
Proof.
  apply stream_header_decode_canonical; [bytes_solve|vm_compute; reflexivity].
Defined.
