(* ===== verification/Beacon.v ===== *)
(** * Discovery beacon (helic-proto/src/beacon.rs)

    The fixed-size request and response of UDP discovery. *)

From stdpp Require Import strings.
From S2P Require Import Prelude Proto Text.

Definition REQUEST : list Z := [wrap 8 MAGIC; wrap 8 (Z.shiftr MAGIC 8); 0x01].
Definition RESPONSE_LEN : Z := 44.

Inductive BeaconError := BeaconBadLength | BeaconBadMagic | BeaconBadKind.

#[export] Instance BeaconError_eq_dec : EqDecision BeaconError.
Proof. solve_decision. Defined.

Record BeaconResponse := {
  br_version : Z;             (* u8 *)
  br_control_port : Z;        (* u16 *)
  br_mac : list Z;            (* [u8; 6] *)
  br_experiment : list Z;     (* [u8; 16] *)
  br_firmware : list Z        (* [u8; 16] *)
}.

(** A name in 16 bytes: truncated, or padded with zeros. *)
Definition fixed_string (value : string) : option (list Z) :=
  let out := replicate 16 0 in
  let bytes := str_bytes value in
  let n := Z.min (len bytes) (len out) in
  src ← slice bytes 0 n;
  blit out 0 src.

(** [BeaconResponse::new]; [None] would be a panic. *)
Definition BeaconResponse_new (mac : list Z) (experiment firmware : string)
    : option BeaconResponse :=
  experiment ← fixed_string experiment;
  firmware ← fixed_string firmware;
  Some {| br_version := VERSION; br_control_port := CONTROL_PORT; br_mac := mac;
          br_experiment := experiment; br_firmware := firmware |}.

(** [out : &mut [u8; RESPONSE_LEN]]. *)
Definition BeaconResponse_encode (r : BeaconResponse) (out : list Z) : option (list Z) :=
  out ← blit out 0 (le16 MAGIC);
  out ← put out 2 0x02;
  out ← put out 3 (br_version r);
  out ← blit out 4 (le16 (br_control_port r));
  out ← blit out 6 (br_mac r);
  out ← blit out 12 (br_experiment r);
  blit out 28 (br_firmware r).

Definition BeaconResponse_decode (input : list Z) : outcome BeaconError BeaconResponse :=
  if negb (len input =? RESPONSE_LEN) then Err BeaconBadLength else
  magic ← or_panic (u16_at input 0);
  if negb (magic =? MAGIC) then Err BeaconBadMagic else
  kind ← or_panic (index input 2);
  if negb (kind =? 0x02) then Err BeaconBadKind else
  mac ← or_panic (slice input 6 12);
  experiment ← or_panic (slice input 12 28);
  firmware ← or_panic (slice input 28 44);
  version ← or_panic (index input 3);
  control_port ← or_panic (u16_at input 4);
  Ok {| br_version := version; br_control_port := control_port; br_mac := mac;
        br_experiment := experiment; br_firmware := firmware |}.

(** ** Specification *)

(** The field types of [BeaconResponse]. *)
Record beacon_wf (r : BeaconResponse) : Prop := {
  bw_version : fits 8 (br_version r);
  bw_control_port : fits 16 (br_control_port r);
  bw_mac : len (br_mac r) = 6 /\ bytes_ok (br_mac r);
  bw_experiment : len (br_experiment r) = 16 /\ bytes_ok (br_experiment r);
  bw_firmware : len (br_firmware r) = 16 /\ bytes_ok (br_firmware r)
}.

Definition beacon_bytes (r : BeaconResponse) : list Z :=
  le16 MAGIC ++ [0x02; br_version r] ++ le16 (br_control_port r) ++ br_mac r
  ++ br_experiment r ++ br_firmware r.

(** The name as it reads on the wire: cut at 16 bytes or padded to 16. *)
Definition identity_field (value : string) : list Z :=
  take 16 (str_bytes value ++ replicate 16 0).

Lemma fixed_string_spec value : fixed_string value = Some (identity_field value).
Proof.
  unfold fixed_string, identity_field. set (b := str_bytes value).
  rewrite slice_ok by (pose proof (len_nonneg b); change (len (replicate 16 0)) with 16; lia).
  rewrite bind_Some. change (Z.to_nat 0) with 0%nat. rewrite drop_0, Z.sub_0_r.
  change (len (replicate 16 0)) with 16.
  rewrite (blit_cursor [] (replicate 16 0)) by len_solve. f_equal. cbn [app].
  rewrite length_take. destruct (Z.le_gt_cases (len b) 16) as [Hb|Hb].
  - rewrite take_ge by (unfold len in *; lia). rewrite take_app_ge by (unfold len in *; lia).
    rewrite drop_replicate, take_replicate. f_equal. f_equal. unfold len in *. lia.
  - rewrite drop_ge by (rewrite length_replicate; unfold len in *; lia).
    rewrite app_nil_r, take_app_le by (unfold len in *; lia). f_equal. unfold len in *. lia.
Qed.

Lemma len_identity_field value : len (identity_field value) = 16.
Proof. unfold identity_field, len. rewrite length_take, length_app, length_replicate. lia. Qed.

Lemma identity_field_ok value : bytes_ok (identity_field value).
Proof.
  apply Forall_take, Forall_app_2; [apply str_bytes_ok|by apply Forall_replicate].
Qed.

Lemma BeaconResponse_new_wf mac experiment firmware :
  len mac = 6 -> bytes_ok mac ->
  exists r, BeaconResponse_new mac experiment firmware = Some r /\ beacon_wf r
    /\ br_mac r = mac /\ br_control_port r = CONTROL_PORT /\ br_version r = VERSION
    /\ br_experiment r = identity_field experiment /\ br_firmware r = identity_field firmware.
Proof.
  intros Hm Hb. unfold BeaconResponse_new. rewrite !fixed_string_spec, !bind_Some.
  eexists. split; [done|]. split; [|done].
  split; cbn; [done|done|done| |]; (split; [apply len_identity_field|apply identity_field_ok]).
Qed.

Lemma BeaconResponse_encode_exact r out :
  beacon_wf r -> len out = RESPONSE_LEN -> BeaconResponse_encode r out = Some (beacon_bytes r).
Proof.
  unfold RESPONSE_LEN. intros [_ _ [Hm _] [He _] [Hf _]] Ho. unfold BeaconResponse_encode.
  rewrite (blit_cursor [] out) by len_solve. cbn [mbind option_bind].
  do 5 cursor_step. rewrite blit_cursor by len_solve. f_equal. cursor_norm.
  rewrite drop_ge by len_solve. rewrite app_nil_r. by unfold beacon_bytes.
Qed.

Lemma len_beacon_bytes r : beacon_wf r -> len (beacon_bytes r) = RESPONSE_LEN.
Proof.
  intros [_ _ [Hm _] [He _] [Hf _]]. unfold beacon_bytes.
  rewrite !len_app, Hm, He, Hf. reflexivity.
Qed.

Lemma BeaconResponse_decode_bytes r : beacon_wf r -> BeaconResponse_decode (beacon_bytes r) = Ok r.
Proof.
  intros Hr. pose proof (len_beacon_bytes r Hr) as Hl. destruct Hr as [Hv Hp [Hm _] [He _] [Hf _]].
  set (h := le16 MAGIC ++ [2; br_version r] ++ le16 (br_control_port r)).
  assert (Eh : beacon_bytes r = h ++ br_mac r ++ br_experiment r ++ br_firmware r) by done.
  assert (E1 : slice (beacon_bytes r) 6 12 = Some (br_mac r))
    by (rewrite Eh; by apply slice_app; rewrite ?Hm).
  assert (E2 : slice (beacon_bytes r) 12 28 = Some (br_experiment r)).
  { rewrite Eh, (app_assoc h). by apply slice_app; rewrite len_app, Hm, ?He. }
  assert (E3 : slice (beacon_bytes r) 28 44 = Some (br_firmware r)).
  { rewrite Eh, (app_assoc h), (app_assoc (h ++ _)), <-(app_nil_r (br_firmware r)) at 1.
    apply slice_app; by rewrite !len_app, Hm, He, ?Hf. }
  assert (E4 : u16_at (beacon_bytes r) 4 = Some (br_control_port r))
    by (by apply (u16_at_app (le16 MAGIC ++ [2; br_version r]))).
  unfold BeaconResponse_decode. rewrite Hl, Z.eqb_refl. cbn [negb].
  change (u16_at _ 0) with (Some MAGIC). change (index _ 2) with (Some 2).
  change (index _ 3) with (Some (br_version r)). rewrite E1, E2, E3, E4. by destruct r.
Qed.

Lemma BeaconResponse_decode_inv input r :
  bytes_ok input -> BeaconResponse_decode input = Ok r ->
  beacon_wf r /\ input = beacon_bytes r.
Proof.
  intros Hok. unfold BeaconResponse_decode.
  destruct (Z.eqb_spec (len input) RESPONSE_LEN) as [Hl|]; cbn [negb]; [|done].
  intros H. read_inv H. destruct (Z.eqb_spec z MAGIC) as [->|]; cbn [negb] in H; [|done].
  read_inv H. destruct (Z.eqb_spec z 2) as [->|]; cbn [negb] in H; [|done].
  read_inv H. apply Ok_inj in H as <-.
  apply drop_u16_at in E as [_ E]; [|done]. apply drop_index in E0.
  pose proof (index_byte _ _ _ Hok E4) as Hv. apply drop_index in E4.
  apply drop_u16_at in E5 as [Hp E5]; [|done].
  split.
  - split; cbn; [done|done|..]; (split; [by eapply slice_length in E1, E2, E3|]);
      by eapply slice_bytes_ok.
  - apply drop_slice in E1, E2, E3. unfold beacon_bytes.
    cbn [br_mac br_experiment br_firmware br_version br_control_port].
    change (Z.to_nat 0) with 0%nat in E. rewrite drop_0 in E.
    rewrite E at 1. change (0 + 2) with 2. rewrite E0.
    change (2 + 1) with 3. rewrite E4. change (3 + 1) with 4. rewrite E5.
    change (4 + 2) with 6. rewrite E1, E2, E3. rewrite (drop_ge input) by (unfold len in Hl; unfold RESPONSE_LEN in Hl; lia).
    by rewrite app_nil_r.
Qed.

(** ** Properties *)

(** Discovery round trip: a response encodes into exactly 44 bytes from which
    [decode] reads back every field; [decode] accepts only such datagrams, so
    re-encoding what it returns reproduces the datagram; and a device's names
    reach the host cut or zero-padded to 16 bytes. *)
Theorem beacon_roundtrip (mac : list Z) (experiment firmware : string) (out : list Z)
    (Hm : len mac = 6) (Hb : bytes_ok mac) (Ho : len out = RESPONSE_LEN) :
  (exists r buf, BeaconResponse_new mac experiment firmware = Some r
     /\ BeaconResponse_encode r out = Some buf
     /\ len buf = RESPONSE_LEN /\ BeaconResponse_decode buf = Ok r
     /\ br_experiment r = identity_field experiment /\ br_firmware r = identity_field firmware)
  /\ (forall input r, bytes_ok input -> BeaconResponse_decode input = Ok r ->
        beacon_wf r /\ BeaconResponse_encode r out = Some input).
Proof.
  split.
  - destruct (BeaconResponse_new_wf mac experiment firmware Hm Hb) as
      (r & Er & Hr & _ & _ & _ & He & Hf).
    exists r, (beacon_bytes r). split; [done|].
    split; [by apply BeaconResponse_encode_exact|]. split; [by apply len_beacon_bytes|].
    split; [by apply BeaconResponse_decode_bytes|done].
  - intros input r Hok Hd. destruct (BeaconResponse_decode_inv input r Hok Hd) as [Hr ->].
    split; [done|]. by apply BeaconResponse_encode_exact.
Qed.

Example request_known_answer : REQUEST = [0x48; 0x4c; 0x01].
Proof. reflexivity. Qed.

Lemma beacon_roundtrip_witness :
  exists r buf, BeaconResponse_new [2; 0x48; 0x4c; 0; 0; 1] "magnetoelastic" "helic-daq 0.1.0 abc" = Some r
    /\ BeaconResponse_encode r (replicate 44 0) = Some buf /\ len buf = RESPONSE_LEN
    /\ BeaconResponse_decode buf = Ok r
    /\ br_experiment r = identity_field "magnetoelastic"
    /\ br_firmware r = str_bytes "helic-daq 0.1.0 ".
Proof.
  apply (beacon_roundtrip [2; 0x48; 0x4c; 0; 0; 1] "magnetoelastic" "helic-daq 0.1.0 abc"
    (replicate 44 0)); [done| |done]. bytes_solve.
Defined.
