(* ===== verification/Discovery.v ===== *)
(** * Firmware identity and discovery (firmware/build/src/lib.rs,
      firmware/support/src/comms/beacon.rs)

    The identity a build script derives from the package version and the answers
    of git, and the task that publishes it to every discovery request.  What git
    answers and which datagrams arrive is the environment's. *)

From stdpp Require Import strings sets.
From S2P Require Import Prelude Proto Text Beacon.

#[export] Set Default Goal Selector "!".
Open Scope Z_scope.

(** ** Identity *)

Definition FIRMWARE_ID_LEN : Z := 16.

(** The trimmed outputs of [git rev-parse] and [git status]; [None] is a failed
    query. *)
Definition wire_revision (head status : option string) : option (string * bool) :=
  hash ← head;
  if str_len hash =? 0 then None else
  status ← status;
  Some (hash, negb (str_len status =? 0)).

(** [None] is the failed assertion. *)
Definition format_firmware_id (version : string) (revision : option (string * bool)) : option string :=
  let revision := match revision with
                  | Some (hash, false) => hash
                  | Some (hash, true) => (hash +:+ "+")%string
                  | None => "?"%string
                  end in
  let firmware_id := (version +:+ " " +:+ revision)%string in
  if str_len firmware_id <=? FIRMWARE_ID_LEN then Some firmware_id else None.

(** The identity [emit_identity] defines for the compiler. *)
Definition emit_identity (version : string) (head status : option string) : option string :=
  format_firmware_id version (wire_revision head status).

(** ** The task *)

Definition REQUEST_BUFFER : Z := 64.

Section task.
Context {Peer : Type}.

(** The loop: the request buffer and what is sent, in order; [None] is a panic.
    A datagram the socket refuses is [None]. *)
Fixpoint beacon_loop (encoded request : list Z) (received : list (option (list Z * Peer)))
    : option (list (Peer * list Z)) :=
  match received with
  | [] => Some []
  | None :: received => beacon_loop encoded request received
  | Some (datagram, peer) :: received =>
      request ← blit request 0 datagram;
      asked ← slice request 0 (len datagram);
      sent ← beacon_loop encoded request received;
      Some (if bool_decide (asked = REQUEST) then (peer, encoded) :: sent else sent)
  end.

Definition beacon_task (mac : list Z) (experiment firmware : string) (received : list (option (list Z * Peer)))
    : option (list (Peer * list Z)) :=
  response ← BeaconResponse_new mac experiment firmware;
  encoded ← BeaconResponse_encode response (replicate (Z.to_nat RESPONSE_LEN) 0);
  beacon_loop encoded (replicate (Z.to_nat REQUEST_BUFFER) 0) received.

(** Who asked: the senders of the datagrams that are the request. *)
Definition asker (r : option (list Z * Peer)) : option Peer :=
  '(datagram, peer) ← r; if bool_decide (datagram = REQUEST) then Some peer else None.

(** The socket delivers what fits in the buffer. *)
Definition delivered (r : option (list Z * Peer)) : Prop :=
  match r with Some (datagram, _) => len datagram <= REQUEST_BUFFER | None => True end.

(** ** Lemmas *)

Lemma beacon_loop_answers encoded request received :
  len request = REQUEST_BUFFER -> Forall delivered received ->
  beacon_loop encoded request received = Some ((fun peer => (peer, encoded)) <$> omap asker received).
Proof.
  revert request. induction received as [|[[datagram peer]|] received IH]; intros request Hr Hd; [done| |].
  - apply Forall_cons in Hd as [Hlen Hd]. cbn in Hlen. cbn [beacon_loop].
    rewrite (blit_cursor [] request) by (done || lia). rewrite bind_Some. cbn [app].
    rewrite slice_ok by (rewrite ?len_app; pose proof (len_nonneg (drop (length datagram) request)); pose proof (len_nonneg datagram); lia).
    rewrite bind_Some. change (Z.to_nat 0) with 0%nat.
    rewrite drop_0, take_app_length' by (unfold len; lia).
    rewrite IH; [|rewrite len_app, len_drop_nat; unfold len in *; lia|done]. rewrite bind_Some. cbn [omap list_omap asker].
    unfold asker at 2. cbn. by destruct (bool_decide _).
  - apply Forall_cons in Hd as [_ Hd]. cbn. by apply IH.
Qed.
End task.

(** *** Strings *)

(** A separator that occurs in neither prefix determines the split. *)
Lemma split_unique (x : Z) (a a' b b' : list Z) : x ∉ a -> x ∉ a' -> a ++ x :: b = a' ++ x :: b' -> a = a' /\ b = b'.
Proof.
  revert a'. induction a as [|y a IH]; intros [|y' a'] Ha Ha' E; cbn in E.
  - by injection E.
  - injection E as -> _. set_solver.
  - injection E as <- _. set_solver.
  - injection E as -> E. destruct (IH a') as [-> ->]; [set_solver..|done|done].
Qed.

Definition bare (x : Z) (s : string) : Prop := x ∉ str_bytes s.

Lemma format_firmware_id_bytes version revision id :
  format_firmware_id version revision = Some id ->
  str_bytes id = str_bytes version ++ 32 :: (match revision with
                                             | Some (hash, dirty) => str_bytes hash ++ (if (dirty : bool) then [43] else [])
                                             | None => [63] end)
  /\ len (str_bytes id) <= FIRMWARE_ID_LEN.
Proof.
  unfold format_firmware_id. cbv zeta. destruct (Z.leb_spec (str_len (version +:+ " " +:+
    match revision with Some (hash, true) => hash +:+ "+" | Some (hash, false) => hash | None => "?" end)) FIRMWARE_ID_LEN)
    as [Hl|]; [|done].
  intros E. apply (inj Some) in E as <-. split; [|done]. rewrite !str_bytes_app. change (str_bytes " ") with [32].
  cbn [app]. do 2 f_equal. destruct revision as [[hash []]|]; [apply str_bytes_app|by rewrite app_nil_r|done].
Qed.

(** A revision of the repository: its hash is not empty and is written in
    hexadecimal digits, of which the two marks are none. *)
Definition revision_ok (revision : option (string * bool)) : Prop :=
  match revision with Some (hash, _) => str_bytes hash <> [] /\ bare 43 hash /\ bare 63 hash | None => True end.

Lemma revision_inj r r' :
  revision_ok r -> revision_ok r' ->
  (match r with Some (hash, dirty) => str_bytes hash ++ (if (dirty : bool) then [43] else []) | None => [63] end)
  = (match r' with Some (hash, dirty) => str_bytes hash ++ (if (dirty : bool) then [43] else []) | None => [63] end) ->
  r = r'.
Proof.
  unfold bare. destruct r as [[h d]|], r' as [[h' d']|]; cbn; [| | |done].
  - intros (_ & Hp & _) (_ & Hp' & _) E.
    assert (str_bytes h = str_bytes h' /\ d = d') as [E1 ->].
    { destruct d, d'; rewrite ?app_nil_r in E.
      - apply app_inj_tail in E as [-> _]. done.
      - destruct Hp'. rewrite <-E. set_solver.
      - destruct Hp. rewrite E. set_solver.
      - done. }
    by apply str_bytes_inj in E1 as ->.
  - intros (_ & _ & Hq) _ E. destruct Hq. destruct (str_bytes h) as [|x l]; [by destruct d|].
    cbn in E. injection E as -> _. set_solver.
  - intros _ (_ & _ & Hq) E. destruct Hq. destruct (str_bytes h') as [|x l]; [by destruct d'|].
    cbn in E. injection E as <- _. set_solver.
Qed.

Lemma identity_field_short (s : string) :
  len (str_bytes s) <= 16 -> identity_field s = str_bytes s ++ replicate (16 - length (str_bytes s)) 0.
Proof.
  intros Hl. unfold identity_field. unfold len in Hl. rewrite take_app, take_ge by lia. f_equal.
  rewrite take_replicate. f_equal. lia.
Qed.

(** ** Properties *)

(** The published identity never claims an uncertain commit: a build that
    succeeds has an identity of at most 16 bytes, equal identities come from equal
    versions and equal answers - a clean, a modified and an unknown revision never
    look alike - and a revision is claimed only if both queries of git succeeded. *)
Theorem identity_faithful (version version' id : string) (head status head' status' : option string)
    (Hv : bare 32 version) (Hv' : bare 32 version')
    (Hok : revision_ok (wire_revision head status)) (Hok' : revision_ok (wire_revision head' status'))
    (Hid : emit_identity version head status = Some id) (Hid' : emit_identity version' head' status' = Some id) :
  version = version' /\ wire_revision head status = wire_revision head' status'
  /\ len (str_bytes id) <= FIRMWARE_ID_LEN
  /\ (forall hash dirty, wire_revision head status = Some (hash, dirty) ->
       head = Some hash /\ exists s, status = Some s /\ dirty = negb (str_len s =? 0)).
Proof.
  apply format_firmware_id_bytes in Hid as [E Hl], Hid' as [E' _]. rewrite E in E'.
  apply split_unique in E' as [Ev Er]; [|done|done].
  split_and!; [by apply str_bytes_inj|by apply revision_inj|done|].
  intros hash dirty Hr. unfold wire_revision in Hr. destruct head as [h|]; [|done]. rewrite bind_Some in Hr.
  destruct (_ =? 0); [done|]. destruct status as [s|]; [|done]. rewrite bind_Some in Hr.
  injection Hr as -> <-. split; [done|]. by exists s.
Qed.

(** Discovery end to end: the task answers exactly the requests, in order, each to
    its sender; what the host decodes is the device's address and control port,
    the experiment's name cut or padded to 16 bytes, and the whole identity of
    the build, which is never cut. *)
Theorem discovery_answers {Peer : Type} (mac : list Z) (experiment version id : string)
    (head status : option string) (received : list (option (list Z * Peer)))
    (Hid : emit_identity version head status = Some id) (Hm : len mac = 6) (Hb : bytes_ok mac)
    (Hd : Forall delivered received) :
  exists answer r, beacon_task mac experiment id received = Some ((fun peer => (peer, answer)) <$> omap asker received)
    /\ BeaconResponse_decode answer = Ok r /\ br_mac r = mac /\ br_control_port r = CONTROL_PORT
    /\ br_experiment r = identity_field experiment
    /\ br_firmware r = str_bytes id ++ replicate (16 - length (str_bytes id)) 0.
Proof.
  destruct (BeaconResponse_new_wf mac experiment id Hm Hb) as (r & Er & Hr & E1 & E2 & _ & E3 & E4).
  exists (beacon_bytes r), r. unfold beacon_task. rewrite Er, bind_Some.
  rewrite BeaconResponse_encode_exact by done. rewrite bind_Some, beacon_loop_answers by done.
  apply format_firmware_id_bytes in Hid as [_ Hl].
  split_and!; [done|by apply BeaconResponse_decode_bytes|done..|]. rewrite E4. by apply identity_field_short.
Qed.

(** ** Witnesses *)

Example identities :
  emit_identity "0.2.5" (Some "abcdef0"%string) (Some ""%string) = Some "0.2.5 abcdef0"%string
  /\ emit_identity "0.2.5" (Some "abcdef0"%string) (Some " M src/lib.rs"%string) = Some "0.2.5 abcdef0+"%string
  /\ emit_identity "0.2.5" (Some "abcdef0"%string) None = Some "0.2.5 ?"%string
  /\ emit_identity "0.1000.0" (Some "abcdef0"%string) (Some " M src/lib.rs"%string) = None.
Proof. by vm_compute. Qed.

Lemma identity_faithful_witness :
  wire_revision (Some "abcdef0"%string) (Some ""%string) = wire_revision (Some "abcdef0"%string) (Some ""%string)
  /\ len (str_bytes "0.2.5 abcdef0") <= FIRMWARE_ID_LEN.
Proof.
  destruct (identity_faithful "0.2.5" "0.2.5" "0.2.5 abcdef0" (Some "abcdef0"%string) (Some ""%string)
    (Some "abcdef0"%string) (Some ""%string)) as (_ & E & Hl & _); [..|by split].
  - apply (bool_decide_unpack _). by vm_compute.
  - apply (bool_decide_unpack _). by vm_compute.
  - split; [by vm_compute|]. split; apply (bool_decide_unpack _); by vm_compute.
  - split; [by vm_compute|]. split; apply (bool_decide_unpack _); by vm_compute.
  - by vm_compute.
  - by vm_compute.
Defined.

Lemma discovery_answers_witness :
  exists answer r, beacon_task [2; 0x48; 0x4c; 0; 0; 1] "pico2w-rig" "0.2.5 abcdef0"
      [Some (REQUEST, 7); None; Some ([1; 2], 8); Some (REQUEST, 9)] = Some [(7, answer); (9, answer)]
    /\ BeaconResponse_decode answer = Ok r
    /\ br_firmware r = str_bytes "0.2.5 abcdef0" ++ [0; 0; 0].
Proof.
  destruct (discovery_answers [2; 0x48; 0x4c; 0; 0; 1] "pico2w-rig" "0.2.5" "0.2.5 abcdef0"
    (Some "abcdef0"%string) (Some ""%string) [Some (REQUEST, 7); None; Some ([1; 2], 8); Some (REQUEST, 9)])
    as (answer & r & E1 & E2 & _ & _ & _ & E3); [by vm_compute|done|bytes_solve|..].
  - repeat constructor; by vm_compute.
  - by exists answer, r.
Defined.
