(* ===== verification/BrokerInfo.v ===== *)
(** * Broker protocol extension (helic-proto/src/broker.rs)

    Message types, capability and state bits of the host broker, and the
    [BrokerInfo] payload. *)

From S2P Require Import Prelude Proto.

Definition EXTENSION_VERSION : Z := 1.
Definition BROKER_INFO : Z := 0x80.
Definition QUIET_STREAM_START : Z := 0x81.
Definition GET_RECENT : Z := 0x82.
Definition SET_CLIENT_QUIET : Z := 0x83.

Definition CAP_QUIET_START : Z := Z.shiftl 1 0.
Definition CAP_RECENT : Z := Z.shiftl 1 1.
Definition CAP_SET_QUIET : Z := Z.shiftl 1 2.
Definition CAP_SHARED_CONFIG : Z := Z.shiftl 1 3.
Definition CAPABILITIES : Z :=
  Z.lor (Z.lor (Z.lor CAP_QUIET_START CAP_RECENT) CAP_SET_QUIET) CAP_SHARED_CONFIG.

Definition STATE_UPSTREAM_CONNECTED : Z := Z.shiftl 1 0.
Definition STATE_CONFIGURED : Z := Z.shiftl 1 1.
Definition STATE_RUNNING : Z := Z.shiftl 1 2.
Definition STATE_CLIENT_ATTACHED : Z := Z.shiftl 1 3.
Definition STATE_CLIENT_QUIET : Z := Z.shiftl 1 4.
Definition STATE_TABLE_TRANSACTION : Z := Z.shiftl 1 5.

Definition INFO_HEADER_LEN : Z := 21.
Definition BROKER_MAX_SOURCES : Z := 24.

Inductive BrokerError := NotAttached | NotQuiet | NoActiveStream | InsufficientHistory.

#[export] Instance BrokerError_eq_dec : EqDecision BrokerError.
Proof. solve_decision. Defined.

(** [error as u8]. *)
Definition BrokerError_u8 (e : BrokerError) : Z :=
  match e with
  | NotAttached => 8 | NotQuiet => 9 | NoActiveStream => 10 | InsufficientHistory => 11
  end.

Inductive BrokerPayloadError := BrokerBadLength | BrokerBadValue.

#[export] Instance BrokerPayloadError_eq_dec : EqDecision BrokerPayloadError.
Proof. solve_decision. Defined.

Record BrokerInfo := {
  bi_state : Z;                      (* u8 *)
  bi_capabilities : Z;               (* u16 *)
  bi_history_capacity_ms : Z;        (* u32 *)
  bi_history_available_records : Z;  (* u32 *)
  bi_decimation : Z;                 (* u16 *)
  bi_count : Z;                      (* u32 *)
  bi_connected_clients : Z;          (* u16 *)
  bi_n_sources : Z;                  (* u8 *)
  bi_sources : list Z                (* [u8; MAX_SOURCES] *)
}.

(** [BrokerInfo::encode]: the slice with the payload written, and its length. *)
Definition BrokerInfo_encode (i : BrokerInfo) (out : list Z)
    : outcome BrokerPayloadError (list Z * Z) :=
  let n_sources := bi_n_sources i in
  if (BROKER_MAX_SOURCES <? n_sources) || (len out <? INFO_HEADER_LEN + n_sources)
  then Err BrokerBadLength
  else
    out ← or_panic (put out 0 EXTENSION_VERSION);
    out ← or_panic (put out 1 (bi_state i));
    out ← or_panic (blit out 2 (le16 (bi_capabilities i)));
    out ← or_panic (blit out 4 (le32 (bi_history_capacity_ms i)));
    out ← or_panic (blit out 8 (le32 (bi_history_available_records i)));
    out ← or_panic (blit out 12 (le16 (bi_decimation i)));
    out ← or_panic (blit out 14 (le32 (bi_count i)));
    out ← or_panic (blit out 18 (le16 (bi_connected_clients i)));
    out ← or_panic (put out 20 (bi_n_sources i));
    sources ← or_panic (slice (bi_sources i) 0 n_sources);
    out ← or_panic (blit out INFO_HEADER_LEN sources);
    Ok (out, INFO_HEADER_LEN + n_sources).

Definition BrokerInfo_decode (payload : list Z) : outcome BrokerPayloadError BrokerInfo :=
  if len payload <? INFO_HEADER_LEN then Err BrokerBadLength else
  version ← or_panic (index payload 0);
  if negb (version =? EXTENSION_VERSION) then Err BrokerBadLength else
  n_sources ← or_panic (index payload 20);
  if (BROKER_MAX_SOURCES <? n_sources) || negb (len payload =? INFO_HEADER_LEN + n_sources)
  then Err BrokerBadLength
  else
    ids ← or_panic (slice payload INFO_HEADER_LEN (len payload));
    sources ← or_panic (blit (replicate (Z.to_nat BROKER_MAX_SOURCES) 0) 0 ids);
    state ← or_panic (index payload 1);
    capabilities ← or_panic (u16_at payload 2);
    history_capacity_ms ← or_panic (u32_at payload 4);
    history_available_records ← or_panic (u32_at payload 8);
    decimation ← or_panic (u16_at payload 12);
    count ← or_panic (u32_at payload 14);
    connected_clients ← or_panic (u16_at payload 18);
    Ok {| bi_state := state; bi_capabilities := capabilities;
          bi_history_capacity_ms := history_capacity_ms;
          bi_history_available_records := history_available_records;
          bi_decimation := decimation; bi_count := count;
          bi_connected_clients := connected_clients; bi_n_sources := n_sources;
          bi_sources := sources |}.

(** ** Specification *)

(** The field types; [info_wf] also asks that the unused source slots are zero,
    as the broker fills them. *)
Record info_wf (i : BrokerInfo) : Prop := {
  iw_state : fits 8 (bi_state i);
  iw_capabilities : fits 16 (bi_capabilities i);
  iw_history_capacity_ms : fits 32 (bi_history_capacity_ms i);
  iw_history_available_records : fits 32 (bi_history_available_records i);
  iw_decimation : fits 16 (bi_decimation i);
  iw_count : fits 32 (bi_count i);
  iw_connected_clients : fits 16 (bi_connected_clients i);
  iw_n_sources : 0 <= bi_n_sources i <= BROKER_MAX_SOURCES;
  iw_sources : exists ids, len ids = bi_n_sources i /\ bytes_ok ids
    /\ bi_sources i = ids ++ replicate (Z.to_nat (BROKER_MAX_SOURCES - bi_n_sources i)) 0
}.

Definition info_header (i : BrokerInfo) : list Z :=
  [EXTENSION_VERSION; bi_state i] ++ le16 (bi_capabilities i)
  ++ le32 (bi_history_capacity_ms i) ++ le32 (bi_history_available_records i)
  ++ le16 (bi_decimation i) ++ le32 (bi_count i) ++ le16 (bi_connected_clients i)
  ++ [bi_n_sources i].

Definition info_bytes (i : BrokerInfo) : list Z :=
  info_header i ++ take (Z.to_nat (bi_n_sources i)) (bi_sources i).

Lemma len_info_bytes i :
  info_wf i -> len (info_bytes i) = INFO_HEADER_LEN + bi_n_sources i.
Proof.
  intros [_ _ _ _ _ _ _ Hn (ids & Hl & _ & Hs)]. unfold info_bytes.
  rewrite len_app, len_take; [done|]. rewrite Hs, len_app. pose proof (len_nonneg (replicate
    (Z.to_nat (BROKER_MAX_SOURCES - bi_n_sources i)) 0)). lia.
Qed.

Lemma BrokerInfo_encode_exact i out :
  info_wf i -> INFO_HEADER_LEN + bi_n_sources i <= len out ->
  BrokerInfo_encode i out
  = Ok (info_bytes i ++ drop (Z.to_nat (INFO_HEADER_LEN + bi_n_sources i)) out,
        INFO_HEADER_LEN + bi_n_sources i).
Proof.
  intros [_ _ _ _ _ _ _ Hn (ids & Hl & _ & Hs)] Ho. unfold BrokerInfo_encode.
  unfold INFO_HEADER_LEN in *.
  rewrite (proj2 (Z.ltb_ge _ _)), (proj2 (Z.ltb_ge _ _)) by lia. cbn [orb].
  assert (Hsl : slice (bi_sources i) 0 (bi_n_sources i) = Some ids)
    by (rewrite Hs; by apply (slice_app [] ids)).
  assert (Ht : take (Z.to_nat (bi_n_sources i)) (bi_sources i) = ids).
  { rewrite Hs, take_app_le by (unfold len in Hl; lia). apply take_ge. unfold len in Hl. lia. }
  rewrite (put_cursor [] out) by len_solve. cbn [or_panic mbind outcome_bind].
  do 8 cursor_step. rewrite Hsl. cbn [or_panic mbind outcome_bind].
  rewrite blit_cursor by len_solve. cbn [or_panic mbind outcome_bind].
  do 2 f_equal. unfold info_bytes, info_header. rewrite Ht. cursor_norm.
  replace (Z.to_nat (21 + bi_n_sources i)) with (21 + length ids)%nat
    by (unfold len in Hl; lia). done.
Qed.

Lemma BrokerInfo_decode_bytes i : info_wf i -> BrokerInfo_decode (info_bytes i) = Ok i.
Proof.
  intros Hi. pose proof (len_info_bytes i Hi) as Hl.
  destruct Hi as [Hst Hc Hh Ha Hd Hct Hcl Hn (ids & Lids & _ & Hs)].
  assert (Ht : take (Z.to_nat (bi_n_sources i)) (bi_sources i) = ids).
  { rewrite Hs, take_app_le by (unfold len in Lids; lia). apply take_ge. unfold len in Lids. lia. }
  unfold info_bytes in *. rewrite Ht in *. set (buf := info_header i ++ ids) in *.
  assert (E1 : slice buf INFO_HEADER_LEN (len buf) = Some ids).
  { subst buf. rewrite <-(app_nil_r ids) at 1. apply slice_app; [done|by rewrite len_app]. }
  assert (E2 : blit (replicate (Z.to_nat BROKER_MAX_SOURCES) 0) 0 ids = Some (bi_sources i)).
  { etransitivity; [apply (blit_cursor [] (replicate _ 0)); [done|]|].
    - rewrite len_replicate. lia.
    - rewrite Hs, drop_replicate. cbn [app]. do 3 f_equal. unfold len in Lids. lia. }
  assert (E3 : u16_at buf 2 = Some (bi_capabilities i))
    by (by apply (u16_at_app [EXTENSION_VERSION; bi_state i])).
  assert (E4 : u32_at buf 4 = Some (bi_history_capacity_ms i))
    by (by apply (u32_at_app ([EXTENSION_VERSION; bi_state i] ++ le16 (bi_capabilities i)))).
  assert (E5 : u32_at buf 8 = Some (bi_history_available_records i))
    by (by apply (u32_at_app ([EXTENSION_VERSION; bi_state i] ++ le16 (bi_capabilities i)
      ++ le32 (bi_history_capacity_ms i)))).
  assert (E6 : u16_at buf 12 = Some (bi_decimation i))
    by (by apply (u16_at_app ([EXTENSION_VERSION; bi_state i] ++ le16 (bi_capabilities i)
      ++ le32 (bi_history_capacity_ms i) ++ le32 (bi_history_available_records i)))).
  assert (E7 : u32_at buf 14 = Some (bi_count i))
    by (by apply (u32_at_app ([EXTENSION_VERSION; bi_state i] ++ le16 (bi_capabilities i)
      ++ le32 (bi_history_capacity_ms i) ++ le32 (bi_history_available_records i)
      ++ le16 (bi_decimation i)))).
  assert (E8 : u16_at buf 18 = Some (bi_connected_clients i))
    by (by apply (u16_at_app ([EXTENSION_VERSION; bi_state i] ++ le16 (bi_capabilities i)
      ++ le32 (bi_history_capacity_ms i) ++ le32 (bi_history_available_records i)
      ++ le16 (bi_decimation i) ++ le32 (bi_count i)))).
  unfold BrokerInfo_decode. rewrite Hl at 1. rewrite (proj2 (Z.ltb_ge _ _)) by lia.
  change (index buf 0) with (Some EXTENSION_VERSION). change (index buf 20) with (Some (bi_n_sources i)).
  change (index buf 1) with (Some (bi_state i)). cbn [or_panic]. rewrite !bind_Ok.
  cbn [Z.eqb negb EXTENSION_VERSION Pos.eqb]. rewrite Hl at 1. rewrite Z.eqb_refl.
  rewrite (proj2 (Z.ltb_ge _ _)) by lia. cbn [orb negb].
  rewrite E1. cbn [or_panic]. rewrite bind_Ok. rewrite E2, E3, E4, E5, E6, E7, E8. by destruct i.
Qed.

Lemma BrokerInfo_decode_inv payload i :
  bytes_ok payload -> BrokerInfo_decode payload = Ok i ->
  info_wf i /\ payload = info_bytes i.
Proof.
  intros Hok. unfold BrokerInfo_decode. destruct (Z.ltb_spec (len payload) INFO_HEADER_LEN); [done|].
  intros H0. read_inv H0. destruct (Z.eqb_spec z EXTENSION_VERSION) as [->|]; cbn [negb] in H0; [|done].
  read_inv H0. destruct (_ || _) eqn:Hc in H0; [done|]. apply orb_false_elim in Hc as [Hn%Z.ltb_ge Hl].
  apply negb_false_iff, Z.eqb_eq in Hl. read_inv H0. apply Ok_inj in H0 as <-.
  pose proof (index_byte _ _ _ Hok E0) as Hz. pose proof (index_byte _ _ _ Hok E3) as Hst.
  pose proof (slice_length _ _ _ _ E1) as Ll. pose proof (slice_bytes_ok _ _ _ _ Hok E1) as Hids.
  apply drop_index in E, E0, E3. apply drop_slice in E1.
  apply drop_u16_at in E4 as [H4 E4], E7 as [H7 E7], E9 as [H9 E9]; [|done..].
  apply drop_u32_at in E5 as [H5 E5], E6 as [H6 E6], E8 as [H8 E8]; [|done..].
  rewrite (drop_ge payload (Z.to_nat (len payload))) in E1 by (unfold len; lia). rewrite app_nil_r in E1.
  assert (El : l0 = l ++ replicate (Z.to_nat (BROKER_MAX_SOURCES - z)) 0).
  { unfold blit in E2. destruct (_ && _) eqn:Hb in E2; [|done]. apply (inj Some) in E2 as <-.
    change (Z.to_nat 0) with 0%nat. rewrite take_0, drop_replicate. cbn [app]. do 2 f_equal.
    unfold INFO_HEADER_LEN in *. change (Z.to_nat BROKER_MAX_SOURCES) with 24%nat.
    unfold BROKER_MAX_SOURCES. lia. }
  unfold INFO_HEADER_LEN in *. split.
  - split; cbn; try done; [unfold is_byte, fits in Hz; lia|].
    exists l. split; [lia|]. by split.
  - unfold info_bytes, info_header. cbn [bi_state bi_capabilities bi_history_capacity_ms
      bi_history_available_records bi_decimation bi_count bi_connected_clients bi_n_sources bi_sources].
    rewrite El, take_app_le by (unfold len in *; lia). rewrite take_ge by (unfold len in *; lia).
    change (Z.to_nat 0) with 0%nat in E. rewrite drop_0 in E. rewrite E at 1.
    change (0 + 1) with 1. rewrite E3. change (1 + 1) with 2. rewrite E4.
    change (2 + 2) with 4. rewrite E5. change (4 + 4) with 8. rewrite E6.
    change (8 + 4) with 12. rewrite E7. change (12 + 2) with 14. rewrite E8.
    change (14 + 4) with 18. rewrite E9. change (18 + 2) with 20. rewrite E0.
    change (20 + 1) with 21. by rewrite E1.
Qed.

Lemma BrokerInfo_decode_no_panic payload : bytes_ok payload -> BrokerInfo_decode payload <> Panic.
Proof.
  intros Hok. unfold BrokerInfo_decode, INFO_HEADER_LEN.
  destruct (Z.ltb_spec (len payload) 21) as [|Hl]; [done|].
  destruct (index_is_Some payload 0) as [v ->]; [lia|]. rewrite bind_or_panic.
  destruct (negb _); [done|]. destruct (index payload 20) as [n|] eqn:En.
  2: { destruct (index_is_Some payload 20) as [? ?]; [lia|congruence]. }
  pose proof (index_byte _ _ _ Hok En) as Hn. unfold is_byte, fits in Hn. rewrite bind_or_panic.
  destruct (_ || _) eqn:Hc; [done|]. apply orb_false_elim in Hc as [Hm%Z.ltb_ge Hz].
  apply negb_false_iff, Z.eqb_eq in Hz. rewrite slice_ok by lia. rewrite bind_or_panic.
  set (ids := take _ _). assert (Li : len ids = n) by (subst ids; unfold len in *;
    rewrite length_take, length_drop; lia).
  destruct (blit_spec (replicate (Z.to_nat BROKER_MAX_SOURCES) 0) 0 ids
    ltac:(lia) ltac:(rewrite len_replicate; lia)) as (s & -> & _ & _).
  destruct (index_is_Some payload 1) as [? ->]; [lia|].
  destruct (u16_at_is_Some payload 2) as [? ->]; [lia|lia|].
  destruct (u32_at_is_Some payload 4) as [? ->]; [lia|lia|].
  destruct (u32_at_is_Some payload 8) as [? ->]; [lia|lia|].
  destruct (u16_at_is_Some payload 12) as [? ->]; [lia|lia|].
  destruct (u32_at_is_Some payload 14) as [? ->]; [lia|lia|].
  destruct (u16_at_is_Some payload 18) as [? ->]; [lia|lia|done].
Qed.

(** ** Properties *)

(** The [BrokerInfo] payload: a well-formed status encodes into exactly
    [21 + n_sources] bytes, from which [decode] reads it back, and a buffer that
    is too short is an error, not a panic; [decode] never panics, and the only
    payloads it accepts are those [encode] produces, so a payload of another
    version, length or source count is rejected. *)
Theorem broker_info_roundtrip (i : BrokerInfo) (Hi : info_wf i) :
  (forall out, bytes_ok out ->
     if len out <? INFO_HEADER_LEN + bi_n_sources i then BrokerInfo_encode i out = Err BrokerBadLength
     else exists buf n p, BrokerInfo_encode i out = Ok (buf, n) /\ n = INFO_HEADER_LEN + bi_n_sources i
       /\ slice buf 0 n = Some p /\ BrokerInfo_decode p = Ok i)
  /\ (forall payload i', bytes_ok payload -> BrokerInfo_decode payload = Ok i' ->
        info_wf i' /\ payload = info_bytes i')
  /\ (forall payload, bytes_ok payload -> BrokerInfo_decode payload <> Panic).
Proof.
  split; [|split; [intros; by apply BrokerInfo_decode_inv|apply BrokerInfo_decode_no_panic]].
  intros out _.
  destruct (Z.ltb_spec (len out) (INFO_HEADER_LEN + bi_n_sources i)) as [Hs|Hs].
  - unfold BrokerInfo_encode. rewrite (proj2 (Z.ltb_lt _ _) Hs). by rewrite orb_true_r.
  - rewrite BrokerInfo_encode_exact by done. eexists _, _, (info_bytes i).
    split; [done|]. split; [done|]. split; [|by apply BrokerInfo_decode_bytes].
    apply (slice_app []); [done|]. by rewrite len_info_bytes.
Qed.

Definition demo_info : BrokerInfo := {|
  bi_state := Z.lor STATE_CONFIGURED STATE_RUNNING; bi_capabilities := CAPABILITIES;
  bi_history_capacity_ms := 10000; bi_history_available_records := 42; bi_decimation := 4;
  bi_count := 0; bi_connected_clients := 2; bi_n_sources := 3;
  bi_sources := [0; 8; 12] ++ replicate 21 0 |}.

Lemma broker_info_roundtrip_witness :
  exists buf n p, BrokerInfo_encode demo_info (replicate 45 0) = Ok (buf, n)
    /\ n = INFO_HEADER_LEN + 3 /\ slice buf 0 n = Some p /\ BrokerInfo_decode p = Ok demo_info.
Proof.
  refine (proj1 (broker_info_roundtrip demo_info _) (replicate 45 0) _).
  - split; try (by vm_compute). exists [0; 8; 12]. split; [done|]. split; [bytes_solve|done].
  - by apply Forall_replicate.
Defined.
