(* ===== verification/Upstream.v ===== *)
(** * The broker's upstream session (helic-broker/src/server.rs)

    The framed request and response over the control connection to the MCU, and
    the discovery of the device a new connection starts with.  The TCP
    connection is the list of bytes that have arrived and are not read yet, and
    what the peer sends for each request; bytes that do not arrive before the
    timeout are missing from it. *)

From stdpp Require Import strings.
From S2P Require Import Prelude Float32 Proto Text Frame Beacon BrokerInfo.

(** The errors ([anyhow::Error]) of the broker, by their message. *)
Inductive Failure :=
  | FrameMagic | FrameOversized | FrameIncomplete | FrameInvalid | FrameUnencodable
  | RequestTimedOut | SequenceMismatch
  | InvalidStatus | VersionMismatch | InvalidGetParams | InvalidPageRange | UnterminatedString
  | TruncatedDefinition | InvalidUtf8 | InvalidWritableFlag | UnknownTypeCode | PageCountMismatch
  | DuplicateNames | InvalidGetSources | SourceCountMismatch | MissingParameter
  | NotACharArray | InvalidGetPar
  | SetupTooShort | SetupInvalid
  | NotConnected | MetadataUnavailable | ClientDisappeared | StorageFailed | IoFailed.

(** ** Text on the wire *)

Definition utf8_cont (b : Z) : bool := (0x80 <=? b) && (b <=? 0xBF).
Definition within (lo hi b : Z) : bool := (lo <=? b) && (b <=? hi).

(** The well-formed byte sequences of the Unicode Standard (table 3-7), which
    [std::str::from_utf8] accepts. *)
Fixpoint utf8_valid (l : list Z) : bool :=
  match l with
  | [] => true
  | a :: l1 =>
      if within 0 0x7F a then utf8_valid l1 else
      match l1 with
      | [] => false
      | b :: l2 =>
          if within 0xC2 0xDF a && utf8_cont b then utf8_valid l2 else
          match l2 with
          | [] => false
          | c :: l3 =>
              if ((a =? 0xE0) && within 0xA0 0xBF b
                  || (within 0xE1 0xEC a || within 0xEE 0xEF a) && utf8_cont b
                  || (a =? 0xED) && within 0x80 0x9F b) && utf8_cont c
              then utf8_valid l3 else
              match l3 with
              | [] => false
              | d :: l4 =>
                  ((a =? 0xF0) && within 0x90 0xBF b || within 0xF1 0xF3 a && utf8_cont b
                   || (a =? 0xF4) && within 0x80 0x8F b)
                  && utf8_cont c && utf8_cont d && utf8_valid l4
              end
          end
      end
  end.

(** [std::str::from_utf8(l)?.to_string()]; a [String] is its bytes. *)
Definition from_utf8 (l : list Z) : outcome Failure (list Z) :=
  if utf8_valid l then Ok l else Err InvalidUtf8.

(** [iter().position(|byte| *byte == 0)]. *)
Fixpoint nul_position (l : list Z) : option Z :=
  match l with
  | [] => None
  | b :: l => if b =? 0 then Some 0 else n ← nul_position l; Some (n + 1)
  end.

Definition decode_nul_ascii (payload : list Z) (offset : Z) : outcome Failure (list Z * Z) :=
  rest ← or_panic (slice payload offset (len payload));
  relative ← ok_or (nul_position rest) UnterminatedString;
  let end_ := offset + relative in
  text ← or_panic (slice payload offset end_);
  text ← from_utf8 text;
  Ok (text, end_ + 1).

(** ** Frames *)

(** [read_frame] on the bytes that arrive before the timeout or the end of the
    connection: the frame, and the bytes left. *)
Definition read_frame (incoming : list Z) : outcome Failure (Z * Z * list Z) * list Z :=
  if len incoming <? HEADER_LEN then (Err FrameIncomplete, [])
  else
    let header := take (Z.to_nat HEADER_LEN) incoming in
    let rest := drop (Z.to_nat HEADER_LEN) incoming in
    if negb (bool_decide (take 2 header = le16 MAGIC)) then (Err FrameMagic, rest)
    else
      match u16_at header 4 with
      | None => (Panic, rest)
      | Some length =>
          if MAX_PAYLOAD <? length then (Err FrameOversized, rest)
          else if len rest <? length + TRAILER_LEN then (Err FrameIncomplete, [])
          else
            let total := Z.to_nat (HEADER_LEN + length + TRAILER_LEN) in
            (map_err (fun _ => FrameInvalid) (decode (take total incoming)), drop total incoming)
      end.

(** The bytes [write_frame] writes. *)
Definition write_frame (message_type sequence : Z) (payload : list Z) : outcome Failure (list Z) :=
  let encoded := replicate (Z.to_nat (HEADER_LEN + len payload + TRAILER_LEN)) 0 in
  '(_, encoded) ← map_err (fun _ => FrameUnencodable) (encode encoded message_type sequence payload);
  Ok encoded.

(** ** [UpstreamControl] *)

Record UpstreamControl := {
  uc_stream : list Z;             (* the bytes that have arrived and are not read *)
  uc_sequence : Z;                (* u8 *)
  uc_generation : Z;              (* u64 *)
  uc_peer_ip : Z;                 (* Ipv4Addr *)
  uc_udp : Z                      (* the UDP socket: its local port *)
}.

Record UpstreamResponse := { ur_message_type : Z; ur_payload : list Z }.

(** [UpstreamControl::request].  [answer] gives, for the frame written, the
    bytes that arrive; it is [None] when the frame cannot be written in time. *)
Definition UpstreamControl_request (u : UpstreamControl) (message_type : Z) (payload : list Z)
    (answer : list Z -> option (list Z)) : UpstreamControl * outcome Failure UpstreamResponse :=
  let sequence := wrapping_add 8 (uc_sequence u) 1 in
  let u := u <| uc_sequence := sequence |> in
  match write_frame message_type sequence payload with
  | Err e => (u, Err e)
  | Panic => (u, Panic)
  | Ok encoded =>
      match answer encoded with
      | None => (u, Err RequestTimedOut)
      | Some arrived =>
          let '(frame, rest) := read_frame (uc_stream u ++ arrived) in
          (u <| uc_stream := rest |>,
           '(response_type, response_sequence, response_payload) ← frame;
           if negb (response_sequence =? sequence) then Err SequenceMismatch
           else Ok {| ur_message_type := response_type; ur_payload := response_payload |})
      end
  end.

(** ** Discovery *)

Record ParameterDefinition := {
  pd_index : Z;                   (* u16 *)
  pd_name : list Z;
  pd_type_code : Z;               (* u8 *)
  pd_count : Z                    (* u16 *)
}.

Definition ParameterDefinition_size (d : ParameterDefinition) : Z :=
  let c := pd_type_code d in
  let element :=
    if (c =? 66) || (c =? 98) || (c =? 99) then 1         (* B b c *)
    else if (c =? 72) || (c =? 104) then 2                (* H h *)
    else if (c =? 73) || (c =? 105) || (c =? 102) then 4  (* I i f *)
    else 0 in
  element * pd_count d.

Record SourceMetadata := { sr_name : list Z; sr_unit : list Z }.

Record DeviceMetadata := {
  dm_sample_rate_hz : float;
  dm_sources : list SourceMetadata;
  dm_experiment : list Z;
  dm_firmware : list Z;
  dm_arm_index : option Z;
  dm_mcu_reboot_index : option Z;
  dm_mac : list Z
}.

(** The loop over a [GetParams] page, from [offset] and [index]; [fuel] bounds
    the definitions left.  [index += 1] panics on overflow. *)
Fixpoint parse_page (fuel : nat) (payload : list Z) (offset index : Z)
    (result : list ParameterDefinition) : outcome Failure (list ParameterDefinition * Z) :=
  if len payload <=? offset then Ok (result, index) else
  match fuel with
  | O => Panic
  | S fuel =>
      rest ← or_panic (slice payload offset (len payload));
      relative ← ok_or (nul_position rest) UnterminatedString;
      let end_ := offset + relative in
      if len payload <? end_ + 5 then Err TruncatedDefinition
      else
        name ← or_panic (slice payload offset end_);
        name ← from_utf8 name;
        type_code ← or_panic (Prelude.index payload (end_ + 1));
        count ← or_panic (u16_at payload (end_ + 2));
        writable ← or_panic (Prelude.index payload (end_ + 4));
        if 1 <? writable then Err InvalidWritableFlag
        else
          let definition := {| pd_index := index; pd_name := name; pd_type_code := type_code;
                               pd_count := count |} in
          if ParameterDefinition_size definition =? 0 then Err UnknownTypeCode
          else if umax 16 <? index + 1 then Panic
          else parse_page fuel payload (end_ + 5) (index + 1) (result ++ [definition])
  end.

(** The checks of a [GetParams] response and its definitions; [next]. *)
Definition parse_params (response : UpstreamResponse) (start count : Z)
    (result : list ParameterDefinition) : outcome Failure (list ParameterDefinition * Z) :=
  let payload := ur_payload response in
  if negb (ur_message_type response =? MsgType_u8 GetParams) || (len payload <? 4)
  then Err InvalidGetParams
  else
    returned ← or_panic (u16_at payload 0);
    next ← or_panic (u16_at payload 2);
    if negb (returned =? start) || (next <=? start) || (count <? next) then Err InvalidPageRange
    else
      '(result, index) ← parse_page (length payload) payload 4 start result;
      if negb (index =? next) then Err PageCountMismatch else Ok (result, next).

(** The loop over a [GetSources] payload. *)
Fixpoint parse_sources (fuel : nat) (payload : list Z) (offset : Z) (result : list SourceMetadata)
    : outcome Failure (list SourceMetadata) :=
  if len payload <=? offset then Ok result else
  match fuel with
  | O => Panic
  | S fuel =>
      '(name, next) ← decode_nul_ascii payload offset;
      '(unit, next) ← decode_nul_ascii payload next;
      parse_sources fuel payload next (result ++ [{| sr_name := name; sr_unit := unit |}])
  end.

Section discovery.
(** The device: its state, and what it sends for the bytes it is sent. *)
Context {D : Type}.
Variable device : D -> list Z -> D * option (list Z).

Definition session_request (s : UpstreamControl * D) (message_type : Z) (payload : list Z)
    : UpstreamControl * D * outcome Failure UpstreamResponse :=
  let '(u, d) := s in
  match write_frame message_type (wrapping_add 8 (uc_sequence u) 1) payload with
  | Ok encoded =>
      let '(d', arrived) := device d encoded in
      let '(u, r) := UpstreamControl_request u message_type payload (fun _ => arrived) in
      (u, d', r)
  | _ =>
      let '(u, r) := UpstreamControl_request u message_type payload (fun _ => None) in
      (u, d, r)
  end.

(** [discover_parameters]' [while start < count]; every turn raises [start], so
    [count] turns are enough. *)
Fixpoint discover_loop (fuel : nat) (s : UpstreamControl * D) (start count : Z)
    (result : list ParameterDefinition)
    : UpstreamControl * D * outcome Failure (list ParameterDefinition) :=
  if count <=? start then (s, Ok result) else
  match fuel with
  | O => (s, Panic)
  | S fuel =>
      and_then (session_request s (MsgType_u8 GetParams) (le16 start)) (fun s response =>
        match parse_params response start count result with
        | Ok (result, next) => discover_loop fuel s next count result
        | Err e => (s, Err e)
        | Panic => (s, Panic)
        end)
  end.

Definition discover_parameters (s : UpstreamControl * D) (count : Z)
    : UpstreamControl * D * outcome Failure (list ParameterDefinition) :=
  and_then (discover_loop (Z.to_nat count) s 0 count []) (fun s result =>
    if bool_decide (NoDup (pd_name <$> result)) then (s, Ok result) else (s, Err DuplicateNames)).

Definition discover_sources (s : UpstreamControl * D) (count : Z)
    : UpstreamControl * D * outcome Failure (list SourceMetadata) :=
  and_then (session_request s (MsgType_u8 GetSources) []) (fun s response =>
    (s, if negb (ur_message_type response =? MsgType_u8 GetSources) then Err InvalidGetSources
        else
          result ← parse_sources (length (ur_payload response)) (ur_payload response) 0 [];
          if negb (len result =? count) then Err SourceCountMismatch else Ok result)).

Definition read_char_parameter (s : UpstreamControl * D) (parameters : list ParameterDefinition)
    (name : list Z) : UpstreamControl * D * outcome Failure (list Z) :=
  match find (fun p => bool_decide (pd_name p = name)) parameters with
  | None => (s, Err MissingParameter)
  | Some parameter =>
      if negb (pd_type_code parameter =? 99) then (s, Err NotACharArray)
      else
        and_then (session_request s (MsgType_u8 GetPar) (le16 (pd_index parameter)))
          (fun s response =>
            (s, if negb (ur_message_type response =? MsgType_u8 GetPar)
                   || negb (len (ur_payload response) =? ParameterDefinition_size parameter)
                then Err InvalidGetPar
                else
                  let end_ := default (len (ur_payload response)) (nul_position (ur_payload response)) in
                  text ← or_panic (slice (ur_payload response) 0 end_);
                  from_utf8 text))
  end.

(** [query_mac], given the datagram that answers within its timeout. *)
Definition query_mac (received : option (list Z)) : outcome Failure (list Z) :=
  response ← ok_or received RequestTimedOut;
  beacon ← map_err (fun _ => IoFailed) (BeaconResponse_decode response);
  Ok (br_mac beacon).

Definition parameter_index (parameters : list ParameterDefinition) (name : list Z) : option Z :=
  pd_index <$> find (fun p => bool_decide (pd_name p = name)) parameters.

Definition bytes_of (s : string) : list Z := str_bytes s.

(** The fields of a [Status] response that discovery reads. *)
Definition parse_status (status : UpstreamResponse) : outcome Failure (Z * Z * float) :=
  let payload := ur_payload status in
  if negb (ur_message_type status =? MsgType_u8 Status) || negb (len payload =? 12)
  then Err InvalidStatus
  else
    version ← or_panic (Prelude.index payload 0);
    if negb (version =? VERSION) then Err VersionMismatch
    else
      parameter_count ← or_panic (u16_at payload 1);
      source_count ← or_panic (Prelude.index payload 3);
      rate ← or_panic (slice payload 4 8);
      Ok (parameter_count, source_count, f32_of_le_bytes rate).

Definition discover_device (s : UpstreamControl * D) (mac : option (list Z))
    : UpstreamControl * D * outcome Failure DeviceMetadata :=
  and_then (session_request s (MsgType_u8 Status) []) (fun s status =>
  and_then (s, parse_status status) (fun s '(parameter_count, source_count, sample_rate_hz) =>
  and_then (discover_parameters s parameter_count) (fun s parameters =>
  and_then (discover_sources s source_count) (fun s sources =>
  and_then (read_char_parameter s parameters (bytes_of "experiment")) (fun s experiment =>
  and_then (read_char_parameter s parameters (bytes_of "firmware")) (fun s firmware =>
    (s, Ok {| dm_sample_rate_hz := sample_rate_hz; dm_sources := sources;
              dm_experiment := experiment; dm_firmware := firmware;
              dm_arm_index := parameter_index parameters (bytes_of "arm");
              dm_mcu_reboot_index := parameter_index parameters (bytes_of "mcu_reboot");
              dm_mac := match query_mac mac with
                        | Ok mac => mac
                        | _ => [0x02; 72; 76; 0; 0; 0xB0]
                        end |}))))))).
End discovery.

(** ** Lemmas: the wire *)

Lemma nul_position_spec l :
  match nul_position l with
  | Some n => 0 <= n < len l /\ index l n = Some 0 /\ Forall (fun b => b <> 0) (take (Z.to_nat n) l)
  | None => Forall (fun b => b <> 0) l
  end.
Proof.
  induction l as [|b l IH]; cbn [nul_position]; [constructor|].
  destruct (Z.eqb_spec b 0) as [->|Hb].
  - rewrite len_cons. pose proof (len_nonneg l). split; [lia|]. split; [done|constructor].
  - destruct (nul_position l) as [n|]; cbn [option_bind mbind]; [|by constructor].
    destruct IH as (Hn & Hi & Ha). rewrite len_cons. split; [lia|]. split.
    + rewrite <-Hi. unfold index. rewrite !(proj2 (Z.leb_le _ _)) by lia.
      by replace (Z.to_nat (n + 1)) with (S (Z.to_nat n)) by lia.
    + replace (Z.to_nat (n + 1)) with (S (Z.to_nat n)) by lia. by constructor.
Qed.

Lemma write_frame_ok ty seq payload :
  len payload <= MAX_PAYLOAD -> write_frame ty seq payload = Ok (frame_bytes ty seq payload).
Proof.
  intros Hp. unfold write_frame. pose proof (len_nonneg payload).
  assert (Lf : len (frame_bytes ty seq payload) = HEADER_LEN + len payload + TRAILER_LEN)
    by apply len_frame_bytes.
  assert (Lb : len (replicate (Z.to_nat (HEADER_LEN + len payload + TRAILER_LEN)) 0)
    = HEADER_LEN + len payload + TRAILER_LEN).
  { rewrite len_replicate. unfold HEADER_LEN, TRAILER_LEN. lia. }
  rewrite encode_exact by (done || lia). cbn [map_err]. rewrite bind_Ok.
  rewrite drop_ge by (rewrite length_replicate, <-Lf; unfold len; lia). by rewrite app_nil_r.
Qed.

(** What a read leaves, whatever has arrived. *)
Lemma read_frame_ok incoming :
  bytes_ok incoming ->
  let '(r, rest) := read_frame incoming in
  bytes_ok rest /\ r <> Panic
  /\ forall ty seq payload, r = Ok (ty, seq, payload) ->
       incoming = frame_bytes ty seq payload ++ rest /\ len payload <= MAX_PAYLOAD.
Proof.
  intros Hi. unfold read_frame, HEADER_LEN, TRAILER_LEN.
  destruct (Z.ltb_spec (len incoming) 6) as [|Hl]; [by split_and!; [constructor|..]|].
  assert (Hd : bytes_ok (drop (Z.to_nat 6) incoming)) by by apply Forall_drop.
  destruct (negb _); [by split_and!|].
  assert (Lh : len (take (Z.to_nat 6) incoming) = 6) by (apply len_take; lia).
  destruct (u16_at_is_Some (take (Z.to_nat 6) incoming) 4) as [n En]; [lia|lia|]. rewrite En.
  destruct (_ <? n); [by split_and!|]. destruct (_ <? n + 2); [by split_and!; [constructor|..]|].
  split; [by apply Forall_drop|]. pose proof (decode_no_panic (take (Z.to_nat (6 + n + 2)) incoming)).
  destruct (decode _) as [[[ty seq] payload]| |] eqn:E; [|done|done]. split; [done|].
  intros ty' seq' payload' [= <- <- <-]. apply decode_sound in E as [E Hp]; [|by apply Forall_take].
  split; [|done]. by rewrite <-E, take_drop.
Qed.

(** A frame followed by anything is read back. *)
Lemma read_frame_bytes ty seq payload rest :
  is_byte ty -> is_byte seq -> bytes_ok payload -> len payload <= MAX_PAYLOAD ->
  read_frame (frame_bytes ty seq payload ++ rest) = (Ok (ty, seq, payload), rest).
Proof.
  intros Ht Hs Hp Hl. unfold read_frame. pose proof (len_frame_bytes ty seq payload) as Lf.
  pose proof (len_nonneg payload). pose proof (len_nonneg rest). unfold HEADER_LEN, TRAILER_LEN in *.
  rewrite (proj2 (Z.ltb_ge _ _)) by (rewrite len_app; lia).
  assert (Hh : take (Z.to_nat 6) (frame_bytes ty seq payload ++ rest)
    = le16 MAGIC ++ [ty; seq] ++ le16 (len payload)).
  { unfold frame_bytes, frame_body. rewrite <-!app_assoc. done. }
  rewrite Hh, bool_decide_true by done. cbn [negb].
  assert (Hn : u16_at (le16 MAGIC ++ [ty; seq] ++ le16 (len payload)) 4 = Some (len payload)).
  { rewrite <-(app_nil_r (le16 (len payload))), app_assoc. apply u16_at_app; [done|].
    unfold MAX_PAYLOAD in Hl. unfold fits. lia. }
  rewrite Hn, (proj2 (Z.ltb_ge _ _)) by done.
  rewrite len_drop by (rewrite len_app; lia). rewrite len_app, (proj2 (Z.ltb_ge _ _)) by lia.
  replace (Z.to_nat (6 + len payload + 2)) with (length (frame_bytes ty seq payload)) by (unfold len in *; lia).
  by rewrite take_app_length, drop_app_length, decode_frame_bytes.
Qed.

(** A request the device answers with one frame of the same sequence number. *)
Lemma session_request_answer {D} (device : D -> list Z -> D * option (list Z)) u d d' ty ty' payload payload' :
  uc_stream u = [] -> len payload <= MAX_PAYLOAD -> is_byte ty' -> bytes_ok payload' -> len payload' <= MAX_PAYLOAD ->
  let seq := wrapping_add 8 (uc_sequence u) 1 in
  device d (frame_bytes ty seq payload) = (d', Some (frame_bytes ty' seq payload')) ->
  session_request device (u, d) ty payload
  = (u <| uc_sequence := seq |> <| uc_stream := [] |>, d',
     Ok {| ur_message_type := ty'; ur_payload := payload' |}).
Proof.
  intros Hu Hp Ht Hp' Hl seq Hd. unfold session_request. fold seq. rewrite write_frame_ok by done. rewrite Hd.
  unfold UpstreamControl_request. fold seq. rewrite write_frame_ok by done.
  change (uc_stream (u <| uc_sequence := seq |>)) with (uc_stream u). rewrite Hu. cbn [app].
  assert (Hseq : is_byte seq) by (apply wrap_fits; lia).
  rewrite <-(app_nil_r (frame_bytes ty' seq payload')), read_frame_bytes by done. rewrite bind_Ok.
  by rewrite Z.eqb_refl.
Qed.

(** ** Lemmas: a page of definitions *)

Definition sized (d : ParameterDefinition) : Prop := ParameterDefinition_size d <> 0.

(** [new] continues the numbering at [index]. *)
Definition numbered (index : Z) (new : list ParameterDefinition) : Prop :=
  (pd_index <$> new) = seqZ index (len new) /\ Forall sized new.

Lemma numbered_nil index : numbered index [].
Proof. by split; [|constructor]. Qed.

Lemma numbered_cons d new : sized d -> numbered (pd_index d + 1) new -> numbered (pd_index d) (d :: new).
Proof.
  intros Hd [Hi Hs]. split; [|by constructor]. cbn [fmap list_fmap]. rewrite len_cons.
  rewrite (seqZ_cons (pd_index d)) by (pose proof (len_nonneg new); lia). rewrite Hi. do 2 f_equal; lia.
Qed.

Lemma numbered_app i new1 new2 :
  numbered i new1 -> numbered (i + len new1) new2 -> numbered i (new1 ++ new2).
Proof.
  intros [H1 S1] [H2 S2]. split; [|by apply Forall_app]. rewrite fmap_app, H1, H2, len_app.
  symmetry. apply seqZ_app; apply len_nonneg.
Qed.

(** A page never panics unless it numbers more than 65536 parameters. *)
Lemma parse_page_spec fuel payload offset i result :
  0 <= offset -> 0 <= i -> len payload - offset <= Z.of_nat fuel ->
  match parse_page fuel payload offset i result with
  | Ok (result', i') => exists new, result' = result ++ new /\ numbered i new /\ i' = i + len new
  | Err _ => True
  | Panic => 5 * (umax 16 - i) < len payload - offset
  end.
Proof.
  revert offset i result. induction fuel as [|fuel IH]; intros offset i result Ho Hi Hf; cbn [parse_page];
    (destruct (Z.leb_spec (len payload) offset) as [|Hl];
      [exists []; rewrite app_nil_r; split; [done|]; split; [apply numbered_nil|unfold len; cbn; lia]|]); [lia|].
  rewrite slice_ok by lia. rewrite bind_or_panic. set (rest := take _ _).
  assert (Lr : len rest = len payload - offset).
  { subst rest. rewrite take_ge by (rewrite length_drop; unfold len; lia). apply len_drop. lia. }
  pose proof (nul_position_spec rest) as Hn. destruct (nul_position rest) as [n|]; cbn [ok_or]; [|done].
  rewrite bind_Ok. destruct Hn as [Hn _].
  destruct (Z.ltb_spec (len payload) (offset + n + 5)) as [|He]; [done|].
  rewrite slice_ok by lia. rewrite bind_or_panic. set (name := take _ (drop _ payload)).
  unfold from_utf8. destruct (utf8_valid name); [|done]. rewrite bind_Ok.
  destruct (index_is_Some payload (offset + n + 1)) as [ty ->]; [lia|]. rewrite bind_or_panic.
  destruct (u16_at_is_Some payload (offset + n + 2)) as [count ->]; [lia|lia|]. rewrite bind_or_panic.
  destruct (index_is_Some payload (offset + n + 4)) as [w ->]; [lia|]. rewrite bind_or_panic.
  destruct (1 <? w); [done|]. set (d := Build_ParameterDefinition _ _ _ _).
  destruct (Z.eqb_spec (ParameterDefinition_size d) 0) as [|Hsz]; [done|].
  destruct (Z.ltb_spec (umax 16) (i + 1)) as [|Hu]; [lia|].
  specialize (IH (offset + n + 5) (i + 1) (result ++ [d]) ltac:(lia) ltac:(lia) ltac:(lia)).
  destruct (parse_page fuel payload (offset + n + 5) (i + 1) (result ++ [d])) as [[result' i']| |];
    [|done|lia].
  destruct IH as (new & -> & Hnew & ->). exists (d :: new). rewrite <-app_assoc, len_cons.
  split; [done|]. split; [by apply (numbered_cons d)|lia].
Qed.

(** ** Discovery of an arbitrary device *)

(** A connection that carries bytes. *)
Definition session_ok {D} (s : UpstreamControl * D) : Prop :=
  bytes_ok (uc_stream s.1) /\ is_byte (uc_sequence s.1).

(** A device that sends bytes. *)
Definition sends_bytes {D} (device : D -> list Z -> D * option (list Z)) : Prop :=
  forall d l, bytes_ok l -> match (device d l).2 with Some a => bytes_ok a | None => True end.

Section discovery_lemmas.
Context {D : Type} (device : D -> list Z -> D * option (list Z)).
Hypothesis device_bytes : sends_bytes device.

Lemma session_request_ok s ty payload :
  session_ok s -> is_byte ty -> bytes_ok payload -> len payload <= MAX_PAYLOAD ->
  let '(s', r) := session_request device s ty payload in
  session_ok s' /\ r <> Panic /\ (forall a, r = Ok a -> len (ur_payload a) <= MAX_PAYLOAD).
Proof using device_bytes.
  intros [Hb Hs] Ht Hpb Hp. destruct s as [u d]. cbn [fst] in *. unfold session_request.
  assert (Hseq : is_byte (wrapping_add 8 (uc_sequence u) 1)) by (apply wrap_fits; lia).
  rewrite write_frame_ok by done.
  pose proof (device_bytes d (frame_bytes ty (wrapping_add 8 (uc_sequence u) 1) payload)
    (frame_bytes_ok _ _ _ Ht Hseq Hpb)) as Hd.
  destruct (device d _) as [d' arrived]. cbn [snd] in Hd. unfold UpstreamControl_request.
  rewrite write_frame_ok by done.
  destruct arrived as [arrived|]; [|by split_and!].
  pose proof (read_frame_ok (uc_stream u ++ arrived)) as Hr.
  destruct (read_frame _) as [r rest]. destruct Hr as (Hrest & Hn & Hok); [by apply Forall_app|].
  cbn [uc_stream set const]. destruct r as [[[rt rs] rp]| |]; [|by split_and!|done].
  rewrite bind_Ok. split; [done|]. destruct (negb _); [by split|]. split; [done|].
  intros a [= <-]. by destruct (Hok _ _ _ eq_refl).
Qed.

(** A page of the expected range holds the next definitions. *)
Lemma parse_params_ok response start count result :
  0 <= start < count -> len (ur_payload response) <= MAX_PAYLOAD ->
  match parse_params response start count result with
  | Ok (result', next) => exists new, result' = result ++ new /\ numbered start new
      /\ next = start + len new /\ start < next <= count
  | Err _ => True
  | Panic => 5 * (umax 16 - start) < MAX_PAYLOAD
  end.
Proof.
  intros Hs Hl. unfold parse_params. destruct (_ || _) eqn:Hg; [done|]. bool_facts.
  destruct (u16_at_is_Some (ur_payload response) 0) as [returned ->]; [lia|lia|]. rewrite bind_or_panic.
  destruct (u16_at_is_Some (ur_payload response) 2) as [next ->]; [lia|lia|]. rewrite bind_or_panic.
  destruct (_ || _) eqn:Hr; [done|]. bool_facts.
  pose proof (parse_page_spec (length (ur_payload response)) (ur_payload response) 4 start result
    ltac:(lia) ltac:(lia) ltac:(unfold len; lia)) as Hp.
  destruct (parse_page _ _ _ _ _) as [[result' i']| |]; [|done|change (5 * (umax 16 - start) < MAX_PAYLOAD); lia].
  destruct Hp as (new & -> & Hnew & ->). rewrite bind_Ok. destruct (Z.eqb_spec (start + len new) next); [|done].
  cbn [negb]. exists new. split_and!; (done || lia).
Qed.

Lemma discover_loop_ok fuel s start count result :
  session_ok s -> 0 <= start -> (Z.to_nat (count - start) <= fuel)%nat ->
  let '(s', r) := discover_loop device fuel s start count result in
  session_ok s' /\ (r = Panic -> 5 * (umax 16 - count) < MAX_PAYLOAD)
  /\ forall l, r = Ok l -> exists new, l = result ++ new /\ numbered start new
                          /\ len new = Z.max 0 (count - start).
Proof using device_bytes.
  revert s start result. induction fuel as [|fuel IH]; intros s start result Hs Hst Hf; cbn [discover_loop];
    (destruct (Z.leb_spec count start) as [|Hc];
      [split; [done|]; split; [done|]; intros l [= <-]; exists []; rewrite app_nil_r;
       split; [done|]; split; [apply numbered_nil|unfold len; cbn; lia]|]); [lia|].
  pose proof (session_request_ok s (MsgType_u8 GetParams) (le16 start) Hs) as Hr.
  destruct (session_request _ _ _ _) as [s1 r].
  destruct Hr as (Hs1 & Hn & Hok); [by vm_compute|apply le_bytes_ok|by vm_compute|]. cbn [and_then].
  destruct r as [response| |]; [|by split_and!|done]. specialize (Hok _ eq_refl).
  pose proof (parse_params_ok response start count result ltac:(lia) Hok) as Hp.
  destruct (parse_params _ _ _ _) as [[result' next]| |];
    [|by split_and!|split; [done|split; [intros _; lia|done]]].
  destruct Hp as (new & -> & Hnew & -> & Hrange).
  specialize (IH s1 (start + len new) (result ++ new) Hs1 ltac:(lia) ltac:(lia)).
  destruct (discover_loop _ _ _ _ _ _) as [s2 r2]. destruct IH as (Hs2 & Hn2 & Hl).
  split; [done|]. split; [done|]. intros l ->. destruct (Hl _ eq_refl) as (new2 & -> & Hnew2 & Ln).
  exists (new ++ new2). rewrite <-app_assoc. split; [done|].
  split; [by apply numbered_app|rewrite len_app; lia].
Qed.

(** Every turn raises [start]: enough fuel is enough. *)
Lemma parse_params_next response start count result result' next :
  parse_params response start count result = Ok (result', next) -> start < next.
Proof using Type.
  unfold parse_params. destruct (_ || _); [done|].
  destruct (u16_at (ur_payload response) 0) as [returned|]; [|done]. rewrite bind_or_panic.
  destruct (u16_at (ur_payload response) 2) as [next'|]; [|done]. rewrite bind_or_panic.
  destruct (_ || _) eqn:Hr; [done|]. bool_facts.
  destruct (parse_page _ _ _ _ _) as [[l i]| |]; [|done|done]. rewrite bind_Ok.
  destruct (negb _); [done|]. intros [= _ <-]. lia.
Qed.

Lemma discover_loop_fuel fuel1 fuel2 s start count result :
  (Z.to_nat (count - start) <= fuel1)%nat -> (Z.to_nat (count - start) <= fuel2)%nat ->
  discover_loop device fuel1 s start count result = discover_loop device fuel2 s start count result.
Proof using Type.
  revert fuel2 s start result. induction fuel1 as [|fuel1 IH]; intros fuel2 s start result H1 H2;
    destruct fuel2 as [|fuel2]; cbn [discover_loop]; (destruct (Z.leb_spec count start); [done|]); try lia.
  destruct (session_request _ _ _ _) as [s1 [response| |]]; [|done|done]. cbn [and_then].
  destruct (parse_params response start count result) as [[result' next]| |] eqn:E; [|done|done].
  apply parse_params_next in E. apply IH; lia.
Qed.

Lemma discover_parameters_ok s count :
  session_ok s ->
  let '(s', r) := discover_parameters device s count in
  session_ok s' /\ (r = Panic -> 65330 < count)
  /\ forall l, r = Ok l -> numbered 0 l /\ len l = Z.max 0 count /\ NoDup (pd_name <$> l).
Proof using device_bytes.
  intros Hs. unfold discover_parameters.
  pose proof (discover_loop_ok (Z.to_nat count) s 0 count [] Hs ltac:(lia) ltac:(lia)) as Hl.
  destruct (discover_loop _ _ _ _ _ _) as [s' r]. destruct Hl as (Hs' & Hn & Hok).
  unfold umax, MAX_PAYLOAD in Hn.
  destruct r as [l| |]; cbn [and_then]; [|by split_and!|split; [done|split; [intros _; specialize (Hn eq_refl); lia|done]]].
  destruct (Hok _ eq_refl) as (new & -> & Hnew & Ln). cbn [app].
  destruct (bool_decide_reflect (NoDup (pd_name <$> new))); [|by split_and!].
  split; [done|]. split; [done|]. intros l [= <-]. split_and!; [done|lia|done].
Qed.

(** ** The rest of discovery never panics *)

Lemma session_request_no_panic s ty payload :
  session_ok s -> is_byte ty -> bytes_ok payload -> len payload <= MAX_PAYLOAD ->
  session_ok (session_request device s ty payload).1 /\ (session_request device s ty payload).2 <> Panic.
Proof using device_bytes.
  intros Hs Ht Hb Hl. pose proof (session_request_ok s ty payload Hs Ht Hb Hl) as Hr.
  destruct (session_request device s ty payload) as [s' r]. by destruct Hr as (? & ? & _).
Qed.

Lemma parse_status_no_panic status : parse_status status <> Panic.
Proof using Type.
  unfold parse_status. destruct (_ || _) eqn:Hg; [done|]. bool_facts.
  destruct (index_is_Some (ur_payload status) 0) as [v ->]; [lia|]. rewrite bind_or_panic.
  destruct (negb _); [done|].
  destruct (u16_at_is_Some (ur_payload status) 1) as [n ->]; [lia|lia|]. rewrite bind_or_panic.
  destruct (index_is_Some (ur_payload status) 3) as [k ->]; [lia|]. rewrite bind_or_panic.
  by rewrite slice_ok by lia.
Qed.

Lemma decode_nul_ascii_ok payload offset :
  0 <= offset <= len payload ->
  match decode_nul_ascii payload offset with
  | Ok (_, next) => offset < next <= len payload
  | Err _ => True
  | Panic => False
  end.
Proof using Type.
  intros Ho. unfold decode_nul_ascii. rewrite slice_ok by lia. rewrite bind_or_panic. set (rest := take _ _).
  assert (Lr : len rest = len payload - offset).
  { subst rest. rewrite take_ge by (rewrite length_drop; unfold len; lia). apply len_drop. lia. }
  pose proof (nul_position_spec rest) as Hn. destruct (nul_position rest) as [n|]; cbn [ok_or]; [|done].
  rewrite bind_Ok. destruct Hn as [Hn _]. rewrite slice_ok by lia. rewrite bind_or_panic.
  unfold from_utf8. destruct (utf8_valid _); [|done]. rewrite bind_Ok. lia.
Qed.

Lemma parse_sources_no_panic fuel payload offset result :
  0 <= offset <= len payload -> len payload - offset <= Z.of_nat fuel ->
  parse_sources fuel payload offset result <> Panic.
Proof using Type.
  revert offset result. induction fuel as [|fuel IH]; intros offset result Ho Hf; cbn [parse_sources];
    (destruct (Z.leb_spec (len payload) offset); [done|]); [lia|].
  pose proof (decode_nul_ascii_ok payload offset Ho) as H1.
  destruct (decode_nul_ascii payload offset) as [[name next]| |]; [|done|done]. rewrite bind_Ok.
  pose proof (decode_nul_ascii_ok payload next ltac:(lia)) as H2.
  destruct (decode_nul_ascii payload next) as [[unit next']| |]; [|done|done]. rewrite bind_Ok. apply IH; lia.
Qed.

Lemma discover_sources_no_panic s count :
  session_ok s ->
  session_ok (discover_sources device s count).1 /\ (discover_sources device s count).2 <> Panic.
Proof using device_bytes.
  intros Hs. unfold discover_sources.
  destruct (session_request_no_panic s (MsgType_u8 GetSources) [] Hs) as [Hs1 Hn];
    [by vm_compute|constructor|by vm_compute|].
  destruct (session_request device s _ _) as [s1 [response| |]]; [|done|done]. cbn [and_then fst snd] in *.
  split; [done|]. destruct (negb _); [done|]. set (payload := ur_payload response).
  pose proof (parse_sources_no_panic (length payload) payload 0 [] ltac:(pose proof (len_nonneg payload); lia)
    ltac:(unfold len; lia)) as Hp.
  destruct (parse_sources _ _ _ _) as [result| |]; [|done|done]. rewrite bind_Ok. by destruct (negb _).
Qed.

Lemma read_char_parameter_no_panic s parameters name :
  session_ok s ->
  session_ok (read_char_parameter device s parameters name).1
  /\ (read_char_parameter device s parameters name).2 <> Panic.
Proof using device_bytes.
  intros Hs. unfold read_char_parameter. destruct (find _ parameters) as [p|]; [|done].
  destruct (negb _); [done|].
  destruct (session_request_no_panic s (MsgType_u8 GetPar) (le16 (pd_index p)) Hs) as [Hs1 Hn];
    [by vm_compute|apply le_bytes_ok|by vm_compute|].
  destruct (session_request device s _ _) as [s1 [response| |]]; [|done|done]. cbn [and_then fst snd] in *.
  split; [done|]. destruct (_ || _); [done|]. set (payload := ur_payload response).
  assert (Hend : 0 <= default (len payload) (nul_position payload) <= len payload).
  { pose proof (nul_position_spec payload) as Hp. pose proof (len_nonneg payload).
    destruct (nul_position payload); cbn; lia. }
  rewrite slice_ok by lia. rewrite bind_or_panic. unfold from_utf8. by destruct (utf8_valid _).
Qed.

(** The count a device announces_parameters in its [Status] response. *)
Definition announces_parameters (s : UpstreamControl * D) (count : Z) : Prop :=
  exists response, (session_request device s (MsgType_u8 Status) []).2 = Ok response
    /\ u16_at (ur_payload response) 1 = Some count.

Lemma parse_status_count status count n rate :
  parse_status status = Ok (count, n, rate) -> u16_at (ur_payload status) 1 = Some count.
Proof using Type.
  unfold parse_status. destruct (_ || _); [done|]. destruct (Prelude.index _ 0); [|done]. rewrite bind_or_panic.
  destruct (negb _); [done|]. destruct (u16_at _ 1) as [c|]; [|done]. rewrite bind_or_panic.
  destruct (Prelude.index _ 3); [|done]. rewrite bind_or_panic. destruct (slice _ _ _); [|done].
  rewrite bind_or_panic. by intros [= -> _ _].
Qed.

(** Discovery panics only at the overflow of the parameter index. *)
Lemma discover_device_panics s mac :
  session_ok s -> (discover_device device s mac).2 = Panic ->
  exists count, announces_parameters s count /\ 65330 < count.
Proof using device_bytes.
  intros Hs. unfold discover_device.
  destruct (session_request_no_panic s (MsgType_u8 Status) [] Hs) as [Hs1 Hn];
    [by vm_compute|constructor|by vm_compute|].
  destruct (session_request device s (MsgType_u8 Status) []) as [s1 [status| |]] eqn:Es; [|done|done].
  cbn [and_then fst snd] in *. pose proof (parse_status_no_panic status) as Hp.
  destruct (parse_status status) as [[[count n] rate]| |] eqn:Ep; [|done|done]. cbn [and_then].
  pose proof (discover_parameters_ok s1 count Hs1) as Hd.
  destruct (discover_parameters device s1 count) as [s2 [parameters| |]]; cbn [and_then]; [|done|].
  2:{ intros _. exists count. split; [|by apply Hd]. exists status. rewrite Es.
      split; [done|]. by eapply parse_status_count. }
  destruct Hd as (Hs2 & _). destruct (discover_sources_no_panic s2 n Hs2) as [Hs3 Hn3].
  destruct (discover_sources device s2 n) as [s3 [sources| |]]; cbn [and_then fst snd] in *; [|done|done].
  destruct (read_char_parameter_no_panic s3 parameters (bytes_of "experiment") Hs3) as [Hs4 Hn4].
  destruct (read_char_parameter device s3 _ _) as [s4 [experiment| |]]; cbn [and_then fst snd] in *; [|done|done].
  destruct (read_char_parameter_no_panic s4 parameters (bytes_of "firmware") Hs4) as [Hs5 Hn5].
  by destruct (read_char_parameter device s4 _ _) as [s5 [firmware| |]].
Qed.
End discovery_lemmas.

(** C30. Discovery of the parameters of any device ends: every request it makes
    raises the start of the next page, so that more turns than [count] change
    nothing.  Whatever the device answers, the definitions it accepts are numbered
    from 0 to [count] - 1 without a gap, have distinct names and known types, and
    are not empty.  It panics only for a device that announces_parameters more than 65330
    parameters: there a page can carry the [u16] index beyond its range. *)
Theorem discovery_accepts_registries {D : Type} (device : D -> list Z -> D * option (list Z))
    (s : UpstreamControl * D) (count : Z)
    (Hd : sends_bytes device) (Hs : session_ok s) (Hc : fits 16 count) :
  let '(s', r) := discover_parameters device s count in
  session_ok s'
  /\ (forall fuel, (Z.to_nat count <= fuel)%nat ->
        discover_loop device fuel s 0 count [] = discover_loop device (Z.to_nat count) s 0 count [])
  /\ (r = Panic -> 65330 < count)
  /\ forall l, r = Ok l -> (pd_index <$> l) = seqZ 0 count /\ NoDup (pd_name <$> l)
       /\ Forall (fun d => ParameterDefinition_size d <> 0) l.
Proof.
  pose proof (discover_parameters_ok device Hd s count Hs) as Hp.
  destruct (discover_parameters device s count) as [s' r]. destruct Hp as (Hs' & Hn & Hok).
  split; [done|]. split; [intros fuel Hf; apply discover_loop_fuel; lia|]. split; [done|].
  intros l Hl. destruct (Hok l Hl) as ([Hi Hsz] & Ln & Hnd). rewrite Hi, Ln. unfold fits in Hc.
  split_and!; [f_equal; lia|done|done].
Qed.

(** A device with the two parameters [a] (f32) and [bc] (two bytes). *)
Definition two_parameters (d : unit) (request : list Z) : unit * option (list Z) :=
  (d, '(ty, seq, _) ← match decode request with Ok f => Some f | _ => None end;
      Some (frame_bytes ty seq (le16 0 ++ le16 2 ++ [97; 0; 102; 1; 0; 1] ++ [98; 99; 0; 66; 2; 0; 0]))).

Definition demo_session_start : UpstreamControl * unit :=
  ({| uc_stream := []; uc_sequence := 0; uc_generation := 1; uc_peer_ip := 7; uc_udp := 40000 |}, ()).

Lemma demo_discovery :
  (discover_parameters two_parameters demo_session_start 2).2
  = Ok [{| pd_index := 0; pd_name := [97]; pd_type_code := 102; pd_count := 1 |};
        {| pd_index := 1; pd_name := [98; 99]; pd_type_code := 66; pd_count := 2 |}].
Proof. by vm_compute. Qed.

Lemma two_parameters_bytes : sends_bytes two_parameters.
Proof.
  intros d l Hl. unfold two_parameters. cbn [snd]. destruct (decode l) as [[[ty seq] p]| |] eqn:E; [|done|done].
  rewrite bind_Some. apply decode_sound in E as [-> _]; [|done]. unfold frame_bytes, frame_body in Hl.
  apply Forall_app in Hl as [_ Hl]. apply Forall_app in Hl as [Hl _].
  apply Forall_cons in Hl as [Ht Hl]. apply Forall_cons in Hl as [Hs _].
  apply frame_bytes_ok; [done|done|bytes_solve].
Qed.

Lemma discovery_accepts_registries_witness :
  exists l, (discover_parameters two_parameters demo_session_start 2).2 = Ok l
    /\ (pd_index <$> l) = seqZ 0 2 /\ NoDup (pd_name <$> l).
Proof.
  assert (Hs : session_ok demo_session_start) by (by split; [constructor|]).
  pose proof (discovery_accepts_registries two_parameters demo_session_start 2 two_parameters_bytes
    Hs ltac:(unfold fits; lia)) as H.
  pose proof demo_discovery as Hd. revert H Hd. generalize (discover_parameters two_parameters demo_session_start 2).
  intros [s' r] H Hd. destruct H as (_ & _ & _ & H). cbn [snd] in *. eexists. split; [exact Hd|].
  by destruct (H _ Hd) as (H1 & H2 & _).
Defined.

(** ** The overflow of the parameter index is real

    The index of a page's definitions is checked against the announced range after
    the page, not as it goes: a device that announces_parameters 65535 parameters, sends them
    one by one and adds one to the last page takes [index += 1] to 65536, which
    panics where overflow is checked. *)

(** One definition [a] (f32) for each page, two for the last. *)
Definition one_definition : list Z := [97; 0; 102; 1; 0; 1].

Definition overflowing (d : unit) (request : list Z) : unit * option (list Z) :=
  (d, '(_, seq, payload) ← match decode request with Ok f => Some f | _ => None end;
      start ← u16_at payload 0;
      Some (frame_bytes (MsgType_u8 GetParams) seq (le16 start ++ le16 (start + 1)
              ++ (if start =? 65534 then one_definition ++ one_definition else one_definition)))).

Lemma overflowing_answer u start :
  uc_stream u = [] -> fits 16 start -> fits 16 (start + 1) ->
  let page := le16 start ++ le16 (start + 1)
                ++ (if start =? 65534 then one_definition ++ one_definition else one_definition) in
  session_request overflowing (u, ()) (MsgType_u8 GetParams) (le16 start)
  = (u <| uc_sequence := wrapping_add 8 (uc_sequence u) 1 |> <| uc_stream := [] |>, (),
     Ok {| ur_message_type := MsgType_u8 GetParams; ur_payload := page |}).
Proof.
  intros Hu Hs Hs1 page.
  assert (Hpage : bytes_ok page /\ len page <= MAX_PAYLOAD).
  { subst page. split.
    - apply Forall_app; split; [apply le_bytes_ok|]. apply Forall_app; split; [apply le_bytes_ok|].
      destruct (_ =? _); bytes_solve.
    - rewrite !len_app. change (len (le16 _)) with 2. by destruct (_ =? _). }
  apply session_request_answer; [done|by vm_compute|by vm_compute|apply Hpage|apply Hpage|].
  unfold overflowing. rewrite decode_frame_bytes; [|by vm_compute|apply wrap_fits; lia|apply le_bytes_ok|by vm_compute].
  assert (Hat : u16_at (le16 start) 0 = Some start)
    by (rewrite <-(app_nil_r (le16 start)); by apply (u16_at_app [])).
  by rewrite bind_Some, Hat, bind_Some.
Qed.

Lemma parse_page_one a b c d index result :
  parse_page 10 ([a; b; c; d] ++ one_definition) 4 index result
  = if umax 16 <? index + 1 then Panic
    else Ok (result ++ [{| pd_index := index; pd_name := [97]; pd_type_code := 102; pd_count := 1 |}], index + 1).
Proof. reflexivity. Qed.

Lemma parse_page_two a b c d result :
  parse_page 16 ([a; b; c; d] ++ one_definition ++ one_definition) 4 65534 result = Panic.
Proof. reflexivity. Qed.

Lemma discover_loop_S {D} (device : D -> list Z -> D * option (list Z)) fuel s start count result :
  start < count ->
  discover_loop device (S fuel) s start count result
  = and_then (session_request device s (MsgType_u8 GetParams) (le16 start)) (fun s response =>
      match parse_params response start count result with
      | Ok (result, next) => discover_loop device fuel s next count result
      | Err e => (s, Err e)
      | Panic => (s, Panic)
      end).
Proof. intros Hs. cbn [discover_loop]. by rewrite (proj2 (Z.leb_gt _ _)). Qed.

(** What the checks of a page leave: its definitions are parsed. *)
Lemma parse_params_header start rest count result :
  fits 16 start -> start + 1 <= count <= umax 16 ->
  parse_params {| ur_message_type := MsgType_u8 GetParams; ur_payload := le16 start ++ le16 (start + 1) ++ rest |}
    start count result
  = ('(result, index) ← parse_page (4 + length rest) (le16 start ++ le16 (start + 1) ++ rest) 4 start result;
     if negb (index =? start + 1) then Err PageCountMismatch else Ok (result, start + 1)).
Proof.
  intros Hs Hc. assert (Hs1 : fits 16 (start + 1)) by (unfold fits, umax in *; lia).
  unfold parse_params. cbn [ur_message_type ur_payload]. rewrite Z.eqb_refl. cbn [negb orb].
  pose proof (len_nonneg rest).
  rewrite (proj2 (Z.ltb_ge _ _)) by (rewrite !len_app; change (len (le16 _)) with 2; lia).
  pose proof (u16_at_app [] (le16 (start + 1) ++ rest) start 0 eq_refl Hs) as E0. cbn [app] in E0.
  rewrite E0, bind_or_panic, (u16_at_app (le16 start) rest (start + 1) 2), bind_or_panic by done.
  by rewrite Z.eqb_refl, (proj2 (Z.leb_gt _ _)), (proj2 (Z.ltb_ge _ _)) by lia.
Qed.

Lemma overflowing_loop n u start result :
  uc_stream u = [] -> 0 <= start -> start + Z.of_nat n = 65534 ->
  (discover_loop overflowing (S n) (u, ()) start 65535 result).2 = Panic.
Proof.
  revert u start result. induction n as [|n IH]; intros u start result Hu Hs Hn;
    rewrite discover_loop_S by lia;
    rewrite overflowing_answer by (done || unfold fits; lia);
    cbn [and_then]; rewrite parse_params_header by (unfold fits, umax; lia).
  - by replace start with 65534 by lia.
  - rewrite (proj2 (Z.eqb_neq _ _)) by lia.
    change (4 + length one_definition)%nat with 10%nat.
    change (le16 start ++ le16 (start + 1) ++ one_definition) with
      ([start mod 256; start / 256 mod 256; (start + 1) mod 256; (start + 1) / 256 mod 256] ++ one_definition).
    rewrite parse_page_one, (proj2 (Z.ltb_ge _ _)) by (unfold umax; lia).
    rewrite bind_Ok, Z.eqb_refl. cbn [negb]. apply IH; [done|lia|lia].
Qed.

Lemma index_overflow_panics :
  (discover_parameters overflowing demo_session_start 65535).2 = Panic.
Proof.
  unfold discover_parameters. pose proof (overflowing_loop (Z.to_nat 65534)
    {| uc_stream := []; uc_sequence := 0; uc_generation := 1; uc_peer_ip := 7; uc_udp := 40000 |} 0 []
    eq_refl ltac:(lia) ltac:(lia)) as Hl.
  rewrite (discover_loop_fuel overflowing _ (S (Z.to_nat 65534))) by lia.
  destruct (discover_loop _ _ _ _ _ _) as [s [l|e|]]; done.
Qed.
