(* ===== verification/History.v ===== *)
(** * Broker history (helic-broker/src/history.rs)

    The bounded packet history of the host broker and the exact-record replay
    of its most recent part. *)

From S2P Require Import Prelude Proto StreamPacket.

Record Packet := {
  pk_wire : list Z;               (* Arc<[u8]> *)
  pk_header : StreamHeader;
  pk_received_utc_ns : Z          (* i64 *)
}.

(** The messages of [Packet::decode]'s [bail!]s. *)
Inductive PacketError := InvalidHeader | EmptyPacket | WrongLength.

Definition Packet_decode (wire : list Z) (received_utc_ns : Z) : outcome PacketError Packet :=
  header ← map_err (fun _ => InvalidHeader) (StreamHeader_decode wire);
  if (sh_n_sources header =? 0) || (sh_n_records header =? 0) then Err EmptyPacket
  else
    let expected := STREAM_HEADER_LEN + 4 * sh_n_sources header * sh_n_records header in
    if negb (len wire =? expected) then Err WrongLength
    else Ok {| pk_wire := wire; pk_header := header; pk_received_utc_ns := received_utc_ns |}.

Record History := {
  hi_packets : list Packet;       (* VecDeque, front first *)
  hi_records : Z;                 (* usize *)
  hi_capacity_records : Z         (* usize *)
}.

Definition History_default : History :=
  {| hi_packets := []; hi_records := 0; hi_capacity_records := 0 |}.

Definition History_reset (h : History) (capacity_records : Z) : History :=
  {| hi_packets := []; hi_records := 0; hi_capacity_records := Z.max capacity_records 1 |}.

Definition History_clear (h : History) : History :=
  h <| hi_packets := [] |> <| hi_records := 0 |>.

(** The [while] loop of [push]: packets leave at the front.  [None] is the
    underflow panic of [self.records -= n]. *)
Fixpoint trim_front (capacity : Z) (packets : list Packet) (records : Z)
    : option (list Packet * Z) :=
  match packets with
  | removed :: ((_ :: _) as rest) =>
      if capacity <? records then
        if records <? sh_n_records (pk_header removed) then None
        else trim_front capacity rest (records - sh_n_records (pk_header removed))
      else Some (packets, records)
  | _ => Some (packets, records)
  end.

Definition History_push (h : History) (packet : Packet) : option History :=
  '(packets, records) ← trim_front (hi_capacity_records h) (hi_packets h ++ [packet])
                          (hi_records h + sh_n_records (pk_header packet));
  Some (h <| hi_packets := packets |> <| hi_records := records |>).

(** The loop over [self.packets.iter().rev()]: the packets selected, newest
    first, and the records they hold. *)
Fixpoint select_recent (requested : Z) (newest_first : list Packet) (selected : list Packet)
    (records : Z) : list Packet * Z :=
  match newest_first with
  | [] => (selected, records)
  | packet :: older =>
      let selected := selected ++ [packet] in
      let records := records + sh_n_records (pk_header packet) in
      if requested <=? records then (selected, records)
      else select_recent requested older selected records
  end.

(** The oldest selected packet without its first [excess] records. *)
Definition trim_packet (first : Packet) (excess : Z) : option (list Z) :=
  let header := pk_header first in
  let record_bytes := 4 * sh_n_sources header in
  let payload_offset := STREAM_HEADER_LEN + excess * record_bytes in
  let first_index := wrapping_add 32 (sh_first_index header)
                       (wrapping_mul 32 (wrap 32 excess) (sh_decimation header)) in
  (* [header.n_records -= excess as u16] panics on underflow *)
  if sh_n_records header <? wrap 16 excess then None else
  let header := mkStreamHeader (sh_n_sources header) (sh_seq header) first_index
                  (sh_dropped header) (sh_decimation header)
                  (sh_n_records header - wrap 16 excess) in
  wire ← StreamHeader_encode header (replicate (Z.to_nat STREAM_HEADER_LEN) 0);
  rest ← slice (pk_wire first) payload_offset (len (pk_wire first));
  Some (wire ++ rest).

(** [History::recent]; [Err tt] is its [None]. *)
Definition History_recent (h : History) (requested : Z) : outcome unit (list (list Z)) :=
  if (requested =? 0) || (hi_records h <? requested) then Err tt
  else
    let '(selected, records) := select_recent requested (rev (hi_packets h)) [] 0 in
    let selected := rev selected in
    (* [records - requested] panics on underflow *)
    if records <? requested then Panic else
    let excess := records - requested in
    first ← or_panic (index selected 0);
    wire ← (if excess =? 0 then Ok (pk_wire first) else or_panic (trim_packet first excess));
    Ok (wire :: (pk_wire <$> drop 1 selected)).

(** ** Specification: the sequence of records *)

(** Consecutive rows of [w] bytes. *)
Fixpoint rows (w n : nat) (l : list Z) : list (list Z) :=
  match n with
  | O => []
  | S n => take w l :: rows w n (drop w l)
  end.

(** The sample index of a row: the packet's first index, then one decimation
    step for each row. *)
Definition row_index (h : StreamHeader) (row : nat) : Z :=
  wrapping_add 32 (sh_first_index h) (Z.of_nat row * sh_decimation h).

(** The records of a packet: sample index and bytes of the values. *)
Definition packet_records (p : Packet) : list (Z * list Z) :=
  imap (fun row bytes => (row_index (pk_header p) row, bytes))
    (rows (4 * Z.to_nat (sh_n_sources (pk_header p))) (Z.to_nat (sh_n_records (pk_header p)))
       (drop 20 (pk_wire p))).

Definition record_stream (packets : list Packet) : list (Z * list Z) :=
  packets ≫= packet_records.

Definition count_records (packets : list Packet) : Z :=
  foldr (fun p n => sh_n_records (pk_header p) + n) 0 packets.

(** What [Packet_decode] returns. *)
Record packet_ok (p : Packet) : Prop := {
  po_bytes : bytes_ok (pk_wire p);
  po_header : StreamHeader_decode (pk_wire p) = Ok (pk_header p);
  po_sources : 0 < sh_n_sources (pk_header p);
  po_records : 0 < sh_n_records (pk_header p);
  po_length : len (pk_wire p)
              = STREAM_HEADER_LEN + 4 * sh_n_sources (pk_header p) * sh_n_records (pk_header p)
}.

(** Bounded by its capacity, but for a last packet that alone exceeds it. *)
Record history_ok (h : History) : Prop := {
  ho_packets : Forall packet_ok (hi_packets h);
  ho_records : hi_records h = count_records (hi_packets h);
  ho_bounded : hi_records h <= hi_capacity_records h \/ (length (hi_packets h) <= 1)%nat
}.

Lemma Packet_decode_spec wire t p :
  bytes_ok wire -> Packet_decode wire t = Ok p ->
  packet_ok p /\ pk_wire p = wire /\ pk_received_utc_ns p = t.
Proof.
  intros Hok. unfold Packet_decode. destruct (StreamHeader_decode wire) as [h|[]|] eqn:E; try done.
  cbn [map_err]. rewrite bind_Ok. destruct (_ || _) eqn:Hz; [done|].
  apply orb_false_elim in Hz as [Hs%Z.eqb_neq Hr%Z.eqb_neq].
  destruct (Z.eqb_spec (len wire) (STREAM_HEADER_LEN + 4 * sh_n_sources h * sh_n_records h));
    cbn [negb]; [|done].
  intros H. apply Ok_inj in H as <-.
  destruct (StreamHeader_decode_inv wire h Hok E) as [[[Hns _] _ _ _ _ [Hnr _]] _].
  split; [|done]. split; cbn; [done|done|lia|lia|done].
Qed.

Lemma packet_header_wf p : packet_ok p -> sh_wf (pk_header p).
Proof. intros [Hb Hh _ _ _]. by apply (StreamHeader_decode_inv _ _ Hb Hh). Qed.

Lemma Packet_decode_no_panic wire t : Packet_decode wire t <> Panic.
Proof.
  unfold Packet_decode. destruct (StreamHeader_decode wire) as [h|[]|] eqn:E; [|done|].
  - cbn [map_err]. rewrite bind_Ok. destruct (_ || _); [done|]. by destruct (negb _).
  - exfalso. destruct (Z.lt_ge_cases (len wire) STREAM_HEADER_LEN) as [Hl|Hl].
    + unfold StreamHeader_decode in E. by rewrite (proj2 (Z.ltb_lt _ _) Hl) in E.
    + destruct (header_shape wire Hl) as (?&?&?&?&?&?&?&?&?&?&?&?&?&?&?&?&?&?&?&?&?&->).
      rewrite StreamHeader_decode_shape in E. by destruct (_ && _).
Qed.

(** ** Lemmas *)

Lemma count_records_app p1 p2 : count_records (p1 ++ p2) = count_records p1 + count_records p2.
Proof. induction p1 as [|p p1 IH]; [done|]. unfold count_records in *. cbn [foldr app]. lia. Qed.

Lemma count_records_nonneg packets : Forall packet_ok packets -> 0 <= count_records packets.
Proof.
  induction 1 as [|p l [_ _ _ Hr _] _ IH]; [done|]. cbn. unfold count_records in IH. lia.
Qed.

Lemma length_rows w n l : length (rows w n l) = n.
Proof. revert l. induction n as [|n IH]; intros l; [done|]. cbn. by rewrite IH. Qed.

Lemma length_packet_records p :
  packet_ok p -> len (packet_records p) = sh_n_records (pk_header p).
Proof. intros [_ _ _ Hr _]. unfold len, packet_records. rewrite length_imap, length_rows. lia. Qed.

Lemma len_record_stream packets :
  Forall packet_ok packets -> len (record_stream packets) = count_records packets.
Proof.
  induction 1 as [|p l Hp _ IH]; [done|]. unfold record_stream in *. rewrite bind_cons.
  rewrite len_app, IH, length_packet_records by done. done.
Qed.

Lemma drop_rows w k n l : (k <= n)%nat -> drop k (rows w n l) = rows w (n - k) (drop (k * w) l).
Proof.
  revert n l. induction k as [|k IH]; intros n l Hk.
  - by rewrite Nat.sub_0_r.
  - destruct n as [|n]; [lia|]. cbn [rows drop]. rewrite IH by lia. rewrite drop_drop. done.
Qed.

Lemma drop_imap {A B} (f : nat -> A -> B) k l :
  drop k (imap f l) = imap (fun i => f (k + i)%nat) (drop k l).
Proof.
  revert f l. induction k as [|k IH]; intros f l; [by apply imap_ext|].
  destruct l as [|x l]; [done|]. rewrite imap_cons. cbn [drop]. rewrite IH. done.
Qed.

Lemma row_index_shift h k row :
  0 <= sh_decimation h ->
  row_index (mkStreamHeader (sh_n_sources h) (sh_seq h)
    (wrapping_add 32 (sh_first_index h) (wrapping_mul 32 (Z.of_nat k) (sh_decimation h)))
    (sh_dropped h) (sh_decimation h) (sh_n_records h - Z.of_nat k)) row
  = row_index h (k + row).
Proof.
  intros _. unfold row_index, wrapping_add, wrapping_mul. cbn [sh_first_index sh_decimation].
  rewrite wrap_add_l. rewrite <-Z.add_assoc, (Z.add_comm (wrap _ _)), Z.add_assoc, wrap_add_r.
  f_equal. lia.
Qed.

(** Trimming [k] records off a packet drops its first [k] records. *)
Lemma trim_packet_spec p k :
  packet_ok p -> 0 < k < sh_n_records (pk_header p) ->
  exists wire p', trim_packet p k = Some wire
    /\ Packet_decode wire (pk_received_utc_ns p) = Ok p'
    /\ packet_records p' = drop (Z.to_nat k) (packet_records p)
    /\ sh_seq (pk_header p') = sh_seq (pk_header p).
Proof.
  intros Hp Hk. pose proof (packet_header_wf p Hp) as [Hns Hseq Hfi Hdr [Hd0 Hd] [_ Hnr]].
  destruct Hp as [Hb Hh Hs Hr Hl]. unfold STREAM_HEADER_LEN in *. unfold trim_packet.
  assert (Ek : wrap 16 k = k) by (apply wrap_id; unfold fits; lia).
  assert (Ek2 : wrap 32 k = k) by (apply wrap_id; unfold fits; lia).
  set (h := pk_header p) in *. rewrite Ek, Ek2. rewrite (proj2 (Z.ltb_ge _ _)) by lia.
  set (h' := mkStreamHeader _ _ _ _ _ _).
  assert (Hwf : sh_wf h').
  { subst h'. split; cbn; try done; [by apply wrap_fits|unfold fits; lia]. }
  rewrite StreamHeader_encode_exact by (rewrite len_replicate; done). rewrite bind_Some.
  rewrite drop_ge by (by rewrite length_replicate). rewrite app_nil_r.
  rewrite slice_ok by (unfold STREAM_HEADER_LEN; nia). rewrite bind_Some.
  set (rest := take _ _).
  assert (Er : rest = drop (Z.to_nat k * (4 * Z.to_nat (sh_n_sources h))) (drop 20 (pk_wire p))).
  { assert (0 <= k * (4 * sh_n_sources h)) by nia. unfold STREAM_HEADER_LEN in *.
    subst rest. rewrite take_ge by (unfold len in *; rewrite length_drop; lia).
    rewrite drop_drop. f_equal. rewrite Z2Nat.inj_add, !Z2Nat.inj_mul by lia. done. }
  assert (Lr : len rest = 4 * sh_n_sources h * (sh_n_records h - k)).
  { rewrite Er, !len_drop_nat. rewrite Hl. nia. }
  exists (stream_header_bytes h' ++ rest).
  eexists. split; [done|]. split.
  - unfold Packet_decode. rewrite StreamHeader_decode_bytes by done. cbn [map_err]. rewrite bind_Ok.
    subst h'. cbn [sh_n_sources sh_n_records]. rewrite (proj2 (Z.eqb_neq _ _)) by lia.
    rewrite (proj2 (Z.eqb_neq _ _)) by lia. cbn [orb]. rewrite len_app, Lr.
    change (len (stream_header_bytes _)) with 20. unfold STREAM_HEADER_LEN.
    rewrite Z.eqb_refl. cbn [negb]. done.
  - cbn [pk_header]. split; [|done]. unfold packet_records. cbn [pk_header pk_wire].
    fold h. rewrite drop_imap, drop_rows by lia. rewrite <-Er.
    subst h'. cbn [sh_n_sources sh_n_records].
    change (drop 20 (stream_header_bytes ?h ++ rest)) with rest.
    replace (Z.to_nat (sh_n_records h - k)) with (Z.to_nat (sh_n_records h) - Z.to_nat k)%nat by lia.
    apply imap_ext. intros i x _. f_equal. rewrite <-(row_index_shift h (Z.to_nat k)) by done.
    by rewrite Z2Nat.id by lia.
Qed.

Lemma trim_front_cons capacity p q l records :
  trim_front capacity (p :: q :: l) records
  = if capacity <? records then
      if records <? sh_n_records (pk_header p) then None
      else trim_front capacity (q :: l) (records - sh_n_records (pk_header p))
    else Some (p :: q :: l, records).
Proof. done. Qed.

Lemma trim_front_spec capacity packets :
  Forall packet_ok packets ->
  exists k, trim_front capacity packets (count_records packets)
      = Some (drop k packets, count_records (drop k packets))
    /\ (count_records (drop k packets) <= capacity \/ (length (drop k packets) <= 1)%nat)
    /\ (packets <> [] -> (k < length packets)%nat)
    /\ ((0 < k)%nat -> capacity < count_records (drop (k - 1) packets)).
Proof.
  induction packets as [|p packets IH]; intros Hok.
  { exists 0%nat. split; [done|]. split; [right; cbn; lia|]. split; [done|lia]. }
  apply Forall_cons in Hok as [Hp Hrest]. destruct packets as [|q packets].
  { exists 0%nat. split; [done|]. split; [right; cbn; lia|]. split; [cbn; lia|lia]. }
  rewrite trim_front_cons. destruct (Z.ltb_spec capacity (count_records (p :: q :: packets))) as [Hc|Hc].
  - pose proof (count_records_nonneg _ Hrest) as Hn.
    assert (E : count_records (p :: q :: packets)
      = sh_n_records (pk_header p) + count_records (q :: packets)) by done.
    rewrite (proj2 (Z.ltb_ge _ _)) by lia.
    replace (count_records (p :: q :: packets) - sh_n_records (pk_header p))
      with (count_records (q :: packets)) by lia.
    destruct (IH Hrest) as (k & -> & Hb & Hk & Hm). exists (S k). split; [done|].
    split; [done|]. split; [intros _; cbn [length]; specialize (Hk ltac:(done)); cbn in Hk; lia|].
    intros _. replace (S k - 1)%nat with k by lia.
    destruct k as [|k]; [done|]. specialize (Hm ltac:(lia)). cbn [drop].
    by replace (S k - 1)%nat with k in Hm by lia.
  - exists 0%nat. split; [done|]. split; [by left|]. split; [cbn; lia|lia].
Qed.

Lemma select_recent_spec requested older newer :
  Forall packet_ok older -> count_records newer < requested ->
  requested <= count_records (older ++ newer) ->
  exists o p mid, older = o ++ p :: mid
    /\ select_recent requested (rev older) (rev newer) (count_records newer)
       = (rev (p :: mid ++ newer), count_records (p :: mid ++ newer))
    /\ requested <= count_records (p :: mid ++ newer)
    /\ count_records (mid ++ newer) < requested.
Proof.
  revert newer. induction older as [|x older IH] using rev_ind; intros newer Hok Hlo Hhi.
  { cbn [app] in Hhi. lia. }
  apply Forall_app in Hok as [Hok Hx]. rewrite rev_app_distr. cbn [rev app select_recent].
  change (rev newer ++ [x]) with (rev (x :: newer)).
  replace (count_records newer + sh_n_records (pk_header x)) with (count_records (x :: newer))
    by (unfold count_records; cbn [foldr]; lia).
  destruct (Z.leb_spec requested (count_records (x :: newer))) as [Hc|Hc].
  - exists older, x, []. done.
  - destruct (IH (x :: newer) Hok Hc) as (o & p & mid & -> & E & H1 & H2).
    { by rewrite <-app_assoc in Hhi. }
    exists o, p, (mid ++ [x]). split; [by rewrite <-app_assoc|].
    by rewrite <-!app_assoc.
Qed.

(** The replay of [requested] records, whatever the packet boundaries. *)
Lemma History_recent_spec h requested :
  history_ok h -> 0 < requested <= hi_records h ->
  exists wires packets, History_recent h requested = Ok wires
    /\ Forall2 (fun w p => exists t, Packet_decode w t = Ok p) wires packets
    /\ record_stream packets
       = drop (Z.to_nat (hi_records h - requested)) (record_stream (hi_packets h)).
Proof.
  intros [Hok Hrec _] Hr. unfold History_recent.
  rewrite (proj2 (Z.eqb_neq _ _)), (proj2 (Z.ltb_ge _ _)) by lia. cbn [orb].
  destruct (select_recent_spec requested (hi_packets h) []) as (o & p & mid & Eh & E & H1 & H2);
    [done|cbn; lia|rewrite app_nil_r; lia|].
  rewrite app_nil_r in *. change (rev []) with (@nil Packet) in E.
  change (count_records []) with 0 in E. rewrite E. rewrite rev_involutive.
  rewrite (proj2 (Z.ltb_ge _ _)) by lia. change (index (p :: mid) 0) with (Some p).
  rewrite bind_or_panic. rewrite Eh in Hok. apply Forall_app in Hok as [Ho Hok].
  apply Forall_cons in Hok as [Hp Hmid].
  assert (Hdec : forall q, packet_ok q -> Packet_decode (pk_wire q) (pk_received_utc_ns q) = Ok q).
  { intros q [_ Hh Hs Hn Hl]. unfold Packet_decode. rewrite Hh. cbn [map_err]. rewrite bind_Ok.
    rewrite !(proj2 (Z.eqb_neq _ _)) by lia. cbn [orb]. rewrite Hl, Z.eqb_refl. cbn [negb].
    by destruct q. }
  assert (Hmids : Forall2 (fun w q => exists t, Packet_decode w t = Ok q) (pk_wire <$> mid) mid).
  { apply Forall2_fmap_l, Forall_Forall2_diag. eapply Forall_impl; [exact Hmid|].
    intros q Hq. eexists. by apply Hdec. }
  assert (Ec : count_records (p :: mid) = sh_n_records (pk_header p) + count_records mid) by done.
  assert (Eskip : forall k, k = count_records (p :: mid) - requested ->
    drop (Z.to_nat (hi_records h - requested)) (record_stream (hi_packets h))
    = drop (Z.to_nat k) (packet_records p) ++ record_stream mid).
  { intros k ->. pose proof (len_record_stream o Ho) as Lo. unfold record_stream in *.
    rewrite Eh, bind_app, bind_cons. rewrite Hrec, Eh, count_records_app.
    rewrite drop_app_ge by (unfold len in Lo; lia).
    rewrite drop_app_le by (pose proof (length_packet_records p Hp); unfold len in *; lia).
    do 2 f_equal. unfold len in Lo. lia. }
  destruct (Z.eqb_spec (count_records (p :: mid) - requested) 0) as [Ez|Ez].
  - rewrite bind_Ok. exists (pk_wire p :: (pk_wire <$> mid)), (p :: mid). split; [done|].
    split; [constructor; [eexists; by apply Hdec|done]|]. by rewrite (Eskip 0).
  - destruct (trim_packet_spec p (count_records (p :: mid) - requested) Hp) as
      (wire & p' & -> & Hd & Hrecs & _); [lia|]. rewrite bind_or_panic.
    exists (wire :: (pk_wire <$> mid)), (p' :: mid). split; [done|].
    split; [constructor; [by eexists|done]|]. rewrite (Eskip _ eq_refl), <-Hrecs. done.
Qed.

Lemma History_push_spec h p :
  history_ok h -> packet_ok p ->
  exists h' k, History_push h p = Some h' /\ history_ok h'
    /\ hi_packets h' = drop k (hi_packets h ++ [p])
    /\ hi_capacity_records h' = hi_capacity_records h
    /\ (k <= length (hi_packets h))%nat
    /\ ((0 < k)%nat -> hi_capacity_records h < count_records (drop (k - 1) (hi_packets h ++ [p]))).
Proof.
  intros [Hok Hrec _] Hp. unfold History_push.
  assert (Hall : Forall packet_ok (hi_packets h ++ [p]))
    by (apply Forall_app_2; [done|by apply Forall_singleton]).
  replace (hi_records h + sh_n_records (pk_header p)) with (count_records (hi_packets h ++ [p]))
    by (rewrite count_records_app, Hrec; cbn; lia).
  destruct (trim_front_spec (hi_capacity_records h) _ Hall) as (k & -> & Hb & Hk & Hm).
  rewrite bind_Some. eexists _, k. split; [done|]. split; [split; cbn; try done|].
  - by apply Forall_drop.
  - split; [done|]. split; [done|]. split; [|done].
    specialize (Hk ltac:(by destruct (hi_packets h))). rewrite length_app in Hk. cbn in Hk. lia.
Qed.

(** ** Properties *)

(** C14. The history is an exact record buffer: after a reset with any capacity and
    any sequence of stream packets, it holds a suffix of the packets received,
    of at most the capacity unless a single packet exceeds it, and it drops a
    packet only when the records it held exceeded the capacity; a replay of
    [n] records fails exactly when [n] is zero or more than it holds, and
    otherwise its packets decode and carry exactly the last [n] records ever
    streamed, with their sample indices and bytes, whatever the packet
    boundaries. *)
Theorem history_replays_last_records (h0 : History) (capacity requested : Z) (packets : list Packet)
    (Hp : Forall packet_ok packets) (Hr : 0 <= requested) :
  exists h k, for_each (fun p h => History_push h p) packets (History_reset h0 capacity) = Some h
    /\ hi_packets h = drop k packets /\ hi_records h = count_records (drop k packets)
    /\ (hi_records h <= Z.max capacity 1 \/ (length (hi_packets h) <= 1)%nat)
    /\ ((0 < k)%nat -> Z.max capacity 1 < count_records (drop (k - 1) packets))
    /\ (if (requested =? 0) || (hi_records h <? requested) then History_recent h requested = Err tt
        else exists wires replay, History_recent h requested = Ok wires
          /\ Forall2 (fun w p => exists t, Packet_decode w t = Ok p) wires replay
          /\ record_stream replay
             = drop (Z.to_nat (count_records packets - requested)) (record_stream packets)).
Proof.
  assert (Hrun : exists h k, for_each (fun p h => History_push h p) packets (History_reset h0 capacity)
      = Some h /\ history_ok h /\ hi_capacity_records h = Z.max capacity 1
    /\ hi_packets h = drop k packets /\ (k <= length packets)%nat
    /\ ((0 < k)%nat -> Z.max capacity 1 < count_records (drop (k - 1) packets))).
  { induction packets as [|p packets IH] using rev_ind.
    - exists (History_reset h0 capacity), 0%nat. split; [done|].
      split; [split; cbn; [done|done|right; lia]|]. split; [done|]. split; [done|]. split; [cbn; lia|lia].
    - apply Forall_app in Hp as [Hp Hx]. apply Forall_cons in Hx as [Hx _].
      destruct (IH Hp) as (h & k & E & Hok & Hcap & Hpk & Hk & Hm).
      destruct (History_push_spec h p Hok Hx) as (h' & j & Ep & Hok' & Hpk' & Hcap' & Hj & Hm').
      exists h', (k + j)%nat. split; [rewrite for_each_app, E, bind_Some; cbn; by rewrite Ep|].
      split; [done|]. split; [congruence|].
      assert (Ed : drop k (packets ++ [p]) = hi_packets h ++ [p])
        by (by rewrite drop_app_le, Hpk).
      split; [by rewrite <-drop_drop, Ed|].
      split; [rewrite Hpk, length_drop in Hj; rewrite length_app; cbn; lia|].
      intros Hkj. destruct (decide (0 < j)%nat) as [Hj0|Hj0].
      + rewrite <-Hcap. specialize (Hm' Hj0). rewrite <-Ed, drop_drop in Hm'.
        by replace (k + (j - 1))%nat with (k + j - 1)%nat in Hm' by lia.
      + replace (k + j)%nat with k by lia. rewrite drop_app_le by lia.
        rewrite count_records_app. pose proof (count_records_nonneg [p] ltac:(by apply Forall_singleton)).
        specialize (Hm ltac:(lia)). lia. }
  destruct Hrun as (h & k & E & Hok & Hcap & Hpk & Hk & Hm). exists h, k.
  pose proof Hok as [Hpo Hrec Hb]. rewrite Hcap, <-Hpk in *.
  do 4 (split; [done|]). split; [done|].
  destruct (_ || _) eqn:Hc.
  - unfold History_recent. by rewrite Hc.
  - apply orb_false_elim in Hc as [H1%Z.eqb_neq H2%Z.ltb_ge].
    destruct (History_recent_spec h requested Hok) as (wires & replay & Er & Hd & Hs); [lia|].
    exists wires, replay. split; [done|]. split; [done|]. rewrite Hs, Hpk, Hrec.
    pose proof (len_record_stream (take k packets) ltac:(by apply Forall_take)) as Lt.
    assert (Et : count_records packets = count_records (take k packets) + count_records (drop k packets))
      by (rewrite <-count_records_app, take_drop; done).
    assert (Es : record_stream packets = record_stream (take k packets) ++ record_stream (drop k packets))
      by (unfold record_stream; rewrite <-bind_app, take_drop; done).
    rewrite Hpk in *. rewrite Es, drop_app_ge by (unfold len in Lt; lia).
    f_equal. unfold len in Lt. lia.
Qed.

(** A packet of [n] records over two sources, decimation 2. *)
Definition demo_packet (seq first n : Z) : Packet :=
  let h := mkStreamHeader 2 seq first 0 2 n in
  {| pk_wire := stream_header_bytes h ++ ((fun i => wrap 8 (Z.of_nat i)) <$> List.seq 0 (Z.to_nat (8 * n)));
     pk_header := h; pk_received_utc_ns := 0 |}.

Lemma demo_packets_ok : Forall packet_ok [demo_packet 4 100 4; demo_packet 5 108 3].
Proof.
  repeat (apply Forall_cons; split); [| |by apply Forall_nil];
    (split; [bytes_solve|vm_compute; reflexivity|by vm_compute|by vm_compute|by vm_compute]).
Defined.

Lemma history_replays_last_records_witness :
  exists h k, for_each (fun p h => History_push h p) [demo_packet 4 100 4; demo_packet 5 108 3]
      (History_reset History_default 20) = Some h
    /\ hi_packets h = drop k [demo_packet 4 100 4; demo_packet 5 108 3]
    /\ hi_records h = 7
    /\ exists wires replay, History_recent h 5 = Ok wires
         /\ Forall2 (fun w p => exists t, Packet_decode w t = Ok p) wires replay
         /\ record_stream replay = drop 2 (record_stream [demo_packet 4 100 4; demo_packet 5 108 3]).
Proof.
  destruct (history_replays_last_records History_default 20 5 [demo_packet 4 100 4; demo_packet 5 108 3]
    demo_packets_ok ltac:(lia)) as (h & k & E & Hpk & Hn & _ & Hm & Hrec).
  assert (k = 0%nat) as ->.
  { destruct k as [|k]; [done|]. exfalso. specialize (Hm ltac:(lia)).
    destruct k as [|[|k]]; [by vm_compute in Hm..|].
    rewrite drop_ge in Hm by (cbn; lia). by vm_compute in Hm. }
  exists h, 0%nat. split; [done|]. split; [done|]. split; [by rewrite Hn|].
  rewrite Hn in Hrec. exact Hrec.
Defined.
