(* ===== verification/Broker.v ===== *)
(** * Host broker (helic-broker/src/server.rs)

    The broker is a set of tasks over one shared [App].  A task is a sequence
    of atomic steps ([proc]): a step is what the source does between two points
    where another task can run, under the guard of a mutex if it takes one.
    Three conventions make this the granularity of the source.  The guard of
    [state] never lives across an [await], so each of its critical sections is
    one step.  The guard of [upstream] lives across [request], but nothing else
    happens under it, so that taking it, the exchange with the MCU and dropping
    it are one step, at the point where the MCU serves the request.  The guard
    of [stream_operations] lives across other steps, so the model has it as a
    lock with its holder.

    A step is given its task and the environment [Env] (clocks, what the MCU
    answers, whether an operation of the sockets or of the recorder succeeds);
    it is [None] when it cannot be taken now.  What the broker does to the
    outside is the log [ap_log]. *)

From stdpp Require Import strings gmap.
From S2P Require Import Prelude Float32 Proto Text Frame StreamPacket Beacon BrokerInfo Upstream History.

(** ** Data *)

Definition PRIMER : list Z := str_bytes "helic-daq-stream-prime".
(** Nanoseconds. *)
Definition TABLE_TRANSACTION_TIMEOUT : Z := 5 * 10 ^ 9.

(** An [Ipv4Addr] and a port. *)
Definition SocketAddr : Type := Z * Z.

Record StreamConfiguration := { sc_decimation : Z; sc_count : Z; sc_sources : list Z }.

Definition StreamConfiguration_decode (payload : list Z) : outcome Failure StreamConfiguration :=
  if len payload <? 7 then Err SetupTooShort
  else
    decimation ← or_panic (u16_at payload 0);
    count ← or_panic (u32_at payload 2);
    n_sources ← or_panic (index payload 6);
    if (decimation =? 0) || (n_sources =? 0) || (BROKER_MAX_SOURCES <? n_sources)
       || negb (len payload =? 7 + n_sources)
    then Err SetupInvalid
    else
      sources ← or_panic (slice payload 7 (len payload));
      Ok {| sc_decimation := decimation; sc_count := count; sc_sources := sources |}.

Record ClientState := { cl_endpoint : option SocketAddr; cl_quiet : bool }.
Definition ClientState_default : ClientState := {| cl_endpoint := None; cl_quiet := false |}.

Record TableOwner := { to_client_id : Z; to_touched : Z (* Instant, ns *) }.

Record SharedState := {
  ss_configuration : option StreamConfiguration;
  ss_running : bool;
  ss_received_records : Z;
  ss_clients : gmap Z ClientState;
  ss_history : History;
  ss_table_owner : option TableOwner
}.

Definition SharedState_default : SharedState := {|
  ss_configuration := None; ss_running := false; ss_received_records := 0; ss_clients := ∅;
  ss_history := History_default; ss_table_owner := None |}.

Definition expire_table_owner (now : Z) (s : SharedState) : SharedState :=
  match ss_table_owner s with
  | Some owner =>
      if TABLE_TRANSACTION_TIMEOUT <=? now - to_touched owner
      then s <| ss_table_owner := None |> else s
  | None => s
  end.

Definition detach_all (s : SharedState) : SharedState :=
  s <| ss_clients := (fun client => client <| cl_endpoint := None |> <| cl_quiet := false |>) <$> ss_clients s |>.

Record SessionMetadata := {
  sm_experiment : list Z; sm_firmware : list Z; sm_sample_rate_hz : float; sm_decimation : Z;
  sm_configured_count : Z; sm_sources : list SourceMetadata; sm_started_utc_ns : Z }.

Inductive CloseReason :=
  | CloseSegmentLimit | CloseStreamStop | CloseCountComplete | CloseUpstreamLost | CloseStorageError
  | CloseBrokerShutdown | CloseStartRejected | CloseMcuReboot.

(** The fields of [Config] the server reads; [cf_recording] is whether there is
    an output directory. *)
Record Config := {
  cf_recording : bool;
  cf_mcu_stream_port : Z;
  cf_control_port : Z;
  cf_history : Z                  (* Duration, ns *)
}.

(** What leaves the broker. *)
Inductive Event :=
  | Forwarded (generation message_type : Z) (payload : list Z) (result : outcome Failure UpstreamResponse)
  | Connected (generation : Z)
  | Disconnected (generation : Z)
  | Primed (port : Z)
  | Relayed (wire : list Z) (target : SocketAddr)
  | Replied (client_id message_type sequence : Z) (payload : list Z)
  | Replayed (wire : list Z) (target : SocketAddr)
  | Announced (response : list Z) (peer : SocketAddr)
  | RecordingStarted (metadata : SessionMetadata)
  | RecordedPacket (packet : Packet)
  | RecordingStopped (reason : CloseReason)
  | RecorderShutdown.

(** The index of a task. *)
Definition Task : Type := nat.

Record App := {
  ap_config : Config;
  ap_upstream : option UpstreamControl;
  ap_metadata : option DeviceMetadata;
  ap_state : SharedState;
  ap_operations : option Task;    (* who holds [stream_operations] *)
  ap_epoch : Z;                   (* u64 *)
  ap_next_generation : Z;
  ap_next_client : Z;
  ap_reconnect : bool;            (* a stored [notify_one] *)
  ap_fatal : option Failure;
  ap_log : list Event;
  ap_registrations : gmap Z Task  (* the task that took each client number *)
}.

Definition App_new (config : Config) : App := {|
  ap_config := config; ap_upstream := None; ap_metadata := None; ap_state := SharedState_default;
  ap_operations := None; ap_epoch := 0; ap_next_generation := 1; ap_next_client := 1;
  ap_reconnect := false; ap_fatal := None; ap_log := []; ap_registrations := ∅ |}.

(** What happens outside during a step. *)
Record Env := {
  ev_now : Z;                             (* Instant::now(), ns *)
  ev_utc_ns : Z;                          (* utc_now_ns() *)
  ev_answer : list Z -> option (list Z);  (* what arrives from the MCU *)
  ev_io : bool;                           (* whether the socket operation succeeds *)
  ev_storage : bool                       (* whether the recorder accepts the call *)
}.

(** ** Tasks *)

Inductive proc (A : Type) : Type :=
  | Ret (a : A)
  | Atomic (B : Type) (f : Task -> Env -> App -> option (App * B)) (k : B -> proc A)
  | Spawn (p : proc (outcome Failure unit)) (k : proc A).
Arguments Ret {A}.
Arguments Atomic {A B}.
Arguments Spawn {A}.

Fixpoint proc_bind {A B} (m : proc A) (g : A -> proc B) : proc B :=
  match m with
  | Ret a => g a
  | Atomic f k => Atomic f (fun b => proc_bind (k b) g)
  | Spawn p k => Spawn p (proc_bind k g)
  end.

(** A task that can fail: [Result<A>] of an [async fn]. *)
Definition task (A : Type) : Type := proc (outcome Failure A).

#[export] Instance task_ret : MRet task := fun _ a => Ret (Ok a).
#[export] Instance task_bind : MBind task := fun A B g m =>
  proc_bind m (fun r => match r with Ok a => g a | Err e => Ret (Err e) | Panic => Ret Panic end).

Definition done_with {A} (r : outcome Failure A) : task A := Ret r.
Definition fail {A} (e : Failure) : task A := Ret (Err e).

(** The result of a task as a value: [let r = task.await]. *)
Definition attempt {A} (m : task A) : task (outcome Failure A) := proc_bind m (fun r => Ret (Ok r)).

Definition act {A} (f : Task -> Env -> App -> option (App * outcome Failure A)) : task A := Atomic f Ret.

Definition read {A} (f : App -> A) : task A := act (fun _ _ app => Some (app, Ok (f app))).

(** A critical section of [state]. *)
Definition with_state {A} (f : Env -> SharedState -> SharedState * outcome Failure A) : task A :=
  act (fun _ env app => let '(s, r) := f env (ap_state app) in Some (app <| ap_state := s |>, r)).

Definition log (e : Event) (app : App) : App := app <| ap_log := ap_log app ++ [e] |>.

Definition spawn (p : task unit) : task unit := Spawn p (Ret (Ok ())).

(** [let _operation = self.stream_operations.lock().await] around [body]; the
    guard is dropped however [body] ends. *)
Definition with_operations {A} (body : task A) : task A :=
  _ ← act (fun t _ app => match ap_operations app with
                          | None => Some (app <| ap_operations := Some t |>, Ok ())
                          | Some _ => None
                          end);
  r ← attempt body;
  _ ← act (fun t _ app => Some (app <| ap_operations := None |>, Ok ()));
  done_with r.

(** ** [App] *)

(** A call of the recorder, when there is one. *)
Definition recorder (e : Event) : task unit :=
  recording ← read (fun app => cf_recording (ap_config app));
  if recording : bool then
    act (fun _ env app => Some (log e app, if ev_storage env then Ok () else Err StorageFailed))
  else mret ().

Definition start_recording (metadata : SessionMetadata) : task unit := recorder (RecordingStarted metadata).
Definition stop_recording (reason : CloseReason) : task unit := recorder (RecordingStopped reason).
Definition shutdown_recording : task unit := _ ← attempt (recorder RecorderShutdown); mret ().

Definition upstream_ready : task bool := read (fun app => bool_decide (is_Some (ap_upstream app))).
Definition current_generation : task (option Z) := read (fun app => uc_generation <$> ap_upstream app).
Definition current_udp : task (option (Z * Z * Z)) :=
  read (fun app => (fun u => (uc_udp u, uc_peer_ip u, uc_generation u)) <$> ap_upstream app).

(** [upstream.take()] when it is the connection of [generation]. *)
Definition take_upstream (generation : Z) : task bool :=
  act (fun _ _ app =>
    match ap_upstream app with
    | Some candidate =>
        if uc_generation candidate =? generation
        then Some (log (Disconnected generation) (app <| ap_upstream := None |>), Ok true)
        else Some (app, Ok false)
    | None => Some (app, Ok false)
    end).

(** The critical section of [mark_upstream_failed] and [complete_mcu_reboot]. *)
Definition end_session : task bool :=
  with_state (fun _ s =>
    (detach_all (s <| ss_running := false |> <| ss_configuration := None |> <| ss_received_records := 0 |>
                   <| ss_history := History_clear (ss_history s) |> <| ss_table_owner := None |>),
     Ok (ss_running s))).

(** The metadata cleared, the epoch advanced, [reconnect_loop] woken. *)
Definition announce_disconnect : task unit :=
  _ ← act (fun _ _ app => Some (app <| ap_metadata := None |>, Ok ()));
  next ← read (fun app => wrapping_add 64 (ap_epoch app) 1);
  _ ← act (fun _ _ app => Some (app <| ap_epoch := next |>, Ok ()));
  act (fun _ _ app => Some (app <| ap_reconnect := true |>, Ok ())).

Definition mark_upstream_failed (generation : Z) : task unit :=
  removed ← take_upstream generation;
  if removed : bool then
    was_running ← end_session;
    _ ← (if was_running : bool
         then _ ← attempt (stop_recording CloseUpstreamLost); mret () else mret ());
    announce_disconnect
  else mret ().

Definition complete_mcu_reboot (generation : Z) : task unit :=
  removed ← take_upstream generation;
  if removed : bool then
    was_running ← end_session;
    _ ← announce_disconnect;
    if was_running : bool then _ ← attempt (stop_recording CloseMcuReboot); mret () else mret ()
  else mret ().

Definition request_with_generation (message_type : Z) (payload : list Z)
    : task (Z * UpstreamResponse) :=
  '(generation, result) ← act (fun _ env app =>
    match ap_upstream app with
    | None => Some (app, Err NotConnected)
    | Some u =>
        let '(u, result) := UpstreamControl_request u message_type payload (ev_answer env) in
        Some (log (Forwarded (uc_generation u) message_type payload result)
                (app <| ap_upstream := Some u |>), Ok (uc_generation u, result))
    end);
  match result with
  | Ok response => mret (generation, response)
  | Err error => _ ← mark_upstream_failed generation; fail error
  | Panic => Ret Panic
  end.

Definition request (message_type : Z) (payload : list Z) : task UpstreamResponse :=
  '(_, response) ← request_with_generation message_type payload; mret response.

Definition force_upstream_disconnect : task unit :=
  generation ← current_generation;
  match generation with
  | Some generation => mark_upstream_failed generation
  | None => mret ()
  end.

(** The body of [broker_info] under the lock; [None] is the slice panic. *)
Definition broker_info_of (config : Config) (connected : bool) (client_id : Z) (s : SharedState)
    : option BrokerInfo :=
  let client := default ClientState_default (ss_clients s !! client_id) in
  let flag (b : bool) (f : Z) := if b then f else 0 in
  let flags := Z.lor (flag connected STATE_UPSTREAM_CONNECTED)
    (Z.lor (flag (bool_decide (is_Some (ss_configuration s))) STATE_CONFIGURED)
    (Z.lor (flag (ss_running s) STATE_RUNNING)
    (Z.lor (flag (bool_decide (is_Some (cl_endpoint client))) STATE_CLIENT_ATTACHED)
    (Z.lor (flag (cl_quiet client) STATE_CLIENT_QUIET)
      (flag (bool_decide (is_Some (ss_table_owner s))) STATE_TABLE_TRANSACTION))))) in
  let sources := replicate (Z.to_nat BROKER_MAX_SOURCES) 0 in
  '(sources, decimation, count, n_sources) ←
    (match ss_configuration s with
     | Some configuration =>
         sources ← blit sources 0 (sc_sources configuration);
         Some (sources, sc_decimation configuration, sc_count configuration,
               wrap 8 (len (sc_sources configuration)))
     | None => Some (sources, 1, 0, 0)
     end);
  Some {| bi_state := flags; bi_capabilities := CAPABILITIES;
          bi_history_capacity_ms := Z.min (cf_history config / 10 ^ 6) (umax 32);
          bi_history_available_records := Z.min (hi_records (ss_history s)) (umax 32);
          bi_decimation := decimation; bi_count := count;
          bi_connected_clients := Z.min (Z.of_nat (size (ss_clients s))) (umax 16);
          bi_n_sources := n_sources; bi_sources := sources |}.

Definition broker_info (client_id : Z) : task BrokerInfo :=
  connected ← upstream_ready;
  act (fun _ env app =>
    let s := expire_table_owner (ev_now env) (ap_state app) in
    Some (app <| ap_state := s |>, or_panic (broker_info_of (ap_config app) connected client_id s))).

Definition register_client : task Z :=
  client_id ← act (fun t _ app =>
    let client_id := ap_next_client app in
    Some (app <| ap_next_client := client_id + 1 |>
              <| ap_registrations := <[client_id := t]> (ap_registrations app) |>, Ok client_id));
  with_state (fun _ s => (s <| ss_clients := <[client_id := ClientState_default]> (ss_clients s) |>, Ok client_id)).

Definition disarm : task unit :=
  arm_index ← read (fun app => m ← ap_metadata app; dm_arm_index m);
  match arm_index with
  | None => mret ()
  | Some arm_index =>
      r ← attempt (request (MsgType_u8 SetPar) (le16 arm_index ++ le32 0));
      match r with
      | Ok response =>
          if ur_message_type response =? MsgType_u8 SetPar then mret () else force_upstream_disconnect
      | Err _ => mret ()
      | Panic => Ret Panic
      end
  end.

Definition unregister_client (client_id : Z) : task unit :=
  last ← with_state (fun _ s =>
    let s := s <| ss_clients := delete client_id (ss_clients s) |> in
    let s := match ss_table_owner s with
             | Some owner => if to_client_id owner =? client_id then s <| ss_table_owner := None |> else s
             | None => s
             end in
    (s, Ok (bool_decide (ss_clients s = ∅))));
  if last : bool then disarm else mret ().

(** The state of a session that is over but may be started again. *)
Definition quiesce (s : SharedState) : SharedState :=
  detach_all (s <| ss_running := false |> <| ss_received_records := 0 |>
                <| ss_history := History_clear (ss_history s) |>).

Definition rollback_failed_start : task unit :=
  was_running ← with_state (fun _ s => (quiesce s, Ok (ss_running s)));
  if was_running : bool then _ ← attempt (stop_recording CloseStartRejected); mret () else mret ().

(** [for target in targets { send_to(..).await }]; a failure is only logged. *)
Fixpoint relay (event : list Z -> SocketAddr -> Event) (datagrams : list (list Z * SocketAddr)) : task unit :=
  match datagrams with
  | [] => mret ()
  | (wire, target) :: datagrams =>
      _ ← act (fun _ env app => Some (if ev_io env then log (event wire target) app else app, Ok ()));
      relay event datagrams
  end.

Definition packet_matches (configuration : StreamConfiguration) (packet : Packet) : bool :=
  (sh_n_sources (pk_header packet) =? len (sc_sources configuration))
  && (sh_decimation (pk_header packet) =? sc_decimation configuration).

(** The first critical section of [process_packet]: the targets and whether the
    count is complete; [Ok None] is an early return. *)
Definition accept_packet (packet : Packet) (env : Env) (app : App)
    : App * outcome Failure (option (list SocketAddr * bool)) :=
  let s := ap_state app in
  match ss_configuration s with
  | None => (app, Ok None)
  | Some configuration =>
      if negb (ss_running s) then (app, Ok None)
      else if negb (packet_matches configuration packet) then (app, Ok None)
      else
        let app := if cf_recording (ap_config app) then log (RecordedPacket packet) app else app in
        if cf_recording (ap_config app) && negb (ev_storage env) then (app, Err StorageFailed)
        else
          match History_push (ss_history s) packet with
          | None => (app, Panic)
          | Some history =>
              let s := s <| ss_history := history |>
                         <| ss_received_records := ss_received_records s + sh_n_records (pk_header packet) |> in
              let targets := omap (fun '(_, client) => if cl_quiet client then None else cl_endpoint client)
                               (map_to_list (ss_clients s)) in
              let complete := negb (sc_count configuration =? 0)
                              && (sc_count configuration <=? ss_received_records s) in
              (app <| ap_state := s |>, Ok (Some (targets, complete)))
          end
  end.

Definition process_packet (wire : list Z) : task unit :=
  received ← act (fun _ env app => Some (app, Ok (Packet_decode wire (ev_utc_ns env))));
  match received with
  | Panic => Ret Panic
  | Err _ => mret ()
  | Ok packet =>
      accepted ← act (fun _ env app => Some (accept_packet packet env app));
      match accepted with
      | None => mret ()
      | Some (targets, complete) =>
          _ ← relay Relayed ((fun target => (pk_wire packet, target)) <$> targets);
          if complete : bool then
            with_operations (
              was_running ← with_state (fun _ s =>
                if ss_running s then (quiesce s, Ok true) else (s, Ok false));
              if was_running : bool then stop_recording CloseCountComplete else mret ())
          else mret ()
      end
  end.

Definition shutdown : task unit :=
  running ← read (fun app => ss_running (ap_state app));
  _ ← (if running : bool then
         _ ← attempt (request (MsgType_u8 StreamStop) []);
         _ ← attempt (stop_recording CloseBrokerShutdown);
         mret ()
       else mret ());
  _ ← disarm;
  _ ← shutdown_recording;
  act (fun _ _ app => Some (app <| ap_upstream := None |>, Ok ())).

(** ** Requests of a client *)

Record Handled := {
  hd_response_type : Z;
  hd_payload : list Z;
  hd_datagrams : list (list Z * SocketAddr);
  hd_reboot_generation : option Z
}.

Definition Handled_response (response : UpstreamResponse) : Handled :=
  {| hd_response_type := ur_message_type response; hd_payload := ur_payload response;
     hd_datagrams := []; hd_reboot_generation := None |}.
Definition Handled_empty (message_type : Z) : Handled :=
  {| hd_response_type := message_type; hd_payload := []; hd_datagrams := []; hd_reboot_generation := None |}.
Definition Handled_error (request_type code : Z) : Handled :=
  {| hd_response_type := MsgType_u8 MsgError; hd_payload := [code; request_type];
     hd_datagrams := []; hd_reboot_generation := None |}.

Definition set_parameter (payload : list Z) : task Handled :=
  reboot_index ← read (fun app => m ← ap_metadata app; dm_mcu_reboot_index m);
  let requested_index := u16_at payload 0 in
  '(generation, response) ← request_with_generation (MsgType_u8 SetPar) payload;
  let is_reboot := (ur_message_type response =? MsgType_u8 SetPar)
    && match requested_index with
       | Some index => bool_decide (Some index = reboot_index)
       | None => false
       end in
  let handled := Handled_response response in
  mret (if is_reboot then handled <| hd_reboot_generation := Some generation |> else handled).

Definition stream_setup (payload : list Z) : task Handled :=
  with_operations (
    running ← read (fun app => ss_running (ap_state app));
    if running : bool then mret (Handled_error (MsgType_u8 StreamSetup) (ErrorCode_u8 Busy))
    else
      match StreamConfiguration_decode payload with
      | Err _ => mret (Handled_error (MsgType_u8 StreamSetup) (ErrorCode_u8 BadValue))
      | Panic => Ret Panic
      | Ok configuration =>
          generation ← current_generation;
          response ← request (MsgType_u8 StreamSetup) payload;
          current ← current_generation;
          _ ← (if (ur_message_type response =? MsgType_u8 StreamSetup)
                  && bool_decide (current = generation)
               then with_state (fun _ s => (s <| ss_configuration := Some configuration |>, Ok ()))
               else mret ());
          mret (Handled_response response)
      end).

(** [client = ..get_mut(&client_id).context(..)?; client.endpoint = ..; client.quiet = ..]. *)
Definition attach (client_id : Z) (target : SocketAddr) (quiet : bool) (s : SharedState)
    : SharedState * outcome Failure unit :=
  match ss_clients s !! client_id with
  | None => (s, Err ClientDisappeared)
  | Some client =>
      (s <| ss_clients := <[client_id := client <| cl_endpoint := Some target |> <| cl_quiet := quiet |>]>
                            (ss_clients s) |>, Ok ())
  end.

(** [x.ceil() as usize] of an [f64]. *)
Definition ceil_usize (x : float) : Z :=
  match x with
  | S754_zero _ | S754_nan => 0
  | S754_infinity s => if s then 0 else umax 64
  | S754_finite true _ _ => 0
  | S754_finite false m e =>
      let a := if 0 <=? e then Z.pos m * 2 ^ e else - ((- Z.pos m) / 2 ^ (- e)) in
      Z.min a (umax 64)
  end.

(** [Duration::as_secs_f64]. *)
Definition as_secs_f64 (ns : Z) : float :=
  dadd (f64_of_Z (ns / 10 ^ 9)) (ddiv (f64_of_Z (ns mod 10 ^ 9)) (f64_of_Z (10 ^ 9))).

Definition history_capacity (sample_rate_hz : float) (history decimation : Z) : Z :=
  Z.max (ceil_usize (ddiv (dmul (f64_of_f32 sample_rate_hz) (as_secs_f64 history)) (f64_of_Z decimation))) 1.

(** The block [started]: prime the path, then ask the MCU to stream. *)
Definition start_upstream : task UpstreamResponse :=
  connection ← current_udp;
  match connection with
  | None => fail NotConnected
  | Some (udp, _, _) =>
      _ ← act (fun _ env app =>
        if ev_io env then Some (log (Primed (cf_mcu_stream_port (ap_config app))) app, Ok ())
        else Some (app, Err IoFailed));
      request (MsgType_u8 StreamStart) (le16 udp)
  end.

Definition start_client (client_id : Z) (peer : SocketAddr) (payload : list Z) (quiet : bool) : task Handled :=
  let request_type := if quiet then QUIET_STREAM_START else MsgType_u8 StreamStart in
  if negb (len payload =? 2) then mret (Handled_error request_type (ErrorCode_u8 BadLength)) else
  match u16_at payload 0 with
  | None => Ret Panic
  | Some port =>
      if port =? 0 then mret (Handled_error request_type (ErrorCode_u8 BadValue)) else
      let target := (peer.1, port) in
      with_operations (
        attached ← with_state (fun _ s =>
          if ss_running s
          then let '(s, r) := attach client_id target quiet s in (s, _ ← r; Ok true)
          else (s, Ok false));
        if attached : bool then mret (Handled_empty request_type) else
        configuration ← read (fun app => ss_configuration (ap_state app));
        match configuration with
        | None => mret (Handled_error request_type (ErrorCode_u8 BadValue))
        | Some configuration =>
            metadata ← read ap_metadata;
            match metadata with
            | None => fail MetadataUnavailable
            | Some metadata =>
                if existsb (fun source => len (dm_sources metadata) <=? source) (sc_sources configuration)
                then mret (Handled_error request_type (ErrorCode_u8 BadValue))
                else
                  selected_sources ← done_with (or_panic (mapM (index (dm_sources metadata)) (sc_sources configuration)));
                  started_utc_ns ← act (fun _ env app => Some (app, Ok (ev_utc_ns env)));
                  _ ← start_recording {|
                    sm_experiment := dm_experiment metadata; sm_firmware := dm_firmware metadata;
                    sm_sample_rate_hz := dm_sample_rate_hz metadata; sm_decimation := sc_decimation configuration;
                    sm_configured_count := sc_count configuration; sm_sources := selected_sources;
                    sm_started_utc_ns := started_utc_ns |};
                  history ← read (fun app => cf_history (ap_config app));
                  let capacity := history_capacity (dm_sample_rate_hz metadata) history (sc_decimation configuration) in
                  _ ← with_state (fun _ s =>
                    attach client_id target quiet
                      (s <| ss_running := true |> <| ss_received_records := 0 |>
                         <| ss_history := History_reset (ss_history s) capacity |>));
                  started ← attempt start_upstream;
                  match started with
                  | Panic => Ret Panic
                  | Err error => _ ← rollback_failed_start; fail error
                  | Ok response =>
                      if negb (ur_message_type response =? MsgType_u8 StreamStart)
                      then _ ← rollback_failed_start; mret (Handled_response response)
                      else mret (Handled_empty request_type)
                  end
            end
        end)
  end.

Definition stream_stop (payload : list Z) : task Handled :=
  if negb (len payload =? 0)
  then mret (Handled_error (MsgType_u8 StreamStop) (ErrorCode_u8 BadLength))
  else
    with_operations (
      response ← request (MsgType_u8 StreamStop) [];
      _ ← (if ur_message_type response =? MsgType_u8 StreamStop then
             was_running ← with_state (fun _ s => (quiesce s, Ok (ss_running s)));
             if was_running : bool then stop_recording CloseStreamStop else mret ()
           else mret ());
      mret (Handled_response response)).

Definition set_quiet (client_id message_type : Z) (payload : list Z) : task Handled :=
  if negb (len payload =? 1) then mret (Handled_error message_type (ErrorCode_u8 BadLength)) else
  match index payload 0 with
  | None => Ret Panic
  | Some value =>
      if 1 <? value then mret (Handled_error message_type (ErrorCode_u8 BadValue)) else
      with_state (fun _ s =>
        match ss_clients s !! client_id with
        | None => (s, Err ClientDisappeared)
        | Some client =>
            match cl_endpoint client with
            | None => (s, Ok (Handled_error message_type (BrokerError_u8 NotAttached)))
            | Some _ =>
                (s <| ss_clients := <[client_id := client <| cl_quiet := negb (value =? 0) |>]> (ss_clients s) |>,
                 Ok (Handled_empty message_type))
            end
        end)
  end.

(** The critical section of [get_recent]. *)
Definition recent_packets (client_id message_type requested : Z) (s : SharedState) : outcome Failure Handled :=
  if negb (ss_running s) then Ok (Handled_error message_type (BrokerError_u8 NoActiveStream))
  else
    match ss_clients s !! client_id with
    | None => Err ClientDisappeared
    | Some client =>
        match cl_endpoint client with
        | None => Ok (Handled_error message_type (BrokerError_u8 NotAttached))
        | Some endpoint =>
            if negb (cl_quiet client) then Ok (Handled_error message_type (BrokerError_u8 NotQuiet))
            else
              match History_recent (ss_history s) requested with
              | Err _ => Ok (Handled_error message_type (BrokerError_u8 InsufficientHistory))
              | Panic => Panic
              | Ok packets =>
                  Ok {| hd_response_type := message_type; hd_payload := le32 requested;
                        hd_datagrams := (fun packet => (packet, endpoint)) <$> packets;
                        hd_reboot_generation := None |}
              end
        end
    end.

Definition get_recent (client_id message_type : Z) (payload : list Z) : task Handled :=
  if negb (len payload =? 4) then mret (Handled_error message_type (ErrorCode_u8 BadLength)) else
  match u32_at payload 0 with
  | None => Ret Panic
  | Some requested =>
      if requested =? 0 then mret (Handled_error message_type (ErrorCode_u8 BadValue)) else
      with_state (fun _ s => (s, recent_packets client_id message_type requested s))
  end.

(** Whether another client owns the staged table; the first section of
    [table_request]. *)
Definition table_owned_by_other (client_id : Z) (s : SharedState) : bool :=
  match ss_table_owner s with
  | Some owner => negb (to_client_id owner =? client_id)
  | None => false
  end.

(** The second section, after the response. *)
Definition update_table_owner (client_id message_type now : Z) (response : UpstreamResponse) (s : SharedState)
    : SharedState :=
  if (message_type =? MsgType_u8 SetBlock) && (ur_message_type response =? message_type)
  then s <| ss_table_owner := Some {| to_client_id := client_id; to_touched := now |} |>
  else if message_type =? MsgType_u8 Commit then
    let is_busy := (ur_message_type response =? MsgType_u8 MsgError)
      && bool_decide (head (ur_payload response) = Some (ErrorCode_u8 Busy)) in
    if is_busy then s <| ss_table_owner := (fun owner => owner <| to_touched := now |>) <$> ss_table_owner s |>
    else s <| ss_table_owner := None |>
  else s.

Definition table_request (client_id message_type : Z) (payload : list Z) : task Handled :=
  owned ← with_state (fun env s =>
    let s := expire_table_owner (ev_now env) s in (s, Ok (table_owned_by_other client_id s)));
  if owned : bool then mret (Handled_error message_type (ErrorCode_u8 Busy)) else
  response ← request message_type payload;
  with_state (fun env s =>
    (update_table_owner client_id message_type (ev_now env) response s, Ok (Handled_response response))).

Definition handle_request (client_id : Z) (peer : SocketAddr) (message_type : Z) (payload : list Z)
    : task Handled :=
  if message_type =? BROKER_INFO then
    if negb (len payload =? 0) then mret (Handled_error message_type (ErrorCode_u8 BadLength))
    else
      info ← broker_info client_id;
      encoded ← done_with (map_err (fun _ => IoFailed)
        (BrokerInfo_encode info (replicate (Z.to_nat (INFO_HEADER_LEN + bi_n_sources info)) 0)));
      mret {| hd_response_type := message_type; hd_payload := encoded.1; hd_datagrams := [];
              hd_reboot_generation := None |}
  else if message_type =? QUIET_STREAM_START then start_client client_id peer payload true
  else if message_type =? SET_CLIENT_QUIET then set_quiet client_id message_type payload
  else if message_type =? GET_RECENT then get_recent client_id message_type payload
  else if message_type =? MsgType_u8 StreamSetup then stream_setup payload
  else if message_type =? MsgType_u8 StreamStart then start_client client_id peer payload false
  else if message_type =? MsgType_u8 StreamStop then stream_stop payload
  else if (message_type =? MsgType_u8 SetBlock) || (message_type =? MsgType_u8 Commit)
  then table_request client_id message_type payload
  else if message_type =? MsgType_u8 SetPar then set_parameter payload
  else response ← request message_type payload; mret (Handled_response response).

(** ** The tasks *)

(** What a client's connection delivers: a request, a failed read, or the turn
    of the other branch of the [select!]. *)
Inductive ClientInput :=
  | InFrame (message_type sequence : Z) (payload : list Z)
  | InBroken (error : Failure)
  | InEpoch.

(** [write_frame] to the client: an encoding error, or the socket's. *)
Definition reply (client_id message_type sequence : Z) (payload : list Z) : task unit :=
  _ ← done_with (write_frame message_type sequence payload);
  act (fun _ env app =>
    if ev_io env then Some (log (Replied client_id message_type sequence payload) app, Ok ())
    else Some (app, Err IoFailed)).

Fixpoint serve_loop (client_id : Z) (peer : SocketAddr) (starting_epoch : Z) (inputs : list ClientInput)
    : task unit :=
  match inputs with
  | [] => fail FrameIncomplete
  | InBroken error :: _ => fail error
  | InEpoch :: inputs =>
      epoch ← read ap_epoch;
      if negb (epoch =? starting_epoch) then mret () else serve_loop client_id peer starting_epoch inputs
  | InFrame message_type sequence payload :: inputs =>
      handled ← handle_request client_id peer message_type payload;
      _ ← reply client_id (hd_response_type handled) sequence (hd_payload handled);
      _ ← relay Replayed (hd_datagrams handled);
      match hd_reboot_generation handled with
      | Some generation => complete_mcu_reboot generation
      | None => serve_loop client_id peer starting_epoch inputs
      end
  end.

Definition serve_client (peer : SocketAddr) (inputs : list ClientInput) : task unit :=
  client_id ← register_client;
  starting_epoch ← read ap_epoch;
  result ← attempt (serve_loop client_id peer starting_epoch inputs);
  _ ← unregister_client client_id;
  done_with result.

(** The upstream UDP socket: a datagram with the address it comes from, an
    error, or the epoch branch. *)
Inductive UdpInput :=
  | UdpDatagram (wire : list Z) (from : Z)
  | UdpError
  | UdpEpoch.

Fixpoint udp_loop (peer_ip generation starting_epoch : Z) (inputs : list UdpInput) : task unit :=
  match inputs with
  | [] => mret ()
  | UdpDatagram wire from :: inputs =>
      if negb (from =? peer_ip) then udp_loop peer_ip generation starting_epoch inputs
      else
        r ← attempt (process_packet wire);
        match r with
        | Ok _ => udp_loop peer_ip generation starting_epoch inputs
        | Err error => act (fun _ _ app => Some (app <| ap_fatal := Some error |>, Ok ()))
        | Panic => Ret Panic
        end
  | UdpError :: _ => mark_upstream_failed generation
  | UdpEpoch :: inputs =>
      epoch ← read ap_epoch;
      if negb (epoch =? starting_epoch) then mret () else udp_loop peer_ip generation starting_epoch inputs
  end.

Definition upstream_udp_loop (peer_ip generation : Z) (inputs : list UdpInput) : task unit :=
  starting_epoch ← read ap_epoch;
  udp_loop peer_ip generation starting_epoch inputs.

(** [n] ticks. *)
Fixpoint heartbeat_loop (n : nat) : task unit :=
  match n with
  | O => mret ()
  | S n =>
      ready ← upstream_ready;
      _ ← (if ready : bool then _ ← attempt (request (MsgType_u8 Status) []); mret () else mret ());
      heartbeat_loop n
  end.

Fixpoint storage_failure_monitor (errors : list (option Failure)) : task unit :=
  match errors with
  | [] => mret ()
  | Some error :: _ => act (fun _ _ app => Some (app <| ap_fatal := Some error |>, Ok ()))
  | None :: errors => storage_failure_monitor errors
  end.

Definition fixed_identity (value : list Z) : list Z :=
  let length := Z.to_nat (Z.min (len value) 16) in
  take length value ++ replicate (16 - length) 0.

(** [concat!("helic-broker ", major, ".", minor)] of the package version. *)
Definition BROKER_IDENTITY : list Z := str_bytes "helic-broker 0.3".

Fixpoint discovery_server (datagrams : list (list Z * SocketAddr)) : task unit :=
  match datagrams with
  | [] => mret ()
  | (datagram, peer) :: datagrams =>
      if negb (bool_decide (datagram = REQUEST)) then discovery_server datagrams
      else
        metadata ← read ap_metadata;
        match metadata with
        | None => discovery_server datagrams
        | Some metadata =>
            control_port ← read (fun app => cf_control_port (ap_config app));
            let response := {| br_version := VERSION; br_control_port := control_port; br_mac := dm_mac metadata;
                               br_experiment := fixed_identity (dm_experiment metadata);
                               br_firmware := fixed_identity BROKER_IDENTITY |} in
            encoded ← done_with (or_panic (BeaconResponse_encode response (replicate (Z.to_nat RESPONSE_LEN) 0)));
            _ ← act (fun _ env app => Some (if ev_io env then log (Announced encoded peer) app else app, Ok ()));
            discovery_server datagrams
        end
  end.

Section upstream_tasks.
(** The devices a connection can reach. *)
Context {D : Type}.
Variable device : D -> list Z -> D * option (list Z).

(** An attempt to connect: the address and local port the sockets have, the
    device behind them, the datagram that answers the beacon, and what the UDP
    socket will deliver; or a failure. *)
Record Connection := {
  cn_peer_ip : Z; cn_udp : Z; cn_device : D; cn_beacon : option (list Z); cn_datagrams : list UdpInput }.

Definition connect_upstream (connection : option Connection)
    : task (UpstreamControl * DeviceMetadata * list UdpInput) :=
  match connection with
  | None => fail IoFailed
  | Some c =>
      generation ← act (fun _ _ app =>
        Some (app <| ap_next_generation := ap_next_generation app + 1 |>, Ok (ap_next_generation app)));
      let upstream := {| uc_stream := []; uc_sequence := 0; uc_generation := generation;
                         uc_peer_ip := cn_peer_ip c; uc_udp := cn_udp c |} in
      let '((upstream, _), metadata) := discover_device device (upstream, cn_device c) (cn_beacon c) in
      metadata ← done_with metadata;
      mret (upstream, metadata, cn_datagrams c)
  end.

(** One turn of the loop per connection attempt; a turn that finds the MCU
    connected waits for [reconnect]. *)
Fixpoint reconnect_loop (connections : list (option Connection)) : task unit :=
  match connections with
  | [] => mret ()
  | connection :: connections =>
      ready ← upstream_ready;
      if ready : bool then
        _ ← act (fun _ _ app => if ap_reconnect app then Some (app <| ap_reconnect := false |>, Ok ()) else None);
        reconnect_loop connections
      else
        connected ← attempt (connect_upstream connection);
        match connected with
        | Ok (upstream, metadata, datagrams) =>
            let generation := uc_generation upstream in
            let peer_ip := uc_peer_ip upstream in
            _ ← act (fun _ _ app => Some (app <| ap_metadata := Some metadata |>, Ok ()));
            _ ← act (fun _ _ app =>
              Some (log (Connected generation) (app <| ap_upstream := Some upstream |>), Ok ()));
            _ ← spawn (upstream_udp_loop peer_ip generation datagrams);
            reconnect_loop connections
        | Err _ => reconnect_loop connections
        | Panic => Ret Panic
        end
  end.

(** The turns of the [select!] of [run]. *)
Inductive RunInput :=
  | RunAccept (peer : SocketAddr) (inputs : list ClientInput)
  | RunAcceptFailed
  | RunInterrupt
  | RunFatalChanged.

Fixpoint run_loop (inputs : list RunInput) : task unit :=
  match inputs with
  | [] => mret ()
  | RunAccept peer client_inputs :: inputs =>
      ready ← upstream_ready;
      _ ← (if ready : bool then spawn (serve_client peer client_inputs) else mret ());
      run_loop inputs
  | RunAcceptFailed :: _ => fail IoFailed
  | RunInterrupt :: _ => shutdown
  | RunFatalChanged :: inputs =>
      reason ← read ap_fatal;
      match reason with
      | Some reason => _ ← shutdown; fail reason
      | None => run_loop inputs
      end
  end.

(** What the outside delivers to the tasks of a run. *)
Record Inputs := {
  in_run : list RunInput;
  in_discovery : list (list Z * SocketAddr);
  in_connections : list (option Connection);
  in_heartbeats : nat;
  in_storage_errors : list (option Failure)
}.

Definition run (inputs : Inputs) : task unit :=
  _ ← spawn (discovery_server (in_discovery inputs));
  _ ← spawn (reconnect_loop (in_connections inputs));
  _ ← spawn (heartbeat_loop (in_heartbeats inputs));
  recording ← read (fun app => cf_recording (ap_config app));
  _ ← (if recording : bool then spawn (storage_failure_monitor (in_storage_errors inputs)) else mret ());
  run_loop (in_run inputs).
End upstream_tasks.

(** ** Executions *)

Definition Pool : Type := list (task unit).

(** One step of task [t]. *)
Definition step (t : Task) (env : Env) (st : App * Pool) : option (App * Pool) :=
  let '(app, pool) := st in
  match nth_error pool t with
  | None | Some (Ret _) => None
  | Some (Atomic f k) =>
      match f t env app with
      | Some (app, b) => Some (app, list_insert t (k b) pool)
      | None => None
      end
  | Some (Spawn p k) => Some (app, list_insert t k pool ++ [p])
  end.

(** A schedule says which task moves, and what happens outside meanwhile. *)
Fixpoint execute (schedule : list (Task * Env)) (st : App * Pool) : option (App * Pool) :=
  match schedule with
  | [] => Some st
  | (t, env) :: schedule =>
      match step t env st with
      | Some st => execute schedule st
      | None => None
      end
  end.
