(* ===== verification/BrokerLaws.v ===== *)
(** * The broker under every schedule

    What holds of the shared state whatever the interleaving of the broker's
    tasks and whatever the clients, the MCU, the recorder and the network do.
    A task is verified on its own ([wp]) against what the others may change
    between its steps ([rely]); [execute_ok] puts the tasks together.  The one
    panic is that of the reconnect task, in the discovery of an MCU that announces
    more parameters than its index can count. *)

From stdpp Require Import strings gmap.
From S2P Require Import Prelude Float32 Proto Text Frame StreamPacket Beacon BrokerInfo Upstream History Broker.

#[export] Set Default Goal Selector "!".
Open Scope Z_scope.

(** ** The invariant of the shared state *)

Record config_ok (c : StreamConfiguration) : Prop := {
  co_decimation : fits 16 (sc_decimation c);
  co_count : fits 32 (sc_count c);
  co_sources : bytes_ok (sc_sources c);
  co_n_sources : 0 < len (sc_sources c) <= BROKER_MAX_SOURCES }.

(** A session that is not running: nothing received, nothing retained, nobody
    attached. *)
Record at_rest (s : SharedState) : Prop := {
  ar_received : ss_received_records s = 0;
  ar_packets : hi_packets (ss_history s) = [];
  ar_clients : map_Forall (fun _ cl => cl = ClientState_default) (ss_clients s) }.

Record state_ok (s : SharedState) : Prop := {
  so_rest : ss_running s = false -> at_rest s;
  so_quiet : map_Forall (fun _ cl => cl_quiet cl = true -> is_Some (cl_endpoint cl)) (ss_clients s);
  so_history : history_ok (ss_history s);
  so_config : forall c, ss_configuration s = Some c -> config_ok c;
  so_layout : forall c, ss_configuration s = Some c ->
    Forall (fun p => packet_matches c p = true) (hi_packets (ss_history s));
  so_owner : forall o, ss_table_owner s = Some o -> is_Some (ss_clients s !! to_client_id o) }.

(** *** What the recorder was given *)

(** The announcement of the last recording. *)
Definition last_started (log : list Event) : option SessionMetadata :=
  fold_left (fun m e => match e with RecordingStarted m' => Some m' | _ => m end) log None.

#[local] Arguments last_started : simpl never.

(** A recording of sessions like [c]. *)
Definition announces (c : StreamConfiguration) (m : SessionMetadata) : Prop :=
  sm_decimation m = sc_decimation c /\ len (sm_sources m) = len (sc_sources c) /\ sm_configured_count m = sc_count c.

(** A packet that the recording [m] can hold. *)
Definition fits_recording (m : SessionMetadata) (p : Packet) : Prop :=
  packet_ok p /\ sh_n_sources (pk_header p) = len (sm_sources m) /\ sh_decimation (pk_header p) = sm_decimation m.

(** A recording has sources, and a packet comes after the announcement of a
    recording that can hold it. *)
Definition event_ok (before : list Event) (e : Event) : Prop :=
  match e with
  | RecordingStarted m => sm_sources m <> []
  | RecordedPacket p => exists m, last_started before = Some m /\ fits_recording m p
  | _ => True
  end.

Definition well_recorded (log : list Event) : Prop :=
  forall l1 e l2, log = l1 ++ e :: l2 -> event_ok l1 e.

(** Neither an announcement nor a packet. *)
Definition plain (e : Event) : Prop :=
  match e with RecordingStarted _ | RecordedPacket _ => False | _ => True end.

Lemma last_started_app l l' :
  last_started (l ++ l') = fold_left (fun m e => match e with RecordingStarted m' => Some m' | _ => m end) l' (last_started l).
Proof. apply fold_left_app. Qed.

Lemma last_started_plain l l' : Forall plain l' -> last_started (l ++ l') = last_started l.
Proof.
  rewrite last_started_app. generalize (last_started l). induction 1 as [|e l' He _ IH] in |- *; [done|].
  by destruct e.
Qed.

Lemma last_started_packet l p : last_started (l ++ [RecordedPacket p]) = last_started l.
Proof. by rewrite last_started_app. Qed.

Lemma well_recorded_snoc l e : well_recorded l -> event_ok l e -> well_recorded (l ++ [e]).
Proof.
  intros Hl He l1 e' l2 E. destruct l2 as [|e2 l2 _] using rev_ind.
  - by apply app_inj_tail in E as [-> ->].
  - rewrite app_comm_cons, app_assoc in E. apply app_inj_tail in E as [-> _]. by eapply Hl.
Qed.

Lemma well_recorded_plain l l' : well_recorded l -> Forall plain l' -> well_recorded (l ++ l').
Proof.
  intros Hl Hp. revert l Hl. induction Hp as [|e l' He _ IH]; intros l Hl; [by rewrite app_nil_r|].
  change (e :: l') with ([e] ++ l'). rewrite app_assoc. apply IH, well_recorded_snoc; [done|]. by destruct e.
Qed.

Record broker_inv (app : App) : Prop := {
  bi_state_ok : state_ok (ap_state app);
  bi_registered : forall c, is_Some (ss_clients (ap_state app) !! c) -> is_Some (ap_registrations app !! c);
  bi_next : forall c t, ap_registrations app !! c = Some t -> c < ap_next_client app;
  bi_mac : forall m, ap_metadata app = Some m -> len (dm_mac m) = 6;
  bi_retention : 0 <= cf_history (ap_config app);
  bi_fatal : ap_fatal app <> Some ClientDisappeared;
  bi_announced : cf_recording (ap_config app) = true -> ss_running (ap_state app) = true ->
    forall c, ss_configuration (ap_state app) = Some c ->
    exists m, last_started (ap_log app) = Some m /\ announces c m;
  bi_recorded : well_recorded (ap_log app) }.

(** ** What the other tasks may do *)

Record rely (t : Task) (app app' : App) : Prop := {
  rl_config : ap_config app' = ap_config app;
  rl_lock : ap_operations app = Some t <-> ap_operations app' = Some t;
  rl_running : ap_operations app = Some t -> ss_running (ap_state app') = true -> ss_running (ap_state app) = true;
  rl_own : forall c, ap_registrations app !! c = Some t <-> ap_registrations app' !! c = Some t;
  rl_client : forall c, ap_registrations app !! c = Some t ->
    is_Some (ss_clients (ap_state app) !! c) <-> is_Some (ss_clients (ap_state app') !! c);
  rl_log : exists l, ap_log app' = ap_log app ++ l;
  rl_started : ap_operations app = Some t -> last_started (ap_log app') = last_started (ap_log app);
  rl_configured : ap_operations app = Some t -> forall c,
    ss_configuration (ap_state app') = Some c -> ss_configuration (ap_state app) = Some c }.

#[export] Instance rely_refl t : Reflexive (rely t).
Proof. intros app. split; try done. exists []. by rewrite app_nil_r. Qed.

#[export] Instance rely_trans t : Transitive (rely t).
Proof.
  intros a b c [C1 L1 R1 O1 K1 [l1 G1] S1 F1] [C2 L2 R2 O2 K2 [l2 G2] S2 F2]. split.
  - by rewrite C2.
  - by rewrite L1.
  - intros Hl Hr. apply R1, R2; [done|by apply L1|done].
  - intros c'. by rewrite O1.
  - intros c' Hc. rewrite K1 by done. apply K2. by apply O1.
  - exists (l1 ++ l2). by rewrite G2, G1, app_assoc.
  - intros Hl. rewrite S2 by (by apply L1). by apply S1.
  - intros Hl c' Hc. apply F1, F2; [done|by apply L1|done].
Qed.

(** A step of [t] respects every other task. *)
Definition guar (t : Task) (app app' : App) : Prop := forall t', t' <> t -> rely t' app app'.

(** A step that respects every task, its own included. *)
Definition calm (app app' : App) : Prop := forall t, rely t app app'.

#[export] Instance calm_refl : Reflexive calm.
Proof. by intros app t. Qed.

(** A task that has not started. *)
Definition fresh (t : Task) (app : App) : Prop :=
  ap_operations app <> Some t /\ forall c, ap_registrations app !! c <> Some t.

Lemma fresh_rely t app app' : fresh t app -> rely t app app' -> fresh t app'.
Proof.
  intros [Hl Hc] [_ L _ O _ _]. split; [by rewrite <-L|]. intros c. rewrite <-O. apply Hc.
Qed.

(** ** Verification of a task *)

Section laws.
(** What may make a task panic: the discovery of an MCU ([discovery_overflows]
    below); only the reconnect task can run into it. *)
Context (discovery_panics : Prop).

(** The result of a task: no panic, and a client's own state is never missing. *)
Definition result_ok {A} (r : outcome Failure A) : Prop := r <> Panic /\ r <> Err ClientDisappeared.

(** What a finished task leaves: not the lock, and no registered client. *)
Definition final (t : Task) (r : outcome Failure unit) (app : App) : Prop :=
  (r = Panic -> discovery_panics) /\ r <> Err ClientDisappeared /\ ap_operations app <> Some t
  /\ forall c, ap_registrations app !! c = Some t -> ss_clients (ap_state app) !! c = None.

Fixpoint wp {A : Type} (t : Task) (p : proc A) (Q : A -> App -> Prop) (app : App) : Prop :=
  match p with
  | Ret a => forall app1, rely t app app1 -> broker_inv app1 -> Q a app1
  | Atomic f k =>
      forall env app1, rely t app app1 -> broker_inv app1 ->
      match f t env app1 with
      | None => True
      | Some (app2, b) => broker_inv app2 /\ guar t app1 app2 /\ wp t (k b) Q app2
      end
  | Spawn p k =>
      (forall t' app1, fresh t' app1 -> broker_inv app1 -> wp t' p (final t') app1)
      /\ (forall app1, rely t app app1 -> broker_inv app1 -> wp t k Q app1)
  end.

Lemma wp_rely {A} t (p : proc A) Q app app' : wp t p Q app -> rely t app app' -> wp t p Q app'.
Proof.
  intros Hw Hr. destruct p as [a|B f k|p k]; cbn [wp] in *.
  - intros app1 H1. apply Hw. by etrans.
  - intros env app1 H1. apply Hw. by etrans.
  - destruct Hw as [Hp Hk]. split; [done|]. intros app1 H1. apply Hk. by etrans.
Qed.

Lemma wp_mono {A} t (p : proc A) (Q Q' : A -> App -> Prop) app :
  (forall a app', broker_inv app' -> Q a app' -> Q' a app') -> wp t p Q app -> wp t p Q' app.
Proof.
  intros HQ. revert app. induction p as [A a|A B f k IH|A p _ k IH]; intros app; cbn [wp].
  - intros H app1 H1 Hi. by apply HQ, H.
  - intros H env app1 H1 Hi. specialize (H env app1 H1 Hi). destruct (f t env app1) as [[app2 b]|]; [|done].
    destruct H as (Hi2 & Hg & Hw). split; [done|]. split; [done|]. by eapply IH.
  - intros [Hp Hk]. split; [done|]. intros app1 H1 Hi. by eapply IH; [|apply Hk].
Qed.

Lemma wp_bind {A B} t (p : proc A) (g : A -> proc B) Q app :
  broker_inv app -> wp t p (fun a app' => wp t (g a) Q app') app -> wp t (proc_bind p g) Q app.
Proof.
  revert app. induction p as [A a|A C f k IH|A p _ k IH]; intros app Hi; cbn [wp proc_bind].
  - intros H. apply H; done.
  - intros H env app1 H1 Hi1. specialize (H env app1 H1 Hi1). destruct (f t env app1) as [[app2 b]|]; [|done].
    destruct H as (Hi2 & Hg & Hw). split; [done|]. split; [done|]. by apply IH.
  - intros [Hp Hk]. split; [done|]. intros app1 H1 Hi1. by apply IH, Hk.
Qed.

(** ** The pool *)

Record pool_ok (st : App * Pool) : Prop := {
  pk_inv : broker_inv st.1;
  pk_tasks : forall t p, nth_error st.2 t = Some p -> wp t p (final t) st.1;
  pk_fresh : forall t, (length st.2 <= t)%nat -> fresh t st.1 }.

Lemma nth_error_insert {A} t (x : A) l t' :
  (t < length l)%nat -> nth_error (list_insert t x l) t' = if (t' =? t)%nat then Some x else nth_error l t'.
Proof.
  revert t t'. induction l as [|y l IH]; intros t t' Ht; cbn [length] in Ht; [lia|].
  destruct t as [|t]; destruct t' as [|t']; try done. cbn [list_insert nth_error Nat.eqb].
  apply (IH t t'). lia.
Qed.

Lemma length_list_insert {A} t (x : A) l : length (list_insert t x l) = length l.
Proof. revert t. induction l as [|y l IH]; intros [|t]; try done. cbn. f_equal. apply IH. Qed.

Lemma nth_error_singleton {A} (x y : A) n : nth_error [x] n = Some y -> x = y.
Proof. destruct n as [|[|n]]; cbn; congruence. Qed.

Lemma step_ok t env st st' : pool_ok st -> step t env st = Some st' -> pool_ok st'.
Proof.
  destruct st as [app pool]. intros [Hi Ht Hf] Hs. cbn [fst snd] in *. unfold step in Hs.
  unfold Pool, task, Task in *.
  destruct (nth_error pool t) as [p|] eqn:Hp; [|done].
  assert (Hlt : (t < length pool)%nat) by (apply nth_error_Some; congruence).
  pose proof (Ht _ _ Hp) as Hw. destruct p as [r|B f k|p k]; [done| |].
  - cbn [wp] in Hw. specialize (Hw env app ltac:(reflexivity) Hi). destruct (f t env app) as [[app' b]|]; [|done].
    injection Hs as <-. destruct Hw as (Hi' & Hg & Hw). split; cbn [fst snd]; [done| |].
    + intros t' q. rewrite nth_error_insert by done. destruct (Nat.eqb_spec t' t) as [->|Hne].
      * intros [= <-]. done.
      * intros Hq. by eapply wp_rely; [apply Ht|apply Hg].
    + intros t'. rewrite length_list_insert. intros Hl. eapply fresh_rely; [by apply Hf|]. apply Hg. unfold Task, task in *. lia.
  - injection Hs as <-. destruct Hw as [Hnew Hk]. split; cbn [fst snd]; [done| |].
    + intros t' q. destruct (Nat.lt_ge_cases t' (length (list_insert t k pool))) as [Hl|Hl].
      * rewrite nth_error_app1 by done. rewrite nth_error_insert by done.
        destruct (Nat.eqb_spec t' t) as [->|Hne]; [|by apply Ht]. intros [= <-]. by apply Hk.
      * rewrite nth_error_app2 by done. rewrite length_list_insert in *. intros Hq.
        apply nth_error_singleton in Hq as <-.
        apply Hnew; [|done]. by apply Hf.
    + intros t'. rewrite length_app, length_list_insert. cbn [length]. intros Hl. apply Hf. unfold task in *. lia.
Qed.

Lemma execute_ok schedule st st' : pool_ok st -> execute schedule st = Some st' -> pool_ok st'.
Proof.
  revert st. induction schedule as [|[t env] schedule IH]; intros st Hs; cbn [execute].
  - by intros [= <-].
  - destruct (step t env st) as [st1|] eqn:E; [|done]. apply IH. by eapply step_ok.
Qed.

(** ** Triples *)

(** [rely] but for the sessions the task itself starts. *)
Record keeps (t : Task) (app app' : App) : Prop := {
  kp_config : ap_config app' = ap_config app;
  kp_lock : ap_operations app = Some t <-> ap_operations app' = Some t;
  kp_own : forall c, ap_registrations app !! c = Some t <-> ap_registrations app' !! c = Some t;
  kp_client : forall c, ap_registrations app !! c = Some t ->
    is_Some (ss_clients (ap_state app) !! c) <-> is_Some (ss_clients (ap_state app') !! c);
  kp_log : exists l, ap_log app' = ap_log app ++ l }.

Lemma rely_keeps t app app' : rely t app app' -> keeps t app app'.
Proof. by intros []. Qed.

#[export] Instance keeps_trans t : Transitive (keeps t).
Proof.
  intros a b c [C1 L1 O1 K1 [l1 G1]] [C2 L2 O2 K2 [l2 G2]]. split.
  - by rewrite C2.
  - by rewrite L1.
  - intros c'. by rewrite O1.
  - intros c' Hc. rewrite K1 by done. apply K2. by apply O1.
  - exists (l1 ++ l2). by rewrite G2, G1, app_assoc.
Qed.

(** Without the lock, the two are the same. *)
Lemma keeps_free t app app' : ap_operations app <> Some t -> keeps t app app' -> rely t app app'.
Proof. intros Hf [C L O K G]. by split. Qed.

(** What a task knows: stable under the steps of the others. *)
Definition assertion : Type := Task -> App -> Prop.

Class Stable (R : Task -> App -> App -> Prop) (L : assertion) :=
  stable : forall t app app', R t app app' -> L t app -> L t app'.

#[export] Instance stable_pure R (P : Prop) : Stable R (fun _ _ => P).
Proof. by intros t app app'. Qed.

#[export] Instance stable_and R L L' `{!Stable R L, !Stable R L'} : Stable R (fun t app => L t app /\ L' t app).
Proof. intros t app app' Hr [H1 H2]. split; by eapply stable. Qed.

#[export] Instance stable_impl R (P : Prop) L `{!Stable R L} : Stable R (fun t app => P -> L t app).
Proof. intros t app app' Hr H1 H2. eapply stable; [done|by apply H1]. Qed.

#[export] Instance stable_forall R {A} (L : A -> assertion) `{!forall a, Stable R (L a)} :
  Stable R (fun t app => forall a, L a t app).
Proof. intros t app app' Hr H1 a. eapply stable; [done|apply H1]. Qed.

(** The client [c] of this task is registered. *)
Definition mine (c : Z) : assertion := fun t app =>
  ap_registrations app !! c = Some t /\ is_Some (ss_clients (ap_state app) !! c).
Definition held : assertion := fun t app => ap_operations app = Some t.
Definition free : assertion := fun t app => ap_operations app <> Some t.
(** The lock is held and no session runs: none can start. *)
Definition stopped : assertion := fun t app => ap_operations app = Some t /\ ss_running (ap_state app) = false.

#[export] Instance mine_keeps c : Stable keeps (mine c).
Proof. intros t app app' [C L O K G] [Hr Hc]. split; [by apply O|by apply K]. Qed.
#[export] Instance held_keeps : Stable keeps held.
Proof. intros t app app' [C L O K G]. apply L. Qed.
#[export] Instance free_keeps : Stable keeps free.
Proof. intros t app app' [C L O K G]. unfold free. by rewrite L. Qed.
#[export] Instance stopped_rely : Stable rely stopped.
Proof.
  intros t app app' [C L R O K G] [Hl Hr]. split; [by apply L|].
  destruct (ss_running (ap_state app')) eqn:E; [|done]. by rewrite R in Hr.
Qed.
Lemma stable_rely L : Stable keeps L -> Stable rely L.
Proof. intros H t app app' Hr. by apply H, rely_keeps. Qed.
#[export] Instance mine_rely c : Stable rely (mine c) := stable_rely _ _.
#[export] Instance held_rely : Stable rely held := stable_rely _ _.
#[export] Instance free_rely : Stable rely free := stable_rely _ _.

(** From a state where [L] holds, [p] does not fail in the ways [result_ok]
    excludes, moves its own world by [R], and [M] holds of its result. *)
Definition triple (R : Task -> App -> App -> Prop) (L : assertion) {A} (p : task A) (M : A -> assertion) : Prop :=
  forall t app, broker_inv app -> L t app ->
    wp t p (fun r app' => result_ok r /\ R t app app' /\ forall a, r = Ok a -> M a t app') app.

Section triples.
Context (R : Task -> App -> App -> Prop).
Context (HR : forall t app app', rely t app app' -> R t app app').
Context (HT : forall t, Transitive (R t)).

Lemma triple_result {A} L (r : outcome Failure A) (M : A -> assertion) `{!Stable rely L} :
  result_ok r -> (forall a t app, r = Ok a -> L t app -> M a t app) -> triple R L (Ret r) M.
Proof using HR.
  intros Hok HM t app Hi HL app1 Hr Hi1. split; [done|]. split; [by apply HR|].
  intros a Ha. apply HM; [done|]. by eapply stable.
Qed.

Lemma triple_bind {A B} L (m : task A) (g : A -> task B) M N `{!Stable R L} :
  triple R L m M -> (forall a, triple R (fun t app => L t app /\ M a t app) (g a) N) ->
  triple R L (m ≫= g) N.
Proof using HR HT.
  intros Hm Hg t app Hi HL. apply wp_bind; [done|].
  eapply wp_mono; [|apply (Hm t app Hi HL)]. intros r app1 Hi1 (Hok & Hr & HM).
  destruct r as [a|e|].
  - eapply wp_mono; [|apply (Hg a t app1 Hi1)].
    + intros r app2 Hi2 (Hok2 & Hr2 & HN). split; [done|]. split; [by etrans|done].
    + split; [by eapply stable|by apply HM].
  - intros app2 Hr2 Hi2. split; [|split; [etrans; [done|by apply HR]|done]].
    destruct Hok as [_ He]. split; [done|]. intros [= ->]. by apply He.
  - by destruct Hok.
Qed.

Lemma triple_attempt {A B} L (m : task A) (g : outcome Failure A -> task B) M N
    `{!Stable R L, !forall a, Stable rely (M a)} :
  triple R L m M ->
  (forall r, result_ok r -> triple R (fun t app => L t app /\ forall a, r = Ok a -> M a t app) (g r) N) ->
  triple R L (attempt m ≫= g) N.
Proof using HR HT.
  intros Hm Hg t app Hi HL. apply wp_bind; [done|]. apply wp_bind; [done|].
  eapply wp_mono; [|apply (Hm t app Hi HL)]. intros r app1 Hi1 (Hok & Hr & HM).
  intros app2 Hr2 Hi2. eapply wp_mono; [|apply (Hg r Hok t app2 Hi2)].
  - intros r' app3 Hi3 (Hok3 & Hr3 & HN). split; [done|]. split; [|done].
    etrans; [done|]. etrans; [by apply HR|done].
  - split; [eapply stable; [by apply HR|by eapply stable]|]. intros a Ha. eapply stable; [done|by apply HM].
Qed.

(** A step. *)
Lemma triple_act {A} L (f : Task -> Env -> App -> option (App * outcome Failure A)) (M : A -> assertion)
    `{!Stable rely L, !forall a, Stable rely (M a)} :
  (forall t env app, broker_inv app -> L t app ->
     match f t env app with
     | None => True
     | Some (app', r) => broker_inv app' /\ guar t app app' /\ R t app app' /\ result_ok r
         /\ forall a, r = Ok a -> M a t app'
     end) ->
  triple R L (act f) M.
Proof using HR HT.
  intros Hf t app Hi HL env app1 Hr1 Hi1. specialize (Hf t env app1 Hi1 ltac:(by eapply stable)).
  destruct (f t env app1) as [[app2 r]|]; [|done]. destruct Hf as (Hi2 & Hg & HR2 & Hok & HM).
  split; [done|]. split; [done|]. intros app3 Hr3 Hi3. split; [done|]. split.
  - etrans; [by apply HR|]. etrans; [done|by apply HR].
  - intros a Ha. eapply stable; [done|by apply HM].
Qed.

Lemma triple_read {A} L (f : App -> A) (M : A -> assertion)
    `{!Stable rely L, !forall a, Stable rely (M a)} :
  (forall t app, broker_inv app -> L t app -> M (f app) t app) -> triple R L (read f) M.
Proof using HR HT.
  intros HM. apply triple_act; [done|done|]. intros t env app Hi HL. split; [done|].
  split; [intros t' _; reflexivity|]. split; [apply HR; reflexivity|]. split; [by split|].
  intros a [= <-]. by apply HM.
Qed.

Lemma triple_weaken {A} (L L' : assertion) (p : task A) (M M' : A -> assertion) :
  (forall t app, L' t app -> L t app) -> (forall a t app, M a t app -> M' a t app) ->
  triple R L p M -> triple R L' p M'.
Proof using Type.
  intros HL HM H t app Hi Ht. eapply wp_mono; [|apply (H t app Hi (HL _ _ Ht))].
  intros r app' _ (Hok & Hr & Hm). split; [done|]. split; [done|]. intros a Ha. by apply HM, Hm.
Qed.
End triples.

#[export] Instance rely_rely_trans : forall t, Transitive (rely t) := rely_trans.

Lemma triple_keeps {A} L (p : task A) M : triple rely L p M -> triple keeps L p M.
Proof.
  intros H t app Hi HL. eapply wp_mono; [|by apply (H t app Hi HL)].
  intros r app' _ (Hok & Hr & Hm). split; [done|]. split; [by apply rely_keeps|done].
Qed.

(** A task that needs to know nothing and tells nothing. *)
Definition calm_task {A} (p : task A) : Prop := triple rely (fun _ _ => True) p (fun _ _ _ => True).

Lemma calm_bind {A B} (m : task A) (g : A -> task B) :
  calm_task m -> (forall a, calm_task (g a)) -> calm_task (m ≫= g).
Proof.
  intros Hm Hg. apply (triple_bind rely (fun _ _ _ H => H) _ _ m g (fun _ _ _ => True)); [apply _|exact Hm|].
  intros a. by eapply triple_weaken; [..|apply Hg].
Qed.

Lemma calm_attempt {A B} (m : task A) (g : outcome Failure A -> task B) :
  calm_task m -> (forall r, result_ok r -> calm_task (g r)) -> calm_task (attempt m ≫= g).
Proof.
  intros Hm Hg. apply (triple_attempt rely (fun _ _ _ H => H) _ _ m g (fun _ _ _ => True)); [apply _|apply _|exact Hm|].
  intros r Hr. by eapply triple_weaken; [..|apply Hg].
Qed.

Lemma calm_result {A} (r : outcome Failure A) : result_ok r -> calm_task (Ret r).
Proof. intros Hr. by apply triple_result; [done|apply _|..]. Qed.

Lemma calm_ret {A} (a : A) : calm_task (mret a).
Proof. by apply calm_result. Qed.

Lemma calm_read {A} (f : App -> A) : calm_task (read f).
Proof. by apply triple_read; [done|apply _|apply _|apply _|]. Qed.

(** A step that is calm for every task. *)
Lemma calm_act {A} (f : Task -> Env -> App -> option (App * outcome Failure A)) :
  (forall t env app, broker_inv app ->
     match f t env app with
     | None => True
     | Some (app', r) => broker_inv app' /\ calm app app' /\ result_ok r
     end) -> calm_task (act f).
Proof.
  intros Hf. apply triple_act; [done|apply _|apply _|apply _|]. intros t env app Hi _.
  specialize (Hf t env app Hi). destruct (f t env app) as [[app' r]|]; [|done].
  destruct Hf as (Hi' & Hc & Hok). split; [done|]. split; [intros t' _; apply Hc|]. split; [apply Hc|done].
Qed.

(** A calm task anywhere. *)
Lemma calm_frame {A} L (p : task A) `{!Stable rely L} : calm_task p -> triple rely L p (fun _ => L).
Proof.
  intros H t app Hi HL. eapply wp_mono; [|by apply (H t app Hi I)].
  intros r app' _ (Hok & Hr & _). split; [done|]. split; [done|]. intros a _. by eapply stable.
Qed.

(** ** The critical sections of [state] *)

(** No session is started or configured. *)
Definition quieter (s s' : SharedState) : Prop :=
  (ss_running s' = true -> ss_running s = true)
  /\ (forall c, ss_configuration s' = Some c -> ss_configuration s = Some c).

(** A section that keeps the invariant, starts and configures no session and
    neither adds nor removes a client. *)
Definition section_ok (s s' : SharedState) : Prop :=
  state_ok s' /\ quieter s s'
  /\ forall c, is_Some (ss_clients s !! c) <-> is_Some (ss_clients s' !! c).

Lemma section_refl s : state_ok s -> section_ok s s.
Proof. done. Qed.

Lemma section_calm app s' :
  broker_inv app -> section_ok (ap_state app) s' ->
  broker_inv (app <| ap_state := s' |>) /\ calm app (app <| ap_state := s' |>).
Proof.
  intros [Hs Hr Hn Hm Hc Hfa Ha Hw] (Hs' & [Hrun Hcf] & Hcl). split.
  - split; try done; cbn.
    + intros c Hx. apply Hr. by apply Hcl.
    + intros Hrec Hr' c Hc'. apply Ha; [done|by apply Hrun|by apply Hcf].
  - intros t. split; try done. exists []. by rewrite app_nil_r.
Qed.

(** Nothing but the log, or a field no invariant mentions, has changed. *)
Lemma log_calm app e :
  broker_inv app -> last_started (ap_log app ++ [e]) = last_started (ap_log app) -> event_ok (ap_log app) e ->
  broker_inv (log e app) /\ calm app (log e app).
Proof.
  intros [Hs Hr Hn Hm Hc Hfa Ha Hw] He Hp. split.
  - split; try done; cbn.
    + by rewrite He.
    + by apply well_recorded_snoc.
  - intros t. split; try done; by exists [e].
Qed.

Lemma log_plain app e : broker_inv app -> plain e -> broker_inv (log e app) /\ calm app (log e app).
Proof.
  intros Hi He. apply log_calm; [done|apply last_started_plain; by constructor|]. by destruct e.
Qed.

Lemma detached_clients s :
  map_Forall (fun _ cl => cl = ClientState_default) (ss_clients (detach_all s)).
Proof.
  intros c cl. cbn. rewrite lookup_fmap_Some. by intros ([e q] & <- & _).
Qed.

Lemma detach_is_Some s c : is_Some (ss_clients s !! c) <-> is_Some (ss_clients (detach_all s) !! c).
Proof. cbn. rewrite lookup_fmap. by rewrite fmap_is_Some. Qed.

Lemma history_clear_ok h : history_ok h -> history_ok (History_clear h).
Proof. intros [_ _ _]. split; cbn; [constructor|done|right; lia]. Qed.

Lemma history_reset_ok h n : history_ok (History_reset h n).
Proof. split; cbn; [constructor|done|right; lia]. Qed.

(** A state without clients attached, records or a session. *)
Lemma rested_ok s :
  ss_running s = false -> ss_received_records s = 0 -> history_ok (ss_history s) ->
  hi_packets (ss_history s) = [] -> (forall c, ss_configuration s = Some c -> config_ok c) ->
  (forall o, ss_table_owner s = Some o -> is_Some (ss_clients s !! to_client_id o)) ->
  state_ok (detach_all s).
Proof.
  intros Hrun Hrec Hh Hp Hc Ho. pose proof (detached_clients s) as Hd. split; try done.
  - intros c cl Hcl Hq. specialize (Hd c cl Hcl). cbn beta in Hd. by subst cl.
  - intros c _. change (Forall (fun p => packet_matches c p = true) (hi_packets (ss_history s))). by rewrite Hp.
  - intros o Hw. apply (proj1 (detach_is_Some s _)), Ho, Hw.
Qed.

Lemma quiesce_ok s : state_ok s -> section_ok s (quiesce s).
Proof.
  intros [Hr Hq Hh Hc Hl Ho]. unfold quiesce. split; [|split; [done|intros c; exact (detach_is_Some s c)]].
  apply rested_ok; try done. by apply history_clear_ok.
Qed.

(** The section of [end_session]. *)
Lemma ended_ok s :
  state_ok s ->
  section_ok s (detach_all (s <| ss_running := false |> <| ss_configuration := None |> <| ss_received_records := 0 |>
                              <| ss_history := History_clear (ss_history s) |> <| ss_table_owner := None |>)).
Proof.
  intros [Hr Hq Hh Hc Hl Ho]. split; [|split; [done|intros c; exact (detach_is_Some s c)]].
  apply rested_ok; try done. by apply history_clear_ok.
Qed.

(** The table owner dropped or replaced by a registered client. *)
Lemma owner_ok s o :
  state_ok s -> (forall ow, o = Some ow -> is_Some (ss_clients s !! to_client_id ow)) ->
  section_ok s (s <| ss_table_owner := o |>).
Proof. intros [Hr Hq Hh Hc Hl Ho] H. split; [|done]. split; try done. intros Hf. by destruct (Hr Hf). Qed.

Lemma expire_ok now s : state_ok s -> section_ok s (expire_table_owner now s).
Proof.
  intros Hs. unfold expire_table_owner. destruct (ss_table_owner s) as [o|]; [|by apply section_refl].
  destruct (_ <=? _); [|by apply section_refl]. by apply owner_ok.
Qed.

Lemma update_owner_ok c ty now response s :
  state_ok s -> is_Some (ss_clients s !! c) -> section_ok s (update_table_owner c ty now response s).
Proof.
  intros Hs Hc. unfold update_table_owner. destruct (_ && _).
  { apply owner_ok; [done|]. by intros ow [= <-]. }
  destruct (ty =? _); [|by apply section_refl]. destruct (_ && _); [|by apply owner_ok].
  apply owner_ok; [done|]. intros ow Hw. destruct (ss_table_owner s) as [o|] eqn:E; [|done].
  injection Hw as <-. exact (so_owner _ Hs o E).
Qed.

(** A registered client changed, attached when it is quiet and only while a
    session runs. *)
Lemma client_ok s c cl :
  state_ok s -> ss_running s = true -> (cl_quiet cl = true -> is_Some (cl_endpoint cl)) ->
  is_Some (ss_clients s !! c) -> section_ok s (s <| ss_clients := <[c := cl]> (ss_clients s) |>).
Proof.
  intros [Hr Hq Hh Hc Hl Ho] Hrun Hcl Hreg. split; [|split; [done|]].
  - split; cbn; try done.
    + by rewrite Hrun.
    + by apply map_Forall_insert_2.
    + intros o Hw. apply lookup_insert_is_Some'. right. by apply Ho.
  - intros c'. cbn. rewrite lookup_insert_is_Some'. split; [by right|]. by intros [->|].
Qed.

Lemma attached_running s c cl :
  state_ok s -> ss_clients s !! c = Some cl -> is_Some (cl_endpoint cl) -> ss_running s = true.
Proof.
  intros Hs Hc He. destruct (ss_running s) eqn:E; [done|].
  destruct (so_rest _ Hs E) as [_ _ Hd]. specialize (Hd c cl Hc). cbn beta in Hd. subst cl. by destruct He.
Qed.

(** The first section of [process_packet]. *)
Lemma accept_packet_ok packet env app :
  broker_inv app -> packet_ok packet ->
  let '(app', r) := accept_packet packet env app in broker_inv app' /\ calm app app' /\ result_ok r.
Proof.
  intros Hi Hp. pose proof (bi_state_ok _ Hi) as Hs. unfold accept_packet.
  destruct (ss_configuration (ap_state app)) as [configuration|] eqn:Ec; [|by split; [|split; [|split]]].
  destruct (ss_running (ap_state app)) eqn:Er; cbn [negb]; [|by split; [|split; [|split]]].
  destruct (packet_matches configuration packet) eqn:Em; cbn [negb]; [|by split; [|split; [|split]]].
  match goal with |- context [if cf_recording _ && _ then (?a, _) else _] => set (app1 := a) end.
  assert (H1 : broker_inv app1 /\ calm app app1).
  { subst app1. destruct (cf_recording _) eqn:Erec; [|done]. apply log_calm; [done|by apply last_started_packet|].
    destruct (bi_announced _ Hi Erec Er _ Ec) as (m & Hm & Hd & Hn & _). exists m. split; [done|].
    unfold packet_matches in Em. apply andb_prop in Em as [E1%Z.eqb_eq E2%Z.eqb_eq].
    split; [done|]. by rewrite E1, E2. }
  destruct H1 as [Hi1 Hc1].
  destruct (_ && _); [by split; [|split; [|split]]|].
  destruct (History_push_spec _ packet (so_history _ Hs) Hp) as (h & k & -> & Hh & Hpk & _).
  assert (Hsec : section_ok (ap_state app) ((ap_state app) <| ss_history := h |>
     <| ss_received_records := ss_received_records (ap_state app) + sh_n_records (pk_header packet) |>)).
  { destruct Hs as [Hr Hq Hho Hco Hl Ho]. split; [|done]. split; cbn; try done.
    - by rewrite Er.
    - intros c Hcf. rewrite Hcf in Ec. injection Ec as ->. rewrite Hpk. apply Forall_drop, Forall_app.
      split; [by apply Hl|]. by apply Forall_singleton. }
  assert (Es : ap_state app1 = ap_state app) by (subst app1; by destruct (cf_recording _)).
  rewrite <-Es in Hsec at 1. destruct (section_calm app1 _ Hi1 Hsec) as [Hi2 Hc2].
  split; [done|]. split; [|by split]. intros t. etrans; [apply Hc1|apply Hc2].
Qed.

(** ** Calm tasks *)

Create HintDb calm discriminated.
#[local] Hint Resolve calm_ret calm_read : calm.
#[local] Hint Extern 1 (calm_task (_ ≫= _)) => apply calm_bind; [|intros ?] : calm.
#[local] Hint Extern 1 (calm_task (if ?b then _ else _)) => destruct b : calm.
#[local] Hint Extern 1 (calm_task (match ?x with _ => _ end)) => destruct x : calm.
#[local] Hint Extern 1 (calm_task (fail _)) => apply calm_result; by split : calm.
#[local] Hint Extern 1 (calm_task (done_with _)) => apply calm_result; assumption : calm.

Ltac calm := eauto 12 with calm.

(** A calm task whose result satisfies [Φ]. *)
Definition calm_value {A} (Φ : A -> Prop) (p : task A) : Prop :=
  triple rely (fun _ _ => True) p (fun a _ _ => Φ a).

Lemma calm_bind_value {A B} Φ (m : task A) (g : A -> task B) :
  calm_value Φ m -> (forall a, Φ a -> calm_task (g a)) -> calm_task (m ≫= g).
Proof.
  intros Hm Hg. apply (triple_bind rely (fun _ _ _ H => H) _ _ m g (fun a _ _ => Φ a)); [apply _|exact Hm|].
  intros a t app Hi [_ Ha]. by apply Hg.
Qed.

Lemma calm_act_value {A} (Φ : A -> Prop) (f : Task -> Env -> App -> option (App * outcome Failure A)) :
  (forall t env app, broker_inv app ->
     match f t env app with
     | None => True
     | Some (app', r) => broker_inv app' /\ calm app app' /\ result_ok r /\ forall a, r = Ok a -> Φ a
     end) -> calm_value Φ (act f).
Proof.
  intros Hf. apply triple_act; [done|apply _|apply _|apply _|]. intros t env app Hi _.
  specialize (Hf t env app Hi). destruct (f t env app) as [[app' r]|]; [|done].
  destruct Hf as (Hi' & Hc & Hok). split; [done|]. split; [intros t' _; apply Hc|]. split; [apply Hc|done].
Qed.

Lemma calm_section {A} (f : Env -> SharedState -> SharedState * outcome Failure A) :
  (forall env s, state_ok s -> section_ok s (f env s).1 /\ result_ok (f env s).2) -> calm_task (with_state f).
Proof.
  intros Hf. apply calm_act. intros t env app Hi. destruct (Hf env _ (bi_state_ok _ Hi)) as [Hs Hr].
  destruct (f env (ap_state app)) as [s r]. cbn [fst snd] in *. destruct (section_calm _ _ Hi Hs). done.
Qed.

Lemma ok_result {A} (a : A) : result_ok (Ok a).
Proof. by split. Qed.
#[local] Hint Resolve ok_result : calm.

Lemma recorder_calm e : plain e -> calm_task (recorder e).
Proof.
  intros He. unfold recorder. apply calm_bind; [calm|]. intros []; [|calm]. apply calm_act. intros t env app Hi.
  destruct (log_plain _ e Hi He). split; [done|]. split; [done|]. by destruct (ev_storage env).
Qed.

Lemma stop_recording_calm r : calm_task (stop_recording r).
Proof. by apply recorder_calm. Qed.
Lemma recorder_shutdown_calm : calm_task (recorder RecorderShutdown).
Proof. by apply recorder_calm. Qed.
Lemma attempt_unit {A} (m : task A) : calm_task m -> calm_task (_ ← attempt m; mret ()).
Proof. intros H. apply calm_attempt; [done|calm]. Qed.
#[local] Hint Resolve stop_recording_calm recorder_shutdown_calm attempt_unit : calm.

(** Only fields that no invariant and no assertion mentions have changed. *)
Record unrelated (app app' : App) : Prop := {
  un_config : ap_config app' = ap_config app;
  un_state : ap_state app' = ap_state app;
  un_lock : ap_operations app' = ap_operations app;
  un_registrations : ap_registrations app' = ap_registrations app;
  un_next : ap_next_client app' = ap_next_client app;
  un_log : exists l, ap_log app' = ap_log app ++ l /\ Forall plain l;
  un_metadata : forall m, ap_metadata app' = Some m -> len (dm_mac m) = 6;
  un_fatal : ap_fatal app' <> Some ClientDisappeared }.

Lemma unrelated_calm app app' : broker_inv app -> unrelated app app' -> broker_inv app' /\ calm app app'.
Proof.
  intros [Hs Hr Hn Hm Hc Hfa Ha Hw] [Ec Es Eo Er En (l & El & Hl) Em Ef].
  assert (Hst : last_started (ap_log app') = last_started (ap_log app)) by (rewrite El; by apply last_started_plain).
  split.
  - split; rewrite ?Ec, ?Es, ?Er, ?En, ?Hst; try done. rewrite El. by apply well_recorded_plain.
  - intros t. split; rewrite ?Ec, ?Es, ?Eo, ?Er; try done. by exists l.
Qed.

Lemma unrelated_refl app : broker_inv app -> unrelated app app.
Proof. intros Hi. split; try done; [exists []; split; [by rewrite app_nil_r|constructor]|apply (bi_mac _ Hi)|apply (bi_fatal _ Hi)]. Qed.

Lemma unrelated_value {A} (Φ : A -> Prop) (f : Task -> Env -> App -> option (App * outcome Failure A)) :
  (forall t env app, broker_inv app ->
     match f t env app with
     | None => True
     | Some (app', r) => unrelated app app' /\ result_ok r /\ forall a, r = Ok a -> Φ a
     end) -> calm_value Φ (act f).
Proof.
  intros Hf. apply calm_act_value. intros t env app Hi. specialize (Hf t env app Hi).
  destruct (f t env app) as [[app' r]|]; [|done]. destruct Hf as (Hu & Hr).
  by destruct (unrelated_calm _ _ Hi Hu).
Qed.

Lemma calm_value_calm {A} (Φ : A -> Prop) (p : task A) : calm_value Φ p -> calm_task p.
Proof. intros H. by eapply triple_weaken; [..|exact H]. Qed.

Lemma unrelated_act {A} (f : Task -> Env -> App -> option (App * outcome Failure A)) :
  (forall t env app, broker_inv app ->
     match f t env app with
     | None => True
     | Some (app', r) => unrelated app app' /\ result_ok r
     end) -> calm_task (act f).
Proof.
  intros Hf. apply (calm_value_calm (fun _ => True)), unrelated_value. intros t env app Hi.
  specialize (Hf t env app Hi). destruct (f t env app) as [[app' r]|]; [|done]. by destruct Hf.
Qed.

Ltac unrelated_with Hi l :=
  split; [done|done|done|done|done|exists l; split; [rewrite ?app_nil_r; reflexivity|by repeat constructor]|first [exact (bi_mac _ Hi)|done]
        |first [exact (bi_fatal _ Hi)|done]].

Lemma take_upstream_calm g : calm_task (take_upstream g).
Proof.
  apply unrelated_act. intros t env app Hi.
  destruct (ap_upstream app) as [u|] eqn:E; [|split; [by apply unrelated_refl|calm]].
  destruct (_ =? g); [|split; [by apply unrelated_refl|calm]].
  split; [unrelated_with Hi [Disconnected g]|calm].
Qed.
#[local] Hint Resolve take_upstream_calm : calm.

Lemma end_session_calm : calm_task end_session.
Proof. apply calm_section. intros env s Hs. split; [by apply ended_ok|calm]. Qed.
#[local] Hint Resolve end_session_calm : calm.

Lemma announce_disconnect_calm : calm_task announce_disconnect.
Proof.
  unfold announce_disconnect. apply calm_bind; [|intros []; apply calm_bind; [calm|intros next; apply calm_bind; [|intros []]]];
    apply unrelated_act; intros t env app Hi; (split; [unrelated_with Hi (@nil Event)|calm]).
Qed.
#[local] Hint Resolve announce_disconnect_calm : calm.

Lemma mark_upstream_failed_calm g : calm_task (mark_upstream_failed g).
Proof. unfold mark_upstream_failed. calm. Qed.

Lemma complete_mcu_reboot_calm g : calm_task (complete_mcu_reboot g).
Proof. unfold complete_mcu_reboot. calm. Qed.
#[local] Hint Resolve mark_upstream_failed_calm complete_mcu_reboot_calm : calm.

Lemma read_frame_result incoming : result_ok (read_frame incoming).1.
Proof.
  unfold read_frame, HEADER_LEN, TRAILER_LEN. destruct (Z.ltb_spec (len incoming) 6) as [|Hl]; [by split|].
  destruct (negb _); [by split|].
  assert (Lh : len (take (Z.to_nat 6) incoming) = 6) by (apply len_take; lia).
  destruct (u16_at_is_Some (take (Z.to_nat 6) incoming) 4) as [n ->]; [lia|lia|].
  destruct (_ <? n); [by split|]. destruct (_ <? n + 2); [by split|]. cbn [fst].
  pose proof (decode_no_panic (take (Z.to_nat (6 + n + 2)) incoming)). by destruct (decode _).
Qed.

Lemma write_frame_result ty seq payload : result_ok (write_frame ty seq payload).
Proof.
  destruct (Z.le_gt_cases (len payload) MAX_PAYLOAD) as [Hl|Hl].
  - rewrite write_frame_ok by done. by split.
  - unfold write_frame, encode. rewrite (proj2 (Z.gtb_lt _ _)) by lia. by split.
Qed.

Lemma result_err {A B} (e : Failure) : result_ok (A := A) (Err e) -> result_ok (A := B) (Err e).
Proof. intros [_ H]. split; [done|]. intros [= ->]. by apply H. Qed.

Lemma request_result u ty payload answer : result_ok (UpstreamControl_request u ty payload answer).2.
Proof.
  unfold UpstreamControl_request. pose proof (write_frame_result ty (wrapping_add 8 (uc_sequence u) 1) payload) as Hw.
  destruct (write_frame _ _ _) as [encoded|e|]; [|exact (result_err _ Hw)|by destruct Hw].
  destruct (answer encoded) as [arrived|]; [|by split].
  change (uc_stream (u <| uc_sequence := wrapping_add 8 (uc_sequence u) 1 |>)) with (uc_stream u).
  pose proof (read_frame_result (uc_stream u ++ arrived)) as Hr.
  destruct (read_frame _) as [r rest]. cbn [fst snd] in *. destruct r as [[[rt rs] rp]|e|].
  - rewrite bind_Ok. destruct (negb _); by split.
  - rewrite bind_Err. exact (result_err _ Hr).
  - by destruct Hr.
Qed.

Lemma request_with_generation_calm ty payload : calm_task (request_with_generation ty payload).
Proof.
  apply (calm_bind_value (fun x => result_ok x.2)).
  - apply unrelated_value. intros t env app Hi.
    destruct (ap_upstream app) as [u|] eqn:E.
    + pose proof (request_result u ty payload (ev_answer env)) as Hr.
      destruct (UpstreamControl_request u ty payload (ev_answer env)) as [u' r]. cbn [snd] in Hr.
      split; [unrelated_with Hi [Forwarded (uc_generation u') ty payload r]|]. split; [by split|]. by intros a [= <-].
    + split; [by apply unrelated_refl|]. by split.
  - intros [g r] Hr. cbn [snd] in Hr. destruct r as [a|e|]; [calm| |by destruct Hr].
    apply calm_bind; [calm|]. intros _. apply calm_result. exact (result_err _ Hr).
Qed.
#[local] Hint Resolve request_with_generation_calm : calm.

Lemma request_calm ty payload : calm_task (request ty payload).
Proof. apply calm_bind; [calm|]. intros [g r]. calm. Qed.

Lemma force_upstream_disconnect_calm : calm_task force_upstream_disconnect.
Proof. unfold force_upstream_disconnect, current_generation. calm. Qed.

Lemma rollback_failed_start_calm : calm_task rollback_failed_start.
Proof.
  apply calm_bind; [apply calm_section; intros env s Hs; split; [by apply quiesce_ok|calm]|]. calm.
Qed.
#[local] Hint Resolve request_calm force_upstream_disconnect_calm rollback_failed_start_calm : calm.

Lemma disarm_calm : calm_task disarm.
Proof.
  apply calm_bind; [calm|]. intros [arm|]; [|calm]. apply calm_attempt; [calm|].
  intros [r|e|] [Hn _]; [calm|calm|done].
Qed.
#[local] Hint Resolve disarm_calm : calm.

Lemma relay_calm event datagrams : (forall wire target, plain (event wire target)) -> calm_task (relay event datagrams).
Proof.
  intros He. induction datagrams as [|[wire target] l IH]; [calm|]. cbn [relay]. apply calm_bind; [|by intros _].
  apply unrelated_act. intros t env app Hi.
  destruct (ev_io env); (split; [|calm]); [unrelated_with Hi [event wire target]|by apply unrelated_refl].
Qed.
#[local] Hint Extern 1 (calm_task (relay _ _)) => by apply relay_calm : calm.

(** ** The lock of the stream operations *)

(** [keeps] but for the lock. *)
Record own (t : Task) (app app' : App) : Prop := {
  ow_config : ap_config app' = ap_config app;
  ow_own : forall c, ap_registrations app !! c = Some t <-> ap_registrations app' !! c = Some t;
  ow_client : forall c, ap_registrations app !! c = Some t ->
    is_Some (ss_clients (ap_state app) !! c) <-> is_Some (ss_clients (ap_state app') !! c);
  ow_log : exists l, ap_log app' = ap_log app ++ l }.

Lemma keeps_own t app app' : keeps t app app' -> own t app app'.
Proof. by intros []. Qed.

#[export] Instance own_trans t : Transitive (own t).
Proof.
  intros a b c [C1 O1 K1 [l1 G1]] [C2 O2 K2 [l2 G2]]. split.
  - by rewrite C2.
  - intros c'. by rewrite O1.
  - intros c' Hc. rewrite K1 by done. apply K2. by apply O1.
  - exists (l1 ++ l2). by rewrite G2, G1, app_assoc.
Qed.

Lemma own_free t app app' : own t app app' -> free t app -> free t app' -> rely t app app'.
Proof. intros [C O K G] Hf Hf'. unfold free in *. by split. Qed.

#[export] Instance mine_own c : Stable own (mine c).
Proof. intros t app app' [C O K G] [Hr Hc]. split; [by apply O|by apply K]. Qed.

Lemma lock_step t app app' o o' :
  broker_inv app -> ap_operations app = o -> app' = app <| ap_operations := o' |> ->
  (o = None /\ o' = Some t \/ o = Some t /\ o' = None) ->
  broker_inv app' /\ guar t app app' /\ own t app app'.
Proof.
  intros [Hs Hr Hn Hm Hc Hfa] Ho -> Hoo. split; [by split|].
  assert (Hl : exists l, ap_log (app <| ap_operations := o' |>) = ap_log app ++ l)
    by (exists []; by rewrite app_nil_r).
  split; [|by split]. intros t' Hne. split; try done. cbn. rewrite Ho.
  destruct Hoo as [[-> ->]|[-> ->]]; split; congruence.
Qed.

(** A body verified with the lock is verified without it. *)
Lemma triple_operations {A} L (body : task A) (Φ : A -> Prop) `{!Stable own L} :
  triple keeps (fun t app => L t app /\ held t app) body (fun a _ _ => Φ a) ->
  triple rely (fun t app => L t app /\ free t app) (with_operations body) (fun a _ _ => Φ a).
Proof.
  intros Hb t app Hi [HL Hf]. apply wp_bind; [done|]. intros env app1 Hr1 Hi1.
  assert (HL1 : L t app1) by (eapply stable; [by apply keeps_own, rely_keeps|done]).
  destruct (ap_operations app1) as [|] eqn:Eo; [done|].
  destruct (lock_step t app1 _ None (Some t) Hi1 Eo eq_refl (or_introl (conj eq_refl eq_refl)))
    as (Hi2 & Hg2 & Ho2). split; [done|]. split; [done|]. intros app3 Hr3 Hi3.
  assert (HL3 : L t app3).
  { eapply stable; [by apply keeps_own, rely_keeps|]. by eapply stable. }
  assert (Hh3 : held t app3) by (by eapply (stable (R := rely)); [exact Hr3|]).
  apply wp_bind; [done|]. apply wp_bind; [done|].
  eapply wp_mono; [|apply (Hb t app3 Hi3 (conj HL3 Hh3))]. intros r app4 Hi4 (Hok & Hk & HM).
  intros app5 Hr5 Hi5. apply wp_bind; [done|]. intros env' app6 Hr6 Hi6.
  assert (Hh6 : held t app6).
  { eapply stable; [exact Hr6|]. eapply stable; [exact Hr5|]. by eapply (stable (R := keeps)). }
  destruct (lock_step t app6 _ (Some t) None Hi6 Hh6 eq_refl (or_intror (conj eq_refl eq_refl)))
    as (Hi7 & Hg7 & Ho7). split; [done|]. split; [done|]. intros app8 Hr8 Hi8 app9 Hr9 Hi9.
  split; [done|]. split; [|done].
  assert (Hf9 : free t app9) by (eapply (stable (R := rely)); [exact Hr9|]; by eapply (stable (R := rely)); [exact Hr8|]).
  apply own_free; [|done|done].
  assert (Hro : forall a b, rely t a b -> own t a b) by (intros; by apply keeps_own, rely_keeps).
  etrans; [by apply Hro|]. etrans; [done|]. etrans; [by apply Hro|]. etrans; [by apply keeps_own|].
  etrans; [by apply Hro|]. etrans; [by apply Hro|]. etrans; [done|]. etrans; by apply Hro.
Qed.

(** A calm body. *)
Lemma calm_operations {A} (body : task A) :
  calm_task body -> triple rely free (with_operations body) (fun _ _ _ => True).
Proof.
  intros H. eapply triple_weaken; [..|apply (triple_operations (fun _ _ => True) body (fun _ => True))].
  - by split.
  - done.
  - apply triple_keeps. by eapply triple_weaken; [..|exact H].
Qed.

(** A task that needs [L]. *)
Definition under (L : assertion) {A} (p : task A) : Prop := triple rely L p (fun _ _ _ => True).

Lemma under_calm L {A} (p : task A) : calm_task p -> under L p.
Proof. intros H. by eapply triple_weaken; [..|exact H]. Qed.

Lemma under_weaken (L L' : assertion) {A} (p : task A) :
  (forall t app, L' t app -> L t app) -> under L p -> under L' p.
Proof. intros HL H. by eapply triple_weaken; [exact HL|..|exact H]. Qed.

Lemma under_then {A B} L (M : A -> assertion) (m : task A) (g : A -> task B) `{!Stable rely L} :
  triple rely L m M -> (forall a, under (fun t app => L t app /\ M a t app) (g a)) -> under L (m ≫= g).
Proof. intros Hm Hg. by apply (triple_bind rely (fun _ _ _ H => H) _ _ m g M). Qed.

Lemma under_value {A B} L Φ (m : task A) (g : A -> task B) `{!Stable rely L} :
  triple rely L m (fun a _ _ => Φ a) -> (forall a, Φ a -> under L (g a)) -> under L (m ≫= g).
Proof.
  intros Hm Hg. apply (triple_bind rely (fun _ _ _ H => H) _ _ m g (fun a _ _ => Φ a)); [apply _|exact Hm|].
  intros a t app Hi [HL Ha]. by apply Hg.
Qed.

Lemma calm_value_under {A} L Φ (m : task A) : calm_value Φ m -> triple rely L m (fun a _ _ => Φ a).
Proof. intros H. by eapply triple_weaken; [..|exact H]. Qed.

Lemma under_bind {A B} L (m : task A) (g : A -> task B) `{!Stable rely L} :
  under L m -> (forall a, under L (g a)) -> under L (m ≫= g).
Proof. intros Hm Hg. by apply (under_value L (fun _ => True)). Qed.

Lemma under_attempt_value {A B} L Φ (m : task A) (g : outcome Failure A -> task B) `{!Stable rely L} :
  triple rely L m (fun a _ _ => Φ a) ->
  (forall r, result_ok r -> (forall a, r = Ok a -> Φ a) -> under L (g r)) -> under L (attempt m ≫= g).
Proof.
  intros Hm Hg. apply (triple_attempt rely (fun _ _ _ H => H) _ _ m g (fun a _ _ => Φ a)); [apply _|apply _|exact Hm|].
  intros r Hr t app Hi [HL Ha]. by apply Hg.
Qed.

Lemma under_attempt {A B} L (m : task A) (g : outcome Failure A -> task B) `{!Stable rely L} :
  under L m -> (forall r, result_ok r -> under L (g r)) -> under L (attempt m ≫= g).
Proof. intros Hm Hg. apply (under_attempt_value L (fun _ => True)); [apply _|exact Hm|]. intros r Hr _. by apply Hg. Qed.

Lemma under_section {A} L (f : Env -> SharedState -> SharedState * outcome Failure A) `{!Stable rely L} :
  (forall t env app, broker_inv app -> L t app ->
     section_ok (ap_state app) (f env (ap_state app)).1 /\ result_ok (f env (ap_state app)).2) ->
  under L (with_state f).
Proof.
  intros Hf. apply triple_act; [done|apply _|apply _|apply _|]. intros t env app Hi HL.
  destruct (Hf t env app Hi HL) as [Hs Hr]. destruct (f env (ap_state app)) as [s r]. cbn [fst snd] in *.
  destruct (section_calm _ _ Hi Hs) as [Hi' Hc]. split; [done|]. split; [intros t' _; apply Hc|].
  split; [apply Hc|done].
Qed.

#[local] Hint Resolve under_calm : calm.
#[local] Hint Extern 2 (under _ (_ ≫= _)) => apply under_bind; [apply _| |intros ?] : calm.

(** ** The requests *)

Lemma process_packet_free wire : bytes_ok wire -> under free (process_packet wire).
Proof.
  intros Hw. unfold process_packet.
  apply (under_value free (fun r => r <> Panic /\ forall p, r = Ok p -> packet_ok p)); [apply _| |].
  - apply calm_value_under, unrelated_value. intros t env app Hi. split; [by apply unrelated_refl|]. split; [calm|].
    intros a [= <-]. split; [apply Packet_decode_no_panic|]. intros p Hp. by apply (Packet_decode_spec _ _ _ Hw Hp).
  - intros [packet|e|] [Hn Hp]; [|apply under_calm; calm|done].
    apply under_bind; [apply _| |].
    + apply under_calm, calm_act. intros t env app Hi.
      pose proof (accept_packet_ok packet env app Hi (Hp _ eq_refl)). by destruct (accept_packet _ _ _).
    + intros [[targets complete]|]; [|apply under_calm; calm]. apply under_bind; [apply _|calm|].
      intros _. destruct complete; [|apply under_calm; calm]. apply calm_operations, calm_bind; [|calm].
      apply calm_section. intros env s Hs. destruct (ss_running s); (split; [|calm]);
        [by apply quiesce_ok|by apply section_refl].
Qed.

Lemma table_request_mine c ty payload : under (mine c) (table_request c ty payload).
Proof.
  unfold table_request. apply under_bind; [apply _| |].
  - apply under_calm, calm_section. intros env s Hs. split; [by apply expire_ok|calm].
  - intros []; [apply under_calm; calm|]. apply under_bind; [apply _|apply under_calm; calm|].
    intros response. apply under_section; [apply _|]. intros t env app Hi [_ Hm]. split; [|calm].
    apply update_owner_ok; [apply (bi_state_ok _ Hi)|done].
Qed.

Lemma set_quiet_mine c ty payload : under (mine c) (set_quiet c ty payload).
Proof.
  unfold set_quiet. destruct (Z.eqb_spec (len payload) 1) as [Hl|]; cbn [negb]; [|apply under_calm; calm].
  destruct (index_is_Some payload 0) as [v ->]; [lia|]. destruct (1 <? v); [apply under_calm; calm|].
  apply under_section; [apply _|]. intros t env app Hi [_ [cl Hcl]]. rewrite Hcl.
  pose proof (bi_state_ok _ Hi) as Hs. destruct (cl_endpoint cl) as [e|] eqn:He.
  - split; [|calm]. apply client_ok; [done| |cbn; by rewrite He|by eexists].
    by eapply attached_running; [| |rewrite He].
  - split; [by apply section_refl|calm].
Qed.

Lemma get_recent_mine c ty payload : bytes_ok payload -> under (mine c) (get_recent c ty payload).
Proof.
  intros Hp. unfold get_recent. destruct (Z.eqb_spec (len payload) 4) as [Hl|]; cbn [negb]; [|apply under_calm; calm].
  destruct (u32_at_is_Some payload 0) as [v Ev]; [lia|lia|]. rewrite Ev.
  destruct (Z.eqb_spec v 0); [apply under_calm; calm|].
  apply under_section; [apply _|]. intros t env app Hi [_ [cl Hcl]]. cbn [fst snd].
  pose proof (bi_state_ok _ Hi) as Hs. split; [by apply section_refl|]. unfold recent_packets.
  destruct (negb _); [calm|]. rewrite Hcl. destruct (cl_endpoint cl) as [e|]; [|calm].
  destruct (negb _); [calm|].
  destruct (Z.lt_ge_cases (hi_records (ss_history (ap_state app))) v) as [Hlt|Hge].
  - unfold History_recent. rewrite (proj2 (Z.ltb_lt _ _) Hlt), orb_true_r. calm.
  - apply drop_u32_at in Ev as [[Hv _] _]; [|done].
    destruct (History_recent_spec _ v (so_history _ Hs)) as (wires & packets & -> & _); [lia|]. calm.
Qed.

Lemma StreamConfiguration_decode_spec payload :
  bytes_ok payload ->
  match StreamConfiguration_decode payload with Ok c => config_ok c | Err _ => True | Panic => False end.
Proof.
  intros Hp. unfold StreamConfiguration_decode. destruct (Z.ltb_spec (len payload) 7) as [|Hl]; [done|].
  destruct (u16_at_is_Some payload 0) as [d Ed]; [lia|lia|]. rewrite Ed, bind_or_panic.
  destruct (u32_at_is_Some payload 2) as [c Ec]; [lia|lia|]. rewrite Ec, bind_or_panic.
  destruct (index_is_Some payload 6) as [n En]; [lia|]. rewrite En, bind_or_panic.
  pose proof (index_byte _ _ _ Hp En) as [Hn0 _].
  apply drop_u16_at in Ed as [Hd _]; [|done]. apply drop_u32_at in Ec as [Hc _]; [|done].
  destruct (_ || _) eqn:Hg; [done|]. bool_facts. rewrite slice_ok by lia. rewrite bind_or_panic.
  split; cbn; [done|done|by apply Forall_take, Forall_drop|].
  rewrite len_take by (rewrite len_drop; lia). lia.
Qed.

(** A body under the lock that keeps its own world. *)
Lemma under_operations {A} L (body : task A) `{!Stable own L} :
  (triple keeps (fun t app => L t app /\ held t app) body (fun _ _ _ => True)) ->
  under (fun t app => L t app /\ free t app) (with_operations body).
Proof. intros H. by apply (triple_operations L body (fun _ => True)). Qed.

Lemma stream_stop_free payload : under free (stream_stop payload).
Proof.
  unfold stream_stop. destruct (negb _); [apply under_calm; calm|]. apply calm_operations.
  apply calm_bind; [calm|]. intros response. apply calm_bind; [|calm].
  destruct (_ =? _); [|calm]. apply calm_bind; [|calm].
  apply calm_section. intros env s Hs. split; [by apply quiesce_ok|calm].
Qed.

(** ** The start of a session *)

Lemma attach_ok s c target quiet :
  state_ok s -> ss_running s = true -> is_Some (ss_clients s !! c) ->
  section_ok s (attach c target quiet s).1 /\ result_ok (attach c target quiet s).2.
Proof.
  intros Hs Hr [cl Hc]. unfold attach. rewrite Hc. split; [|calm]. cbn [fst].
  apply client_ok; [done|done|by eexists|by eexists].
Qed.

(** The section that starts a session. *)
Definition start_session (s : SharedState) (capacity : Z) : SharedState :=
  s <| ss_running := true |> <| ss_received_records := 0 |> <| ss_history := History_reset (ss_history s) capacity |>.

Lemma start_session_ok s n : state_ok s -> state_ok (start_session s n).
Proof.
  intros [Hr Hq Hh Hc Hl Ho]. split; try done. apply history_reset_ok.
Qed.

(** A step of the holder of the lock that changes the shared state. *)
Lemma holder_step s t app :
  held t app -> (forall c, is_Some (ss_clients (ap_state app) !! c) <-> is_Some (ss_clients s !! c)) ->
  guar t app (app <| ap_state := s |>) /\ keeps t app (app <| ap_state := s |>).
Proof.
  intros Hh Hcl. assert (Hlog : exists l, ap_log (app <| ap_state := s |>) = ap_log app ++ l)
    by (exists []; by rewrite app_nil_r).
  split; [|by split]. unfold held in Hh. intros t' Hne. split; try done; intros Hl; congruence.
Qed.

(** A body that may start sessions. *)
Definition starts (L : assertion) {A} (p : task A) : Prop := triple keeps L p (fun _ _ _ => True).

Lemma starts_under L {A} (p : task A) : under L p -> starts L p.
Proof. apply triple_keeps. Qed.

Lemma starts_calm L {A} (p : task A) : calm_task p -> starts L p.
Proof. intros H. by apply starts_under, under_calm. Qed.

Lemma starts_weaken (L L' : assertion) {A} (p : task A) :
  (forall t app, L' t app -> L t app) -> starts L p -> starts L' p.
Proof. intros HL H. by eapply triple_weaken; [exact HL|..|exact H]. Qed.

(** One part after the other. *)
Lemma triple_seq {A B} L (M : A -> assertion) (m : task A) (g : A -> task B) N :
  triple keeps L m M -> (forall a, triple keeps (M a) (g a) N) -> triple keeps L (m ≫= g) N.
Proof.
  intros Hm Hg t app Hi HL. apply wp_bind; [done|].
  eapply wp_mono; [|apply (Hm t app Hi HL)]. intros r app1 Hi1 (Hok & Hr & HM). destruct r as [a|e|].
  - eapply wp_mono; [|apply (Hg a t app1 Hi1); by apply HM].
    intros r app2 Hi2 (Hok2 & Hr2 & HN). split; [done|]. split; [by etrans|done].
  - intros app2 Hr2 Hi2. split; [exact (result_err _ Hok)|]. split; [etrans; [done|by apply rely_keeps]|done].
  - by destruct Hok.
Qed.

Lemma starts_seq {A B} L (M : A -> assertion) (m : task A) (g : A -> task B) :
  triple keeps L m M -> (forall a, starts (M a) (g a)) -> starts L (m ≫= g).
Proof. apply triple_seq. Qed.

(** A calm part, which leaves what is known. *)
Lemma starts_frame {A B} L (m : task A) (g : A -> task B) `{!Stable rely L} :
  calm_task m -> (forall a, starts L (g a)) -> starts L (m ≫= g).
Proof. intros Hm Hg. apply (starts_seq L (fun _ => L)); [by apply triple_keeps, calm_frame|exact Hg]. Qed.

(** What is read of the state. *)
Lemma starts_read {A B} L (M : A -> assertion) (f : App -> A) (g : A -> task B)
    `{!Stable rely L, !forall a, Stable rely (M a)} :
  (forall t app, broker_inv app -> L t app -> M (f app) t app) -> (forall a, starts (M a) (g a)) ->
  starts L (read f ≫= g).
Proof.
  intros Hf Hg. apply (starts_seq L M); [|exact Hg]. apply triple_keeps.
  by apply triple_read; [done|apply _..|].
Qed.

Lemma start_upstream_calm : calm_task start_upstream.
Proof.
  unfold start_upstream, current_udp. apply calm_bind; [calm|]. intros [[[udp ip] g]|]; [|calm].
  apply calm_bind; [|calm]. apply unrelated_act. intros t env app Hi. destruct (ev_io env).
  - split; [unrelated_with Hi [Primed (cf_mcu_stream_port (ap_config app))]|calm].
  - split; [by apply unrelated_refl|by split].
Qed.
#[local] Hint Resolve start_upstream_calm : calm.

Lemma selected_sources_Some (sources : list SourceMetadata) l :
  bytes_ok l -> existsb (fun source => len sources <=? source) l = false -> is_Some (mapM (index sources) l).
Proof.
  intros Hl Hx. apply mapM_is_Some. induction Hl as [|x l [Hx0 _] _ IH]; [constructor|]. cbn in Hx.
  apply orb_false_elim in Hx as [H1%Z.leb_gt H2]. constructor; [|by apply IH]. apply index_is_Some. lia.
Qed.

Definition start_request (quiet : bool) : Z := if quiet then QUIET_STREAM_START else MsgType_u8 StreamStart.

(** The lock is held, and the configuration is [cf] or has been cleared. *)
Definition configured (cf : StreamConfiguration) : assertion := fun t app =>
  held t app /\ forall c, ss_configuration (ap_state app) = Some c -> c = cf.

(** The lock is held, and the recording [m] was the last to be announced. *)
Definition announced (m : SessionMetadata) : assertion := fun t app =>
  held t app /\ (cf_recording (ap_config app) = true -> last_started (ap_log app) = Some m).

#[export] Instance configured_rely cf : Stable rely (configured cf).
Proof. intros t app app' Hr [Hh Hc]. split; [by eapply held_rely|]. intros c Hx. by apply Hc, (rl_configured _ _ _ Hr Hh). Qed.

#[export] Instance announced_rely m : Stable rely (announced m).
Proof.
  intros t app app' Hr [Hh Hm]. split; [by eapply held_rely|].
  by rewrite (rl_started _ _ _ Hr Hh), (rl_config _ _ _ Hr).
Qed.

(** *** Configuring *)

Lemma configure_section cf :
  config_ok cf ->
  starts stopped (with_state (fun _ s => (s <| ss_configuration := Some cf |>, Ok ()))).
Proof.
  intros Hcf. apply triple_act; [exact rely_keeps|apply _|apply _|apply _|]. intros t env app Hi [Hh Hrun].
  destruct (holder_step ((ap_state app) <| ss_configuration := Some cf |>) t app Hh) as [Hg Hk]; [done|].
  split; [|by split_and!]. pose proof (so_rest _ (bi_state_ok _ Hi) Hrun) as [_ Hp _].
  destruct Hi as [[Hr Hq Hh' Hco Hl Ho] Hreg Hn Hmac Hc Hfa Ha Hw]. split; try done; [|cbn; by rewrite Hrun].
  split; try done.
  - intros Hf. by destruct (Hr Hf).
  - by intros c' [= <-].
  - intros c' _. cbn. by rewrite Hp.
Qed.

Lemma stream_setup_free payload : bytes_ok payload -> under free (stream_setup payload).
Proof.
  intros Hp. apply (under_weaken (fun t app => True /\ free t app)); [by split|].
  apply (under_operations (fun _ _ => True)); [apply _|].
  apply (starts_weaken held); [by intros t app []|].
  apply (starts_read _ (fun running t app => running = false -> stopped t app)); [apply _|apply _|by split|].
  intros running. destruct running; [apply starts_calm; calm|].
  apply (starts_weaken stopped). { intros t app H. by apply H. }
  pose proof (StreamConfiguration_decode_spec payload Hp) as Hd.
  destruct (StreamConfiguration_decode payload) as [c|e|]; [|apply starts_calm; calm|done].
  apply starts_frame; [apply _|unfold current_generation; calm|]. intros g.
  apply starts_frame; [apply _|calm|]. intros response.
  apply starts_frame; [apply _|unfold current_generation; calm|]. intros current.
  apply (starts_seq _ (fun _ _ _ => True)); [|intros _; apply starts_calm; calm].
  destruct (_ && _); [by apply configure_section|apply starts_calm; calm].
Qed.

(** *** Starting *)

(** What the task of client [c] knows before it announces the recording. *)
Definition prepared (c : Z) (cf : StreamConfiguration) : assertion := fun t app =>
  mine c t app /\ stopped t app /\ configured cf t app.

#[export] Instance prepared_rely c cf : Stable rely (prepared c cf).
Proof. apply stable_and; apply _. Qed.

(** The announcement of a recording. *)
Lemma announce_step m t app :
  broker_inv app -> stopped t app -> sm_sources m <> [] ->
  broker_inv (log (RecordingStarted m) app) /\ guar t app (log (RecordingStarted m) app)
  /\ keeps t app (log (RecordingStarted m) app) /\ last_started (ap_log (log (RecordingStarted m) app)) = Some m.
Proof.
  intros Hi [Hh Hrun] Hne. unfold held in Hh. split; [|split; [|split]].
  - destruct Hi as [Hs Hr Hn Hm Hc Hfa Ha Hw]. split; try done; cbn; [by rewrite Hrun|]. by apply well_recorded_snoc.
  - intros t' Ht. split; try done; [by eexists|]. intros Hl. congruence.
  - split; try done. by eexists.
  - cbn. by rewrite last_started_app.
Qed.

Lemma start_recording_prepared c cf m :
  sm_sources m <> [] ->
  triple keeps (prepared c cf) (start_recording m) (fun _ t app => prepared c cf t app /\ announced m t app).
Proof.
  intros Hne. unfold start_recording, recorder.
  assert (Hst : forall b, Stable rely (fun t app => prepared c cf t app /\ cf_recording (ap_config app) = b)).
  { intros b t app app' Hr [Hp Hb]. split; [by eapply prepared_rely|]. by rewrite (rl_config _ _ _ Hr). }
  apply (triple_seq _ (fun b t app => prepared c cf t app /\ cf_recording (ap_config app) = b)).
  { apply triple_keeps. apply triple_read; [done|apply _|apply _|apply _|]. by intros t app Hi Hp. }
  intros []; (apply triple_act || apply triple_result); try apply _; try exact rely_keeps; try exact (ok_result ()).
  - intros t env app Hi [(Hm & Hs & Hcf) _]. destruct (announce_step m t app Hi Hs Hne) as (Hi' & Hg & Hk & Hl).
    split; [done|]. split; [done|]. split; [done|]. split; [by destruct (ev_storage env)|]. intros _ _.
    split; [split; [done|split; [done|]]|]; [destruct Hcf; by split|]. split; [apply Hs|done].
  - intros a t app _ [(Hm & Hs & Hcf) Hb]. split; [done|]. split; [apply Hs|]. by rewrite Hb.
Qed.

(** The section that starts the session. *)
Lemma start_section c cf m target quiet n t app :
  broker_inv app -> prepared c cf t app -> announced m t app -> announces cf m ->
  let '(s, r) := attach c target quiet (start_session (ap_state app) n) in
  broker_inv (app <| ap_state := s |>) /\ guar t app (app <| ap_state := s |>)
  /\ keeps t app (app <| ap_state := s |>) /\ result_ok r.
Proof.
  intros Hi ([_ Hm] & _ & [_ Hcf]) [Hh Hlast] Han. pose proof (bi_state_ok _ Hi) as Hs.
  destruct (attach_ok (start_session (ap_state app) n) c target quiet) as [(Ho & [_ Hconf] & Hcl) Hr];
    [by apply start_session_ok|done|done|].
  destruct (attach c target quiet _) as [s r]. cbn [fst snd] in *.
  assert (Hcl' : forall c', is_Some (ss_clients (ap_state app) !! c') <-> is_Some (ss_clients s !! c')) by exact Hcl.
  destruct (holder_step s t app Hh Hcl') as [Hg Hk]. split; [|by split_and!].
  destruct Hi as [_ Hreg Hn Hmac Hc Hfa Ha Hw]. split; try done; cbn.
  - intros c' Hx. apply Hreg. by apply Hcl'.
  - intros Hrec _ c' Hc'. exists m. split; [by apply Hlast|]. apply Hconf, Hcf in Hc' as ->. done.
Qed.

Lemma len_mapM {A B} (f : A -> option B) l l' : mapM f l = Some l' -> len l' = len l.
Proof. intros H. unfold len. by rewrite (length_mapM _ _ _ H). Qed.

Lemma begin_session c cf m target quiet n :
  starts (fun t app => announces cf m /\ prepared c cf t app /\ announced m t app)
    (with_state (fun _ s => attach c target quiet (start_session s n))).
Proof.
  apply triple_act; [exact rely_keeps|apply _|apply _|apply _|]. intros t env app Hi (Han & Hp & Hm).
  pose proof (start_section c cf m target quiet n t app Hi Hp Hm Han) as Hst.
  destruct (attach _ _ _ _) as [s r]. destruct Hst as (Hi' & Hg & Hk & Hok). by split_and!.
Qed.

(** A fact that is known of the state only because it holds. *)
Lemma starts_pure (P : Prop) L {A} (p : task A) : (P -> starts L p) -> starts (fun t app => P /\ L t app) p.
Proof. intros H t app Hi [HP HL]. by apply H. Qed.

Lemma start_client_ok c peer payload quiet :
  under (fun t app => mine c t app /\ free t app) (start_client c peer payload quiet).
Proof.
  unfold start_client. fold (start_request quiet).
  destruct (Z.eqb_spec (len payload) 2) as [Hl|]; cbn [negb]; [|apply under_calm; calm].
  destruct (u16_at_is_Some payload 0) as [port ->]; [lia|lia|].
  destruct (port =? 0); [apply under_calm; calm|]. apply under_operations; [apply _|].
  apply (starts_seq _ (fun attached t app => mine c t app /\ (attached = false -> stopped t app))).
  { apply triple_keeps, triple_act; [done|apply _|apply _|apply _|]. intros t env app Hi [[Hreg Hm] Hh].
    pose proof (bi_state_ok _ Hi) as Hs. destruct (ss_running (ap_state app)) eqn:Hr.
    - destruct (attach_ok (ap_state app) c (peer.1, port) quiet Hs Hr Hm) as [Ha Hok].
      destruct (attach _ _ _ _) as [s r]. cbn [fst snd] in *. destruct (section_calm _ _ Hi Ha) as [Hi' Hc].
      split; [done|]. split; [intros t' _; apply Hc|]. split; [apply Hc|].
      split; [destruct r; [calm|exact (result_err _ Hok)|by destruct Hok]|].
      intros a Hr'. split; [split; [done|by apply Ha]|].
      destruct r as [u|e|]; [rewrite bind_Ok in Hr'; by apply Ok_inj in Hr' as <-|by rewrite bind_Err in Hr'|done].
    - destruct (section_calm _ _ Hi (section_refl _ Hs)) as [Hi' Hc]. split; [done|].
      split; [intros t' _; apply Hc|]. split; [apply Hc|]. split; [calm|]. by intros a [= <-]. }
  intros attached. destruct attached; [apply starts_calm; calm|].
  apply (starts_weaken (fun t app => mine c t app /\ stopped t app)).
  { intros t app [Hm Hs]. split; [done|by apply Hs]. }
  apply (starts_read _ (fun o t app => forall cf, o = Some cf -> config_ok cf /\ prepared c cf t app)); [apply _|apply _| |].
  { intros t app Hi [Hm Hs] cf Hcf. split; [by apply (so_config _ (bi_state_ok _ Hi))|]. split; [done|]. split; [done|].
    split; [apply Hs|]. intros c' Hc'. congruence. }
  intros [cf|]; [|apply starts_calm; calm].
  apply (starts_weaken (fun t app => config_ok cf /\ prepared c cf t app)); [intros t app H; by apply H|].
  apply starts_pure. intros Hcf. apply starts_frame; [apply _|calm|]. intros [m|]; [|apply starts_calm; calm].
  destruct (existsb _ _) eqn:Hx; [apply starts_calm; calm|].
  destruct (selected_sources_Some _ _ (co_sources _ Hcf) Hx) as [selected Esel]. rewrite Esel.
  apply (starts_seq _ (fun sources t app => sources = selected /\ prepared c cf t app)).
  { apply triple_keeps, triple_result; [done|apply _|calm|]. by intros a t app [= <-]. }
  intros sources. apply starts_pure. intros ->. apply starts_frame; [apply _| |].
  { apply unrelated_act. intros t env app Hi. split; [by apply unrelated_refl|calm]. }
  intros utc. set (md := Build_SessionMetadata _ _ _ _ _ _ _).
  assert (Han : announces cf md) by (split; [done|split; [exact (len_mapM _ _ _ Esel)|done]]).
  assert (Hne : sm_sources md <> []).
  { destruct Han as (_ & Hn & _). intros E. rewrite E in Hn. by destruct (co_n_sources _ Hcf) as [Hn0 _]; rewrite <-Hn in Hn0. }
  eapply starts_seq; [by apply start_recording_prepared|]. intros [].
  apply starts_frame; [apply _|calm|]. intros history. apply (starts_seq _ (fun _ _ _ => True)).
  { eapply starts_weaken; [|apply (begin_session c cf md)]. by intros t app H. }
  intros _. apply starts_calm, calm_attempt; [calm|]. intros [response|e|] Hok; [|
    apply calm_bind; [calm|]; intros _; apply calm_result; exact (result_err _ Hok)|by destruct Hok].
  destruct (negb _); calm.
Qed.

(** ** The other requests *)

Lemma lor_fits n a b : 0 < n -> fits n a -> fits n b -> fits n (Z.lor a b).
Proof.
  intros Hn [Ha Ha'] [Hb Hb']. assert (Ho : 0 <= Z.lor a b) by by apply Z.lor_nonneg. split; [done|].
  assert (Hlog : forall x, 0 <= x < 2 ^ n -> Z.log2 x < n).
  { intros x Hx. destruct (Z.eq_dec x 0) as [->|]; [done|]. apply Z.log2_lt_pow2; lia. }
  destruct (Z.eq_dec (Z.lor a b) 0) as [->|Hne]; [lia|].
  apply Z.log2_lt_pow2; [lia|]. rewrite Z.log2_lor by done. apply Z.max_lub_lt; by apply Hlog.
Qed.

(** The report of a client is one the protocol can carry. *)
Lemma broker_info_wf config connected c s :
  state_ok s -> 0 <= cf_history config ->
  exists i, broker_info_of config connected c s = Some i /\ info_wf i.
Proof.
  intros Hs Hret. unfold broker_info_of.
  set (client := default _ _). set (flags := Z.lor _ _).
  assert (Hf : fits 8 flags).
  { subst flags. repeat (apply lor_fits; [lia|by case_match|]). by case_match. }
  assert (Hm : forall a n, 0 <= a -> 0 <= n -> fits n (Z.min a (umax n))).
  { intros a n Ha Hn. unfold fits, umax. pose proof (Z.pow_pos_nonneg 2 n). lia. }
  assert (Hrec : 0 <= hi_records (ss_history s)).
  { destruct (so_history _ Hs) as [Hp -> _]. by apply count_records_nonneg. }
  assert (Hms : 0 <= cf_history config / 10 ^ 6) by (apply Z.div_pos; lia).
  destruct (ss_configuration s) as [cf|] eqn:Ec.
  - destruct (so_config _ Hs cf Ec) as [Hd Hc Hb Hn].
    rewrite (blit_cursor [] (replicate (Z.to_nat BROKER_MAX_SOURCES) 0)).
    + rewrite !bind_Some. eexists. split; [reflexivity|].
      assert (Hw : wrap 8 (len (sc_sources cf)) = len (sc_sources cf)).
      { apply wrap_id. unfold fits, BROKER_MAX_SOURCES in *. lia. }
      split; cbn [bi_state bi_capabilities bi_history_capacity_ms bi_history_available_records bi_decimation
        bi_count bi_connected_clients bi_n_sources bi_sources]; rewrite ?Hw; try (done || (apply Hm; lia)); [lia|].
      exists (sc_sources cf). split; [done|]. split; [done|]. cbn [app]. f_equal.
      rewrite drop_replicate. f_equal. unfold len. lia.
    + done.
    + rewrite len_replicate. unfold len in *. cbn [length]. lia.
  - rewrite bind_Some. eexists. split; [reflexivity|]. split; try (done || (apply Hm; lia)).
    exists []. split; [done|]. split; [constructor|]. done.
Qed.

Lemma calm_value_bind {A B} Φ (m : task A) (g : A -> task B) :
  calm_task m -> (forall a, calm_value Φ (g a)) -> calm_value Φ (m ≫= g).
Proof.
  intros Hm Hg. apply (triple_bind rely (fun _ _ _ H => H) _ _ m g (fun _ _ _ => True)); [apply _|exact Hm|].
  intros a t app Hi _. by apply Hg.
Qed.

Lemma broker_info_calm c : calm_value info_wf (broker_info c).
Proof.
  unfold broker_info, upstream_ready. apply calm_value_bind; [calm|]. intros connected.
  apply calm_act_value. intros t env app Hi. pose proof (bi_state_ok _ Hi) as Hs.
  pose proof (expire_ok (ev_now env) _ Hs) as He. destruct (section_calm _ _ Hi He) as [Hi' Hc].
  destruct (broker_info_wf (ap_config app) connected c _ (proj1 He) (bi_retention _ Hi)) as (i & -> & Hw).
  split; [done|]. split; [done|]. split; [calm|]. by intros a [= <-].
Qed.

Lemma set_parameter_calm payload : calm_task (set_parameter payload).
Proof.
  unfold set_parameter. apply calm_bind; [calm|]. intros reboot. apply calm_bind; [calm|].
  intros [g response]. calm.
Qed.

#[local] Hint Resolve set_parameter_calm set_quiet_mine table_request_mine : calm.

(** What a client task knows: its number is registered, and it does not hold
    the lock. *)
Definition client (c : Z) : assertion := fun t app => mine c t app /\ free t app.

#[export] Instance client_rely c : Stable rely (client c).
Proof. apply stable_and; apply _. Qed.

Lemma client_mine c {A} (p : task A) : under (mine c) p -> under (client c) p.
Proof. apply under_weaken. by intros t app []. Qed.
Lemma client_free c {A} (p : task A) : under free p -> under (client c) p.
Proof. apply under_weaken. by intros t app []. Qed.

Lemma handle_request_ok c peer ty payload :
  bytes_ok payload -> under (client c) (handle_request c peer ty payload).
Proof.
  intros Hp. unfold handle_request. destruct (ty =? BROKER_INFO).
  { destruct (negb _); [apply under_calm; calm|].
    apply (under_value _ info_wf); [apply _|apply calm_value_under, broker_info_calm|]. intros i Hi.
    rewrite BrokerInfo_encode_exact; [|done|].
    - apply under_calm, calm_bind; [apply calm_result; calm|]. calm.
    - rewrite len_replicate. pose proof (iw_n_sources _ Hi). unfold INFO_HEADER_LEN. lia. }
  destruct (_ =? _); [apply start_client_ok|].
  destruct (_ =? _); [apply client_mine, set_quiet_mine|].
  destruct (_ =? _); [by apply client_mine, get_recent_mine|].
  destruct (_ =? _); [by apply client_free, stream_setup_free|].
  destruct (_ =? _); [apply start_client_ok|].
  destruct (_ =? _); [apply client_free, stream_stop_free|].
  destruct (_ || _); [apply client_mine, table_request_mine|].
  destruct (_ =? _); apply under_calm; calm.
Qed.

(** ** A client's connection *)

Definition client_input_ok (i : ClientInput) : Prop :=
  match i with
  | InFrame _ _ payload => bytes_ok payload
  | InBroken error => error <> ClientDisappeared
  | InEpoch => True
  end.

Lemma reply_calm c ty seq payload : calm_task (reply c ty seq payload).
Proof.
  unfold reply. apply calm_bind; [apply calm_result, (write_frame_result ty seq payload)|]. intros bytes.
  apply unrelated_act. intros t env app Hi. destruct (ev_io env).
  - split; [unrelated_with Hi [Replied c ty seq payload]|calm].
  - split; [by apply unrelated_refl|by split].
Qed.
#[local] Hint Resolve reply_calm : calm.

Lemma serve_loop_ok c peer epoch inputs :
  Forall client_input_ok inputs -> under (client c) (serve_loop c peer epoch inputs).
Proof.
  induction 1 as [|i inputs Hi _ IH]; cbn [serve_loop]; [apply under_calm; calm|].
  destruct i as [ty seq payload|e|].
  - apply under_bind; [apply _|by apply handle_request_ok|]. intros handled.
    apply under_bind; [apply _|apply under_calm; calm|]. intros _.
    apply under_bind; [apply _|apply under_calm; calm|]. intros _.
    destruct (hd_reboot_generation handled); [apply under_calm; calm|done].
  - apply under_calm, calm_result. split; [done|]. by intros [= ->].
  - apply under_bind; [apply _|apply under_calm; calm|]. intros now.
    destruct (negb _); [apply under_calm; calm|done].
Qed.

(** [c] is the only number this task has taken. *)
Definition only (c : Z) : assertion := fun t app =>
  ap_registrations app !! c = Some t /\ ap_operations app <> Some t
  /\ forall c', ap_registrations app !! c' = Some t -> c' = c.

(** The client has left. *)
Definition gone (c : Z) : assertion := fun t app => only c t app /\ ss_clients (ap_state app) !! c = None.

#[export] Instance only_rely c : Stable rely (only c).
Proof.
  intros t app app' [C L R O K G] (H1 & H2 & H3). split; [by apply O|]. split; [by rewrite <-L|].
  intros c' Hc'. apply H3. by apply O.
Qed.

#[export] Instance gone_rely c : Stable rely (gone c).
Proof.
  intros t app app' Hr [Ho Hn]. split; [by eapply only_rely|]. destruct Ho as (H1 & _).
  apply eq_None_not_Some. intros Hs. apply (rl_client _ _ _ Hr c H1) in Hs. rewrite Hn in Hs. by destruct Hs.
Qed.

Lemma take_number_step t app :
  broker_inv app -> fresh t app ->
  let c := ap_next_client app in
  let app' := app <| ap_next_client := c + 1 |> <| ap_registrations := <[c := t]> (ap_registrations app) |> in
  broker_inv app' /\ guar t app app' /\ only c t app'.
Proof.
  intros [Hs Hr Hn Hm Hc Hfa] [Hl Hf]. cbv zeta. split; [|split].
  - split; try done; cbn.
    + intros c Hx. apply lookup_insert_is_Some'. right. by apply Hr.
    + intros c t'. destruct (Z.eq_dec c (ap_next_client app)) as [->|Hne]; [lia|].
      rewrite lookup_insert_ne by done. intros Hx. pose proof (Hn _ _ Hx). lia.
  - intros t' Hne. split; try done; [|exists []; by rewrite app_nil_r]. cbn. intros c.
    destruct (Z.eq_dec c (ap_next_client app)) as [->|Hnc].
    + rewrite lookup_insert_eq. split; [|congruence]. intros Hx. pose proof (Hn _ _ Hx). lia.
    + by rewrite lookup_insert_ne.
  - split; [apply lookup_insert_eq|]. split; [done|]. cbn. intros c' Hx.
    destruct (Z.eq_dec c' (ap_next_client app)) as [->|Hnc]; [done|].
    rewrite lookup_insert_ne in Hx by done. by apply Hf in Hx.
Qed.

Lemma enter_step c t app :
  broker_inv app -> only c t app ->
  let app' := app <| ap_state := (ap_state app) <| ss_clients := <[c := ClientState_default]> (ss_clients (ap_state app)) |> |> in
  broker_inv app' /\ guar t app app' /\ client c t app' /\ only c t app'.
Proof.
  intros [Hs Hr Hn Hm Hc Hfa] (H1 & H2 & H3). cbv zeta. split; [|split].
  - split; try done; cbn.
    + destruct Hs as [Hrest Hq Hh Hco Hl Ho]. split; cbn; try done.
      * intros Hf. destruct (Hrest Hf) as [A1 A2 A3]. split; cbn; try done. by apply map_Forall_insert_2.
      * by apply map_Forall_insert_2.
      * intros o Hw. apply lookup_insert_is_Some'. right. by apply Ho.
    + intros c' [->|Hx]%lookup_insert_is_Some'; [by eexists|by apply Hr].
  - intros t' Hne. split; try done; [|exists []; by rewrite app_nil_r]. cbn. intros c' Hx.
    assert (c' <> c) by congruence. by rewrite lookup_insert_ne.
  - split; [|done]. split; [|done]. split; [done|]. cbn. rewrite lookup_insert_eq. by eexists.
Qed.

(** The section of [unregister_client]. *)
Definition leave (c : Z) (s : SharedState) : SharedState :=
  let s := s <| ss_clients := delete c (ss_clients s) |> in
  match ss_table_owner s with
  | Some owner => if to_client_id owner =? c then s <| ss_table_owner := None |> else s
  | None => s
  end.

Lemma leave_clients c s : ss_clients (leave c s) = delete c (ss_clients s).
Proof. unfold leave. cbn. by repeat case_match. Qed.

Lemma leave_step c t app :
  broker_inv app -> only c t app ->
  let app' := app <| ap_state := leave c (ap_state app) |> in
  broker_inv app' /\ guar t app app' /\ gone c t app'.
Proof.
  intros [Hs Hr Hn Hm Hc Hfa Han Hrecd] (H1 & H2 & H3). cbv zeta. pose proof (leave_clients c (ap_state app)) as Hcl.
  assert (Hrun : ss_running (leave c (ap_state app)) = ss_running (ap_state app)) by (unfold leave; by repeat case_match).
  assert (Hcf : ss_configuration (leave c (ap_state app)) = ss_configuration (ap_state app)) by (unfold leave; by repeat case_match).
  split; [|split].
  - split; try done; cbn.
    + destruct Hs as [Hrest Hq Hh Hco Hl Ho].
      assert (Hrec : ss_received_records (leave c (ap_state app)) = ss_received_records (ap_state app)) by (unfold leave; by repeat case_match).
      assert (Hhi : ss_history (leave c (ap_state app)) = ss_history (ap_state app)) by (unfold leave; by repeat case_match).
      split; rewrite ?Hrun, ?Hrec, ?Hhi, ?Hcf, ?Hcl; try done.
      * intros Hf. destruct (Hrest Hf) as [A1 A2 A3]. split; rewrite ?Hrec, ?Hhi, ?Hcl; try done. by apply map_Forall_delete.
      * by apply map_Forall_delete.
      * intros o Hw. unfold leave in Hw. cbn in Hw. destruct (ss_table_owner (ap_state app)) as [o'|] eqn:E;
          [|cbn in Hw; congruence].
        destruct (Z.eqb_spec (to_client_id o') c) as [|Hne]; [done|]. cbn in Hw. assert (o' = o) as -> by congruence.
        rewrite lookup_delete_ne by done. by apply Ho.
    + intros c' Hx. rewrite Hcl in Hx. apply lookup_delete_is_Some in Hx as [_ Hx]. by apply Hr.
    + by rewrite Hrun, Hcf.
  - intros t' Hne. split; try done; [| |exists []; by rewrite app_nil_r|]; cbn.
    + by rewrite Hrun.
    + intros c' Hx. rewrite Hcl. assert (c' <> c) by congruence. by rewrite lookup_delete_ne.
    + by rewrite Hcf.
  - split; [done|]. cbn. rewrite Hcl. apply lookup_delete_eq.
Qed.

Lemma serve_client_ok t peer inputs app :
  Forall client_input_ok inputs -> broker_inv app -> fresh t app -> wp t (serve_client peer inputs) (final t) app.
Proof.
  intros Hin Hi Hf. unfold serve_client, register_client. apply wp_bind; [done|]. apply wp_bind; [done|].
  intros env app1 Hr1 Hi1. assert (Hf1 : fresh t app1) by by eapply fresh_rely.
  destruct (take_number_step t app1 Hi1 Hf1) as (Hi2 & Hg2 & Ho2). split; [exact Hi2|]. split; [exact Hg2|].
  set (c := ap_next_client app1) in *. intros app3 Hr3 Hi3.
  assert (Ho3 : only c t app3) by by eapply only_rely. intros env' app4 Hr4 Hi4.
  assert (Ho4 : only c t app4) by by eapply only_rely.
  destruct (enter_step c t app4 Hi4 Ho4) as (Hi5 & Hg5 & Hc5 & Ho5). split; [exact Hi5|]. split; [exact Hg5|].
  intros app6 Hr6 Hi6. assert (Hc6 : client c t app6) by by eapply client_rely.
  assert (Ho6 : only c t app6) by by eapply only_rely.
  apply wp_bind; [done|]. intros env7 app7 Hr7 Hi7. split; [exact Hi7|]. split; [intros t' _; reflexivity|].
  intros app8 Hr8 Hi8. assert (Hr68 : rely t app6 app8) by by etrans.
  apply wp_bind; [done|]. apply wp_bind; [done|].
  eapply wp_mono; [|apply (serve_loop_ok c peer (ap_epoch app7) inputs Hin); [done|by eapply client_rely]].
  intros result app9 Hi9 (Hres & Hr9 & _). intros app10 Hr10 Hi10.
  assert (Ho10 : only c t app10) by (eapply only_rely; [exact Hr10|]; eapply only_rely; [exact Hr9|]; by eapply only_rely).
  apply wp_bind; [done|]. apply wp_bind; [done|]. intros env11 app11 Hr11 Hi11.
  assert (Ho11 : only c t app11) by by eapply only_rely.
  destruct (leave_step c t app11 Hi11 Ho11) as (Hi12 & Hg12 & Hgone12). split; [exact Hi12|]. split; [exact Hg12|].
  intros app13 Hr13 Hi13. assert (Hgone13 : gone c t app13) by by eapply gone_rely.
  match goal with |- wp t (if ?last then _ else _) _ _ =>
    assert (Hlast : calm_task (if last then disarm else mret ())) by (destruct last; calm) end.
  eapply wp_mono; [|by apply Hlast]. intros r app14 Hi14 (Hok14 & Hr14 & _).
  assert (Hgone14 : gone c t app14) by by eapply gone_rely.
  assert (Hfin : forall r' app15, rely t app14 app15 -> result_ok r' -> final t r' app15).
  { intros r' app15 Hr15 Hok15. assert (Hgone15 : gone c t app15) by by eapply gone_rely.
    destruct Hgone15 as [(H1 & H2 & H3) H4]. destruct Hok15. split; [done|]. split; [done|].
    split; [done|]. intros c' Hc'. by rewrite (H3 c' Hc'). }
  destruct r as [[]|e|].
  - intros app15 Hr15 Hi15. by apply Hfin.
  - intros app15 Hr15 Hi15. apply Hfin; [done|]. exact (result_err _ Hok14).
  - by destruct Hok14.
Qed.

(** ** Discovery *)

(** The errors of a result satisfy [P]. *)
Definition errs {A} (P : Failure -> Prop) (r : outcome Failure A) : Prop :=
  match r with Err e => P e | _ => True end.

Lemma errs_bind {A B} P (m : outcome Failure A) (f : A -> outcome Failure B) :
  errs P m -> (forall a, errs P (f a)) -> errs P (m ≫= f).
Proof. destruct m as [a|e|]; [by intros _ H; rewrite bind_Ok|by rewrite bind_Err|done]. Qed.

Lemma errs_and_then {S A B} P (m : S * outcome Failure A) (f : S -> A -> S * outcome Failure B) :
  errs P m.2 -> (forall s a, errs P (f s a).2) -> errs P (and_then m f).2.
Proof. destruct m as [s [a|e|]]; [by intros _ H; apply H|done|done]. Qed.

Lemma and_then_Ok {S A B} (m : S * outcome Failure A) (f : S -> A -> S * outcome Failure B) b :
  (and_then m f).2 = Ok b -> exists s a, m = (s, Ok a) /\ (f s a).2 = Ok b.
Proof. destruct m as [s [a|e|]]; cbn [and_then snd]; [by exists s, a|done|done]. Qed.

Lemma errs_or_panic {A} P (o : option A) : errs P (or_panic o).
Proof. by destruct o. Qed.

Definition not_client (e : Failure) : Prop := e <> ClientDisappeared.

Lemma from_utf8_errs l : errs not_client (from_utf8 l).
Proof. unfold from_utf8. by case_match. Qed.

Lemma ok_or_errs {A} (o : option A) e : e <> ClientDisappeared -> errs not_client (ok_or o e).
Proof. by destruct o. Qed.

Lemma decode_nul_errs payload offset : errs not_client (decode_nul_ascii payload offset).
Proof.
  unfold decode_nul_ascii. apply errs_bind; [apply errs_or_panic|]. intros rest.
  apply errs_bind; [by apply ok_or_errs|]. intros n. apply errs_bind; [apply errs_or_panic|]. intros text.
  apply errs_bind; [apply from_utf8_errs|done].
Qed.

Lemma parse_page_errs fuel payload offset i result : errs not_client (parse_page fuel payload offset i result).
Proof.
  revert offset i result. induction fuel as [|fuel IH]; intros offset i result; cbn [parse_page];
    (destruct (_ <=? _); [done|]); [done|].
  apply errs_bind; [apply errs_or_panic|]. intros rest. apply errs_bind; [by apply ok_or_errs|]. intros n.
  destruct (_ <? _); [done|]. apply errs_bind; [apply errs_or_panic|]. intros name.
  apply errs_bind; [apply from_utf8_errs|]. intros text. do 3 (apply errs_bind; [apply errs_or_panic|]; intros ?).
  destruct (_ <? _); [done|]. destruct (_ =? 0); [done|]. destruct (_ <? _); [done|]. apply IH.
Qed.

Lemma parse_params_errs response start count result : errs not_client (parse_params response start count result).
Proof.
  unfold parse_params. destruct (_ || _); [done|]. do 2 (apply errs_bind; [apply errs_or_panic|]; intros ?).
  destruct (_ || _); [done|]. apply errs_bind; [apply parse_page_errs|]. intros [l i]. by destruct (negb _).
Qed.

Lemma parse_sources_errs fuel payload offset result : errs not_client (parse_sources fuel payload offset result).
Proof.
  revert offset result. induction fuel as [|fuel IH]; intros offset result; cbn [parse_sources];
    (destruct (_ <=? _); [done|]); [done|].
  apply errs_bind; [apply decode_nul_errs|]. intros [name next].
  apply errs_bind; [apply decode_nul_errs|]. intros [unit next']. apply IH.
Qed.

Section device.
Context {D : Type} (device : D -> list Z -> D * option (list Z)).

Lemma session_request_errs s ty payload : errs not_client (session_request device s ty payload).2.
Proof.
  destruct s as [u d]. unfold session_request.
  assert (H : forall answer, errs not_client (UpstreamControl_request u ty payload answer).2).
  { intros answer. destruct (request_result u ty payload answer) as [_ Hr].
    destruct (UpstreamControl_request _ _ _ _) as [u' [a|e|]]; cbn in *; [done| |done]. intros ->. by apply Hr. }
  destruct (write_frame _ _ _) as [encoded| |].
  - destruct (device d encoded) as [d' arrived]. specialize (H (fun _ => arrived)).
    by destruct (UpstreamControl_request _ _ _ _).
  - specialize (H (fun _ => None)). by destruct (UpstreamControl_request _ _ _ _).
  - specialize (H (fun _ => None)). by destruct (UpstreamControl_request _ _ _ _).
Qed.

Lemma discover_loop_errs fuel s start count result : errs not_client (discover_loop device fuel s start count result).2.
Proof.
  revert s start result. induction fuel as [|fuel IH]; intros s start result; cbn [discover_loop];
    (destruct (_ <=? _); [done|]); [done|].
  apply errs_and_then; [apply session_request_errs|]. intros s' response.
  pose proof (parse_params_errs response start count result) as Hp.
  destruct (parse_params _ _ _ _) as [[l next]| |]; [apply IH|done|done].
Qed.

Lemma read_char_errs s parameters name : errs not_client (read_char_parameter device s parameters name).2.
Proof.
  unfold read_char_parameter. destruct (find _ _); [|done]. destruct (negb _); [done|].
  apply errs_and_then; [apply session_request_errs|]. intros s' response. cbn [snd].
  destruct (_ || _); [done|]. apply errs_bind; [apply errs_or_panic|]. intros text. apply from_utf8_errs.
Qed.

Lemma discover_device_errs s mac : errs not_client (discover_device device s mac).2.
Proof.
  unfold discover_device. apply errs_and_then; [apply session_request_errs|]. intros s1 status.
  apply errs_and_then.
  { cbn [snd]. unfold parse_status. destruct (_ || _); [done|]. apply errs_bind; [apply errs_or_panic|]. intros v.
    destruct (negb _); [done|]. do 3 (apply errs_bind; [apply errs_or_panic|]; intros ?). done. }
  intros s2 [[pc sc] rate]. apply errs_and_then.
  { unfold discover_parameters. apply errs_and_then; [apply discover_loop_errs|]. intros s3 l. by case_bool_decide. }
  intros s3 parameters. apply errs_and_then.
  { unfold discover_sources. apply errs_and_then; [apply session_request_errs|]. intros s4 response. cbn [snd].
    destruct (negb _); [done|]. apply errs_bind; [apply parse_sources_errs|]. intros l. by destruct (negb _). }
  intros s4 sources. apply errs_and_then; [apply read_char_errs|]. intros s5 experiment.
  apply errs_and_then; [apply read_char_errs|done].
Qed.

Lemma query_mac_length mac m : query_mac mac = Ok m -> len m = 6.
Proof.
  unfold query_mac. destruct mac as [response|]; [|done]. cbn [ok_or]. rewrite bind_Ok.
  unfold BeaconResponse_decode. destruct (Z.eqb_spec (len response) RESPONSE_LEN) as [Hl|]; cbn [negb]; [|done].
  unfold RESPONSE_LEN in Hl. destruct (u16_at response 0) as [magic|]; [|done]. rewrite bind_or_panic.
  destruct (negb _); [done|]. destruct (index response 2); [|done]. rewrite bind_or_panic.
  destruct (negb _); [done|]. rewrite !slice_ok by lia. rewrite !bind_or_panic.
  set (mc := take _ (drop (Z.to_nat 6) response)). assert (Lm : len mc = 6).
  { subst mc. rewrite len_take; [lia|]. rewrite len_drop by lia. lia. }
  clearbody mc. repeat (match goal with |- context [or_panic ?o] => destruct o; [rewrite !bind_or_panic|done] end).
  cbn [map_err]. rewrite bind_Ok. cbn [br_mac]. by intros [= <-].
Qed.

Lemma discover_device_mac s mac m : (discover_device device s mac).2 = Ok m -> len (dm_mac m) = 6.
Proof.
  unfold discover_device. intros H. apply and_then_Ok in H as (s1 & a1 & _ & H).
  apply and_then_Ok in H as (s2 & [[pc sc] rate] & _ & H). do 4 apply and_then_Ok in H as (? & ? & _ & H).
  cbn [snd] in H. assert (Hm : dm_mac m = match query_mac mac with Ok mac => mac | _ => [0x02; 72; 76; 0; 0; 0xB0] end)
    by (by injection H as <-).
  rewrite Hm. destruct (query_mac mac) as [mc| |] eqn:E; [|done|done]. by eapply query_mac_length.
Qed.
End device.

(** ** The other tasks *)

#[export] Instance fresh_stable : Stable rely fresh.
Proof. intros t app app' Hr Hf. by eapply fresh_rely. Qed.

Lemma fresh_free {A} (p : task A) : under free p -> under fresh p.
Proof. apply under_weaken. by intros t app []. Qed.

Lemma final_fresh t r app : result_ok r -> fresh t app -> final t r app.
Proof.
  intros [Hp He] [Hl Hc]. split; [done|]. split; [done|]. split; [done|]. intros c Hx. by apply Hc in Hx.
Qed.

(** A task that never registers a client. *)
Lemma fresh_final t (p : task unit) app :
  under fresh p -> broker_inv app -> fresh t app -> wp t p (final t) app.
Proof.
  intros H Hi Hf. eapply wp_mono; [|by apply H]. intros r app' _ (Hok & Hr & _).
  by apply final_fresh; [|eapply fresh_rely].
Qed.

(** A task that never registers a client, one part after the other. *)
Lemma wp_then {A} Φ t (m : task A) (g : A -> task unit) app :
  triple rely fresh m (fun a _ _ => Φ a) -> broker_inv app -> fresh t app ->
  (forall a app', Φ a -> broker_inv app' -> fresh t app' -> wp t (g a) (final t) app') ->
  wp t (m ≫= g) (final t) app.
Proof.
  intros Hm Hi Hf Hg. apply wp_bind; [done|]. eapply wp_mono; [|by apply Hm].
  intros r app1 Hi1 (Hok & Hr & HM). assert (Hf1 : fresh t app1) by by eapply fresh_rely.
  destruct r as [a|e|]; [by apply Hg; [apply HM|..]| |by destruct Hok].
  intros app2 Hr2 Hi2. apply final_fresh; [exact (result_err _ Hok)|by eapply fresh_rely].
Qed.

Lemma spawn_under L (p : task unit) `{!Stable rely L} :
  (forall t app, fresh t app -> broker_inv app -> wp t p (final t) app) -> under L (spawn p).
Proof.
  intros Hp t app Hi HL. split; [exact Hp|]. intros app1 Hr1 Hi1 app2 Hr2 Hi2. split; [calm|].
  split; [by etrans|done].
Qed.

Definition udp_input_ok (i : UdpInput) : Prop :=
  match i with UdpDatagram wire _ => bytes_ok wire | _ => True end.

Lemma udp_loop_fresh peer_ip generation epoch inputs :
  Forall udp_input_ok inputs -> under fresh (udp_loop peer_ip generation epoch inputs).
Proof.
  induction 1 as [|i inputs Hi _ IH]; cbn [udp_loop]; [apply under_calm; calm|].
  destruct i as [wire from| |].
  - destruct (negb _); [done|]. apply under_attempt; [apply _|by apply fresh_free, process_packet_free|].
    intros [a|e|] [Hn He]; [done| |done]. apply under_calm, unrelated_act. intros t env app Hia.
    split; [|calm]. split; try done; [exists []; by rewrite app_nil_r|apply (bi_mac _ Hia)|].
    cbn. intros [= ->]. by apply He.
  - apply under_calm. calm.
  - apply under_bind; [apply _|apply under_calm; calm|]. intros now. destruct (negb _); [apply under_calm; calm|done].
Qed.

Lemma heartbeat_calm n : calm_task (heartbeat_loop n).
Proof.
  induction n as [|n IH]; cbn [heartbeat_loop]; [calm|]. apply calm_bind; [unfold upstream_ready; calm|].
  intros ready. apply calm_bind; [|by intros _]. destruct ready; calm.
Qed.

Lemma storage_monitor_calm errors :
  Forall (fun e => e <> Some ClientDisappeared) errors -> calm_task (storage_failure_monitor errors).
Proof.
  induction 1 as [|e errors He _ IH]; cbn [storage_failure_monitor]; [calm|]. destruct e as [e|]; [|done].
  apply unrelated_act. intros t env app Hi. split; [|calm].
  split; try done; [exists []; by rewrite app_nil_r|apply (bi_mac _ Hi)].
Qed.

Lemma len_fixed_identity value : len (fixed_identity value) = 16.
Proof.
  unfold fixed_identity. pose proof (len_nonneg value). rewrite len_app, len_replicate.
  unfold len in *. rewrite length_take. lia.
Qed.

(** Any response with fields of the right lengths is encoded. *)
Lemma beacon_encodes r :
  len (br_mac r) = 6 -> len (br_experiment r) = 16 -> len (br_firmware r) = 16 ->
  is_Some (BeaconResponse_encode r (replicate (Z.to_nat RESPONSE_LEN) 0)).
Proof.
  intros Hm He Hf. unfold BeaconResponse_encode.
  assert (L0 : len (replicate (Z.to_nat RESPONSE_LEN) 0) = 44) by by rewrite len_replicate.
  destruct (blit_spec (replicate (Z.to_nat RESPONSE_LEN) 0) 0 (le16 MAGIC)) as (o1 & -> & L1 & _);
    [lia|change (len (le16 MAGIC)) with 2; lia|]. rewrite bind_Some.
  destruct (put_spec o1 2 0x02) as (o2 & -> & L2 & _); [lia|]. rewrite bind_Some.
  destruct (put_spec o2 3 (br_version r)) as (o3 & -> & L3 & _); [lia|]. rewrite bind_Some.
  destruct (blit_spec o3 4 (le16 (br_control_port r))) as (o4 & -> & L4 & _);
    [lia|change (len (le16 _)) with 2; lia|]. rewrite bind_Some.
  destruct (blit_spec o4 6 (br_mac r)) as (o5 & -> & L5 & _); [lia|lia|]. rewrite bind_Some.
  destruct (blit_spec o5 12 (br_experiment r)) as (o6 & -> & L6 & _); [lia|lia|]. rewrite bind_Some.
  destruct (blit_spec o6 28 (br_firmware r)) as (o7 & -> & L7 & _); [lia|lia|]. by eexists.
Qed.

Lemma discovery_server_fresh datagrams : under fresh (discovery_server datagrams).
Proof.
  induction datagrams as [|[datagram peer] datagrams IH]; cbn [discovery_server]; [apply under_calm; calm|].
  destruct (negb _); [done|].
  apply (under_value _ (fun m => forall x, m = Some x -> len (dm_mac x) = 6)); [apply _| |].
  { apply triple_read; [done|apply _|apply _|apply _|]. intros t app Hi _. apply (bi_mac _ Hi). }
  intros [m|] Hm; [|done]. specialize (Hm _ eq_refl).
  apply under_bind; [apply _|apply under_calm; calm|]. intros port.
  edestruct (beacon_encodes (Build_BeaconResponse VERSION port (dm_mac m) (fixed_identity (dm_experiment m))
    (fixed_identity BROKER_IDENTITY))) as [encoded ->]; [done|apply len_fixed_identity..|].
  apply under_bind; [apply _|apply under_calm, calm_result; calm|]. intros bytes.
  apply under_bind; [apply _| |done]. apply under_calm, unrelated_act. intros t env app Hi.
  destruct (ev_io env); (split; [|calm]); [unrelated_with Hi [Announced bytes peer]|by apply unrelated_refl].
Qed.

(** ** The whole broker *)

Section whole.
Context {D : Type} (device : D -> list Z -> D * option (list Z)).

(** An attempt whose datagrams are bytes. *)
Definition connection_ok (c : Connection (D := D)) : Prop := Forall udp_input_ok (cn_datagrams c).

(** The discovery of the device behind a connection. *)
Definition discovery (c : Connection) (generation : Z) : outcome Failure DeviceMetadata :=
  (discover_device device ({| uc_stream := []; uc_sequence := 0; uc_generation := generation;
                              uc_peer_ip := cn_peer_ip c; uc_udp := cn_udp c |}, cn_device c) (cn_beacon c)).2.

Definition run_input_ok (i : RunInput) : Prop :=
  match i with RunAccept _ inputs => Forall client_input_ok inputs | _ => True end.

Record inputs_ok (inputs : Inputs (D := D)) : Prop := {
  ik_run : Forall run_input_ok (in_run inputs);
  ik_connections : Forall (fun c => forall x, c = Some x -> connection_ok x) (in_connections inputs);
  ik_storage : Forall (fun e => e <> Some ClientDisappeared) (in_storage_errors inputs) }.

(** What an attempt to connect returns. *)
Definition connected (r : outcome Failure (UpstreamControl * DeviceMetadata * list UdpInput)) : Prop :=
  (r = Panic -> discovery_panics)
  /\ forall x, r = Ok x -> len (dm_mac x.1.2) = 6 /\ Forall udp_input_ok x.2.

Lemma connect_upstream_attempt connection :
  (forall c, connection = Some c ->
     connection_ok c /\ forall generation, discovery c generation = Panic -> discovery_panics) ->
  triple rely fresh (attempt (connect_upstream device connection)) (fun r _ _ => connected r).
Proof.
  intros Hc t app Hi Hf. unfold connect_upstream. destruct connection as [c|].
  2:{ intros app1 Hr1 Hi1. split; [by split|]. split; [done|]. intros r [= <-]. by split. }
  destruct (Hc _ eq_refl) as [Hd Hp]. intros env app1 Hr1 Hi1.
  assert (Hu : unrelated app1 (app1 <| ap_next_generation := ap_next_generation app1 + 1 |>))
    by unrelated_with Hi1 (@nil Event).
  destruct (unrelated_calm _ _ Hi1 Hu) as [Hi2 Hc2]. split; [exact Hi2|]. split; [intros t' _; apply Hc2|].
  specialize (Hp (ap_next_generation app1)). unfold discovery in Hp. set (u := Build_UpstreamControl _ _ _ _ _) in *.
  pose proof (discover_device_mac device (u, cn_device c) (cn_beacon c)) as Hm.
  change (wp t (attempt (let '((upstream, _), metadata) := discover_device device (u, cn_device c) (cn_beacon c) in
      metadata ← done_with metadata; mret (upstream, metadata, cn_datagrams c)))
    (fun r app' => result_ok r /\ rely t app app' /\ forall a, r = Ok a -> connected a)
    (app1 <| ap_next_generation := ap_next_generation app1 + 1 |>)).
  destruct (discover_device device (u, cn_device c) (cn_beacon c)) as [[u' d'] r]. cbn [snd] in *.
  assert (Hrel : forall app3, rely t (app1 <| ap_next_generation := ap_next_generation app1 + 1 |>) app3 -> rely t app app3)
    by (intros app3 H3; etrans; [exact Hr1|]; etrans; [apply Hc2|exact H3]).
  destruct r as [m|e|]; intros app3 Hr3 Hi3; (split; [by split|]); (split; [by apply Hrel|]); intros r [= <-];
    (split; [intros Hx; first [discriminate Hx|by apply Hp]|]); intros x [= <-]. split; [by apply Hm|exact Hd].
Qed.

Lemma reconnect_loop_final connections t app :
  Forall (fun c => forall x, c = Some x ->
    connection_ok x /\ forall generation, discovery x generation = Panic -> discovery_panics) connections ->
  broker_inv app -> fresh t app -> wp t (reconnect_loop device connections) (final t) app.
Proof.
  intros Hc. revert app. induction Hc as [|c connections Hc _ IH]; intros app Hi Hf; cbn [reconnect_loop].
  { apply fresh_final; [apply under_calm; calm|done|done]. }
  apply (wp_then (fun _ => True)); [apply under_calm; unfold upstream_ready; calm|done|done|].
  intros [] app1 _ Hi1 Hf1.
  { apply (wp_then (fun _ => True)); [|done|done|by intros; apply IH]. apply under_calm, unrelated_act.
    intros t' env app2 Hi2. destruct (ap_reconnect app2); [|done]. split; [unrelated_with Hi2 (@nil Event)|calm]. }
  apply (wp_then connected); [by apply connect_upstream_attempt|done|done|].
  intros [[[upstream metadata] datagrams]|e|] app2 [Hpan Hr] Hi2 Hf2; [|by apply IH|].
  2:{ intros app3 Hr3 Hi3. destruct (fresh_rely _ _ _ Hf2 Hr3) as [Hl Hreg].
      split; [intros _; by apply Hpan|]. split; [done|].
      split; [done|]. intros c' Hx. by apply Hreg in Hx. }
  destruct (Hr _ eq_refl) as [Hm Hd]. cbn [fst snd] in Hm, Hd.
  apply (wp_then (fun _ => True)); [|done|done|intros _ app3 _ Hi3 Hf3].
  { apply under_calm, unrelated_act. intros t' env app3 Hi3. split; [|calm].
    split; try done; [exists []; by rewrite app_nil_r|by intros m [= <-]|apply (bi_fatal _ Hi3)]. }
  apply (wp_then (fun _ => True)); [|done|done|intros _ app4 _ Hi4 Hf4].
  { apply under_calm, unrelated_act. intros t' env app4 Hi4.
    split; [unrelated_with Hi4 [Connected (uc_generation upstream)]|calm]. }
  apply (wp_then (fun _ => True)); [|done|done|by intros; apply IH].
  apply spawn_under; [apply _|]. intros t' app5 Hf5 Hi5. apply fresh_final; [|done|done].
  unfold upstream_udp_loop. apply under_bind; [apply _|apply under_calm; calm|]. intros epoch.
  by apply udp_loop_fresh.
Qed.

Lemma shutdown_calm : calm_task shutdown.
Proof.
  unfold shutdown. apply calm_bind; [calm|]. intros running. apply calm_bind.
  { destruct running; [|calm]. apply calm_attempt; [calm|]. calm. }
  intros _. apply calm_bind; [calm|]. intros _. apply calm_bind; [apply attempt_unit; calm|]. intros _.
  apply unrelated_act. intros t env app Hi. split; [unrelated_with Hi (@nil Event)|calm].
Qed.

Lemma run_loop_fresh inputs : Forall run_input_ok inputs -> under fresh (run_loop inputs).
Proof.
  induction 1 as [|i inputs Hi _ IH]; cbn [run_loop]; [apply under_calm; calm|].
  destruct i as [peer client_inputs| | |].
  - apply under_bind; [apply _|apply under_calm; unfold upstream_ready; calm|]. intros ready.
    apply under_bind; [apply _| |done]. destruct ready; [|apply under_calm; calm].
    apply spawn_under; [apply _|]. intros t app Hf Ha. by apply serve_client_ok.
  - apply under_calm. calm.
  - apply under_calm, shutdown_calm.
  - apply (under_value _ (fun e => e <> Some ClientDisappeared)); [apply _| |].
    { apply triple_read; [done|apply _|apply _|apply _|]. intros t app Ha _. apply (bi_fatal _ Ha). }
    intros [reason|] Hr; [|done]. apply under_calm, calm_bind; [apply shutdown_calm|]. intros _.
    apply calm_result. split; [done|]. by intros [= ->].
Qed.

Lemma run_fresh inputs :
  inputs_ok inputs ->
  (forall c generation, Some c ∈ in_connections inputs -> discovery c generation = Panic -> discovery_panics) ->
  under fresh (run device inputs).
Proof.
  intros [Hr Hc Hs] Hp. unfold run.
  apply under_bind; [apply _| |intros _; apply under_bind; [apply _| |intros _; apply under_bind; [apply _| |intros _]]].
  - apply spawn_under; [apply _|]. intros t app Hf Hi. by apply fresh_final; [apply discovery_server_fresh|..].
  - apply spawn_under; [apply _|]. intros t app Hf Hi. apply reconnect_loop_final; [|done|done].
    apply Forall_forall. intros c Hin x ->. split; [by apply (proj1 (Forall_forall _ _) Hc _ Hin)|].
    intros generation. by apply Hp.
  - apply spawn_under; [apply _|]. intros t app Hf Hi. by apply fresh_final; [apply under_calm, heartbeat_calm|..].
  - apply under_bind; [apply _|apply under_calm; calm|]. intros recording.
    apply under_bind; [apply _| |intros _; by apply run_loop_fresh]. destruct recording; [|apply under_calm; calm].
    apply spawn_under; [apply _|]. intros t app Hf Hi. by apply fresh_final; [apply under_calm, storage_monitor_calm|..].
Qed.

Lemma App_new_inv config : 0 <= cf_history config -> broker_inv (App_new config).
Proof.
  intros Hc. split; cbn; try done.
  - split; cbn; try done. split; cbn; [constructor|done|left; lia].
  - intros c [x Hx]. by rewrite lookup_empty in Hx.
  - intros l1 p l2 E. by destruct l1.
Qed.

Lemma start_ok config inputs :
  0 <= cf_history config -> inputs_ok inputs ->
  (forall c generation, Some c ∈ in_connections inputs -> discovery c generation = Panic -> discovery_panics) ->
  pool_ok (App_new config, [run device inputs]).
Proof.
  intros Hc Hin Hpan. pose proof (App_new_inv config Hc) as Hi.
  assert (Hf : forall t, fresh t (App_new config)) by (intros t; split; cbn; [done|intros c; by rewrite lookup_empty]).
  split; cbn [fst snd]; [done| |by intros t _].
  intros t p Hp. apply nth_error_singleton in Hp as <-. by apply fresh_final; [apply run_fresh|..].
Qed.

End whole.
End laws.

(** The discovery of [c] panics.  With a device that sends bytes this is the
    overflow of the [u16] parameter index, after a [Status] that announces more
    than 65330 parameters ([Upstream.index_overflow_panics] is such a device). *)
Definition discovery_overflows {D} (device : D -> list Z -> D * option (list Z)) (c : Connection (D := D))
    : Prop :=
  exists generation, discovery device c generation = Panic
  /\ (sends_bytes device -> exists count, 65330 < count
       /\ announces_parameters device ({| uc_stream := []; uc_sequence := 0; uc_generation := generation;
                               uc_peer_ip := cn_peer_ip c; uc_udp := cn_udp c |}, cn_device c) count).

Lemma discovery_panic_overflows {D} (device : D -> list Z -> D * option (list Z)) c generation :
  discovery device c generation = Panic -> discovery_overflows device c.
Proof.
  intros Hp. exists generation. split; [exact Hp|]. intros Hd. unfold discovery in Hp.
  apply discover_device_panics in Hp as (count & Ha & Hc); [by exists count|done|].
  split; [constructor|]. by vm_compute.
Qed.

(** C10. The broker under every schedule of its tasks, whatever its clients, the
    MCU, the recorder and the network do: while no session runs nothing is
    retained or counted and no client is attached or quiet; a quiet client is
    attached; the history is within its capacity, its packets decode and have
    the layout of the shared configuration, which is well formed; the owner of
    a staged table is a connected client; no task misses the state of its own
    client, and a task that is over has released the lock of the stream
    operations and unregistered its client; and no task panics, unless the MCU of
    one of the connections announces so many parameters (more than 65330) that its
    discovery overflows the [u16] parameter index. *)
Theorem broker_every_schedule {D : Type} (device : D -> list Z -> D * option (list Z))
    (config : Config) (inputs : Inputs) (schedule : list (Task * Env))
    (app : App) (pool : Pool)
    (Hc : 0 <= cf_history config) (Hin : inputs_ok inputs)
    (Hx : execute schedule (App_new config, [run device inputs]) = Some (app, pool)) :
  let s := ap_state app in
  (ss_running s = false -> ss_received_records s = 0 /\ hi_packets (ss_history s) = []
     /\ map_Forall (fun _ cl => cl = ClientState_default) (ss_clients s))
  /\ map_Forall (fun _ cl => cl_quiet cl = true -> is_Some (cl_endpoint cl)) (ss_clients s)
  /\ history_ok (ss_history s)
  /\ (forall c, ss_configuration s = Some c ->
        config_ok c /\ Forall (fun p => packet_matches c p = true) (hi_packets (ss_history s)))
  /\ (forall o, ss_table_owner s = Some o -> is_Some (ss_clients s !! to_client_id o))
  /\ forall t r, nth_error pool t = Some (Ret r) ->
       (r = Panic -> exists c, Some c ∈ in_connections inputs /\ discovery_overflows device c)
       /\ r <> Err ClientDisappeared /\ ap_operations app <> Some t
       /\ forall c, ap_registrations app !! c = Some t -> ss_clients s !! c = None.
Proof.
  intros s. set (panics := exists c, Some c ∈ in_connections inputs /\ discovery_overflows device c).
  assert (Hp : forall c generation, Some c ∈ in_connections inputs -> discovery device c generation = Panic -> panics).
  { intros c generation Hc' Hd. exists c. split; [done|]. by eapply discovery_panic_overflows. }
  destruct (execute_ok panics _ _ _ (start_ok panics device config inputs Hc Hin Hp) Hx) as [Hi Ht _]. cbn [fst snd] in *.
  destruct (bi_state_ok _ Hi) as [Hr Hq Hh Hco Hl Ho]. split.
  { intros Hf. by destruct (Hr Hf). }
  split; [done|]. split; [done|]. split; [intros c Hcf; split; [by apply Hco|by apply Hl]|]. split; [done|].
  intros t r Hpool. exact (Ht t _ Hpool app ltac:(reflexivity) Hi).
Qed.
