(* ===== verification/BrokerRuns.v ===== *)
(** * Runs of the broker

    A task on its own, when no other task moves: what the departure of the last
    client does to the rig.  Then runs of the whole broker against a small
    device: one that streams, and those behind the findings. *)

From stdpp Require Import strings gmap.
From S2P Require Import Prelude Float32 Proto Text Frame StreamPacket Beacon BrokerInfo Upstream History Broker.
From S2P Require Import BrokerLaws.

#[export] Set Default Goal Selector "!".
Open Scope Z_scope.

(** Task [t] alone, one environment for each step; [None] when it is blocked or
    the environments run out. *)
Fixpoint alone {A : Type} (t : Task) (envs : list Env) (p : proc A) (app : App) : option (App * A) :=
  match p with
  | Ret a => Some (app, a)
  | Spawn _ k => alone t envs k app
  | Atomic f k =>
      match envs with
      | [] => None
      | env :: envs =>
          match f t env app with
          | Some (app, b) => alone t envs (k b) app
          | None => None
          end
      end
  end.

(** ** The last client *)

(** [Q] holds wherever [p] alone gets to. *)
Fixpoint leads {A : Type} (t : Task) (p : proc A) (Q : App -> A -> Prop) (app : App) : Prop :=
  match p with
  | Ret a => Q app a
  | Spawn _ k => leads t k Q app
  | Atomic f k =>
      forall env, match f t env app with
                  | Some (app, b) => leads t (k b) Q app
                  | None => True
                  end
  end.

Lemma leads_alone {A} t envs (p : proc A) Q app app' a :
  leads t p Q app -> alone t envs p app = Some (app', a) -> Q app' a.
Proof.
  revert envs app. induction p as [A a0|A C f k IH|A q _ k IH]; intros envs app; cbn [leads alone].
  - by intros H [= <- <-].
  - destruct envs as [|env envs]; [done|]. intros H. specialize (H env).
    destruct (f t env app) as [[app2 b]|]; [|done]. by apply IH.
  - apply IH.
Qed.

Lemma leads_bind {A B} t (p : proc A) (g : A -> proc B) Q app :
  leads t p (fun app' a => leads t (g a) Q app') app -> leads t (proc_bind p g) Q app.
Proof.
  revert app. induction p as [A a|A C f k IH|A q _ k IH]; intros app; cbn [leads proc_bind]; [done| |apply IH].
  intros H env. specialize (H env). destruct (f t env app) as [[app2 b]|]; [|done]. by apply IH.
Qed.

Lemma leads_mono {A} t (p : proc A) (Q Q' : App -> A -> Prop) app :
  (forall app' a, Q app' a -> Q' app' a) -> leads t p Q app -> leads t p Q' app.
Proof.
  intros HQ. revert app. induction p as [A a|A C f k IH|A q _ k IH]; intros app; cbn [leads]; [apply HQ| |by apply IH].
  intros H env. specialize (H env). destruct (f t env app) as [[app2 b]|]; [|done]. by eapply IH.
Qed.

(** ** The last client *)

(** The rig is safe: the MCU has acknowledged the disarm, or its control
    connection is gone. *)
Definition rig_released (generation arm_index : Z) (app : App) : Prop :=
  (exists response, ur_message_type response = MsgType_u8 SetPar
     /\ Forwarded generation (MsgType_u8 SetPar) (le16 arm_index ++ le32 0) (Ok response) ∈ ap_log app)
  \/ (ap_upstream app = None /\ Disconnected generation ∈ ap_log app).

(** The connection [g] is gone, and no client is registered. *)
Definition cut (g : Z) (app : App) : Prop :=
  ap_upstream app = None /\ Disconnected g ∈ ap_log app /\ ss_clients (ap_state app) = ∅.

Lemma leads_then {A B} t (m : task A) (g : A -> task B) Q app :
  leads t m (fun app' r => exists a, r = Ok a /\ leads t (g a) Q app') app -> leads t (m ≫= g) Q app.
Proof. intros H. apply leads_bind. eapply leads_mono; [|exact H]. by intros app' r (a & -> & Ha). Qed.

Lemma leads_attempt {A B} t (m : task A) (g : outcome Failure A -> task B) Q app :
  leads t m (fun app' r => leads t (g r) Q app') app -> leads t (attempt m ≫= g) Q app.
Proof. intros H. apply leads_bind, leads_bind. exact H. Qed.

(** Tasks that keep [P] and succeed. *)
Definition settles {A} (P : App -> Prop) (p : task A) : Prop :=
  forall t app, P app -> leads t p (fun app' r => (exists a, r = Ok a) /\ P app') app.

Lemma settles_bind {A B} P (m : task A) (g : A -> task B) :
  settles P m -> (forall a, settles P (g a)) -> settles P (m ≫= g).
Proof.
  intros Hm Hg t app HP. apply leads_then. eapply leads_mono; [|by apply Hm].
  intros app' r ([a ->] & HP'). exists a. split; [done|by apply Hg].
Qed.

Lemma settles_ret {A} P (a : A) : settles P (mret a).
Proof. intros t app HP. split; [by exists a|done]. Qed.

Lemma settles_act {A} P (f : Task -> Env -> App -> option (App * outcome Failure A)) :
  (forall t env app, P app -> match f t env app with
     | Some (app', r) => (exists a, r = Ok a) /\ P app' | None => True end) -> settles P (act f).
Proof. intros Hf t app HP env. specialize (Hf t env app HP). by destruct (f t env app) as [[app' r]|]. Qed.

Lemma cut_recorder g e : settles (cut g) (_ ← attempt (recorder e); mret ()).
Proof.
  intros t app (Hu & Hd & Hc). apply leads_attempt. unfold recorder. apply leads_bind. intros env. cbn [leads].
  destruct (cf_recording _); [|by split; [eexists|]]. intros env'. split; [by eexists|].
  split; [done|]. split; [|done]. apply elem_of_app. by left.
Qed.

Lemma cut_end_session g : settles (cut g) end_session.
Proof.
  apply settles_act. intros t env app (Hu & Hd & Hc). split; [by eexists|]. split; [done|]. split; [done|].
  cbn. by rewrite Hc, fmap_empty.
Qed.

Lemma cut_announce g : settles (cut g) announce_disconnect.
Proof.
  unfold announce_disconnect.
  repeat (apply settles_bind; [apply settles_act; intros t env app Hc; by split; [eexists|]|intros ?]).
  apply settles_act. intros t env app Hc. by split; [eexists|].
Qed.

Lemma mark_failed_leads t u app :
  ap_upstream app = Some u -> ss_clients (ap_state app) = ∅ ->
  leads t (mark_upstream_failed (uc_generation u))
    (fun app' r => (exists a, r = Ok a) /\ cut (uc_generation u) app') app.
Proof.
  intros Hu Hc. unfold mark_upstream_failed. apply leads_then. intros env. rewrite Hu, Z.eqb_refl.
  exists true. split; [done|]. revert t. set (app1 := log _ _). intros t.
  assert (H1 : cut (uc_generation u) app1).
  { split; [done|]. split; [|done]. apply elem_of_app. right. by apply list_elem_of_singleton. }
  generalize H1. apply (settles_bind (cut (uc_generation u))); [apply cut_end_session|]. intros was_running.
  apply settles_bind; [destruct was_running; [apply cut_recorder|apply settles_ret]|]. intros _. apply cut_announce.
Qed.

Lemma UpstreamControl_request_generation u ty payload answer :
  uc_generation (UpstreamControl_request u ty payload answer).1 = uc_generation u.
Proof.
  unfold UpstreamControl_request. destruct (write_frame _ _ _); [|done|done].
  destruct (answer _); [|done]. by destruct (read_frame _).
Qed.

Lemma disarm_leads t u m arm_index app :
  ap_upstream app = Some u -> ap_metadata app = Some m -> dm_arm_index m = Some arm_index ->
  ss_clients (ap_state app) = ∅ ->
  leads t disarm (fun app' r => r = Ok () /\ rig_released (uc_generation u) arm_index app'
                    /\ ss_clients (ap_state app') = ∅) app.
Proof.
  intros Hu Hm Ha Hc. unfold disarm. apply leads_then. intros env. exists (Some arm_index).
  split; [cbn; rewrite Hm; cbn; by rewrite Ha|]. apply leads_attempt. unfold request. apply leads_bind.
  unfold request_with_generation. apply leads_bind. intros env1. rewrite Hu.
  pose proof (UpstreamControl_request_generation u (MsgType_u8 SetPar) (le16 arm_index ++ le32 0) (ev_answer env1)) as Hg.
  pose proof (request_result u (MsgType_u8 SetPar) (le16 arm_index ++ le32 0) (ev_answer env1)) as [Hn _].
  destruct (UpstreamControl_request _ _ _ _) as [u' r]. cbn [fst snd] in *. cbn [leads].
  set (app1 := log _ _). assert (Hu1 : ap_upstream app1 = Some u') by done.
  assert (Hc1 : ss_clients (ap_state app1) = ∅) by done. rewrite <-Hg.
  assert (Hcut : forall app', cut (uc_generation u') app' ->
    rig_released (uc_generation u') arm_index app' /\ ss_clients (ap_state app') = ∅).
  { intros app' (H1 & H2 & H3). split; [by right|done]. }
  destruct r as [response|e|]; [| |done].
  - cbn [leads proc_bind mret task_ret]. destruct (Z.eqb_spec (ur_message_type response) (MsgType_u8 SetPar)) as [He|He].
    + cbn [leads mret task_ret]. split; [done|]. split; [|done]. left. exists response. split; [done|].
      apply elem_of_app. right. by apply list_elem_of_singleton.
    + unfold force_upstream_disconnect, current_generation. apply leads_then. intros env2.
      exists (Some (uc_generation u')). split; [by rewrite Hu1|].
      eapply leads_mono; [|by apply mark_failed_leads]. intros app' r' [[[] ->] Hct]. split; [done|]. by apply Hcut.
  - apply leads_then. eapply leads_mono; [|by apply mark_failed_leads]. intros app' r' [[a ->] Hct].
    exists a. split; [done|]. cbn. split; [done|]. by apply Hcut.
Qed.

(** C19. When the last client leaves, the rig is made safe: whatever the MCU
    answers, once [unregister_client] returns either the MCU has acknowledged
    the disarm command, or the broker has dropped the control connection, on
    which the firmware disarms by itself
    ([ControlServer.control_connection_safe]). *)
Theorem last_client_disarms (t : Task) (envs : list Env) (c : Z) (cl : ClientState) (u : UpstreamControl)
    (m : DeviceMetadata) (arm_index : Z) (app app' : App) (r : outcome Failure unit)
    (Hu : ap_upstream app = Some u) (Hm : ap_metadata app = Some m) (Ha : dm_arm_index m = Some arm_index)
    (Hc : ss_clients (ap_state app) = {[c := cl]})
    (Hr : alone t envs (unregister_client c) app = Some (app', r)) :
  r = Ok () /\ ss_clients (ap_state app') = ∅ /\ rig_released (uc_generation u) arm_index app'.
Proof.
  assert (H : leads t (unregister_client c) (fun app' r => r = Ok () /\ rig_released (uc_generation u) arm_index app'
    /\ ss_clients (ap_state app') = ∅) app).
  { unfold unregister_client. apply leads_then. intros env. fold (leave c (ap_state app)).
    pose proof (leave_clients c (ap_state app)) as Hl. rewrite Hc, delete_singleton_eq in Hl.
    exists true. split.
    - f_equal. apply bool_decide_true. exact Hl.
    - by apply disarm_leads with (m := m). }
  destruct (leads_alone _ _ _ _ _ _ _ H Hr) as (H1 & H2 & H3). done.
Qed.

(** ** A device and a run *)

(** Three parameters, one source at 1 kHz; every other request succeeds. *)
Definition sample_answer (request : list Z) : option (list Z) :=
  '(ty, seq, _) ← match decode request with Ok f => Some f | _ => None end;
  Some (frame_bytes ty seq (match MsgType_from_u8 ty with
    | Some Status => VERSION :: le16 3 ++ 1 :: f32_to_le_bytes (f32_of_Z 1000) ++ le32 0
    | Some GetParams => le16 0 ++ le16 3
        ++ str_bytes "experiment" ++ [0; 99; 4; 0; 0] ++ str_bytes "firmware" ++ [0; 99; 4; 0; 0]
        ++ str_bytes "arm" ++ [0; 73; 1; 0; 1]
    | Some GetSources => str_bytes "x" ++ [0] ++ str_bytes "V" ++ [0]
    | Some GetPar => str_bytes "demo"
    | _ => []
    end)).

Definition sample_device (d : unit) (request : list Z) : unit * option (list Z) := (d, sample_answer request).

Definition sample_config : Config :=
  {| cf_recording := true; cf_mcu_stream_port := STREAM_PORT; cf_control_port := CONTROL_PORT;
     cf_history := 10 * 10 ^ 9 |}.

(** Everything works, at time [now]. *)
Definition fine (now : Z) : Env :=
  {| ev_now := now; ev_utc_ns := now; ev_answer := sample_answer; ev_io := true; ev_storage := true |}.

(** The packet [seq] of two records of one source. *)
Definition sample_packet (seq : Z) : list Z :=
  stream_header_bytes (mkStreamHeader 1 seq (2 * seq) 0 1 2) ++ replicate 8 0.

(** [StreamSetup] of source 0 without decimation. *)
Definition setup_payload (count : Z) : list Z := le16 1 ++ le32 count ++ [1; 0].

Definition sample_connection (datagrams : list UdpInput) : Connection (D := unit) :=
  {| cn_peer_ip := 7; cn_udp := 40000; cn_device := (); cn_beacon := None; cn_datagrams := datagrams |}.

(** Two clients: one sets the stream up and starts it, the other one joins
    quietly and asks for the last record; two packets arrive. *)
Definition sample_inputs : Inputs (D := unit) := {|
  in_run := [RunAccept (1, 5000) [InFrame (MsgType_u8 StreamSetup) 1 (setup_payload 0);
                                  InFrame (MsgType_u8 StreamStart) 2 (le16 6000)];
             RunAccept (1, 5001) [InFrame QUIET_STREAM_START 1 (le16 6001);
                                  InFrame GET_RECENT 2 (le32 3)]];
  in_discovery := []; in_connections := [Some (sample_connection [UdpDatagram (sample_packet 0) 7;
    UdpDatagram (sample_packet 1) 7])]; in_heartbeats := 0; in_storage_errors := [] |}.

(** Task [t] moves [n] times. *)
Definition moves (t : Task) (n : nat) : list (Task * Env) := replicate n (t, fine 0).

(** What [f] sees after a schedule. *)
Definition after {X : Type} (inputs : Inputs (D := unit)) (schedule : list (Task * Env)) (f : App -> X) : option X :=
  match execute schedule (App_new sample_config, [run sample_device inputs]) with
  | Some (app, _) => Some (f app)
  | None => None
  end.

(** One client sets the stream up and starts it; two packets arrive; the other
    client joins quietly and replays; both leave and the rig is disarmed.
    Tasks 6 and 7 are the clients, task 5 reads the datagrams of the MCU. *)
Definition replay_run : list (Task * Env) :=
  moves 0%nat 5 ++ moves 2%nat 5 ++ moves 0%nat 4 ++ moves 6%nat 28 ++ moves 5%nat 5 ++ moves 7%nat 14.

(** What every client got, and what is left when all have gone. *)
Lemma replay_run_events :
  after sample_inputs replay_run (fun app =>
    (omap (fun e => match e with Replied c ty seq _ => Some (c, ty, seq) | _ => None end) (ap_log app),
     omap (fun e => match e with Replayed wire _ => Some (StreamHeader_decode wire) | _ => None end) (ap_log app)))
  = Some ([(1, MsgType_u8 StreamSetup, 1); (1, MsgType_u8 StreamStart, 2);
           (2, QUIET_STREAM_START, 1); (2, GET_RECENT, 2)],
          [Ok (mkStreamHeader 1 0 1 0 1 1); Ok (mkStreamHeader 1 1 2 0 1 2)]).
Proof. by vm_compute. Qed.

Lemma sample_inputs_ok : inputs_ok sample_inputs.
Proof.
  split.
  - repeat constructor; try (by vm_compute); by apply (bool_decide_unpack _).
  - constructor; [|constructor]. intros x [= <-]. repeat constructor; by apply (bool_decide_unpack _).
  - constructor.
Qed.

Lemma sample_no_overflow c : Some c ∈ in_connections sample_inputs -> ~ discovery_overflows sample_device c.
Proof. intros [= ->]%list_elem_of_singleton (generation & Hp & _). vm_compute in Hp. done. Qed.

Lemma executed schedule (st : App * Pool) (f : App * Pool -> bool) :
  match execute schedule st with Some st => f st | None => false end = true ->
  exists app pool, execute schedule st = Some (app, pool) /\ f (app, pool) = true.
Proof. destruct (execute schedule st) as [[app pool]|]; [|done]. intros H. by exists app, pool. Qed.

(** Four records were received, and client 2, of task 7, has left. *)
Definition replayed (st : App * Pool) : bool :=
  (ss_received_records (ap_state st.1) =? 4)
  && bool_decide (ap_registrations st.1 !! 2 = Some 7%nat)
  && match nth_error st.2 7 with Some (Ret _) => true | _ => false end.

Lemma broker_every_schedule_witness :
  exists app pool, execute replay_run (App_new sample_config, [run sample_device sample_inputs]) = Some (app, pool)
    /\ ss_received_records (ap_state app) = 4 /\ history_ok (ss_history (ap_state app))
    /\ ap_operations app <> Some 7%nat /\ ss_clients (ap_state app) !! 2 = None
    /\ nth_error pool 7 <> Some (Ret Panic).
Proof.
  destruct (executed replay_run (App_new sample_config, [run sample_device sample_inputs]) replayed)
    as (app & pool & E & H); [by vm_compute|].
  destruct (broker_every_schedule sample_device sample_config sample_inputs replay_run app pool
    ltac:(by vm_compute) sample_inputs_ok E) as (_ & _ & Hh & _ & _ & Hp).
  exists app, pool. split; [exact E|]. clear E. unfold replayed in H. cbn [fst snd] in H.
  apply andb_prop in H as [H H7]. apply andb_prop in H as [Hr Hg].
  destruct (nth_error pool 7) as [[r|B f k|q k]|] eqn:E7; [|discriminate H7..].
  destruct (Hp 7%nat r) as (Hpan & _ & Ho & Hc); [exact E7|].
  split; [by apply Z.eqb_eq|]. split; [exact Hh|]. split; [exact Ho|].
  split; [apply Hc; exact (bool_decide_eq_true_1 _ Hg)|]. intros [= ->].
  destruct (Hpan eq_refl) as (c & Hin & Hover). exact (sample_no_overflow c Hin Hover).
Defined.

(** A broker connected to [sample_device], with one client. *)
Definition one_client : App :=
  (App_new sample_config)
    <| ap_upstream := Some {| uc_stream := []; uc_sequence := 0; uc_generation := 1; uc_peer_ip := 7; uc_udp := 40000 |} |>
    <| ap_metadata := Some {| dm_sample_rate_hz := f32_of_Z 1000; dm_sources := []; dm_experiment := []; dm_firmware := [];
                              dm_arm_index := Some 2; dm_mcu_reboot_index := None; dm_mac := replicate 6 0 |} |>
    <| ap_state := SharedState_default <| ss_clients := {[1 := ClientState_default]} |> |>.

(** An MCU that refuses the disarm command. *)
Definition refuses (request : list Z) : option (list Z) :=
  '(ty, seq, _) ← match decode request with Ok f => Some f | _ => None end;
  Some (frame_bytes (MsgType_u8 MsgError) seq [ErrorCode_u8 Busy; ty]).

Definition refusing : Env := (fine 0) <| ev_answer := refuses |>.

Lemma last_client_disarms_witness :
  exists app, alone 6%nat (replicate 12 refusing) (unregister_client 1) one_client = Some (app, Ok ())
    /\ ap_upstream app = None /\ rig_released 1 2 app.
Proof.
  assert (H : (fun '(app, _) => ap_upstream app) <$> alone 6%nat (replicate 12 refusing) (unregister_client 1) one_client
    = Some None) by by vm_compute.
  destruct (alone 6%nat (replicate 12 refusing) (unregister_client 1) one_client) as [[app r]|] eqn:E;
    [|discriminate H].
  destruct (last_client_disarms 6%nat (replicate 12 refusing) 1 ClientState_default
    {| uc_stream := []; uc_sequence := 0; uc_generation := 1; uc_peer_ip := 7; uc_udp := 40000 |} _ 2 one_client app r
    eq_refl eq_refl eq_refl eq_refl E) as (-> & _ & Hr).
  exists app. split; [reflexivity|]. split; [by injection H|exact Hr].
Defined.

(** ** Interleavings behind the findings *)

(** The messages of type [ty] that clients sent to the MCU. *)
Definition forwarded (ty : Z) (app : App) : list (list Z) :=
  omap (fun e => match e with Forwarded _ ty' payload (Ok _) => if ty' =? ty then Some payload else None | _ => None end)
    (ap_log app).

(** The broker is up, connected, and has accepted two clients. *)
Definition two_accepted : list (Task * Env) := moves 0%nat 5 ++ moves 2%nat 5 ++ moves 0%nat 4.

Definition two_clients (a b : list ClientInput) (datagrams : list UdpInput) : Inputs (D := unit) := {|
  in_run := [RunAccept (1, 5000) a; RunAccept (1, 5001) b];
  in_discovery := []; in_connections := [Some (sample_connection datagrams)];
  in_heartbeats := 0; in_storage_errors := [] |}.

(** Two clients' [SetBlock]s reach the MCU in turn, without a [Commit] between
    them: the ownership is looked up before the request and taken after it. *)
Lemma table_transactions_interleave :
  after (two_clients [InFrame (MsgType_u8 SetBlock) 1 [0; 0]] [InFrame (MsgType_u8 SetBlock) 1 [0; 1]] [])
    (two_accepted ++ moves 6%nat 4 ++ moves 7%nat 4 ++ moves 6%nat 1 ++ moves 7%nat 1)
    (fun app => (forwarded (MsgType_u8 SetBlock) app, forwarded (MsgType_u8 Commit) app))
  = Some ([[0; 0]; [0; 1]], []).
Proof. by vm_compute. Qed.

(** The UDP socket fails between the check of the generation and the write:
    the configuration is of a connection that is gone. *)
Lemma setup_of_a_lost_connection :
  after (two_clients [InFrame (MsgType_u8 StreamSetup) 1 (setup_payload 0)] [] [UdpError])
    (two_accepted ++ moves 6%nat 8 ++ moves 5%nat 7 ++ moves 6%nat 1)
    (fun app => (ap_upstream app, sc_sources <$> ss_configuration (ap_state app)))
  = Some (None, Some [0]).
Proof. by vm_compute. Qed.
(** The datagram task sees the count of the first session completed, and waits
    while a client stops that session and starts another: it then ends the new
    session, which has received nothing and which the MCU still streams. *)
Lemma completion_ends_the_next_session :
  after (two_clients [InFrame (MsgType_u8 StreamSetup) 1 (setup_payload 2);
                      InFrame (MsgType_u8 StreamStart) 2 (le16 6000);
                      InFrame (MsgType_u8 StreamStop) 3 [];
                      InFrame (MsgType_u8 StreamStart) 4 (le16 6000)] [] [UdpDatagram (sample_packet 0) 7])
    (two_accepted ++ moves 6%nat 26 ++ moves 5%nat 4 ++ moves 6%nat 19 ++ moves 5%nat 5)
    (fun app => (ss_running (ap_state app),
      omap (fun e => match e with
                     | Forwarded _ ty _ (Ok r) => Some (inl (ty, ur_message_type r))
                     | RecordingStopped reason => Some (inr reason)
                     | _ => None
                     end) (ap_log app)))
  = Some (false, [inl (MsgType_u8 StreamSetup, MsgType_u8 StreamSetup);
                  inl (MsgType_u8 StreamStart, MsgType_u8 StreamStart);
                  inl (MsgType_u8 StreamStop, MsgType_u8 StreamStop); inr CloseStreamStop;
                  inl (MsgType_u8 StreamStart, MsgType_u8 StreamStart); inr CloseCountComplete]).
Proof. vm_compute. reflexivity. Qed.
