(* ===== verification/BrokerConfig.v ===== *)
(** * Broker configuration (helic-broker/src/config.rs)

    The command line as [clap] delivers it, its validation, and the parser of
    the segment size.  Whether a directory can be created is the environment's.
    Durations are nanoseconds; [BrokerDuration] has their parser and the
    defaults of the arguments. *)

From stdpp Require Import strings.
From S2P Require Import Prelude Proto Text.

#[export] Set Default Goal Selector "!".
Open Scope Z_scope.

Record Config := {
  cf_mcu_host : string; cf_output_dir : option string;
  cf_mcu_control_port : Z; cf_mcu_stream_port : Z; cf_mcu_discovery_port : Z;
  cf_control_port : Z; cf_stream_port : Z; cf_discovery_port : Z;
  cf_history : Z; cf_segment_size : Z; cf_request_timeout : Z; cf_reconnect_delay : Z;
  cf_log_level : string
}.

Inductive ConfigError :=
  HistoryNotPositive | SegmentTooSmall | TimeoutNotPositive | OutputDirectory (dir : string).

#[export] Instance ConfigError_eq_dec : EqDecision ConfigError.
Proof. solve_decision. Defined.

(** The directory asked for, if the check got there, and the result. *)
Definition validate (create_dir_all : string -> bool) (c : Config) : option string * outcome ConfigError unit :=
  if cf_history c =? 0 then (None, Err HistoryNotPositive)
  else if cf_segment_size c <? 1024 * 1024 then (None, Err SegmentTooSmall)
  else if (cf_request_timeout c =? 0) || (cf_reconnect_delay c =? 0) then (None, Err TimeoutNotPositive)
  else match cf_output_dir c with
       | Some dir => (Some dir, if create_dir_all dir then Ok () else Err (OutputDirectory dir))
       | None => (None, Ok ())
       end.

Definition recording_notice (c : Config) : string :=
  match cf_output_dir c with
  | Some dir => "Captures are being saved to " +:+ dir +:+ "."
  | None => "Captures are not being saved."
  end.

(** ** Sizes

    A [&str] is its bytes. *)

Definition is_digit (b : Z) : bool := (48 <=? b) && (b <=? 57).

(** The digits of [u64::from_str]: multiply, then add, each checked. *)
Fixpoint u64_digits (acc : Z) (l : list Z) : option Z :=
  match l with
  | [] => Some acc
  | b :: l =>
      if negb (is_digit b) then None
      else if umax 64 <? acc * 10 then None
      else if umax 64 <? acc * 10 + (b - 48) then None
      else u64_digits (acc * 10 + (b - 48)) l
  end.

(** [str::parse::<u64>]: an optional plus, and at least one digit. *)
Definition u64_parse (l : list Z) : option Z :=
  match l with
  | [] => None
  | b :: rest => if b =? 43 then (match rest with [] => None | _ => u64_digits 0 rest end) else u64_digits 0 l
  end.

Definition strip_suffix (l suffix : list Z) : option (list Z) :=
  let n := (length l - length suffix)%nat in
  if bool_decide (drop n l = suffix) then Some (take n l) else None.

Definition UNITS : list (string * Z) :=
  [("GiB", 1024 * 1024 * 1024); ("MiB", 1024 * 1024); ("KiB", 1024);
   ("GB", 1000 * 1000 * 1000); ("MB", 1000 * 1000); ("KB", 1000)]%string.

Inductive SizeError := InvalidSize | SizeTooLarge | SizeUnit.

#[export] Instance SizeError_eq_dec : EqDecision SizeError.
Proof. solve_decision. Defined.

Definition checked_mul64 (a b : Z) : option Z := if umax 64 <? a * b then None else Some (a * b).

(** The loop over the units, then what has none. *)
Fixpoint parse_units (units : list (string * Z)) (value : list Z) : outcome SizeError Z :=
  match units with
  | [] => ok_or (u64_parse value) SizeUnit
  | (suffix, multiplier) :: units =>
      match strip_suffix value (str_bytes suffix) with
      | Some number =>
          parsed ← ok_or (u64_parse number) InvalidSize;
          ok_or (checked_mul64 parsed multiplier) SizeTooLarge
      | None => parse_units units value
      end
  end.

Definition parse_size (value : list Z) : outcome SizeError Z := parse_units UNITS value.

(** ** Reference: the grammar of sizes *)

(** The number that a list of digits writes. *)
Definition decimal (digits : list Z) : Z := fold_left (fun n b => n * 10 + (b - 48)) digits 0.

Definition is_number (l : list Z) (n : Z) : Prop :=
  exists sign digits, l = sign ++ digits /\ (sign = [] \/ sign = [43])
    /\ digits <> [] /\ Forall (fun b => is_digit b = true) digits /\ n = decimal digits.

(** ** Lemmas *)

Lemma is_digit_bounds b : is_digit b = true <-> 48 <= b <= 57.
Proof. unfold is_digit. rewrite andb_true_iff, !Z.leb_le. done. Qed.

Lemma decimal_ge acc digits :
  0 <= acc -> Forall (fun b => is_digit b = true) digits -> acc <= fold_left (fun n b => n * 10 + (b - 48)) digits acc.
Proof.
  intros Ha Hd. revert acc Ha. induction Hd as [|b l Hb _ IH]; intros acc Ha; cbn; [lia|].
  apply is_digit_bounds in Hb. specialize (IH (acc * 10 + (b - 48))). lia.
Qed.

Lemma u64_digits_spec acc l n :
  0 <= acc <= umax 64 ->
  u64_digits acc l = Some n
  <-> Forall (fun b => is_digit b = true) l /\ n = fold_left (fun n b => n * 10 + (b - 48)) l acc /\ n <= umax 64.
Proof.
  revert acc. induction l as [|b l IH]; intros acc Ha; cbn [u64_digits fold_left].
  - split; [intros [= <-]; split_and!; [by constructor|done|lia]|by intros (_ & -> & _)].
  - destruct (is_digit b) eqn:Eb; cbn [negb].
    2:{ split; [done|]. intros (H & _). apply Forall_cons in H as [H _]. congruence. }
    pose proof (proj1 (is_digit_bounds b) Eb) as Hb.
    assert (Hover : umax 64 < acc * 10 + (b - 48) -> ~ (Forall (fun b => is_digit b = true) (b :: l)
      /\ n = fold_left (fun n b => n * 10 + (b - 48)) l (acc * 10 + (b - 48)) /\ n <= umax 64)).
    { intros Ho (H & -> & Hn). apply Forall_cons in H as [_ H].
      pose proof (decimal_ge (acc * 10 + (b - 48)) l ltac:(lia) H). lia. }
    destruct (Z.ltb_spec (umax 64) (acc * 10)); [split; [done|intros H1; by destruct Hover; [lia|]]|].
    destruct (Z.ltb_spec (umax 64) (acc * 10 + (b - 48))); [split; [done|intros H1; by destruct Hover]|].
    rewrite IH by lia. rewrite Forall_cons, Eb. tauto.
Qed.

Lemma u64_parse_spec l n : u64_parse l = Some n <-> is_number l n /\ n <= umax 64.
Proof.
  assert (H0 : 0 <= 0 <= umax 64) by (vm_compute; split; congruence).
  unfold u64_parse, is_number. split.
  - destruct l as [|b rest]; [done|]. destruct (Z.eqb_spec b 43) as [->|Hb].
    + destruct rest as [|c rest]; [done|]. intros (Hd & Hn & Hle)%u64_digits_spec; [|done].
      split; [|done]. exists [43], (c :: rest). split_and!; try done. by right.
    + intros (Hd & Hn & Hle)%u64_digits_spec; [|done]. split; [|done]. exists [], (b :: rest). split_and!; try done. by left.
  - intros [(sign & digits & -> & Hs & Hne & Hd & Hn) Hle].
    assert (E : u64_digits 0 digits = Some n) by (by apply u64_digits_spec).
    destruct digits as [|b rest]; [done|]. destruct Hs as [->| ->]; cbn [app]; [|by rewrite Z.eqb_refl].
    rewrite (proj2 (Z.eqb_neq b 43)); [done|]. apply Forall_cons in Hd as [Hd%is_digit_bounds _]. lia.
Qed.

Lemma strip_suffix_spec l suffix number : strip_suffix l suffix = Some number <-> l = number ++ suffix.
Proof.
  unfold strip_suffix. case_bool_decide as E; split.
  - intros [= <-]. rewrite <-(take_drop (length l - length suffix) l) at 1. by rewrite E.
  - intros ->. rewrite length_app. replace (_ + _ - _)%nat with (length number) by lia. by rewrite take_app_length.
  - done.
  - intros ->. destruct E. rewrite length_app. replace (_ + _ - _)%nat with (length number) by lia.
    by rewrite drop_app_length.
Qed.

Lemma strip_suffix_none l suffix : (forall number, l <> number ++ suffix) -> strip_suffix l suffix = None.
Proof. intros H. destruct (strip_suffix l suffix) eqn:E; [|done]. apply strip_suffix_spec in E. by apply H in E. Qed.

Lemma number_last l n : is_number l n -> exists l' d, l = l' ++ [d] /\ d <= 57.
Proof.
  intros (sign & digits & -> & _ & Hne & Hd & _). destruct digits as [|d digits _] using rev_ind; [done|].
  exists (sign ++ digits), d. rewrite app_assoc. split; [done|]. apply Forall_app in Hd as [_ Hd].
  apply Forall_cons in Hd as [Hd%is_digit_bounds _]. lia.
Qed.

Lemma number_no_unit l n x suffix number :
  is_number l n -> last suffix = Some x -> 57 < x -> l ++ [] <> number ++ suffix.
Proof.
  intros (l' & d & -> & Hd)%number_last Hs Hx E. apply (f_equal last) in E.
  rewrite app_nil_r, last_snoc, last_app, Hs in E. injection E as ->. lia.
Qed.

(** Two suffixes that differ towards the end. *)
Ltac other_suffix :=
  let number := fresh "number" in let E := fresh "E" in
  intros number E; apply (f_equal reverse) in E; rewrite !reverse_app in E;
  vm_compute in E; congruence.

Definition parse_unit (number : list Z) (multiplier : Z) : outcome SizeError Z :=
  parsed ← ok_or (u64_parse number) InvalidSize; ok_or (checked_mul64 parsed multiplier) SizeTooLarge.

Lemma parse_unit_spec number multiplier n :
  1 <= multiplier ->
  parse_unit number multiplier = Ok n <-> exists m, is_number number m /\ n = m * multiplier /\ n <= umax 64.
Proof.
  intros Hm. unfold parse_unit, checked_mul64. split.
  - destruct (u64_parse number) as [m|] eqn:E; [|done]. cbn [ok_or]. rewrite bind_Ok.
    apply u64_parse_spec in E as [E _]. destruct (Z.ltb_spec (umax 64) (m * multiplier)); [done|].
    intros E1%Ok_inj. exists m. split_and!; [done|done|lia].
  - intros (m & Hn & -> & Hle).
    assert (0 <= m) by (destruct Hn as (? & ? & _ & _ & _ & Hd & ->); by apply decimal_ge).
    rewrite (proj2 (u64_parse_spec number m)) by (split; [done|nia]). cbn [ok_or]. rewrite bind_Ok.
    by rewrite (proj2 (Z.ltb_ge _ _)).
Qed.

Lemma parse_unit_no_panic number multiplier : parse_unit number multiplier <> Panic.
Proof. unfold parse_unit. destruct (u64_parse number); [|done]. cbn. by destruct (checked_mul64 _ _). Qed.

Lemma parse_units_no_panic units value : parse_units units value <> Panic.
Proof.
  induction units as [|[suffix multiplier] units IH]; cbn [parse_units]; [by destruct (u64_parse value)|].
  destruct (strip_suffix _ _); [apply parse_unit_no_panic|done].
Qed.

(** What a list of units accepts, a number without unit included. *)
Definition sized (units : list (list Z * Z)) (value : list Z) (n : Z) : Prop :=
  exists number suffix multiplier m, (suffix, multiplier) ∈ units /\ value = number ++ suffix
    /\ is_number number m /\ n = m * multiplier /\ n <= umax 64.

Definition with_none (units : list (string * Z)) : list (list Z * Z) := ([], 1) :: ((fun u => (str_bytes u.1, u.2)) <$> units).

Lemma parse_units_sound units value n :
  Forall (fun u => 1 <= u.2) units -> parse_units units value = Ok n -> sized (with_none units) value n.
Proof.
  induction 1 as [|[suffix multiplier] units Hm _ IH]; cbn [parse_units].
  - destruct (u64_parse value) as [m|] eqn:E; [|done]. intros <-%Ok_inj. apply u64_parse_spec in E as [E Hle].
    exists value, [], 1, m. split_and!; [by apply list_elem_of_here|by rewrite app_nil_r|done|lia|done].
  - destruct (strip_suffix value (str_bytes suffix)) as [number|] eqn:E.
    + intros (m & Hn & -> & Hle)%parse_unit_spec; [|done]. apply strip_suffix_spec in E as ->.
      exists number, (str_bytes suffix), multiplier, m. split_and!; [|done..].
      apply list_elem_of_further, list_elem_of_here.
    + intros (number & s & k & m & Hin & Hrest)%IH. exists number, s, k, m. split; [|done].
      apply list_elem_of_In in Hin. apply list_elem_of_In. destruct Hin as [<-|Hin]; [by left|by right; right].
Qed.

(** ** Properties *)

(** The parser of sizes is its grammar: it accepts exactly a decimal number, with
    an optional plus, followed by one of the units or by nothing, whose product is
    a [u64], with that product as its value; anything else is an error, and it
    never panics. *)
Theorem parse_size_exact (value : list Z) :
  (forall n, parse_size value = Ok n <-> sized (with_none UNITS) value n) /\ parse_size value <> Panic.
Proof.
  split; [|apply parse_units_no_panic]. intros n. split; [apply parse_units_sound; by repeat constructor|].
  intros (number & suffix & k & m & Hin & -> & Hn & -> & Hle).
  assert (Hunit : 1 <= k -> parse_unit number k = Ok (m * k)).
  { intros Hk. apply parse_unit_spec; [done|]. by exists m. }
  apply list_elem_of_In in Hin. unfold with_none, UNITS in Hin. cbn [fmap list_fmap In fst snd] in Hin.
  unfold parse_size, UNITS. cbn [parse_units].
  destruct Hin as [[= <- <-]|Hin].
  { rewrite !strip_suffix_none by (intros ?; by apply (number_no_unit number m 66)).
    rewrite app_nil_r, (proj2 (u64_parse_spec number m)) by (split; [done|lia]). cbn [ok_or]. f_equal. lia. }
  repeat (destruct Hin as [E|Hin]; [injection E as <- <-; rewrite ?strip_suffix_none by other_suffix;
    rewrite (proj2 (strip_suffix_spec _ _ number) eq_refl); exact (Hunit ltac:(lia))|]).
  destruct Hin.
Qed.

(** A configuration is accepted exactly if its durations are positive, a segment
    has at least a mebibyte and the output directory, if one is given, could be
    created; and a directory is only asked for once the rest has passed. *)
Theorem validate_exact (create_dir_all : string -> bool) (c : Config) :
  let numbers := cf_history c <> 0 /\ 1048576 <= cf_segment_size c
                 /\ cf_request_timeout c <> 0 /\ cf_reconnect_delay c <> 0 in
  (snd (validate create_dir_all c) = Ok ()
   <-> numbers /\ forall dir, cf_output_dir c = Some dir -> create_dir_all dir = true)
  /\ (forall dir, fst (validate create_dir_all c) = Some dir <-> numbers /\ cf_output_dir c = Some dir).
Proof.
  intros numbers. unfold numbers, validate. change (1024 * 1024) with 1048576.
  destruct (Z.eqb_spec (cf_history c) 0); [cbn; split; [|intros ?]; split; (done || lia)|].
  destruct (Z.ltb_spec (cf_segment_size c) 1048576); [cbn; split; [|intros ?]; split; (done || lia)|].
  destruct (Z.eqb_spec (cf_request_timeout c) 0); [cbn; split; [|intros ?]; split; (done || lia)|].
  destruct (Z.eqb_spec (cf_reconnect_delay c) 0); [cbn; split; [|intros ?]; split; (done || lia)|].
  cbn [orb]. destruct (cf_output_dir c) as [dir|]; cbn [fst snd].
  - split; [split|by intros; split; [intros [= <-]|intros [_ [= <-]]]].
    + destruct (create_dir_all dir) eqn:E; [|done]. intros _. split; [done|]. by intros ? [= <-].
    + intros [_ Hdir]. by rewrite (Hdir dir).
  - split; [by split; [split|]|]. intros dir. split; [done|by intros [_ ?]].
Qed.

Example sizes :
  parse_size (str_bytes "1GiB") = Ok (2 ^ 30) /\ parse_size (str_bytes "2MB") = Ok 2000000
  /\ parse_size (str_bytes "+7") = Ok 7 /\ parse_size (str_bytes "GiB") = Err InvalidSize
  /\ parse_size (str_bytes "10TB") = Err SizeUnit
  /\ parse_size (str_bytes "17179869184GiB") = Err SizeTooLarge.
Proof. by vm_compute. Qed.
