(* ===== verification/BrokerDuration.v ===== *)
(** * Durations of the broker's command line (helic-broker/src/config.rs)

    [parse_duration], with what it uses of the standard library written out:
    [f64::from_str], the nearest double to a decimal numeral, and
    [Duration::from_secs_f64], the nearest whole number of nanoseconds.  Then
    the configuration [clap] builds when only the host and the output directory
    are given, from the defaults of the arguments. *)

From stdpp Require Import strings.
From S2P Require Import Prelude Float32 Proto Text BrokerConfig.

#[export] Set Default Goal Selector "!".
Open Scope Z_scope.

(** ** [f64::from_str] *)

(** The double nearest to [n / d], for a positive [d]: the quotient to at least
    64 bits, with a last bit that tells whether there is a remainder. *)
Definition f64_of_ratio (n d : Z) : float :=
  let k := Z.max 0 (64 + Z.log2 d - Z.log2 n) in
  let a := Z.shiftl n k in
  binary_normalize 53 1024 (2 * (a / d) + (if a mod d =? 0 then 0 else 1)) (- (k + 1)) false.

(** [mantissa * 10 ^ exponent]. *)
Definition f64_of_decimal (mantissa exponent : Z) : float :=
  if 0 <=? exponent then f64_of_ratio (mantissa * 10 ^ exponent) 1 else f64_of_ratio mantissa (10 ^ (- exponent)).

(** The leading digits and the rest. *)
Fixpoint span_digits (l : list Z) : list Z * list Z :=
  match l with
  | [] => ([], [])
  | b :: rest => if is_digit b then (let '(ds, rest) := span_digits rest in (b :: ds, rest)) else ([], l)
  end.

(** The sign, if there is one. *)
Definition split_sign (l : list Z) : bool * list Z :=
  match l with
  | b :: rest => if b =? 45 then (true, rest) else if b =? 43 then (false, rest) else (false, l)
  | [] => (false, l)
  end.

(** The digits of an exponent: the accumulator stops growing well before the
    [i64] overflows. *)
Definition exponent_value (digits : list Z) : Z :=
  fold_left (fun n b => if n <? 65536 then n * 10 + (b - 48) else n) digits 0.

(** What follows the digits: nothing, or [e], a sign and digits to the end. *)
Definition parse_exponent (l : list Z) : option Z :=
  match l with
  | [] => Some 0
  | b :: rest =>
      if (b =? 101) || (b =? 69) then
        let '(negative, rest) := split_sign rest in
        let '(digits, rest) := span_digits rest in
        match digits, rest with
        | _ :: _, [] => Some (if negative then - exponent_value digits else exponent_value digits)
        | _, _ => None
        end
      else None
  end.

(** Digits with a point somewhere, at least one, and an exponent. *)
Definition parse_number (l : list Z) : option float :=
  let '(whole, rest) := span_digits l in
  let '(fraction, rest) := match rest with
                           | b :: after => if b =? 46 then span_digits after else ([], rest)
                           | [] => ([], rest)
                           end in
  match whole ++ fraction with
  | [] => None
  | digits => exponent ← parse_exponent rest; Some (f64_of_decimal (decimal digits) (exponent - len fraction))
  end.

(** Without regard to the case of a letter. *)
Definition eq_ignore_case (l word : list Z) : bool :=
  bool_decide ((fun b => if (65 <=? b) && (b <=? 90) then b + 32 else b) <$> l = word).

Definition parse_special (l : list Z) : option float :=
  if eq_ignore_case l (str_bytes "nan") then Some S754_nan
  else if eq_ignore_case l (str_bytes "inf") || eq_ignore_case l (str_bytes "infinity") then Some (S754_infinity false)
  else None.

Definition f64_parse (l : list Z) : option float :=
  let '(negative, rest) := split_sign l in
  value ← match parse_number rest with Some x => Some x | None => parse_special rest end;
  Some (if negative then fneg value else value).

(** ** [Duration::from_secs_f64]

    In nanoseconds.  [Panic] is a number of seconds that is negative, not
    finite, or more than an [u64]. *)

(** [n / d] rounded to the nearest, ties to even. *)
Definition round_half_even (n d : Z) : Z :=
  let q := n / d in
  let r := n mod d in
  if 2 * r <? d then q else if d <? 2 * r then q + 1 else if Z.even q then q else q + 1.

Definition from_secs_f64 {E} (secs : float) : outcome E Z :=
  match secs with
  | S754_zero _ => Ok 0
  | S754_finite false m e =>
      let nanos := if 0 <=? e then Z.pos m * 2 ^ e * 10 ^ 9 else round_half_even (Z.pos m * 10 ^ 9) (2 ^ (- e)) in
      if nanos / 10 ^ 9 <=? umax 64 then Ok nanos else Panic
  | _ => Panic
  end.

(** ** [parse_duration] *)

Inductive DurationError := DurationUnit | InvalidDuration | DurationNotPositive.

#[export] Instance DurationError_eq_dec : EqDecision DurationError.
Proof. solve_decision. Defined.

(** The suffixes in the order of the tests; ["ms"] is the double nearest to a
    thousandth. *)
Definition DURATION_UNITS : list (string * float) :=
  [("ms", f64_of_decimal 1 (-3)); ("s", f64_of_decimal 1 0); ("m", f64_of_decimal 60 0); ("h", f64_of_decimal 3600 0)]%string.

Fixpoint duration_unit (units : list (string * float)) (value : list Z) : option (list Z * float) :=
  match units with
  | [] => None
  | (suffix, scale) :: units =>
      match strip_suffix value (str_bytes suffix) with
      | Some number => Some (number, scale)
      | None => duration_unit units value
      end
  end.

Definition parse_duration (value : list Z) : outcome DurationError Z :=
  '(number, scale) ← ok_or (duration_unit DURATION_UNITS value) DurationUnit;
  number ← ok_or (f64_parse number) InvalidDuration;
  if negb (is_finite number) || fle number (S754_zero false) then Err DurationNotPositive
  else from_secs_f64 (dmul number scale).

(** ** The defaults of the arguments *)

Definition Config_from_args (mcu_host : string) (output_dir : option string) : option Config :=
  let duration s := match parse_duration (str_bytes s) with Ok d => Some d | _ => None end in
  history ← duration "10s"%string;
  segment_size ← match parse_size (str_bytes "1GiB") with Ok n => Some n | _ => None end;
  request_timeout ← duration "5s"%string;
  reconnect_delay ← duration "1s"%string;
  Some {| cf_mcu_host := mcu_host; cf_output_dir := output_dir;
          cf_mcu_control_port := CONTROL_PORT; cf_mcu_stream_port := STREAM_PORT; cf_mcu_discovery_port := DISCOVERY_PORT;
          cf_control_port := CONTROL_PORT; cf_stream_port := STREAM_PORT; cf_discovery_port := DISCOVERY_PORT;
          cf_history := history; cf_segment_size := segment_size; cf_request_timeout := request_timeout;
          cf_reconnect_delay := reconnect_delay; cf_log_level := "info" |}.

(** ** Lemmas *)

Example numerals :
  f64_parse (str_bytes "0.1") = Some (ddiv (f64_of_Z 1) (f64_of_Z 10))
  /\ f64_parse (str_bytes "+2.5e-1") = Some (ddiv (f64_of_Z 1) (f64_of_Z 4))
  /\ f64_parse (str_bytes ".5") = Some (ddiv (f64_of_Z 1) (f64_of_Z 2))
  /\ f64_parse (str_bytes "1e400") = Some (S754_infinity false)
  /\ f64_parse (str_bytes "5e-324") = Some (S754_finite false 1 (-1074))
  /\ f64_parse (str_bytes ".") = None /\ f64_parse (str_bytes "1e") = None /\ f64_parse (str_bytes "-") = None.
Proof. vm_compute. tauto. Qed.

(** A number of hours past the range of a [Duration] is not refused: the
    conversion panics. *)
Example overlong_duration_panics : parse_duration (str_bytes "1e300h") = Panic.
Proof. reflexivity. Qed.

(** A positive number may still round to no time at all, which [validate] then
    refuses. *)
Example tiny_duration : parse_duration (str_bytes "1e-7ms") = Ok 0.
Proof. reflexivity. Qed.

Lemma round_half_even_nearest n d : 0 < d -> 2 * Z.abs (n - round_half_even n d * d) <= d.
Proof.
  intros Hd. unfold round_half_even.
  pose proof (Z.div_mod n d ltac:(lia)) as E. pose proof (Z.mod_pos_bound n d Hd) as Hr.
  repeat case_match; repeat case_bool_decide; rewrite ?Z.ltb_lt, ?Z.ltb_ge in *; nia.
Qed.

Lemma from_secs_f64_range {E} secs (d : Z) : from_secs_f64 (E := E) secs = Ok d -> 0 <= d < 2 ^ 64 * 10 ^ 9.
Proof.
  unfold from_secs_f64. destruct secs as [s| | |[] m e]; try done; [intros [= <-]; lia|].
  set (nanos := if 0 <=? e then _ else _). destruct (Z.leb_spec (nanos / 10 ^ 9) (umax 64)) as [Hu|]; [|done].
  intros [= <-]. assert (0 <= nanos).
  { subst nanos. destruct (Z.leb_spec 0 e); [pose proof (Z.pow_pos_nonneg 2 e); lia|].
    pose proof (Z.pow_pos_nonneg 2 (- e) ltac:(lia) ltac:(lia)).
    pose proof (round_half_even_nearest (Z.pos m * 10 ^ 9) (2 ^ (- e)) ltac:(lia)). nia. }
  split; [done|]. pose proof (Z.div_mod nanos (10 ^ 9) ltac:(lia)). pose proof (Z.mod_pos_bound nanos (10 ^ 9) ltac:(lia)).
  unfold umax in Hu. lia.
Qed.

(** What is accepted: a numeral with a unit, for a duration the type can hold. *)
Lemma parse_duration_ok value d :
  parse_duration value = Ok d ->
  exists number unit scale x, (unit, scale) ∈ DURATION_UNITS /\ value = number ++ str_bytes unit
    /\ f64_parse number = Some x /\ from_secs_f64 (E := DurationError) (dmul x scale) = Ok d /\ 0 <= d < 2 ^ 64 * 10 ^ 9.
Proof.
  unfold parse_duration. destruct (duration_unit _ _) as [[number scale]|] eqn:Eu; [|done].
  cbn [ok_or mbind outcome_bind]. destruct (f64_parse number) as [x|] eqn:Ex; [|done]. cbn [ok_or mbind outcome_bind].
  destruct (_ || _); [done|]. intros Hd. assert (Hu : exists unit, (unit, scale) ∈ DURATION_UNITS /\ value = number ++ str_bytes unit).
  { revert Eu. generalize DURATION_UNITS as units. induction units as [|[u sc] units IH]; [done|]. cbn [duration_unit].
    unfold strip_suffix. case_bool_decide as Hs.
    - intros [= <- <-]. exists u. split; [by left|].
      pose proof (take_drop (length value - length (str_bytes u))%nat value) as E. by rewrite Hs in E.
    - intros Eu. destruct (IH Eu) as (unit & ? & ?). exists unit. split; [by right|done]. }
  destruct Hu as (unit & Hin & ->). exists number, unit, scale, x.
  destruct (from_secs_f64_range _ _ Hd). by split_and!.
Qed.

(** The defaults are a valid configuration. *)
Lemma default_config_valid mcu_host : exists c,
  Config_from_args mcu_host None = Some c /\ validate (fun _ => false) c = (None, Ok ()).
Proof. eexists. split; [vm_compute; reflexivity|reflexivity]. Qed.
