(* ===== verification/Storage.v ===== *)
(** * Recording (helic-broker/src/storage.rs)

    The worker that writes a capture as a chain of HDF5 segments.  The file
    system and the HDF5 library are the environment: the model is the sequence
    of calls the worker makes of them, each of which can fail, and what it does
    when one does.  File names are relative to the output directory; a data set
    is named by what it holds, where the source keeps the handle the library
    gave it. *)

From stdpp Require Import strings.
From S2P Require Import Prelude Float32 Text Proto StreamPacket Upstream History Broker.

Definition RECORD_CHUNK : Z := 256.
Definition PACKET_CHUNK : Z := 64.
Definition QUEUE_CAPACITY : Z := 256.

Definition reason_u8 (r : CloseReason) : Z :=
  match r with
  | CloseSegmentLimit => 1 | CloseStreamStop => 2 | CloseCountComplete => 3 | CloseUpstreamLost => 4
  | CloseStorageError => 5 | CloseBrokerShutdown => 6 | CloseStartRejected => 7 | CloseMcuReboot => 8
  end.

Definition completes_session (r : CloseReason) : bool :=
  match r with CloseStreamStop | CloseCountComplete | CloseBrokerShutdown => true | _ => false end.

(** ** The calls *)

Inductive Dataset :=
  | Values | SampleIndex
  | PacketSequence | PacketFirstIndex | PacketDropped | PacketRecordOffset | PacketRecordCount | PacketReceived.

#[export] Instance Dataset_eq_dec : EqDecision Dataset.
Proof. solve_decision. Defined.

(** The value of an attribute: a string, an integer of a width, an [f32]. *)
Inductive Attribute := AttrString (value : list Z) | AttrInteger (width value : Z) | AttrFloat (value : float).

Inductive DiskCall :=
  | Create (path : list Z)
  | CreateGroup (name : string)
  | SetAttr (name : string) (value : Attribute)
  | WriteStrings (name : string) (values : list (list Z))
  | AssignStrings (group name : string)
  | CreateStream (d : Dataset) (shape chunk : list Z)
  | AssignStream (group : string) (d : Dataset)
  | WriteDataset (name : string) (value : Z)
  | StartSwmr
  | AppendFrame (d : Dataset) (frame : list Z)
  | Flush
  | Metadata (path : list Z)
  | CloseWriter
  | OpenRw (path : list Z)
  | WriteRaw (name : string) (value : Z)
  | CloseFile
  | Rename (from to : list Z).

(** The environment answers given the calls made so far: whether the last one
    fails, whether a file exists, its length, the clocks and the session
    number; [dk_timestamp] is [OffsetDateTime::format]. *)
Record Disk := {
  dk_fails : list DiskCall -> bool;
  dk_exists : list DiskCall -> list Z -> bool;
  dk_len : list DiskCall -> Z;
  dk_instant : list DiskCall -> Z;
  dk_utc : list DiskCall -> Z;
  dk_uuid : list DiskCall -> list Z;
  dk_timestamp : Z -> option (list Z);
  dk_broker_version : list Z }.

Inductive StorageError :=
  | AlreadyActive | NoSources | TimestampFormat | NoMetadata | NoSessionId | SegmentExists
  | NoSession | NoSegment | SourcesChanged | DiskFailed.

(** ** The session *)

Record OpenSegment := { sg_partial : list Z; sg_final : list Z; sg_last_flush : Z }.

Record SegmentSession := {
  se_segment_size : Z; se_session_id : option (list Z); se_metadata : option SessionMetadata;
  se_prefix : list Z; se_segment_index : Z; se_record_offset : Z; se_segment : option OpenSegment }.

Definition SegmentSession_new (segment_size : Z) : SegmentSession :=
  {| se_segment_size := segment_size; se_session_id := None; se_metadata := None; se_prefix := [];
     se_segment_index := 0; se_record_offset := 0; se_segment := None |}.

(** A method of the session: the session and the calls so far survive a [?]. *)
Definition io (A : Type) : Type :=
  SegmentSession * list DiskCall -> (SegmentSession * list DiskCall) * outcome StorageError A.

#[export] Instance io_ret : MRet io := fun _ a s => (s, Ok a).
#[export] Instance io_bind : MBind io := fun _ _ f m s => and_then (m s) (fun s a => f a s).

Definition get_session : io SegmentSession := fun s => (s, Ok (fst s)).
Definition put_session (f : SegmentSession -> SegmentSession) : io unit := fun '(s, l) => ((f s, l), Ok ()).
Definition raise {A} (r : outcome StorageError A) : io A := fun s => (s, r).

(** ** Names *)

(** A [u32] in decimal. *)
Fixpoint digits (fuel : nat) (n : Z) : list Z :=
  match fuel with
  | O => []
  | S fuel => if n <? 10 then [48 + n] else digits fuel (n / 10) ++ [48 + n mod 10]
  end.

(** [{:04}]. *)
Definition padded (n : Z) : list Z :=
  let d := digits 10 n in replicate (4 - length d) 48 ++ d.

Definition is_name_byte (b : Z) : bool :=
  (48 <=? b) && (b <=? 57) || (65 <=? b) && (b <=? 90) || (97 <=? b) && (b <=? 122) || (b =? 45) || (b =? 95).

(** By characters: the bytes of the source string that continue a character of
    UTF-8 have none of their own. *)
Definition sanitise (value : list Z) : list Z :=
  let out := (fun b => if is_name_byte b then b else 95)
               <$> List.filter (fun b => negb ((128 <=? b) && (b <? 192))) value in
  match out with [] => str_bytes "device" | _ => out end.

Definition segment_base (prefix : list Z) (segment_index : Z) : list Z :=
  prefix ++ str_bytes "_" ++ padded segment_index ++ str_bytes ".h5".
Definition partial_of (base : list Z) : list Z := base ++ str_bytes ".partial".

(** ** Groups of calls *)

(** Up to the version attribute; then the attributes; then the data sets. *)
Definition creation_calls (partial : list Z) : list DiskCall := [
  Create partial; CreateGroup "sources"; CreateGroup "records"; CreateGroup "packets";
  SetAttr "format" (AttrString (str_bytes "HELIC-DAQ broker capture"));
  SetAttr "format_version" (AttrInteger 32 1)]%string.

Definition attribute_calls (broker_version : list Z) (metadata : SessionMetadata) (session_id : list Z)
    (segment_index record_offset : Z) : list DiskCall := [
  SetAttr "session_id" (AttrString session_id);
  SetAttr "segment_index" (AttrInteger 32 segment_index);
  SetAttr "session_record_offset" (AttrInteger 64 record_offset);
  SetAttr "experiment" (AttrString (sm_experiment metadata));
  SetAttr "firmware" (AttrString (sm_firmware metadata));
  SetAttr "broker_firmware" (AttrString (str_bytes "helic-broker " ++ broker_version));
  SetAttr "stream_protocol_version" (AttrInteger 8 VERSION);
  SetAttr "sample_rate_hz" (AttrFloat (sm_sample_rate_hz metadata));
  SetAttr "decimation" (AttrInteger 16 (sm_decimation metadata));
  SetAttr "configured_count" (AttrInteger 32 (sm_configured_count metadata));
  SetAttr "started_utc_ns" (AttrInteger 64 (sm_started_utc_ns metadata))]%string.

Definition scalar_stream (group : string) (d : Dataset) (chunk : Z) : list DiskCall :=
  [CreateStream d [1] [chunk; 1]; AssignStream group d].

Definition dataset_calls (metadata : SessionMetadata) : list DiskCall :=
  let n := len (sm_sources metadata) in
  [WriteStrings "names" (sr_name <$> sm_sources metadata); AssignStrings "/sources" "names";
   WriteStrings "units" (sr_unit <$> sm_sources metadata); AssignStrings "/sources" "units";
   CreateStream Values [n] [RECORD_CHUNK; n]; AssignStream "/records" Values]%string
  ++ scalar_stream "/records" SampleIndex RECORD_CHUNK
  ++ scalar_stream "/packets" PacketSequence PACKET_CHUNK
  ++ scalar_stream "/packets" PacketFirstIndex PACKET_CHUNK
  ++ scalar_stream "/packets" PacketDropped PACKET_CHUNK
  ++ scalar_stream "/packets" PacketRecordOffset PACKET_CHUNK
  ++ scalar_stream "/packets" PacketRecordCount PACKET_CHUNK
  ++ scalar_stream "/packets" PacketReceived PACKET_CHUNK
  ++ [WriteDataset "ended_utc_ns" 0; WriteDataset "close_reason" 0; WriteDataset "clean_close" 0;
      WriteDataset "session_complete" 0; StartSwmr]%string.

Definition packet_calls (record_offset : Z) (packet : Packet) : list DiskCall :=
  let h := pk_header packet in [
  AppendFrame PacketSequence (le32 (sh_seq h)); AppendFrame PacketFirstIndex (le32 (sh_first_index h));
  AppendFrame PacketDropped (le32 (sh_dropped h)); AppendFrame PacketRecordOffset (le_bytes 8 record_offset);
  AppendFrame PacketRecordCount (le16 (sh_n_records h)); AppendFrame PacketReceived (le_bytes 8 (pk_received_utc_ns packet))].

(** [finalise_file] between opening and closing; [ended] is [utc_now_ns]. *)
Definition finalise_calls (path : list Z) (ended : Z) (reason : CloseReason) (session_complete : bool) : list DiskCall := [
  OpenRw path; WriteRaw "ended_utc_ns" ended; WriteRaw "close_reason" (reason_u8 reason);
  WriteRaw "clean_close" 1; WriteRaw "session_complete" (Z.b2z session_complete); CloseFile]%string.

(** [i64::try_from(nanos)], saturating. *)
Definition utc_now_ns (nanos : Z) : Z := Z.max (- 2 ^ 63) (Z.min (2 ^ 63 - 1) nanos).

(** ** Operations *)

Section storage.
Variable disk : Disk.

(** A call and its [?]. *)
Definition call (c : DiskCall) : io unit := fun '(s, l) =>
  ((s, l ++ [c]), if dk_fails disk (l ++ [c]) then Err DiskFailed else Ok ()).

(** A question that cannot fail. *)
Definition ask {A} (f : list DiskCall -> A) : io A := fun '(s, l) => ((s, l), Ok (f l)).

Fixpoint calls (l : list DiskCall) : io unit :=
  match l with
  | [] => mret ()
  | c :: l => _ ← call c; calls l
  end.

Definition open_segment : io unit :=
  s ← get_session;
  metadata ← raise (ok_or (se_metadata s) NoMetadata);
  let final_path := segment_base (se_prefix s) (se_segment_index s) in
  let partial_path := partial_of final_path in
  exists_ ← ask (fun l => dk_exists disk l partial_path || dk_exists disk l final_path);
  _ ← raise (guard_err exists_ SegmentExists);
  _ ← calls (creation_calls partial_path);
  session_id ← raise (ok_or (se_session_id s) NoSessionId);
  _ ← calls (attribute_calls (dk_broker_version disk) metadata session_id (se_segment_index s) (se_record_offset s));
  _ ← calls (dataset_calls metadata);
  now ← ask (dk_instant disk);
  put_session (fun s => s <| se_segment := Some {| sg_partial := partial_path; sg_final := final_path; sg_last_flush := now |} |>).

(** The session number is drawn after the time stamp is formatted. *)
Definition start (metadata : SessionMetadata) : io unit :=
  s ← get_session;
  _ ← raise (guard_err (bool_decide (is_Some (se_segment s))) AlreadyActive);
  _ ← raise (guard_err (bool_decide (sm_sources metadata = [])) NoSources);
  timestamp ← raise (ok_or (dk_timestamp disk (sm_started_utc_ns metadata)) TimestampFormat);
  session_id ← ask (dk_uuid disk);
  _ ← put_session (fun s => s <| se_prefix := timestamp ++ str_bytes "_" ++ sanitise (sm_experiment metadata) |>
                              <| se_session_id := Some session_id |> <| se_metadata := Some metadata |>
                              <| se_segment_index := 0 |> <| se_record_offset := 0 |>);
  open_segment.

Definition close_segment (reason : CloseReason) (session_complete : bool) : io unit :=
  s ← get_session;
  segment ← raise (ok_or (se_segment s) NoSegment);
  _ ← put_session (fun s => s <| se_segment := None |>);
  _ ← call CloseWriter;
  _ ← call (OpenRw (sg_partial segment));
  ended ← ask (fun l => utc_now_ns (dk_utc disk l));
  _ ← calls (drop 1 (finalise_calls (sg_partial segment) ended reason session_complete));
  call (Rename (sg_partial segment) (sg_final segment)).

(** [Panic] is the overflow of the index. *)
Definition rotate : io unit :=
  _ ← close_segment CloseSegmentLimit false;
  s ← get_session;
  _ ← raise (assert_that (se_segment_index s <? umax 32));
  _ ← put_session (fun s => s <| se_segment_index := se_segment_index s + 1 |>);
  open_segment.

(** One row: its values and its index; the product is of two [u32]. *)
Definition append_row (packet : Packet) (row_bytes row : Z) : io unit :=
  let start := STREAM_HEADER_LEN + row * row_bytes in
  values ← raise (or_panic (slice (pk_wire packet) start (start + row_bytes)));
  _ ← call (AppendFrame Values values);
  let h := pk_header packet in
  _ ← raise (assert_that (wrap 32 row * sh_decimation h <=? umax 32));
  call (AppendFrame SampleIndex (le32 (wrapping_add 32 (sh_first_index h) (wrap 32 row * sh_decimation h)))).

(** [append] after the rows and the packet's frames: the offset, and once a
    second the flush and the size. *)
Definition append_tail (packet : Packet) (segment : OpenSegment) : io unit :=
  let h := pk_header packet in
  s ← get_session;
  _ ← raise (assert_that (se_record_offset s + sh_n_records h <=? umax 64));
  _ ← put_session (fun s => s <| se_record_offset := se_record_offset s + sh_n_records h |>);
  now ← ask (dk_instant disk);
  if 10 ^ 9 <=? Z.max 0 (now - sg_last_flush segment) then
    _ ← call Flush;
    now ← ask (dk_instant disk);
    _ ← put_session (fun s => s <| se_segment := Some (segment <| sg_last_flush := now |>) |>);
    _ ← call (Metadata (sg_partial segment));
    length ← ask (dk_len disk);
    if se_segment_size s <=? length then rotate else mret ()
  else mret ().

Definition append (packet : Packet) : io unit :=
  s ← get_session;
  metadata ← raise (ok_or (se_metadata s) NoSession);
  segment ← raise (ok_or (se_segment s) NoSegment);
  let h := pk_header packet in
  _ ← raise (guard_err (negb (sh_n_sources h =? len (sm_sources metadata))) SourcesChanged);
  let row_bytes := 4 * len (sm_sources metadata) in
  _ ← for_each (fun row _ => append_row packet row_bytes row) (seqZ 0 (sh_n_records h)) ();
  _ ← calls (packet_calls (se_record_offset s) packet);
  append_tail packet segment.

Definition stop (reason : CloseReason) : io unit :=
  s ← get_session;
  if bool_decide (is_Some (se_segment s)) then
    _ ← close_segment reason (completes_session reason);
    put_session (fun s => s <| se_metadata := None |> <| se_session_id := None |>)
  else mret ().

Definition abandon (s : SegmentSession) : SegmentSession :=
  s <| se_segment := None |> <| se_metadata := None |> <| se_session_id := None |>.

(** ** The worker *)

Inductive StorageCommand :=
  | StorageStart (metadata : SessionMetadata)
  | StoragePacket (packet : Packet)
  | StorageStop (reason : CloseReason)
  | StorageShutdown.

(** What the worker answers: the acknowledgement of a start or stop, and the
    error it publishes. *)
Inductive StorageAnswer := Acknowledged (result : outcome StorageError unit) | Published (e : StorageError).

(** It waits for a command, or has ended. *)
Inductive WorkerState := Waiting | Ended | WorkerPanicked.

Definition run_command (c : StorageCommand) : io unit :=
  match c with
  | StorageStart metadata => start metadata
  | StoragePacket packet => append packet
  | StorageStop reason => stop reason
  | StorageShutdown => stop CloseBrokerShutdown
  end.

(** One turn of the loop of [spawn]. *)
Definition worker_step (st : SegmentSession * list DiskCall) (c : StorageCommand)
    : (SegmentSession * list DiskCall) * list StorageAnswer * WorkerState :=
  let '(st, result) := run_command c st in
  match c, result with
  | _, Panic => (st, [], WorkerPanicked)
  | StorageShutdown, _ => (st, [], Ended)
  | _, _ =>
      let answers := match c with StoragePacket _ => [] | _ => [Acknowledged result] end in
      match result with
      | Err e => ((abandon (fst st), snd st), answers ++ [Published e], Ended)
      | _ => (st, answers, Waiting)
      end
  end.

Fixpoint worker (st : SegmentSession * list DiskCall) (commands : list StorageCommand)
    : (SegmentSession * list DiskCall) * list StorageAnswer * WorkerState :=
  match commands with
  | [] => (st, [], Waiting)
  | c :: commands =>
      let '(st, answers, state) := worker_step st c in
      match state with
      | Waiting => let '(st, more, state) := worker st commands in (st, answers ++ more, state)
      | _ => (st, answers, state)
      end
  end.

(** [StorageHandle::packet]: the queue of waiting commands, [None] once the
    worker has ended; an error is a full or closed queue. *)
Definition handle_packet (queue : option (list StorageCommand)) (packet : Packet) : option (list StorageCommand) :=
  match queue with
  | Some waiting => if len waiting <? QUEUE_CAPACITY then Some (waiting ++ [StoragePacket packet]) else None
  | None => None
  end.
End storage.

(** ** What a capture is *)

(** The calls without those that only depend on the time. *)
Definition untimed (c : DiskCall) : list DiskCall :=
  match c with
  | Flush | Metadata _ => []
  | WriteRaw name _ => if String.eqb name "ended_utc_ns" then [] else [c]
  | _ => [c]
  end.
Definition data_log (l : list DiskCall) : list DiskCall := l ≫= untimed.

Definition record_calls (r : Z * list Z) : list DiskCall :=
  [AppendFrame Values r.2; AppendFrame SampleIndex (le32 r.1)].

(** The calls of one packet. *)
Definition packet_log (record_offset : Z) (p : Packet) : list DiskCall :=
  (packet_records p ≫= record_calls) ++ packet_calls record_offset p.

Fixpoint packets_log (record_offset : Z) (packets : list Packet) : list DiskCall :=
  match packets with
  | [] => []
  | p :: packets => packet_log record_offset p ++ packets_log (record_offset + sh_n_records (pk_header p)) packets
  end.

Section capture.
Variables (broker_version : list Z) (metadata : SessionMetadata) (session_id prefix : list Z) (reason : CloseReason).

Definition opening (i off : Z) : list DiskCall :=
  creation_calls (partial_of (segment_base prefix i))
  ++ attribute_calls broker_version metadata session_id i off ++ dataset_calls metadata.

Definition closing (i : Z) (r : CloseReason) (session_complete : bool) : list DiskCall :=
  let final := segment_base prefix i in
  CloseWriter :: OpenRw (partial_of final) :: WriteRaw "close_reason" (reason_u8 r) :: WriteRaw "clean_close" 1
  :: WriteRaw "session_complete" (Z.b2z session_complete) :: CloseFile :: [Rename (partial_of final) final].

(** The rest of a capture whose segment [i] is open: the packets of each
    segment, the first of them those still to come in this one. *)
Fixpoint segments_log (i off : Z) (segments : list (list Packet)) : list DiskCall :=
  match segments with
  | [] => []
  | packets :: [] => packets_log off packets ++ closing i reason (completes_session reason)
  | packets :: segments =>
      packets_log off packets ++ closing i CloseSegmentLimit false
      ++ opening (i + 1) (off + count_records packets) ++ segments_log (i + 1) (off + count_records packets) segments
  end.

(** A whole capture. *)
Definition capture_log (segments : list (list Packet)) : list DiskCall :=
  opening 0 0 ++ segments_log 0 0 segments.
End capture.

(** ** What a reader finds *)

(** The frames of a data set, over the segments in order. *)
Definition frames (d : Dataset) (l : list DiskCall) : list (list Z) :=
  omap (fun c => match c with AppendFrame d' f => if decide (d = d') then Some f else None | _ => None end) l.

Definition read_records (l : list DiskCall) : list (Z * list Z) :=
  zip_with (fun i v => (of_le_bytes i, v)) (frames SampleIndex l) (frames Values l).

(** The records each row of the packet table stands for. *)
Definition read_packets (l : list DiskCall) : list (list (Z * list Z)) :=
  zip_with (fun off n => take (Z.to_nat (of_le_bytes n)) (drop (Z.to_nat (of_le_bytes off)) (read_records l)))
    (frames PacketRecordOffset l) (frames PacketRecordCount l).

(** The files a log makes. *)
Definition made (l : list DiskCall) : list (list Z) :=
  omap (fun c => match c with Create p => Some p | Rename _ q => Some q | _ => None end) l.

(** ** Lemmas *)

(** *** Names *)

Definition digits_value (l : list Z) : Z := fold_left (fun v d => 10 * v + (d - 48)) l 0.

Lemma digits_value_app l d : digits_value (l ++ [d]) = 10 * digits_value l + (d - 48).
Proof. unfold digits_value. by rewrite fold_left_app. Qed.

Lemma digits_spec fuel n : 0 <= n < 10 ^ Z.of_nat fuel -> digits_value (digits fuel n) = n.
Proof.
  revert n. induction fuel as [|fuel IH]; intros n Hn; [cbn in *; lia|].
  cbn [digits]. destruct (Z.ltb_spec n 10) as [|Hge]; [unfold digits_value; cbn [fold_left]; lia|].
  rewrite digits_value_app, IH; [div_lia|].
  rewrite Nat2Z.inj_succ, Z.pow_succ_r in Hn by lia. split; [apply Z.div_pos; lia|]. apply Z.div_lt_upper_bound; lia.
Qed.

Lemma padded_value n : fits 32 n -> digits_value (padded n) = n.
Proof.
  intros Hn. unfold padded. set (k := (4 - _)%nat).
  assert (H : forall l, digits_value (replicate k 48 ++ l) = digits_value l).
  { intros l. unfold digits_value. rewrite fold_left_app. f_equal. induction k as [|k IH]; [done|]. exact IH. }
  rewrite H. apply digits_spec. unfold fits in Hn. change (10 ^ Z.of_nat 10) with 10000000000. lia.
Qed.

Lemma segment_base_inj prefix i j : fits 32 i -> fits 32 j -> segment_base prefix i = segment_base prefix j -> i = j.
Proof.
  intros Hi Hj H. unfold segment_base in H. apply app_inv_head in H. apply app_inv_head in H.
  apply app_inv_tail in H. rewrite <-(padded_value i Hi), <-(padded_value j Hj). by rewrite H.
Qed.

Lemma partial_not_base prefix i j : partial_of (segment_base prefix i) <> segment_base prefix j.
Proof.
  intros H. apply (f_equal last) in H. unfold partial_of, segment_base in H.
  rewrite !app_assoc, !last_app in H. vm_compute in H. done.
Qed.

Lemma partial_of_inj a b : partial_of a = partial_of b -> a = b.
Proof. apply app_inv_tail. Qed.

(** *** Logs *)

Lemma data_log_app l1 l2 : data_log (l1 ++ l2) = data_log l1 ++ data_log l2.
Proof. apply bind_app. Qed.

Lemma made_app l1 l2 : made (l1 ++ l2) = made l1 ++ made l2.
Proof. apply omap_app. Qed.

Lemma frames_app d l1 l2 : frames d (l1 ++ l2) = frames d l1 ++ frames d l2.
Proof. apply omap_app. Qed.

Lemma data_log_records rs : data_log (rs ≫= record_calls) = rs ≫= record_calls.
Proof. induction rs as [|r rs IH]; [done|]. rewrite bind_cons, data_log_app, IH. done. Qed.

Lemma made_records rs : made (rs ≫= record_calls) = [].
Proof. induction rs as [|r rs IH]; [done|]. by rewrite bind_cons, made_app, IH. Qed.

Lemma packets_log_app off ps qs :
  packets_log off (ps ++ qs) = packets_log off ps ++ packets_log (off + count_records ps) qs.
Proof.
  revert off. induction ps as [|p ps IH]; intros off; cbn [packets_log app count_records foldr]; [by rewrite Z.add_0_r|].
  rewrite IH, <-app_assoc. do 3 f_equal. unfold count_records. lia.
Qed.

Lemma rows_lookup w n l k : (k < n)%nat -> rows w n l !! k = Some (take w (drop (k * w) l)).
Proof.
  revert l k. induction n as [|n IH]; intros l k Hk; [lia|]. destruct k as [|k]; [done|].
  cbn [rows lookup list_lookup]. change (rows w n (drop w l) !! k = Some (take w (drop (S k * w) l))).
  rewrite IH by lia. by rewrite drop_drop.
Qed.

Lemma packet_record_at p k : packet_ok p -> 0 <= k < sh_n_records (pk_header p) ->
  let w := 4 * sh_n_sources (pk_header p) in
  exists row, slice (pk_wire p) (STREAM_HEADER_LEN + k * w) (STREAM_HEADER_LEN + k * w + w) = Some row
    /\ packet_records p !! Z.to_nat k
       = Some (wrapping_add 32 (sh_first_index (pk_header p)) (k * sh_decimation (pk_header p)), row).
Proof.
  intros [_ _ Hs _ Hl] Hk w. subst w. change STREAM_HEADER_LEN with 20 in *.
  rewrite slice_ok by nia. eexists. split; [reflexivity|].
  unfold packet_records. rewrite list_lookup_imap, rows_lookup by lia. cbn [fmap option_fmap option_map].
  rewrite drop_drop. unfold row_index. rewrite Z2Nat.id by lia. do 3 f_equal; [lia|]. f_equal. nia.
Qed.

Lemma io_bind_ok {A B} (m : io A) (f : A -> io B) st st' a r :
  m st = (st', Ok a) -> f a st' = r -> (x ← m; f x) st = r.
Proof. unfold mbind, io_bind. intros ->. done. Qed.

Ltac io_step t := eapply io_bind_ok; [t|cbv beta; cbn [fst]].

(** *** A disk that takes every call *)

Section reliable.
Variable disk : Disk.
Hypothesis Hfails : forall l, dk_fails disk l = false.
(** A file exists only if the worker made it. *)
Hypothesis Hexists : forall l p, dk_exists disk l p = true -> p ∈ made l.

Lemma call_ok c s l : call disk c (s, l) = ((s, l ++ [c]), Ok ()).
Proof. unfold call. by rewrite Hfails. Qed.

Lemma calls_ok cs s l : calls disk cs (s, l) = ((s, l ++ cs), Ok ()).
Proof.
  revert l. induction cs as [|c cs IH]; intros l; cbn [calls]; [by rewrite app_nil_r|].
  unfold mbind, io_bind. rewrite call_ok. cbn [and_then]. rewrite IH. by rewrite <-app_assoc.
Qed.

Variables (metadata : SessionMetadata) (session_id prefix : list Z).

(** Segment [i] is open, after [off] records. *)
Record open_at (s : SegmentSession) (i off : Z) : Prop := {
  oa_metadata : se_metadata s = Some metadata;
  oa_session_id : se_session_id s = Some session_id;
  oa_prefix : se_prefix s = prefix;
  oa_index : se_segment_index s = i;
  oa_offset : se_record_offset s = off;
  oa_segment : exists t, se_segment s
    = Some {| sg_partial := partial_of (segment_base prefix i); sg_final := segment_base prefix i; sg_last_flush := t |} }.

(** The names of the segments from [i] on are unused; from [i] on but for the
    open file of [i]. *)
Definition made_before (i : Z) (l : list DiskCall) : Prop :=
  forall j, i <= j -> fits 32 j -> (segment_base prefix j ∉ made l) /\ (partial_of (segment_base prefix j) ∉ made l).
Definition made_upto (i : Z) (l : list DiskCall) : Prop :=
  forall j, i <= j -> fits 32 j -> (segment_base prefix j ∉ made l) /\ (i < j -> partial_of (segment_base prefix j) ∉ made l).

Lemma fresh_names i l : fits 32 i -> made_before i l ->
  dk_exists disk l (partial_of (segment_base prefix i)) || dk_exists disk l (segment_base prefix i) = false.
Proof.
  intros Hi Hl. destruct (Hl i ltac:(lia) Hi) as [H1 H2].
  apply orb_false_iff. split; apply not_true_is_false; intros H; by apply Hexists in H.
Qed.

Lemma data_log_opening i off : data_log (opening (dk_broker_version disk) metadata session_id prefix i off)
  = opening (dk_broker_version disk) metadata session_id prefix i off.
Proof. done. Qed.

Lemma made_opening i off : made (opening (dk_broker_version disk) metadata session_id prefix i off)
  = [partial_of (segment_base prefix i)].
Proof. done. Qed.

Lemma made_upto_app i l l' : made_upto i l -> made l' = [] -> made_upto i (l ++ l').
Proof. intros Hl Hm j. rewrite made_app, Hm, app_nil_r. apply Hl. Qed.

Lemma made_upto_closing i l l' : fits 32 i -> made_upto i l -> made l' = [segment_base prefix i] -> made_before (i + 1) (l ++ l').
Proof.
  intros Hi Hl Hm j Hj Hfj. rewrite made_app, Hm. destruct (Hl j ltac:(lia) Hfj) as [H1 H2]. specialize (H2 ltac:(lia)).
  split; intros H; apply elem_of_app in H as [H|H%list_elem_of_singleton]; try done.
  - apply segment_base_inj in H; [lia|done..].
  - by apply partial_not_base in H.
Qed.

Lemma made_upto_opening i l l' : fits 32 i -> made_before i l -> made l' = [partial_of (segment_base prefix i)] -> made_upto i (l ++ l').
Proof.
  intros Hi Hl Hm j Hj Hfj. rewrite made_app, Hm. destruct (Hl j Hj Hfj) as [H1 H2].
  split; [intros H|intros Hlt H]; apply elem_of_app in H as [H|H%list_elem_of_singleton]; try done.
  - symmetry in H. by apply partial_not_base in H.
  - apply partial_of_inj, segment_base_inj in H; [lia|done..].
Qed.

Lemma open_segment_ok s l i off :
  se_metadata s = Some metadata -> se_session_id s = Some session_id -> se_prefix s = prefix ->
  se_segment_index s = i -> se_record_offset s = off -> fits 32 i -> made_before i l ->
  exists s', open_segment disk (s, l)
      = ((s', l ++ opening (dk_broker_version disk) metadata session_id prefix i off), Ok ())
    /\ open_at s' i off.
Proof.
  intros Hm Hsid Hp Hi Ho Hfi Hb. unfold open_segment, mbind, io_bind, get_session, raise, ask, put_session.
  cbn [and_then fst]. rewrite Hm. cbn [ok_or and_then]. rewrite Hp, Hi, fresh_names by done.
  cbn [guard_err and_then]. rewrite calls_ok. cbn [and_then]. rewrite Hsid. cbn [ok_or and_then].
  rewrite calls_ok. cbn [and_then]. rewrite calls_ok. cbn [and_then]. eexists. split.
  - rewrite Ho, <-!app_assoc. reflexivity.
  - split; [done..|]. by eexists.
Qed.

Lemma close_segment_ok s l i off reason complete :
  open_at s i off ->
  exists l', close_segment disk reason complete (s, l) = ((s <| se_segment := None |>, l ++ l'), Ok ())
    /\ data_log l' = closing prefix i reason complete /\ made l' = [segment_base prefix i].
Proof.
  intros [_ _ _ _ _ [t Hs]]. unfold close_segment, mbind, io_bind, get_session, raise, ask, put_session.
  cbn [and_then fst]. rewrite Hs. cbn [ok_or and_then]. rewrite call_ok. cbn [and_then]. rewrite call_ok. cbn [and_then sg_partial sg_final].
  rewrite calls_ok. cbn [and_then]. rewrite call_ok. eexists. split; [by rewrite <-!app_assoc|]. split; reflexivity.
Qed.

Lemma rotate_ok s l i off :
  open_at s i off -> 0 <= i < umax 32 -> made_upto i l ->
  exists s' l', rotate disk (s, l) = ((s', l ++ l'), Ok ())
    /\ data_log l' = closing prefix i CloseSegmentLimit false
                     ++ opening (dk_broker_version disk) metadata session_id prefix (i + 1) off
    /\ open_at s' (i + 1) off /\ made_upto (i + 1) (l ++ l').
Proof.
  intros Ho Hi Hb. destruct (close_segment_ok s l i off CloseSegmentLimit false Ho) as (lc & Ec & Hd & Hm).
  unfold rotate, mbind, io_bind, get_session, raise, put_session. rewrite Ec. cbn [and_then fst].
  destruct Ho as [Hmd Hsid Hp Hidx Hoff _].
  change (se_segment_index (s <| se_segment := None |>)) with (se_segment_index s).
  rewrite Hidx, (proj2 (Z.ltb_lt i (umax 32))) by lia. cbn [assert_that and_then].
  assert (Hb' : made_before (i + 1) (l ++ lc)) by (apply made_upto_closing; [unfold fits, umax in *; lia|done..]).
  destruct (open_segment_ok (s <| se_segment := None |> <| se_segment_index := i + 1 |>) (l ++ lc) (i + 1) off)
    as (s' & Eo & Ho'); [done..|unfold fits, umax in *; lia|done|].
  exists s', (lc ++ opening (dk_broker_version disk) metadata session_id prefix (i + 1) off).
  split; [rewrite (app_assoc l); exact Eo|].
  split; [by rewrite data_log_app, Hd|]. split; [done|]. rewrite app_assoc. apply made_upto_opening; [unfold fits, umax in *; lia|done..].
Qed.

(** The rows of a packet from row [k] on. *)
Lemma append_rows_ok p n k s l :
  packet_ok p -> 0 <= k -> k + Z.of_nat n = sh_n_records (pk_header p) ->
  for_each (fun row _ => append_row disk p (4 * sh_n_sources (pk_header p)) row) (seqZ k (Z.of_nat n)) () (s, l)
  = ((s, l ++ (drop (Z.to_nat k) (packet_records p) ≫= record_calls)), Ok ()).
Proof.
  intros Hp. revert k l. induction n as [|n IH]; intros k l Hk Hn.
  - rewrite seqZ_nil by lia. rewrite drop_ge; [by rewrite app_nil_r|].
    pose proof (length_packet_records p Hp) as Hl. unfold len in Hl. lia.
  - rewrite seqZ_cons by lia. cbn [for_each]. destruct (packet_record_at p k Hp) as (row & Hs & Hr); [lia|].
    assert (Hrow : append_row disk p (4 * sh_n_sources (pk_header p)) k (s, l)
      = ((s, l ++ record_calls (wrapping_add 32 (sh_first_index (pk_header p)) (k * sh_decimation (pk_header p)), row)), Ok ())).
    { destruct (StreamHeader_decode_inv _ _ (po_bytes p Hp) (po_header p Hp)) as [[_ _ _ _ Hd Hnr] _].
      unfold fits in Hd, Hnr. unfold append_row, mbind, io_bind, raise. rewrite Hs. cbn [or_panic and_then].
      rewrite call_ok. cbn [and_then]. rewrite wrap_id by (unfold fits; lia).
      rewrite (proj2 (Z.leb_le _ _)) by (unfold umax; nia). cbn [assert_that and_then].
      rewrite call_ok. by rewrite <-app_assoc. }
    unfold mbind, io_bind at 1. rewrite Hrow. cbn [and_then].
    replace (Z.succ k) with (k + 1) by lia. replace (Z.pred (Z.of_nat (S n))) with (Z.of_nat n) by lia.
    etransitivity; [apply (IH (k + 1)); lia|].
    rewrite (drop_S _ _ _ Hr), bind_cons, <-app_assoc. by replace (Z.to_nat (k + 1)) with (S (Z.to_nat k)) by lia.
Qed.

(** The rows and the packet's own frames, before the tail. *)
Lemma append_frames_ok s l i off t p :
  open_at s i off -> packet_ok p -> sh_n_sources (pk_header p) = len (sm_sources metadata) ->
  se_segment s = Some {| sg_partial := partial_of (segment_base prefix i); sg_final := segment_base prefix i; sg_last_flush := t |} ->
  append disk p (s, l)
  = append_tail disk p {| sg_partial := partial_of (segment_base prefix i); sg_final := segment_base prefix i; sg_last_flush := t |}
      (s, l ++ packet_log off p).
Proof.
  intros Ho Hp Hn Hs. pose proof Ho as [Hmd _ _ _ Ho' _]. pose proof (po_records p Hp) as Hnr.
  pose proof (append_rows_ok p (Z.to_nat (sh_n_records (pk_header p))) 0 s l Hp) as Hrows.
  rewrite Z2Nat.id, drop_0 in Hrows by lia. specialize (Hrows ltac:(lia) ltac:(lia)).
  unfold append. io_step ltac:(reflexivity). io_step ltac:(unfold raise; rewrite Hmd; reflexivity).
  io_step ltac:(unfold raise; rewrite Hs; reflexivity). io_step ltac:(unfold raise; rewrite Hn, Z.eqb_refl; reflexivity).
  rewrite <-Hn. io_step ltac:(exact Hrows). rewrite Ho'. io_step ltac:(apply calls_ok).
  unfold packet_log. by rewrite <-app_assoc.
Qed.

Lemma append_ok s l i off p :
  open_at s i off -> 0 <= i < umax 32 -> made_upto i l -> packet_ok p ->
  sh_n_sources (pk_header p) = len (sm_sources metadata) -> off + sh_n_records (pk_header p) <= umax 64 ->
  exists s' l' (rotated : bool), append disk p (s, l) = ((s', l ++ l'), Ok ())
    /\ data_log l' = packet_log off p
         ++ (if rotated then closing prefix i CloseSegmentLimit false
               ++ opening (dk_broker_version disk) metadata session_id prefix (i + 1) (off + sh_n_records (pk_header p)) else [])
    /\ let i' := if rotated then i + 1 else i in
       open_at s' i' (off + sh_n_records (pk_header p)) /\ made_upto i' (l ++ l').
Proof.
  intros Ho Hi Hb Hp Hn Hoff. pose proof Ho as [Hmd Hsid Hpr Hidx Ho' [t Hs]].
  rewrite (append_frames_ok s l i off t p) by done.
  unfold append_tail, mbind, io_bind, get_session, raise, put_session, ask. cbn [and_then fst].
  rewrite Ho', (proj2 (Z.leb_le _ _)) by done. cbn [assert_that and_then].
  assert (Hd1 : data_log (packet_log off p) = packet_log off p) by (unfold packet_log; by rewrite data_log_app, data_log_records).
  assert (Hm1 : made (packet_log off p) = []) by (unfold packet_log; by rewrite made_app, made_records).
  assert (Ho1 : forall sg', (exists t, sg' = Some {| sg_partial := partial_of (segment_base prefix i);
      sg_final := segment_base prefix i; sg_last_flush := t |}) ->
    open_at (s <| se_record_offset := off + sh_n_records (pk_header p) |> <| se_segment := sg' |>) i (off + sh_n_records (pk_header p)))
    by (intros sg' Hsg; by split).
  destruct (_ <=? _).
  2:{ exists (s <| se_record_offset := off + sh_n_records (pk_header p) |>), (packet_log off p), false.
      split; [done|]. split; [by rewrite app_nil_r|]. split; [|by apply made_upto_app].
      split; try done. by exists t. }
  rewrite call_ok. cbn [and_then]. rewrite call_ok. cbn [and_then sg_partial].
  set (s2 := _ <| se_segment := _ |>). set (l2 := (_ ++ [Flush]) ++ _).
  assert (Hl2 : l2 = l ++ packet_log off p ++ [Flush; Metadata (partial_of (segment_base prefix i))])
    by (unfold l2; by rewrite <-!app_assoc).
  assert (Ho2 : open_at s2 i (off + sh_n_records (pk_header p))) by (apply Ho1; by eexists).
  assert (Hd2 : data_log (packet_log off p ++ [Flush; Metadata (partial_of (segment_base prefix i))]) = packet_log off p)
    by (rewrite data_log_app, Hd1; apply app_nil_r).
  assert (Hb2 : made_upto i l2) by (rewrite Hl2; apply made_upto_app; [done|by rewrite made_app, Hm1]).
  clearbody s2. destruct (se_segment_size _ <=? _).
  - destruct (rotate_ok s2 l2 i _ Ho2 Hi Hb2) as (s' & l' & E & Hd & Ho3 & Hb3).
    exists s', (packet_log off p ++ [Flush; Metadata (partial_of (segment_base prefix i))] ++ l'), true.
    rewrite Hl2 in E, Hb3. split; [rewrite Hl2; etransitivity; [exact E|by rewrite <-!app_assoc]|].
    split; [by rewrite app_assoc, data_log_app, Hd2, Hd|]. split; [done|]. by rewrite <-!app_assoc in Hb3.
  - exists s2, (packet_log off p ++ [Flush; Metadata (partial_of (segment_base prefix i))]), false.
    split; [by rewrite Hl2|]. split; [by rewrite Hd2, app_nil_r|]. split; [done|]. by rewrite <-Hl2.
Qed.
Lemma stop_ok s l i off reason :
  open_at s i off ->
  exists s' l', stop disk reason (s, l) = ((s', l ++ l'), Ok ())
    /\ data_log l' = closing prefix i reason (completes_session reason) /\ se_segment s' = None.
Proof.
  intros Ho. destruct (close_segment_ok s l i off reason (completes_session reason) Ho) as (lc & Ec & Hd & _).
  destruct Ho as [_ _ _ _ _ [t Hs]]. eexists _, lc. split; [|split; [exact Hd|]].
  - unfold stop. io_step ltac:(reflexivity). rewrite Hs. cbn [bool_decide]. rewrite bool_decide_eq_true_2 by done.
    io_step ltac:(exact Ec). reflexivity.
  - done.
Qed.

(** Packets, then a stop, from an open segment. *)
Lemma worker_packets ps reason s l i off :
  open_at s i off -> 0 <= i -> made_upto i l ->
  Forall (fun p => packet_ok p /\ sh_n_sources (pk_header p) = len (sm_sources metadata)) ps ->
  i + len ps <= umax 32 -> off + count_records ps <= umax 64 ->
  exists s' l' segments,
    worker disk (s, l) ((StoragePacket <$> ps) ++ [StorageStop reason]) = ((s', l ++ l'), [Acknowledged (Ok ())], Waiting)
    /\ concat segments = ps /\ segments <> [] /\ se_segment s' = None
    /\ data_log l' = segments_log (dk_broker_version disk) metadata session_id prefix reason i off segments.
Proof.
  revert s l i off. induction ps as [|p ps IH]; intros s l i off Ho Hi Hb Hps Hlen Hoff.
  - destruct (stop_ok s l i off reason Ho) as (s' & l' & E & Hd & Hs). exists s', l', [[]].
    cbn [fmap list_fmap app worker]. unfold worker_step. cbn [run_command]. rewrite E. cbn [app].
    split; [done|]. split; [done|]. split; [done|]. split; [done|]. exact Hd.
  - apply Forall_cons in Hps as [[Hp Hn] Hps]. rewrite len_cons in Hlen. pose proof (len_nonneg ps).
    change (count_records (p :: ps)) with (sh_n_records (pk_header p) + count_records ps) in Hoff.
    assert (Hc : 0 <= count_records ps).
    { apply count_records_nonneg. eapply Forall_impl; [exact Hps|]. by intros x []. }
    destruct (append_ok s l i off p Ho) as (s1 & l1 & rotated & E & Hd & Ho1 & Hb1); [lia|done..|lia|].
    destruct (IH s1 (l ++ l1) (if rotated then i + 1 else i) (off + sh_n_records (pk_header p)) Ho1) as
      (s' & l' & segments & Ew & Hcat & Hne & Hs' & Hd'); [destruct rotated; lia|done|done|destruct rotated; lia|lia|].
    destruct segments as [|seg rest]; [done|].
    exists s', (l1 ++ l'), (if rotated then [p] :: seg :: rest else (p :: seg) :: rest). split.
    { cbn [fmap list_fmap app worker]. unfold worker_step. cbn [run_command]. rewrite E.
      change (list_fmap _ _ StoragePacket ps) with (StoragePacket <$> ps). rewrite Ew, <-app_assoc. done. }
    split; [by destruct rotated; cbn [concat app] in *; rewrite Hcat|]. split; [by destruct rotated|]. split; [done|].
    rewrite data_log_app, Hd, Hd'. destruct rotated.
    + cbn [segments_log packets_log]. rewrite app_nil_r, <-!app_assoc.
      by replace (count_records [p]) with (sh_n_records (pk_header p)) by (unfold count_records; cbn [foldr]; lia).
    + rewrite app_nil_r. cbn [segments_log packets_log].
      replace (off + count_records (p :: seg)) with (off + sh_n_records (pk_header p) + count_records seg)
        by (unfold count_records; cbn [foldr]; lia).
      by destruct rest; rewrite <-app_assoc.
Qed.
End reliable.

(** *** Reading back *)

Lemma frames_data_log d l : frames d (data_log l) = frames d l.
Proof.
  induction l as [|c l IH]; [done|]. unfold data_log. rewrite bind_cons, frames_app. fold (data_log l). rewrite IH.
  change (frames d (c :: l)) with (frames d ([c] ++ l)). rewrite frames_app. f_equal.
  destruct c; try done. cbn [untimed]. by destruct (String.eqb _ _).
Qed.

Lemma frames_segments_log d bv md sid prefix reason i off segments :
  frames d (segments_log bv md sid prefix reason i off segments) = frames d (packets_log off (concat segments)).
Proof.
  revert i off. induction segments as [|seg segments IH]; intros i off; [done|].
  destruct segments as [|seg2 segments].
  - cbn [segments_log concat]. rewrite frames_app. change (frames d (closing _ _ _ _)) with (@nil (list Z)).
    by rewrite !app_nil_r.
  - change (segments_log bv md sid prefix reason i off (seg :: seg2 :: segments)) with
      (packets_log off seg ++ closing prefix i CloseSegmentLimit false
       ++ opening bv md sid prefix (i + 1) (off + count_records seg)
       ++ segments_log bv md sid prefix reason (i + 1) (off + count_records seg) (seg2 :: segments)).
    change (concat (seg :: seg2 :: segments)) with (seg ++ concat (seg2 :: segments)).
    rewrite packets_log_app, !frames_app, IH. done.
Qed.

Fixpoint packet_offsets (off : Z) (ps : list Packet) : list Z :=
  match ps with [] => [] | p :: ps => off :: packet_offsets (off + sh_n_records (pk_header p)) ps end.

Lemma frames_records d rs :
  frames d (rs ≫= record_calls)
  = match d with Values => rs.*2 | SampleIndex => (fun r => le32 r.1) <$> rs | _ => [] end.
Proof.
  induction rs as [|r rs IH]; [by destruct d|]. rewrite bind_cons, frames_app, IH. by destruct d.
Qed.

Lemma frames_packets_log d off ps :
  frames d (packets_log off ps)
  = match d with
    | Values => (record_stream ps).*2
    | SampleIndex => (fun r => le32 r.1) <$> record_stream ps
    | PacketSequence => (fun p => le32 (sh_seq (pk_header p))) <$> ps
    | PacketFirstIndex => (fun p => le32 (sh_first_index (pk_header p))) <$> ps
    | PacketDropped => (fun p => le32 (sh_dropped (pk_header p))) <$> ps
    | PacketRecordOffset => le_bytes 8 <$> packet_offsets off ps
    | PacketRecordCount => (fun p => le16 (sh_n_records (pk_header p))) <$> ps
    | PacketReceived => (fun p => le_bytes 8 (pk_received_utc_ns p)) <$> ps
    end.
Proof.
  revert off. induction ps as [|p ps IH]; intros off; [by destruct d|].
  cbn [packets_log]. unfold packet_log. rewrite !frames_app, IH, frames_records, <-app_assoc.
  destruct d; try done; unfold record_stream; rewrite bind_cons, fmap_app; done.
Qed.

Lemma read_records_spec l off ps :
  (forall d, frames d l = frames d (packets_log off ps)) -> read_records l = record_stream ps.
Proof.
  intros Hf. unfold read_records. rewrite !Hf, !frames_packets_log.
  assert (H : Forall (fun r : Z * list Z => fits 32 r.1) (record_stream ps)).
  { unfold record_stream. apply Forall_bind, Forall_true. intros p. unfold packet_records.
    apply Forall_lookup. intros k r Hr. rewrite list_lookup_imap in Hr.
    destruct (rows _ _ _ !! k); [|done]. apply (inj Some) in Hr as <-. by apply wrap_fits. }
  induction H as [|[i v] rs Hi _ IH]; [done|]. cbn [fmap list_fmap zip_with fst snd]. f_equal; [|exact IH].
  f_equal. unfold le32. rewrite of_le_le_bytes. cbn [fst] in Hi. by apply Z.mod_small.
Qed.

Lemma read_packets_spec l off pre ps :
  (forall d, frames d l = frames d (packets_log 0 (pre ++ ps))) -> Forall packet_ok (pre ++ ps) ->
  off = count_records pre -> count_records (pre ++ ps) <= umax 64 ->
  zip_with (fun o n => take (Z.to_nat (of_le_bytes n)) (drop (Z.to_nat (of_le_bytes o)) (read_records l)))
    (le_bytes 8 <$> packet_offsets off ps) ((fun p => le16 (sh_n_records (pk_header p))) <$> ps)
  = packet_records <$> ps.
Proof.
  intros Hf. rewrite (read_records_spec l 0 (pre ++ ps) Hf). clear Hf. revert off pre.
  induction ps as [|p ps IH]; intros off pre Hok -> Hc; [done|]. cbn [packet_offsets fmap list_fmap zip_with].
  assert (Ha : pre ++ p :: ps = (pre ++ [p]) ++ ps) by (by rewrite <-app_assoc).
  f_equal.
  - pose proof Hok as [Hpre Hp]%Forall_app. apply Forall_cons in Hp as [Hp Hps].
    destruct (StreamHeader_decode_inv _ _ (po_bytes p Hp) (po_header p Hp)) as [[_ _ _ _ _ Hn] _].
    pose proof (count_records_nonneg _ Hpre). pose proof (count_records_nonneg _ Hps). pose proof (po_records p Hp).
    rewrite count_records_app in Hc. change (count_records (p :: ps)) with (sh_n_records (pk_header p) + count_records ps) in Hc.
    unfold le16. rewrite !of_le_le_bytes. unfold fits, umax in *.
    rewrite !Z.mod_small by (change (256 ^ Z.of_nat 2) with (2 ^ 16); change (256 ^ Z.of_nat 8) with (2 ^ 64); lia).
    unfold record_stream. rewrite bind_app, bind_cons. fold (record_stream pre) (record_stream ps).
    rewrite drop_app_length' by (pose proof (len_record_stream _ Hpre) as Hl; unfold len in Hl; lia).
    apply take_app_length'. pose proof (length_packet_records _ Hp) as Hl. unfold len in Hl. lia.
  - etransitivity; [|apply (IH (count_records (pre ++ [p])) (pre ++ [p]))].
    + rewrite Ha, count_records_app.
      by replace (count_records [p]) with (sh_n_records (pk_header p)) by (unfold count_records; cbn [foldr]; lia).
    + by rewrite <-Ha.
    + done.
    + by rewrite <-Ha.
Qed.

(** *** Any disk *)

Section any_disk.
Variable disk : Disk.

(** A file gets its final name only after it was closed and marked as cleanly
    closed; a file is created only when neither it nor its final name exists. *)
Definition call_sound (before : list DiskCall) (c : DiskCall) : Prop :=
  match c with
  | Rename p q => p = partial_of q
      /\ exists l ended reason complete, before = l ++ CloseWriter :: finalise_calls p ended reason complete
  | Create p => exists base, p = partial_of base /\ dk_exists disk before p = false /\ dk_exists disk before base = false
  | _ => True
  end.

Definition every_call (P : list DiskCall -> DiskCall -> list DiskCall -> Prop) (l : list DiskCall) : Prop :=
  forall l1 c l2, l = l1 ++ c :: l2 -> P l1 c l2.

Definition sound (l : list DiskCall) : Prop := every_call (fun l1 c _ => call_sound l1 c) l.
(** No call has failed; none but perhaps the last. *)
Definition none_failed (l : list DiskCall) : Prop := every_call (fun l1 c _ => dk_fails disk (l1 ++ [c]) = false) l.
Definition only_last_failed (l : list DiskCall) : Prop :=
  every_call (fun l1 c l2 => l2 <> [] -> dk_fails disk (l1 ++ [c]) = false) l.

Lemma app_snoc_cases (l : list DiskCall) c l1 c' l2 :
  l ++ [c] = l1 ++ c' :: l2 ->
  (l1 = l /\ c' = c /\ l2 = []) \/ exists l3, l2 = l3 ++ [c] /\ l = l1 ++ c' :: l3.
Proof.
  intros E. destruct l2 as [|x l2 _] using rev_ind.
  - left. apply app_inj_tail in E as [-> ->]. done.
  - right. exists l2. rewrite app_comm_cons, app_assoc in E. by apply app_inj_tail in E as [-> ->].
Qed.

Lemma every_call_snoc (P : list DiskCall -> DiskCall -> list DiskCall -> Prop) l c :
  (forall l1 c l2 l2', P l1 c l2 -> P l1 c l2') -> every_call P l -> P l c [] -> every_call P (l ++ [c]).
Proof.
  intros Hext Hl Hc l1 c' l2 E. destruct (app_snoc_cases l c l1 c' l2 E) as [(-> & -> & ->)|(l3 & -> & ->)]; [done|].
  eapply Hext. by eapply Hl.
Qed.

Lemma sound_snoc l c : sound l -> call_sound l c -> sound (l ++ [c]).
Proof. intros. by apply every_call_snoc. Qed.

Lemma none_failed_snoc l c : none_failed l -> dk_fails disk (l ++ [c]) = false -> none_failed (l ++ [c]).
Proof. intros. by apply every_call_snoc. Qed.

Lemma none_only_last l : none_failed l -> only_last_failed l.
Proof. intros Hl l1 c l2 E _. by eapply Hl. Qed.

Lemma only_last_snoc l c : none_failed l -> only_last_failed (l ++ [c]).
Proof.
  intros Hl l1 c' l2 E Hne. destruct (app_snoc_cases l c l1 c' l2 E) as [(-> & -> & ->)|(l3 & -> & ->)]; [done|].
  by eapply Hl.
Qed.

(** The open segment has the names of one file. *)
Definition names_ok (s : SegmentSession) : Prop :=
  match se_segment s with Some sg => sg_partial sg = partial_of (sg_final sg) | None => True end.

(** A method that makes no call after a failure, and each only when it may. *)
Definition careful {A} (m : io A) (s : SegmentSession) (l : list DiskCall) : Prop :=
  names_ok s -> sound l -> none_failed l ->
  match m (s, l) with
  | ((s', l'), Ok _) => names_ok s' /\ sound l' /\ none_failed l'
  | ((_, l'), _) => sound l' /\ only_last_failed l'
  end.

Lemma careful_bind {A B} (m : io A) (f : A -> io B) s l :
  careful m s l -> (forall a s' l', m (s, l) = ((s', l'), Ok a) -> careful (f a) s' l') -> careful (x ← m; f x) s l.
Proof.
  intros Hm Hf Hk Hs Hn. specialize (Hm Hk Hs Hn). unfold mbind, io_bind.
  destruct (m (s, l)) as [[s' l'] [a|e|]]; cbn [and_then]; [|done|done]. destruct Hm as (? & ? & ?). by apply Hf.
Qed.

Lemma careful_ret {A} (a : A) s l : careful (mret a) s l.
Proof. by intros Hk Hs Hn. Qed.

Lemma careful_raise {A} (r : outcome StorageError A) s l : careful (raise r) s l.
Proof. intros Hk Hs Hn. unfold raise. destruct r; [done|split; [done|by apply none_only_last]..]. Qed.

Lemma careful_get s l : careful get_session s l.
Proof. by intros Hk Hs Hn. Qed.
Lemma careful_put f s l : (names_ok s -> names_ok (f s)) -> careful (put_session f) s l.
Proof. intros Hf Hk Hs Hn. split; [by apply Hf|done]. Qed.
Lemma careful_ask {A} (f : list DiskCall -> A) s l : careful (ask f) s l.
Proof. by intros Hk Hs Hn. Qed.

Lemma careful_call c s l : call_sound l c -> careful (call disk c) s l.
Proof.
  intros Hc Hk Hs Hn. unfold call. pose proof (sound_snoc l c Hs Hc) as H'. destruct (dk_fails disk (l ++ [c])) eqn:E.
  - split; [done|by apply only_last_snoc].
  - split; [done|]. split; [done|by apply none_failed_snoc].
Qed.

Definition plain (c : DiskCall) : Prop := match c with Rename _ _ | Create _ => False | _ => True end.

Lemma careful_calls cs s l : Forall plain cs -> careful (calls disk cs) s l.
Proof.
  intros Hc. revert s l. induction Hc as [|c cs Hc _ IH]; intros s l; cbn [calls]; [apply careful_ret|].
  apply careful_bind; [apply careful_call; by destruct c|]. intros. apply IH.
Qed.

Lemma call_result c s l s' l' a : call disk c (s, l) = ((s', l'), Ok a) -> s' = s /\ l' = l ++ [c].
Proof. unfold call. by destruct (dk_fails _ _); intros [= <- <- <-]. Qed.

Lemma calls_result cs s l s' l' a : calls disk cs (s, l) = ((s', l'), Ok a) -> s' = s /\ l' = l ++ cs.
Proof.
  revert s l. induction cs as [|c cs IH]; intros s l; cbn [calls].
  - intros [= <- <- <-]. by rewrite app_nil_r.
  - unfold mbind, io_bind. destruct (call disk c (s, l)) as [[s1 l1] [b|e|]] eqn:E; cbn [and_then]; [|done|done].
    apply call_result in E as [-> ->]. intros H. apply IH in H as [-> ->]. by rewrite <-app_assoc.
Qed.

Ltac careful_step :=
  first [apply careful_ret | apply careful_raise | apply careful_get | apply careful_put; done | apply careful_ask
        | apply careful_call; exact I | apply careful_calls; repeat constructor ].

Lemma careful_create base s l rest :
  dk_exists disk l (partial_of base) || dk_exists disk l base = false -> Forall plain rest ->
  careful (calls disk (Create (partial_of base) :: rest)) s l.
Proof.
  intros [H1 H2]%orb_false_iff Hr. cbn [calls]. apply careful_bind.
  - apply careful_call. by exists base.
  - intros. by apply careful_calls.
Qed.

Lemma careful_open s l : careful (open_segment disk) s l.
Proof.
  unfold open_segment. apply careful_bind; [careful_step|]. intros s0 s1 l1 E. injection E as <- <- <-. cbn [fst].
  apply careful_bind; [careful_step|]. intros md s1 l1 E. assert (s1 = s /\ l1 = l) as [-> ->] by (unfold raise in E; split; congruence). clear E.
  apply careful_bind; [careful_step|]. intros b s1 l1 E. injection E as <- <- <-.
  apply careful_bind; [careful_step|]. intros u s1 l1 E.
  unfold raise, guard_err in E. destruct (_ || _) eqn:Ex; [done|]. assert (s1 = s /\ l1 = l) as [-> ->] by (split; congruence). clear E.
  apply careful_bind; [apply careful_create; [done|by repeat constructor]|]. intros.
  apply careful_bind; [careful_step|]. intros. apply careful_bind; [careful_step|]. intros.
  apply careful_bind; [careful_step|]. intros. apply careful_bind; [careful_step|]. intros. careful_step.
Qed.

Lemma careful_close reason complete s l : careful (close_segment disk reason complete) s l.
Proof.
  intros Hok. revert Hok. unfold close_segment. intros Hok. cut (careful (close_segment disk reason complete) s l); [intros H; by apply H|].
  unfold close_segment. apply careful_bind; [careful_step|]. intros s0 s1 l1 E. injection E as <- <- <-. cbn [fst].
  apply careful_bind; [careful_step|]. intros sg s1 l1 E. unfold raise in E. unfold names_ok in Hok.
  destruct (se_segment s) as [sg'|]; [|done]. cbn [ok_or] in E. assert (s1 = s /\ l1 = l /\ sg' = sg) as (-> & -> & ->) by (split_and!; congruence). clear E.
  apply careful_bind; [careful_step|]. intros u s1 l1 E. assert (l1 = l) as -> by (unfold put_session in E; congruence). clear E.
  apply careful_bind; [careful_step|]. intros u1 s2 l1 E. apply call_result in E as [-> ->].
  apply careful_bind; [careful_step|]. intros u2 s2 l1 E. apply call_result in E as [-> ->].
  apply careful_bind; [careful_step|]. intros ended s2 l1 E. unfold ask in E.
  assert (s2 = s1 /\ l1 = (l ++ [CloseWriter]) ++ [OpenRw (sg_partial sg)]) as [-> ->] by (split; congruence). clear E.
  apply careful_bind; [careful_step|]. intros u3 s2 l1 E. apply calls_result in E as [-> ->].
  apply careful_call. split; [done|]. exists l, ended, reason, complete. by rewrite <-!app_assoc.
Qed.
Lemma careful_rotate s l : careful (rotate disk) s l.
Proof.
  unfold rotate. apply careful_bind; [apply careful_close|]. intros. apply careful_bind; [careful_step|]. intros.
  apply careful_bind; [careful_step|]. intros. apply careful_bind; [careful_step|]. intros. apply careful_open.
Qed.

Lemma careful_rows p row_bytes n k s l :
  careful (for_each (fun row _ => append_row disk p row_bytes row) (seqZ k (Z.of_nat n)) ()) s l.
Proof.
  revert k s l. induction n as [|n IH]; intros k s l; [rewrite seqZ_nil by lia; careful_step|].
  rewrite seqZ_cons by lia. cbn [for_each]. replace (Z.pred (Z.of_nat (S n))) with (Z.of_nat n) by lia.
  apply careful_bind.
  - unfold append_row. apply careful_bind; [careful_step|]. intros. apply careful_bind; [careful_step|]. intros.
    apply careful_bind; [careful_step|]. intros. careful_step.
  - intros [] s' l' _. apply IH.
Qed.

Lemma append_rows_result p row_bytes n k s l s' l' a :
  for_each (fun row _ => append_row disk p row_bytes row) (seqZ k (Z.of_nat n)) () (s, l) = ((s', l'), Ok a) -> s' = s.
Proof.
  revert k l. induction n as [|n IH]; intros k l; [rewrite seqZ_nil by lia; intros E; by injection E as <- <- <-|].
  rewrite seqZ_cons by lia. cbn [for_each]. replace (Z.pred (Z.of_nat (S n))) with (Z.of_nat n) by lia.
  unfold mbind, io_bind at 1. intros E.
  destruct (append_row disk p row_bytes k (s, l)) as [[s1 l1] [[]|e|]] eqn:Er; cbn [and_then] in E; [|done|done].
  assert (s1 = s) as ->; [|by eapply IH].
  unfold append_row, mbind, io_bind, raise in Er. destruct (or_panic _) as [v|e|] eqn:Ev; cbn [and_then] in Er; [|done|done].
  destruct (call disk (AppendFrame Values v) (s, l)) as [[s2 l2] [b|e|]] eqn:E2; cbn [and_then] in Er; [|done|done].
  apply call_result in E2 as [-> ->]. destruct (assert_that _) as [[]|e|] eqn:Ea; cbn [and_then] in Er; [|done|done].
  by apply call_result in Er as [-> _].
Qed.

Lemma careful_tail p sg s l : sg_partial sg = partial_of (sg_final sg) -> careful (append_tail disk p sg) s l.
Proof.
  intros Hsg. unfold append_tail. apply careful_bind; [careful_step|]. intros. apply careful_bind; [careful_step|]. intros.
  apply careful_bind; [careful_step|]. intros. apply careful_bind; [careful_step|]. intros.
  destruct (10 ^ 9 <=? _); [|careful_step]. apply careful_bind; [careful_step|]. intros.
  apply careful_bind; [careful_step|]. intros. apply careful_bind; [apply careful_put; intros _; exact Hsg|]. intros.
  apply careful_bind; [careful_step|]. intros. apply careful_bind; [careful_step|]. intros.
  destruct (se_segment_size _ <=? _); [apply careful_rotate|careful_step].
Qed.

Lemma careful_append p s l : careful (append disk p) s l.
Proof.
  intros Hok. revert Hok. intros Hok. cut (careful (append disk p) s l); [intros H; by apply H|].
  unfold append. apply careful_bind; [careful_step|]. intros s0 s1 l1 E. injection E as <- <- <-. cbn [fst].
  apply careful_bind; [careful_step|]. intros md s1 l1 _.
  apply careful_bind; [careful_step|]. intros sg s2 l2 E. unfold raise in E.
  assert (Hsg : sg_partial sg = partial_of (sg_final sg)).
  { unfold names_ok in Hok. destruct (se_segment s) as [sg'|]; [|done]. cbn [ok_or] in E. by assert (sg' = sg) as -> by congruence. }
  apply careful_bind; [careful_step|]. intros u s3 l3 _.
  apply careful_bind.
  { destruct (Z.le_gt_cases 0 (sh_n_records (pk_header p))).
    - rewrite <-(Z2Nat.id (sh_n_records (pk_header p))) by done. apply careful_rows.
    - rewrite seqZ_nil by lia. careful_step. }
  intros. apply careful_bind; [careful_step|]. intros. by apply careful_tail.
Qed.

Lemma careful_stop reason s l : careful (stop disk reason) s l.
Proof.
  unfold stop. apply careful_bind; [careful_step|]. intros. destruct (bool_decide _); [|careful_step].
  apply careful_bind; [apply careful_close|]. intros. careful_step.
Qed.

Lemma careful_start metadata s l : careful (start disk metadata) s l.
Proof.
  unfold start. apply careful_bind; [careful_step|]. intros. apply careful_bind; [careful_step|]. intros.
  apply careful_bind; [careful_step|]. intros. apply careful_bind; [careful_step|]. intros.
  apply careful_bind; [careful_step|]. intros. apply careful_bind; [careful_step|]. intros. apply careful_open.
Qed.

Lemma careful_command c s l : careful (run_command disk c) s l.
Proof. destruct c; [apply careful_start|apply careful_append|apply careful_stop|apply careful_stop]. Qed.

Lemma careful_worker commands s l :
  names_ok s -> sound l -> none_failed l ->
  let '((_, l'), answers, state) := worker disk (s, l) commands in
  sound l' /\ only_last_failed l' /\ (state = Waiting -> none_failed l')
  /\ (forall e, Published e ∈ answers -> state = Ended /\ last answers = Some (Published e)).
Proof.
  revert s l. induction commands as [|c commands IH]; intros s l Hk Hs Hn; cbn [worker].
  { split; [done|]. split; [by apply none_only_last|]. split; [done|]. intros e He. by apply elem_of_nil in He. }
  pose proof (careful_command c s l Hk Hs Hn) as Hc. unfold worker_step.
  destruct (run_command disk c (s, l)) as [[s1 l1] r].
  assert (Hl1 : sound l1 /\ only_last_failed l1) by (destruct r as [a|e|]; [|done..]; split; [apply Hc|apply none_only_last, Hc]).
  assert (Hwait : forall answers, r = Ok () -> (forall e, Published e ∉ answers) ->
    let '((_, l'), answers', state) := (let '(st, more, state) := worker disk (s1, l1) commands in (st, answers ++ more, state)) in
    sound l' /\ only_last_failed l' /\ (state = Waiting -> none_failed l')
    /\ (forall e, Published e ∈ answers' -> state = Ended /\ last answers' = Some (Published e))).
  { intros answers -> Ha. destruct Hc as (Hk1 & Hs1 & Hn1). specialize (IH s1 l1 Hk1 Hs1 Hn1).
    destruct (worker disk (s1, l1) commands) as [[[s2 l2] more] state]. destruct IH as (H1 & H2 & H3 & H4).
    split; [done|]. split; [done|]. split; [done|]. intros e He. apply elem_of_app in He as [He|He]; [by apply Ha in He|].
    destruct (H4 e He) as [-> Hl]. split; [done|]. rewrite last_app, Hl. done. }
  destruct Hl1 as [Hl1 Hl2].
  assert (Hend : forall answers state, state <> Waiting ->
    (forall e, Published e ∈ answers -> state = Ended /\ last answers = Some (Published e)) ->
    sound l1 /\ only_last_failed l1 /\ (state = Waiting -> none_failed l1)
    /\ (forall e, Published e ∈ answers -> state = Ended /\ last answers = Some (Published e))) by (intros; split_and!; done).
  destruct c, r as [[]|e|]; cbn [app].
  1,7: apply (Hwait [Acknowledged (Ok ())]); [done|]; intros e0 He%list_elem_of_singleton; done.
  3: { apply (Hwait []); [done|]. intros e0 He. by apply elem_of_nil in He. }
  all: apply Hend; [done|]; intros e0 He; rewrite ?elem_of_cons, ?elem_of_nil in He;
    clear -He; destruct_or? He; try done; simplify_eq; done.
Qed.
End any_disk.

(** A whole capture, from the start command to the stop. *)
Lemma worker_capture (disk : Disk) (metadata : SessionMetadata) (timestamp : list Z) (ps : list Packet)
    (reason : CloseReason) (s : SegmentSession) (l : list DiskCall)
    (Hfails : forall l, dk_fails disk l = false)
    (Hexists : forall l p, dk_exists disk l p = true -> p ∈ made l)
    (Hidle : se_segment s = None) (Hsources : sm_sources metadata <> [])
    (Ht : dk_timestamp disk (sm_started_utc_ns metadata) = Some timestamp)
    (Hps : Forall (fun p => packet_ok p /\ sh_n_sources (pk_header p) = len (sm_sources metadata)) ps)
    (Hn : len ps <= umax 32) (Hc : count_records ps <= umax 64) :
  let prefix := timestamp ++ str_bytes "_" ++ sanitise (sm_experiment metadata) in
  forall (Hfresh : made_before prefix 0 l),
  exists s' l' segments,
    worker disk (s, l) (StorageStart metadata :: (StoragePacket <$> ps) ++ [StorageStop reason])
    = ((s', l ++ l'), [Acknowledged (Ok ()); Acknowledged (Ok ())], Waiting)
    /\ concat segments = ps /\ segments <> [] /\ se_segment s' = None
    /\ data_log l' = capture_log (dk_broker_version disk) metadata (dk_uuid disk l) prefix reason segments
    /\ read_records l' = record_stream ps /\ read_packets l' = packet_records <$> ps.
Proof.
  intros prefix Hfresh.
  destruct (open_segment_ok disk Hfails Hexists metadata (dk_uuid disk l) prefix
    (s <| se_prefix := prefix |> <| se_session_id := Some (dk_uuid disk l) |> <| se_metadata := Some metadata |>
       <| se_segment_index := 0 |> <| se_record_offset := 0 |>) l 0 0) as (s1 & Eo & Ho); [done..|].
  assert (Es : start disk metadata (s, l)
    = ((s1, l ++ opening (dk_broker_version disk) metadata (dk_uuid disk l) prefix 0 0), Ok ())).
  { unfold start. io_step ltac:(reflexivity).
    io_step ltac:(unfold raise; rewrite Hidle, bool_decide_eq_false_2 by (by intros [? ?]); reflexivity).
    io_step ltac:(unfold raise; rewrite bool_decide_eq_false_2 by done; reflexivity).
    io_step ltac:(unfold raise; rewrite Ht; reflexivity).
    io_step ltac:(reflexivity). io_step ltac:(reflexivity). exact Eo. }
  destruct (worker_packets disk Hfails Hexists metadata (dk_uuid disk l) prefix ps reason s1
    (l ++ opening (dk_broker_version disk) metadata (dk_uuid disk l) prefix 0 0) 0 0 Ho) as
    (s' & l' & segments & Ew & Hcat & Hne & Hs' & Hd); [lia|by apply made_upto_opening|done|lia|lia|].
  exists s', (opening (dk_broker_version disk) metadata (dk_uuid disk l) prefix 0 0 ++ l'), segments. split.
  { cbn [worker]. unfold worker_step. cbn [run_command]. rewrite Es. rewrite Ew, <-app_assoc. done. }
  split; [done|]. split; [done|]. split; [done|]. split; [by rewrite data_log_app, Hd|].
  assert (Hf : forall d, frames d (opening (dk_broker_version disk) metadata (dk_uuid disk l) prefix 0 0 ++ l')
    = frames d (packets_log 0 ps)).
  { intros d. rewrite frames_app, <-(frames_data_log d l'), Hd, frames_segments_log, Hcat. done. }
  split; [by apply (read_records_spec _ 0)|]. unfold read_packets. rewrite !Hf, !frames_packets_log.
  apply (read_packets_spec _ 0 []); [done| |done|done]. eapply Forall_impl; [exact Hps|]. by intros p [].
Qed.

(** ** Properties *)

(** C16. A capture is exactly its packets.  On a disk that takes every call and has
    no file of the session's names, a session started in an idle worker, given
    packets of the announced width and stopped, never fails: both ends are
    acknowledged, the calls are those of a chain of segments, consecutively
    numbered, each with its offset in the session, closed in turn and only the
    last of them marked with the reason of the stop; and what a reader finds in
    the segments, one after the other, is every record of every packet in order,
    and for each row of the packet table exactly the records of its packet. *)
Theorem recording_exact (disk : Disk) (metadata : SessionMetadata) (timestamp : list Z) (ps : list Packet)
    (reason : CloseReason) (s : SegmentSession) (l : list DiskCall)
    (Hfails : forall l, dk_fails disk l = false)
    (Hexists : forall l p, dk_exists disk l p = true -> p ∈ made l)
    (Hidle : se_segment s = None) (Hsources : sm_sources metadata <> [])
    (Ht : dk_timestamp disk (sm_started_utc_ns metadata) = Some timestamp)
    (Hps : Forall (fun p => packet_ok p /\ sh_n_sources (pk_header p) = len (sm_sources metadata)) ps)
    (Hn : len ps <= umax 32) (Hc : count_records ps <= umax 64) :
  let prefix := timestamp ++ str_bytes "_" ++ sanitise (sm_experiment metadata) in
  forall (Hfresh : made_before prefix 0 l),
  exists s' l' segments,
    worker disk (s, l) (StorageStart metadata :: (StoragePacket <$> ps) ++ [StorageStop reason])
    = ((s', l ++ l'), [Acknowledged (Ok ()); Acknowledged (Ok ())], Waiting)
    /\ concat segments = ps /\ segments <> [] /\ se_segment s' = None
    /\ data_log l' = capture_log (dk_broker_version disk) metadata (dk_uuid disk l) prefix reason segments
    /\ read_records l' = record_stream ps /\ read_packets l' = packet_records <$> ps.
Proof. intros prefix. by apply worker_capture. Qed.

(** C24. Whatever the disk does, and whatever is asked of it: the worker makes no
    call after one that failed, publishes at most one error, and ends with it; a
    capture file is created only where neither it nor a finished capture
    exists; and a file gets its final name only right after it was closed and
    marked as cleanly closed, so that what was interrupted keeps its
    [.partial] name. *)
Theorem recording_fail_stop (disk : Disk) (segment_size : Z) (commands : list StorageCommand) :
  let '((_, l), answers, state) := worker disk (SegmentSession_new segment_size, []) commands in
  (forall l1 c l2, l = l1 ++ c :: l2 ->
     (l2 <> [] -> dk_fails disk (l1 ++ [c]) = false)
     /\ match c with
        | Create p => exists base, p = partial_of base /\ dk_exists disk l1 p = false /\ dk_exists disk l1 base = false
        | Rename p q => p = partial_of q
            /\ exists l0 ended reason complete, l1 = l0 ++ CloseWriter :: finalise_calls p ended reason complete
        | _ => True
        end)
  /\ (forall e, Published e ∈ answers -> state = Ended /\ last answers = Some (Published e)).
Proof.
  pose proof (careful_worker disk commands (SegmentSession_new segment_size) [] I) as H.
  assert (Hnil : forall P, every_call P []) by (intros P l1 c l2 E; by destruct l1).
  specialize (H (Hnil _) (Hnil _)).
  destruct (worker disk (SegmentSession_new segment_size, []) commands) as [[[s l] answers] state].
  destruct H as (Hs & Hl & _ & Ha). split; [|exact Ha]. intros l1 c l2 E. split; [intros Hne; by eapply Hl|].
  specialize (Hs l1 c l2 E). by destruct c.
Qed.

(** The names of the segments of a session differ, and a sanitised name is
    never empty and only has letters, digits, hyphens and underscores. *)
Theorem segment_names (value prefix : list Z) :
  (forall i j, fits 32 i -> fits 32 j -> segment_base prefix i = segment_base prefix j -> i = j)
  /\ sanitise value <> [] /\ Forall (fun b => is_name_byte b = true) (sanitise value)
  /\ (value <> [] -> Forall (fun b => is_name_byte b = true) value -> sanitise value = value).
Proof.
  split; [intros i j; apply segment_base_inj|]. unfold sanitise.
  assert (Hall : forall l, Forall (fun b => is_name_byte b = true) ((fun b => if is_name_byte b then b else 95) <$> l)).
  { intros l. apply Forall_fmap, Forall_true. intros b. cbn. by destruct (is_name_byte b) eqn:E. }
  specialize (Hall (List.filter (fun b => negb ((128 <=? b) && (b <? 192))) value)).
  split; [by destruct (_ <$> _)|]. split.
  { destruct (_ <$> _); [|exact Hall]. by repeat constructor. }
  intros Hne Hv. assert (E : (fun b => if is_name_byte b then b else 95) <$>
    List.filter (fun b => negb ((128 <=? b) && (b <? 192))) value = value); [|rewrite E; by destruct value].
  clear Hall Hne. induction Hv as [|b value Hb _ IH]; [done|]. cbn [List.filter].
  assert (Hlt : b < 128).
  { unfold is_name_byte in Hb. bool_facts. lia. }
  rewrite (proj2 (Z.leb_gt 128 b)) by lia. cbn [andb negb fmap list_fmap]. rewrite Hb. f_equal. exact IH.
Qed.

(** ** Examples *)

(** Every packet finds the flush due and the segment full. *)
Definition sample_disk : Disk := {|
  dk_fails _ := false; dk_exists l p := bool_decide (p ∈ made l); dk_len _ := 100;
  dk_instant l := len l * 10 ^ 9; dk_utc _ := 0; dk_uuid _ := [1]; dk_timestamp _ := Some [50]; dk_broker_version := [48] |}.

Definition sample_metadata : SessionMetadata := {|
  sm_experiment := str_bytes "a/b"; sm_firmware := []; sm_sample_rate_hz := f1; sm_decimation := 1;
  sm_configured_count := 0; sm_sources := [{| sr_name := [97]; sr_unit := [] |}; {| sr_name := [98]; sr_unit := [] |}]; sm_started_utc_ns := 0 |}.

Lemma recording_exact_witness :
  exists s' l', worker sample_disk (SegmentSession_new 1, [])
      [StorageStart sample_metadata; StoragePacket (demo_packet 4 100 4); StoragePacket (demo_packet 5 108 3); StorageStop CloseStreamStop]
    = ((s', l'), [Acknowledged (Ok ()); Acknowledged (Ok ())], Waiting)
    /\ read_records l' = record_stream [demo_packet 4 100 4; demo_packet 5 108 3].
Proof.
  destruct (recording_exact sample_disk sample_metadata [50] [demo_packet 4 100 4; demo_packet 5 108 3] CloseStreamStop
    (SegmentSession_new 1) []) as (s' & l' & segments & E & _ & _ & _ & _ & Hr & _).
  - done.
  - intros l p H. by apply bool_decide_eq_true in H.
  - done.
  - done.
  - done.
  - apply Forall_and. split; [exact demo_packets_ok|]. repeat (apply Forall_cons; split; [done|]). by apply Forall_nil.
  - by vm_compute.
  - by vm_compute.
  - intros j _ _. split; by apply not_elem_of_nil.
  - exists s', l'. split; [exact E|exact Hr].
Defined.

(** The rename of the segment fails. *)
Definition failing_disk : Disk := {|
  dk_fails l := match last l with Some (Rename _ _) => true | _ => false end;
  dk_exists _ _ := false; dk_len _ := 0; dk_instant _ := 0; dk_utc _ := 0; dk_uuid _ := []; dk_timestamp _ := Some [50];
  dk_broker_version := [] |}.

Example failing_stop :
  let '(_, answers, state) := worker failing_disk (SegmentSession_new 1, [])
    [StorageStart sample_metadata; StorageStop CloseStreamStop; StorageStart sample_metadata] in
  answers = [Acknowledged (Ok ()); Acknowledged (Err DiskFailed); Published DiskFailed] /\ state = Ended.
Proof. by vm_compute. Qed.
