(* ===== verification/Phase.v ===== *)
(** * Phase accumulator and stale-source detector

    [helic-core/src/phase.rs] and [helic-core/src/safety.rs]: the two counters
    of the real-time tick.  The phase accumulator is exact arithmetic modulo
    2^32; the stale detector counts ticks without a new sensor frame. *)

From S2P Require Import Prelude Float32.

(** ** [PhaseAccumulator] *)

Record PhaseAccumulator := { pa_phase : Z; pa_increment : Z }.

Definition PhaseAccumulator_new : PhaseAccumulator :=
  {| pa_phase := 0; pa_increment := 0 |}.

(** [x as u32] of an [f64]. *)
Definition cast_u32_f64 (x : float) : Z := saturating_cast 0 (umax 32) x.

(** The [debug_assert!] ([0 <= f0 < fs]) is not part of the released code. *)
Definition increment_for (f0 fs : float) : Z :=
  cast_u32_f64 (dadd (dmul (ddiv f0 fs) (f64_of_Z 4294967296))
                     (ddiv (f64_of_Z 1) (f64_of_Z 2))).

Definition PhaseAccumulator_set_increment (a : PhaseAccumulator) (increment : Z) :=
  {| pa_phase := pa_phase a; pa_increment := increment |}.

Definition PhaseAccumulator_set_frequency (a : PhaseAccumulator) (f0 fs : float) :=
  {| pa_phase := pa_phase a; pa_increment := increment_for f0 fs |}.

(** Returns the new phase, and whether it passed the start of a period. *)
Definition PhaseAccumulator_step (a : PhaseAccumulator) : PhaseAccumulator * (Z * bool) :=
  let '(phase, wrapped) := overflowing_add 32 (pa_phase a) (pa_increment a) in
  ({| pa_phase := phase; pa_increment := pa_increment a |}, (phase, wrapped)).

Definition PhaseAccumulator_harmonic (a : PhaseAccumulator) (k : Z) : Z :=
  wrapping_mul 32 k (pa_phase a).

Definition PhaseAccumulator_reset (a : PhaseAccumulator) : PhaseAccumulator :=
  {| pa_phase := 0; pa_increment := pa_increment a |}.

Definition phase_wf (a : PhaseAccumulator) : Prop :=
  fits 32 (pa_phase a) /\ fits 32 (pa_increment a).

(** [n] ticks, counting the period starts. *)
Fixpoint phase_run (n : nat) (a : PhaseAccumulator) (starts : Z) : PhaseAccumulator * Z :=
  match n with
  | O => (a, starts)
  | S n =>
      let '(a', (_, wrapped)) := PhaseAccumulator_step a in
      phase_run n a' (starts + Z.b2z wrapped)
  end.

(** ** [StaleCounter] *)

Record StaleCounter := { sc_last : Z; sc_ticks_since_change : Z; sc_limit : Z }.

Definition StaleCounter_new (limit : Z) : StaleCounter :=
  {| sc_last := 0; sc_ticks_since_change := 0; sc_limit := limit |}.

Definition StaleCounter_observe (s : StaleCounter) (current : Z) : StaleCounter * bool :=
  let s' :=
    if negb (current =? sc_last s)
    then {| sc_last := current; sc_ticks_since_change := 0; sc_limit := sc_limit s |}
    else {| sc_last := sc_last s;
            sc_ticks_since_change := saturating_add 32 (sc_ticks_since_change s) 1;
            sc_limit := sc_limit s |}
  in (s', sc_limit s <? sc_ticks_since_change s').

(** The verdict of each tick on a sequence of counter values. *)
Fixpoint stale_run (s : StaleCounter) (l : list Z) : list bool :=
  match l with
  | [] => []
  | c :: l => let '(s', b) := StaleCounter_observe s c in b :: stale_run s' l
  end.

(** The length of the run of equal values that ends the sequence [last :: l],
    less one: the ticks for which the counter has not moved. *)
Fixpoint unchanged (last count : Z) (l : list Z) : Z :=
  match l with
  | [] => count
  | c :: l => if c =? last then unchanged last (count + 1) l else unchanged c 0 l
  end.

(** ** Lemmas *)

Lemma overflowing_add_split w a b :
  0 <= w -> fits w a -> fits w b ->
  a + b = wrap w (a + b) + 2 ^ w * Z.b2z (2 ^ w <=? a + b).
Proof.
  unfold fits, wrap. intros Hw Ha Hb. pose proof (pow2_pos w Hw).
  destruct (Z.leb_spec (2 ^ w) (a + b)); cbn [Z.b2z].
  - rewrite <-(Z.mod_unique (a + b) (2 ^ w) 1 (a + b - 2 ^ w)); lia.
  - rewrite Z.mod_small by lia. lia.
Qed.

Lemma phase_step_wf a : phase_wf a -> phase_wf (PhaseAccumulator_step a).1.
Proof. intros [_ ?]. split; [|done]. apply wrap_fits. lia. Qed.

Lemma increment_for_fits f0 fs : fits 32 (increment_for f0 fs).
Proof. apply cast_u32_fits. Qed.

Lemma phase_run_spec n a c :
  phase_wf a ->
  let total := pa_phase a + Z.of_nat n * pa_increment a in
  let '(a', c') := phase_run n a c in
  pa_phase a' = wrap 32 total /\ pa_increment a' = pa_increment a
  /\ c' = c + total / 2 ^ 32.
Proof.
  revert a c. induction n as [|n IH]; intros a c [Hp Hi] total.
  - cbn [phase_run]. replace total with (pa_phase a) by lia.
    rewrite wrap_id, Z.div_small by done. split_and!; [done|done|lia].
  - cbn [phase_run PhaseAccumulator_step overflowing_add].
    pose proof (overflowing_add_split 32 _ _ ltac:(lia) Hp Hi) as Hs.
    set (p' := wrap 32 (pa_phase a + pa_increment a)) in *.
    set (b := 2 ^ 32 <=? pa_phase a + pa_increment a) in *.
    specialize (IH {| pa_phase := p'; pa_increment := pa_increment a |} (c + Z.b2z b)).
    cbn [PhaseAccumulator_step pa_phase pa_increment] in *.
    destruct (phase_run n _ _) as [a' c'].
    destruct IH as (H1 & H2 & H3); [split; [by apply wrap_fits|done]|].
    assert (Ht : total = p' + Z.of_nat n * pa_increment a + Z.b2z b * 2 ^ 32) by lia.
    unfold wrap in *. rewrite H1, H2, H3, Ht, Z_mod_plus_full, Z.div_add by lia.
    split_and!; [done|done|lia].
Qed.

Lemma stale_run_snoc s l c :
  fits 32 (sc_ticks_since_change s) ->
  last (stale_run s (l ++ [c]))
  = Some (sc_limit s <? Z.min (unchanged (sc_last s) (sc_ticks_since_change s) (l ++ [c]))
                              (umax 32)).
Proof.
  unfold fits. revert s. induction l as [|d l IH]; intros s Hs.
  - cbn [app stale_run last unchanged StaleCounter_observe].
    unfold StaleCounter_observe, saturating_add. rewrite (Z.eqb_sym c).
    destruct (Z.eqb_spec (sc_last s) c); cbn [negb sc_ticks_since_change]; do 2 f_equal.
  - cbn [app stale_run].
    destruct (StaleCounter_observe s d) as [s' b] eqn:E.
    assert (Hl : exists x xs, stale_run s' (l ++ [c]) = x :: xs).
    { destruct l; cbn [app stale_run]; destruct (StaleCounter_observe _ _); eauto. }
    destruct Hl as (x & xs & Hl). rewrite Hl. cbn [last].
    change (match xs with [] => Some x | _ :: _ => last xs end) with (last (x :: xs)).
    rewrite <-Hl.
    unfold StaleCounter_observe, saturating_add in E. cbn [unchanged].
    destruct (Z.eqb_spec d (sc_last s)) as [->|Hne]; cbn [negb] in E;
      injection E as <- _; rewrite IH by (cbn; unfold umax; lia);
      cbn [sc_last sc_ticks_since_change sc_limit]; [|done].
    do 2 f_equal.
    assert (Hu : forall m k k', umax 32 <= k -> umax 32 <= k' \/ k' = k ->
       Z.min (unchanged m k (l ++ [c])) (umax 32) = Z.min (unchanged m k' (l ++ [c])) (umax 32)).
    { clear. intros m k k'. generalize (l ++ [c]). intros l'. revert m k k'.
      induction l' as [|e l' IH]; intros m k k' Hk Hk'; cbn [unchanged]; [lia|].
      destruct (e =? m); [apply IH; lia|done]. }
    destruct (Z.le_gt_cases (sc_ticks_since_change s + 1) (umax 32)).
    { by rewrite (Z.min_l (_ + 1)) by lia. }
    apply Hu; lia.
Qed.

(** ** Properties *)

(** The accumulator never drifts: after any number of ticks the phase is the
    exact multiple of the increment modulo 2^32 and the period-start flag has
    fired once for each whole turn; so every harmonic, obtained by a wrapping
    multiplication, is the phase of an accumulator stepped at [k] times the
    increment. *)
Theorem phase_exact (n : nat) (a : PhaseAccumulator) (k : Z) (Hwf : phase_wf a) :
  let '(a', starts) := phase_run n a 0 in
  let total := pa_phase a + Z.of_nat n * pa_increment a in
  pa_phase a' = total mod 2 ^ 32
  /\ starts = total / 2 ^ 32
  /\ PhaseAccumulator_harmonic a' k
     = pa_phase (phase_run n {| pa_phase := PhaseAccumulator_harmonic a k;
                                pa_increment := wrapping_mul 32 k (pa_increment a) |} 0).1.
Proof.
  pose proof (phase_run_spec n a 0 Hwf) as Ha.
  set (ak := {| pa_phase := _ |}).
  assert (Hk : phase_wf ak) by (split; apply wrap_fits; lia).
  pose proof (phase_run_spec n ak 0 Hk) as Hb.
  destruct (phase_run n a 0) as [a' c'], (phase_run n ak 0) as [b' d'].
  destruct Ha as (Ha & _ & Hc), Hb as (Hb & _). split_and!; [done|lia|].
  cbn [fst]. rewrite Hb. unfold PhaseAccumulator_harmonic, wrapping_mul. rewrite Ha.
  unfold ak, PhaseAccumulator_harmonic, wrapping_mul. cbn [pa_phase pa_increment].
  rewrite wrap_mul_r, wrap_add_l, <-wrap_add_r.
  rewrite wrap_mul_r, wrap_add_r. f_equal. lia.
Qed.

Lemma phase_exact_witness :
  phase_wf {| pa_phase := 0; pa_increment := 2 ^ 29 |}
  /\ let '(a', starts) := phase_run 24 {| pa_phase := 0; pa_increment := 2 ^ 29 |} 0 in
     let total := 0 + Z.of_nat 24 * 2 ^ 29 in
     pa_phase a' = total mod 2 ^ 32 /\ starts = total / 2 ^ 32
     /\ PhaseAccumulator_harmonic a' 5
        = pa_phase (phase_run 24 {| pa_phase := wrapping_mul 32 5 0;
                                    pa_increment := wrapping_mul 32 5 (2 ^ 29) |} 0).1.
Proof.
  assert (H : phase_wf {| pa_phase := 0; pa_increment := 2 ^ 29 |})
    by (split; cbn; unfold fits; lia).
  split; [exact H|].
  exact (phase_exact 24 {| pa_phase := 0; pa_increment := 2 ^ 29 |} 5 H).
Defined.

(** On any sequence of frame counters the detector's last verdict is exactly
    whether the counter has stood still for more than [limit] ticks (a counter
    that never left its initial zero included), and the count saturates
    instead of wrapping, so that a dead sensor stays flagged for ever. *)
Theorem stale_iff_unchanged (limit : Z) (l : list Z) (c : Z) (Hl : limit < umax 32) :
  last (stale_run (StaleCounter_new limit) (l ++ [c]))
  = Some (limit <? unchanged 0 0 (l ++ [c])).
Proof.
  rewrite stale_run_snoc by done. cbn [StaleCounter_new sc_limit sc_last sc_ticks_since_change].
  f_equal. destruct (Z.ltb_spec limit (unchanged 0 0 (l ++ [c])));
    destruct (Z.ltb_spec limit (Z.min (unchanged 0 0 (l ++ [c])) (umax 32))); lia.
Qed.

Lemma stale_iff_unchanged_witness :
  last (stale_run (StaleCounter_new 3) ([9; 10; 10; 10; 10] ++ [10])) = Some true.
Proof. by rewrite (stale_iff_unchanged 3) by (by vm_compute). Defined.

Example increment_is_exact_for_power_of_two_ratio :
  increment_for (f64_of_Z 1000) (f64_of_Z 8000) = 2 ^ 29.
Proof. by vm_compute. Qed.
