(* ===== verification/Harmonics.v ===== *)
(** * Sine table, Fourier series and harmonic generator

    [helic-core/src/lut.rs], [generator.rs], [harmonics.rs] and [fourier.rs].
    Arrays [[f32; K]] are lists of length [K]; an index out of bounds is [None]
    (a panic).  [libm]'s [sinf] and [sqrtf] are not part of the repository:
    they are arguments. *)

From S2P Require Import Prelude Float32 Phase.

(** ** [SinLut] *)

Definition BITS : Z := 10.
Definition SIZE : Z := Z.shiftl 1 BITS.
Definition FRAC_BITS : Z := 32 - BITS.
Definition FRAC_SCALE : float := fdiv f1 (f32_of_Z (Z.shiftl 1 FRAC_BITS)).

(** [core::f32::consts::TAU]. *)
Definition TAU : float := f32_of_bits 0x40C90FDB.

(** [[f32; SIZE + 1]] *)
Record SinLut := { lut_table : list float }.

Definition SinLut_new (sinf : float -> float) : option SinLut :=
  table ← for_each (fun i table =>
            put table i (sinf (fmul (f32_of_Z i) (fdiv TAU (f32_of_Z SIZE)))))
          (seqZ 0 (SIZE + 1)) (replicate (Z.to_nat (SIZE + 1)) f0);
  first ← index table 0;
  table ← put table SIZE first;
  Some {| lut_table := table |}.

Definition SinLut_sin (lut : SinLut) (phase : Z) : option float :=
  let idx := Z.shiftr phase FRAC_BITS in
  let frac := fmul (f32_of_Z (Z.land phase (Z.shiftl 1 FRAC_BITS - 1))) FRAC_SCALE in
  a ← index (lut_table lut) idx;
  b ← index (lut_table lut) (idx + 1);
  Some (fadd a (fmul (fsub b a) frac)).

Definition SinLut_cos (lut : SinLut) (phase : Z) : option float :=
  SinLut_sin lut (wrapping_add 32 phase (Z.shiftl 1 30)).

(** ** [FourierCoeffs] *)

Record FourierCoeffs := { fc_mean : float; fc_a : list float; fc_b : list float }.

Definition FourierCoeffs_zero (K : nat) : FourierCoeffs :=
  {| fc_mean := f0; fc_a := replicate K f0; fc_b := replicate K f0 |}.

(** The [k]-th term, [k] from 0, of the series at [phase]. *)
Definition FourierCoeffs_evaluate (c : FourierCoeffs) (K : nat) (lut : SinLut) (phase : Z)
    : option float :=
  for_each (fun k sum =>
    let phase_k := wrapping_mul 32 (k + 1) phase in
    a ← index (fc_a c) k; ck ← SinLut_cos lut phase_k;
    b ← index (fc_b c) k; sk ← SinLut_sin lut phase_k;
    Some (fadd sum (fadd (fmul a ck) (fmul b sk))))
  (seqZ 0 (Z.of_nat K)) (fc_mean c).

Definition FourierCoeffs_amplitude_bound (sqrtf : float -> float) (K : nat)
    (c : FourierCoeffs) : option float :=
  let sum := if flt (fc_mean c) f0 then fneg (fc_mean c) else fc_mean c in
  for_each (fun k sum =>
    a ← index (fc_a c) k; b ← index (fc_b c) k;
    Some (fadd sum (sqrtf (fadd (fmul a a) (fmul b b)))))
  (seqZ 0 (Z.of_nat K)) sum.

(** ** [HarmonicFrame] and [HarmonicGenerator] *)

Record HarmonicFrame := {
  hf_phase : Z; hf_period_start : bool; hf_cos : list float; hf_sin : list float }.

Definition HarmonicFrame_zero (H : nat) : HarmonicFrame :=
  {| hf_phase := 0; hf_period_start := false;
     hf_cos := replicate H f0; hf_sin := replicate H f0 |}.

Definition HarmonicFrame_cos (f : HarmonicFrame) (h : Z) : option float := index (hf_cos f) h.
Definition HarmonicFrame_sin (f : HarmonicFrame) (h : Z) : option float := index (hf_sin f) h.

Definition HarmonicFrame_phase_turns (f : HarmonicFrame) : float :=
  fmul (f32_of_Z (hf_phase f)) f2pm32.

Definition HarmonicFrame_project (f : HarmonicFrame) (H : nat) (c : FourierCoeffs)
    : option float :=
  for_each (fun h value =>
    a ← index (fc_a c) h; ch ← index (hf_cos f) h;
    b ← index (fc_b c) h; sh ← index (hf_sin f) h;
    Some (fadd value (fadd (fmul a ch) (fmul b sh))))
  (seqZ 0 (Z.of_nat H)) (fc_mean c).

Record HarmonicGenerator := { hg_phase : PhaseAccumulator; hg_frame : HarmonicFrame }.

Definition HarmonicGenerator_new (H : nat) : HarmonicGenerator :=
  {| hg_phase := PhaseAccumulator_new; hg_frame := HarmonicFrame_zero H |}.

Definition HarmonicGenerator_set_increment (g : HarmonicGenerator) (increment : Z) :=
  {| hg_phase := PhaseAccumulator_set_increment (hg_phase g) increment;
     hg_frame := hg_frame g |}.

Definition HarmonicGenerator_increment (g : HarmonicGenerator) : Z :=
  pa_increment (hg_phase g).

(** The returned borrow of the frame is the frame of the new state. *)
Definition HarmonicGenerator_step (g : HarmonicGenerator) (H : nat) (lut : SinLut)
    : option HarmonicGenerator :=
  let '(acc, (phase, period_start)) := PhaseAccumulator_step (hg_phase g) in
  '(c, s) ← for_each (fun h '(c, s) =>
      let harmonic_phase := wrapping_mul 32 (h + 1) phase in
      ch ← SinLut_cos lut harmonic_phase; c ← put c h ch;
      sh ← SinLut_sin lut harmonic_phase; s ← put s h sh;
      Some (c, s))
    (seqZ 0 (Z.of_nat H)) (hf_cos (hg_frame g), hf_sin (hg_frame g));
  Some {| hg_phase := acc;
          hg_frame := {| hf_phase := phase; hf_period_start := period_start;
                         hf_cos := c; hf_sin := s |} |}.

(** ** [FourierEstimator] *)

Record FourierEstimator := { fe_estimate : FourierCoeffs; fe_alpha : float }.

Definition estimator_alpha (tau fs : float) : float := fdiv f1 (fadd (fmul tau fs) f1).

Definition FourierEstimator_new (K : nat) (tau fs : float) : FourierEstimator :=
  {| fe_estimate := FourierCoeffs_zero K; fe_alpha := estimator_alpha tau fs |}.
Definition FourierEstimator_set_time_constant (e : FourierEstimator) (tau fs : float) :=
  {| fe_estimate := fe_estimate e; fe_alpha := estimator_alpha tau fs |}.
Definition FourierEstimator_reset (K : nat) (e : FourierEstimator) :=
  {| fe_estimate := FourierCoeffs_zero K; fe_alpha := fe_alpha e |}.

Definition f2 : float := f32_of_Z 2.

(** One smoothing step of the one-pole filter: [x += alpha * (target - x)]. *)
Definition one_pole (alpha target x : float) : float := fadd x (fmul alpha (fsub target x)).

Definition FourierEstimator_update (e : FourierEstimator) (K : nat) (lut : SinLut)
    (signal : float) (phase : Z) : option FourierEstimator :=
  let est := fe_estimate e in
  let alpha := fe_alpha e in
  let mean := one_pole alpha signal (fc_mean est) in
  '(a, b) ← for_each (fun k '(a, b) =>
      let phase_k := wrapping_mul 32 (k + 1) phase in
      ck ← SinLut_cos lut phase_k; sk ← SinLut_sin lut phase_k;
      let demod_a := fmul (fmul f2 signal) ck in
      let demod_b := fmul (fmul f2 signal) sk in
      ak ← index a k; a ← put a k (one_pole alpha demod_a ak);
      bk ← index b k; b ← put b k (one_pole alpha demod_b bk);
      Some (a, b))
    (seqZ 0 (Z.of_nat K)) (fc_a est, fc_b est);
  Some {| fe_estimate := {| fc_mean := mean; fc_a := a; fc_b := b |}; fe_alpha := alpha |}.

(** ** Lemmas *)

Definition lut_wf (lut : SinLut) : Prop := len (lut_table lut) = SIZE + 1.

Definition coeffs_wf (K : nat) (c : FourierCoeffs) : Prop :=
  length (fc_a c) = K /\ length (fc_b c) = K.

Definition generator_wf (H : nat) (g : HarmonicGenerator) : Prop :=
  phase_wf (hg_phase g)
  /\ length (hf_cos (hg_frame g)) = H /\ length (hf_sin (hg_frame g)) = H.

(** Either output of the table at a 32-bit phase is within the table. *)
Lemma SinLut_sin_Some lut phase :
  lut_wf lut -> fits 32 phase -> is_Some (SinLut_sin lut phase).
Proof.
  unfold lut_wf, fits. intros Hl Hp. unfold SinLut_sin.
  assert (Hi : 0 <= Z.shiftr phase FRAC_BITS < SIZE).
  { unfold FRAC_BITS, BITS, SIZE. rewrite Z.shiftr_div_pow2 by lia.
    change (Z.shiftl 1 BITS) with 1024. change (2 ^ (32 - 10)) with 4194304.
    change (2 ^ 32) with 4294967296 in Hp. div_lia. }
  destruct (index_is_Some (lut_table lut) (Z.shiftr phase FRAC_BITS)) as [a Ea]; [lia|].
  destruct (index_is_Some (lut_table lut) (Z.shiftr phase FRAC_BITS + 1)) as [b Eb]; [lia|].
  cbn [mbind option_bind]. rewrite Ea. cbn. rewrite Eb. eauto.
Qed.

Lemma SinLut_cos_Some lut phase : lut_wf lut -> is_Some (SinLut_cos lut phase).
Proof. intros. apply SinLut_sin_Some; [done|]. by apply wrap_fits. Qed.

Lemma SinLut_harmonic_Some lut k phase :
  lut_wf lut -> is_Some (SinLut_sin lut (wrapping_mul 32 k phase)).
Proof. intros. apply SinLut_sin_Some; [done|]. by apply wrap_fits. Qed.

(** A loop that writes element [i] at step [i] of two arrays. *)
Lemma for_range_fill2 (f : Z -> list float * list float -> option (list float * list float))
    (u v : Z -> float -> option float) (a b : list float) (n : nat) :
  length a = n -> length b = n ->
  (forall i (a b : list float) x y, 0 <= i < Z.of_nat n -> length a = n -> length b = n ->
     index a i = Some x -> index b i = Some y ->
     exists x' y', u i x = Some x' /\ v i y = Some y'
       /\ f i (a, b) = a' ← put a i x'; b' ← put b i y'; Some (a', b')) ->
  exists a' b', for_each f (seqZ 0 (Z.of_nat n)) (a, b) = Some (a', b')
    /\ length a' = n /\ length b' = n
    /\ forall i, 0 <= i < Z.of_nat n ->
         index a' i = index a i ≫= u i /\ index b' i = index b i ≫= v i.
Proof.
  intros Ha Hb Hf.
  destruct (for_range_inv f (fun i s =>
      length s.1 = n /\ length s.2 = n
      /\ forall j, 0 <= j < Z.of_nat n ->
           index s.1 j = (if j <? i then index a j ≫= u j else index a j)
           /\ index s.2 j = (if j <? i then index b j ≫= v j else index b j))
    0 (Z.of_nat n) (a, b)) as ([a' b'] & E & Ha' & Hb' & Hab); [lia| | |].
  - intros i [a1 b1] Hi (H1 & H2 & Hj). cbn [fst snd] in *.
    destruct (Hj i ltac:(lia)) as [Ex Ey]. rewrite Z.ltb_irrefl in Ex, Ey.
    destruct (index_is_Some a i) as [x Hx]; [unfold len; lia|].
    destruct (index_is_Some b i) as [y Hy]; [unfold len; lia|].
    destruct (Hf i a1 b1 x y) as (x' & y' & Hu & Hv & Ef); try done; try congruence; try lia.
    destruct (put_spec a1 i x') as (a2 & Ea & La & Ia); [unfold len; lia|].
    destruct (put_spec b1 i y') as (b2 & Eb & Lb & Ib); [unfold len; lia|].
    exists (a2, b2). rewrite Ef, Ea. cbn. rewrite Eb. split; [done|].
    unfold len in La, Lb. split_and!; [lia|lia|]. intros j Hjn.
    rewrite Ia, Ib. destruct (Hj j Hjn) as [-> ->].
    destruct (Z.eqb_spec j i) as [->|].
    + rewrite (proj2 (Z.ltb_lt i (i + 1))), Hx, Hy by lia. cbn. by rewrite Hu, Hv.
    + by destruct (Z.ltb_spec j i), (Z.ltb_spec j (i + 1)); try lia.
  - cbn. split_and!; [done|done|]. intros j Hj. by destruct (Z.ltb_spec j 0); try lia.
  - exists a', b'. cbn [fst snd] in *. split_and!; [done|done|done|].
    intros i Hi. destruct (Hab i Hi) as [-> ->].
    by destruct (Z.ltb_spec i (0 + Z.of_nat n)); try lia.
Qed.

Lemma HarmonicGenerator_step_spec H lut g :
  lut_wf lut -> generator_wf H g ->
  exists g', HarmonicGenerator_step g H lut = Some g' /\ generator_wf H g'
    /\ (hg_phase g', (hf_phase (hg_frame g'), hf_period_start (hg_frame g')))
       = PhaseAccumulator_step (hg_phase g)
    /\ forall h, 0 <= h < Z.of_nat H ->
         HarmonicFrame_cos (hg_frame g') h
         = SinLut_cos lut (wrapping_mul 32 (h + 1) (hf_phase (hg_frame g')))
         /\ HarmonicFrame_sin (hg_frame g') h
            = SinLut_sin lut (wrapping_mul 32 (h + 1) (hf_phase (hg_frame g'))).
Proof.
  intros Hl (Hp & Hc & Hs). unfold HarmonicGenerator_step.
  pose proof (phase_step_wf _ Hp) as Hp'.
  destruct (PhaseAccumulator_step (hg_phase g)) as [acc [ph st]] eqn:E. cbn [fst] in Hp'.
  edestruct ((fun f => for_range_fill2 f
    (fun h _ => SinLut_cos lut (wrapping_mul 32 (h + 1) ph))
    (fun h _ => SinLut_sin lut (wrapping_mul 32 (h + 1) ph)) _ _ H Hc Hs))
    as (c' & s' & Ef & Lc & Ls & Hcs).
  2: { rewrite Ef. cbn. eexists. split; [done|]. split_and!; [done|done|].
       intros h Hh. cbn. unfold HarmonicFrame_cos, HarmonicFrame_sin. cbn [hf_cos hf_sin].
       destruct (Hcs h Hh) as [-> ->].
       destruct (index_is_Some (hf_cos (hg_frame g)) h) as [x ->]; [unfold len; lia|].
       destruct (index_is_Some (hf_sin (hg_frame g)) h) as [y ->]; [unfold len; lia|].
       cbn [mbind option_bind].
       exact (conj eq_refl eq_refl). }
  intros i a b x y Hi La Lb _ _.
  destruct (SinLut_cos_Some lut (wrapping_mul 32 (i + 1) ph) Hl) as [cv Ec].
  destruct (SinLut_harmonic_Some lut (i + 1) ph Hl) as [sv Es].
  exists cv, sv. split; [exact Ec|]. split; [exact Es|].
  rewrite Ec. cbn [mbind option_bind].
  destruct (put_spec a i cv) as (a2 & -> & _); [unfold len; lia|].
  cbn [mbind option_bind]. by rewrite Es.
Qed.

Lemma FourierCoeffs_evaluate_Some c K lut phase :
  lut_wf lut -> coeffs_wf K c -> is_Some (FourierCoeffs_evaluate c K lut phase).
Proof.
  intros Hl [Ha Hb]. unfold FourierCoeffs_evaluate.
  apply for_range_Some; [lia|]. intros i s Hi. cbn beta.
  destruct (index_is_Some (fc_a c) i) as [a ->]; [unfold len; lia|].
  destruct (index_is_Some (fc_b c) i) as [b ->]; [unfold len; lia|]. cbn [mbind option_bind].
  destruct (SinLut_cos_Some lut (wrapping_mul 32 (i + 1) phase) Hl) as [cv ->].
  destruct (SinLut_harmonic_Some lut (i + 1) phase Hl) as [sv ->]. cbn. eauto.
Qed.

Lemma project_eq_evaluate H lut f c :
  (forall h, 0 <= h < Z.of_nat H ->
     HarmonicFrame_cos f h = SinLut_cos lut (wrapping_mul 32 (h + 1) (hf_phase f))
     /\ HarmonicFrame_sin f h = SinLut_sin lut (wrapping_mul 32 (h + 1) (hf_phase f))) ->
  HarmonicFrame_project f H c = FourierCoeffs_evaluate c H lut (hf_phase f).
Proof.
  intros Hb. apply for_each_ext. intros h s Hh%elem_of_seqZ.
  destruct (Hb h ltac:(lia)) as [Ec Es].
  unfold HarmonicFrame_cos, HarmonicFrame_sin in *. by rewrite Ec, Es.
Qed.

Lemma SinLut_new_spec sinf :
  exists lut, SinLut_new sinf = Some lut /\ lut_wf lut
    /\ (forall i, 0 <= i < SIZE ->
          index (lut_table lut) i = Some (sinf (fmul (f32_of_Z i) (fdiv TAU (f32_of_Z SIZE)))))
    /\ index (lut_table lut) SIZE = index (lut_table lut) 0.
Proof.
  unfold SinLut_new.
  assert (HS : SIZE = 1024) by done.
  destruct (for_range_inv
    (fun i table => put table i (sinf (fmul (f32_of_Z i) (fdiv TAU (f32_of_Z SIZE)))))
    (fun i t => len t = SIZE + 1 /\ forall j, 0 <= j < i ->
       index t j = Some (sinf (fmul (f32_of_Z j) (fdiv TAU (f32_of_Z SIZE))))) 0 (SIZE + 1)
    (replicate (Z.to_nat (SIZE + 1)) f0))
    as (t & E & Lt & It); [lia| | |].
  - intros i t Hi [Lt It].
    edestruct (put_spec t i) as (t' & E & Lt' & It'); [lia|]. exists t'. split; [exact E|].
    split; [lia|]. intros j Hj. rewrite It'.
    destruct (Z.eqb_spec j i) as [->|]; [done|]. apply It. lia.
  - split; [|intros; lia]. unfold len. rewrite length_replicate. lia.
  - rewrite E. cbn [mbind option_bind]. rewrite (It 0) by lia. cbn [mbind option_bind].
    edestruct (put_spec t SIZE) as (t' & E' & Lt' & It'); [lia|].
    rewrite E'. cbn [mbind option_bind]. eexists. split; [done|].
    unfold lut_wf. cbn [lut_table]. split_and!; [lia| |].
    + intros i Hi. rewrite It'. destruct (Z.eqb_spec i SIZE); [lia|]. apply It. lia.
    + rewrite !It', Z.eqb_refl. destruct (Z.eqb_spec 0 SIZE); [lia|]. by rewrite It by lia.
Qed.

(** ** Properties *)

(** One tick of the harmonic generator never indexes out of bounds, keeps the
    state well formed, advances the master phase by its increment modulo 2^32
    with the period start at the wrap, and leaves a basis on which projecting
    any coefficients is bit for bit the direct evaluation of their series at
    the new phase. *)
Theorem harmonic_step_projects (H : nat) (lut : SinLut) (g : HarmonicGenerator)
    (c : FourierCoeffs) (Hl : lut_wf lut) (Hg : generator_wf H g) (Hc : coeffs_wf H c) :
  exists g' v, HarmonicGenerator_step g H lut = Some g' /\ generator_wf H g'
    /\ hf_phase (hg_frame g')
       = (pa_phase (hg_phase g) + HarmonicGenerator_increment g) mod 2 ^ 32
    /\ (hf_period_start (hg_frame g') = true
        <-> hf_phase (hg_frame g') <> pa_phase (hg_phase g) + HarmonicGenerator_increment g)
    /\ HarmonicFrame_project (hg_frame g') H c = Some v
    /\ FourierCoeffs_evaluate c H lut (hf_phase (hg_frame g')) = Some v.
Proof.
  destruct (HarmonicGenerator_step_spec H lut g Hl Hg) as (g' & E & Hg' & Hp & Hb).
  destruct (FourierCoeffs_evaluate_Some c H lut (hf_phase (hg_frame g')) Hl Hc) as [v Ev].
  exists g', v. rewrite (project_eq_evaluate H lut) by done.
  destruct Hg as [[H1 H2] _]. unfold fits in H1, H2.
  unfold PhaseAccumulator_step, overflowing_add in Hp.
  assert (Hph := f_equal (fun p => p.2.1) Hp). assert (Hst := f_equal (fun p => p.2.2) Hp).
  cbn [fst snd] in Hph, Hst. rewrite Hst, Hph. unfold HarmonicGenerator_increment.
  split_and!; try done; [|by rewrite <-Hph..].
  unfold wrap. pose proof (Z.mod_pos_bound (pa_phase (hg_phase g) + pa_increment (hg_phase g)) (2 ^ 32)).
  destruct (Z.leb_spec (2 ^ 32) (pa_phase (hg_phase g) + pa_increment (hg_phase g))).
  - split; [lia|done].
  - split; [done|]. rewrite Z.mod_small by lia. done.
Qed.

Definition test_lut : SinLut :=
  {| lut_table := (fun i => f32_of_Z (Z.of_nat i)) <$> seq 0 1025 |}.

Lemma harmonic_step_projects_witness :
  exists g' v, HarmonicGenerator_step
      (HarmonicGenerator_set_increment (HarmonicGenerator_new 2) (2 ^ 31)) 2 test_lut = Some g'
    /\ generator_wf 2 g' /\ hf_phase (hg_frame g') = (0 + 2 ^ 31) mod 2 ^ 32
    /\ (hf_period_start (hg_frame g') = true <-> hf_phase (hg_frame g') <> 0 + 2 ^ 31)
    /\ HarmonicFrame_project (hg_frame g') 2 (FourierCoeffs_zero 2) = Some v
    /\ FourierCoeffs_evaluate (FourierCoeffs_zero 2) 2 test_lut (hf_phase (hg_frame g')) = Some v.
Proof.
  apply (harmonic_step_projects 2 test_lut); [done| |done].
  split; [|done]. split; cbn; unfold fits; lia.
Defined.

(** One sample of the estimator never indexes out of bounds and is, harmonic
    by harmonic, one smoothing step towards the demodulated sample: the mean
    towards the signal, [a_k] towards [2 x cos(k theta)] and [b_k] towards
    [2 x sin(k theta)], at the wrapping multiples of the shared phase. *)
Theorem fourier_update_demodulates (e : FourierEstimator) (K : nat) (lut : SinLut)
    (signal : float) (phase : Z) (Hl : lut_wf lut) (He : coeffs_wf K (fe_estimate e)) :
  exists e', FourierEstimator_update e K lut signal phase = Some e'
    /\ coeffs_wf K (fe_estimate e') /\ fe_alpha e' = fe_alpha e
    /\ fc_mean (fe_estimate e') = one_pole (fe_alpha e) signal (fc_mean (fe_estimate e))
    /\ forall k, 0 <= k < Z.of_nat K ->
       index (fc_a (fe_estimate e')) k
         = (a ← index (fc_a (fe_estimate e)) k;
           ck ← SinLut_cos lut (wrapping_mul 32 (k + 1) phase);
           Some (one_pole (fe_alpha e) (fmul (fmul f2 signal) ck) a))
       /\ index (fc_b (fe_estimate e')) k
         = (b ← index (fc_b (fe_estimate e)) k;
           sk ← SinLut_sin lut (wrapping_mul 32 (k + 1) phase);
           Some (one_pole (fe_alpha e) (fmul (fmul f2 signal) sk) b)).
Proof.
  destruct He as [Ha Hb]. unfold FourierEstimator_update.
  edestruct ((fun f => for_range_fill2 f
    (fun k a => ck ← SinLut_cos lut (wrapping_mul 32 (k + 1) phase);
                Some (one_pole (fe_alpha e) (fmul (fmul f2 signal) ck) a))
    (fun k b => sk ← SinLut_sin lut (wrapping_mul 32 (k + 1) phase);
                Some (one_pole (fe_alpha e) (fmul (fmul f2 signal) sk) b)) _ _ K Ha Hb))
    as (a' & b' & Ef & La & Lb & Hab).
  2: { rewrite Ef. cbn [mbind option_bind]. eexists. split; [done|].
       split_and!; [done..|].
       intros k Hk. cbn [fe_estimate fc_a fc_b]. destruct (Hab k Hk) as [-> ->].
       exact (conj eq_refl eq_refl). }
  intros i a b x y Hi La Lb Hx Hy.
  destruct (SinLut_cos_Some lut (wrapping_mul 32 (i + 1) phase) Hl) as [cv Ec].
  destruct (SinLut_harmonic_Some lut (i + 1) phase Hl) as [sv Es].
  eexists _, _. split; [by rewrite Ec|]. split; [by rewrite Es|].
  rewrite Ec. cbn [mbind option_bind]. rewrite Es. cbn [mbind option_bind]. rewrite Hx.
  cbn [mbind option_bind].
  edestruct (put_spec a i) as (a2 & -> & _); [unfold len; lia|]. cbn [mbind option_bind].
  by rewrite Hy.
Qed.

Lemma fourier_update_demodulates_witness :
  exists e', FourierEstimator_update (FourierEstimator_new 1 f1 f1) 1 test_lut f1 5 = Some e'
    /\ coeffs_wf 1 (fe_estimate e') /\ fe_alpha e' = estimator_alpha f1 f1
    /\ fc_mean (fe_estimate e') = one_pole (estimator_alpha f1 f1) f1 f0
    /\ forall k, 0 <= k < Z.of_nat 1 ->
       index (fc_a (fe_estimate e')) k
         = (a ← index [f0] k; ck ← SinLut_cos test_lut (wrapping_mul 32 (k + 1) 5);
           Some (one_pole (estimator_alpha f1 f1) (fmul (fmul f2 f1) ck) a))
       /\ index (fc_b (fe_estimate e')) k
         = (b ← index [f0] k; sk ← SinLut_sin test_lut (wrapping_mul 32 (k + 1) 5);
           Some (one_pole (estimator_alpha f1 f1) (fmul (fmul f2 f1) sk) b)).
Proof. by apply (fourier_update_demodulates (FourierEstimator_new 1 f1 f1) 1 test_lut). Defined.
