(* ===== verification/Filter.v ===== *)
(** * Cascaded biquad filters

    [helic-core/src/filter.rs]: second-order sections in Direct Form II
    transposed.  [libm]'s [tan], used by the design helper only, is an
    argument. *)

From S2P Require Import Prelude Float32.

Record BiquadCoeffs := { bq_b0 : float; bq_b1 : float; bq_b2 : float; bq_a1 : float; bq_a2 : float }.

Definition BiquadCoeffs_identity : BiquadCoeffs :=
  {| bq_b0 := f1; bq_b1 := f0; bq_b2 := f0; bq_a1 := f0; bq_a2 := f0 |}.

(** [core::f64::consts::PI] and [SQRT_2]. *)
Definition PI_f64 : float := S754_finite false 0x1921FB54442D18 (-51).
Definition SQRT_2_f64 : float := S754_finite false 0x16A09E667F3BCD (-52).

(** The [debug_assert!] ([0 < fc < fs / 2]) is not part of the released code. *)
Definition butterworth_lowpass (tan : float -> float) (fc fs : float) : BiquadCoeffs :=
  let one := f64_of_Z 1 in
  let two := f64_of_Z 2 in
  let k := tan (ddiv (dmul PI_f64 fc) fs) in
  let sqrt2 := SQRT_2_f64 in
  let norm := ddiv one (dadd (dadd one (dmul sqrt2 k)) (dmul k k)) in
  {| bq_b0 := f32_of_f64 (dmul (dmul k k) norm);
     bq_b1 := f32_of_f64 (dmul (dmul (dmul two k) k) norm);
     bq_b2 := f32_of_f64 (dmul (dmul k k) norm);
     bq_a1 := f32_of_f64 (dmul (dmul two (dsub (dmul k k) one)) norm);
     bq_a2 := f32_of_f64 (dmul (dadd (dsub one (dmul sqrt2 k)) (dmul k k)) norm) |}.

Record BiquadState := { bs_s1 : float; bs_s2 : float }.
Definition BiquadState_default : BiquadState := {| bs_s1 := f0; bs_s2 := f0 |}.

(** [[BiquadCoeffs; N]] and [[BiquadState; N]]. *)
Record SosFilter := { sos_coeffs : list BiquadCoeffs; sos_state : list BiquadState }.

Definition SosFilter_new (coeffs : list BiquadCoeffs) : SosFilter :=
  {| sos_coeffs := coeffs; sos_state := replicate (length coeffs) BiquadState_default |}.
Definition SosFilter_identity (N : nat) : SosFilter :=
  {| sos_coeffs := replicate N BiquadCoeffs_identity;
     sos_state := replicate N BiquadState_default |}.
Definition SosFilter_set_coeffs (f : SosFilter) (coeffs : list BiquadCoeffs) : SosFilter :=
  {| sos_coeffs := coeffs; sos_state := sos_state f |}.
Definition SosFilter_reset (f : SosFilter) : SosFilter :=
  {| sos_coeffs := sos_coeffs f;
     sos_state := replicate (length (sos_coeffs f)) BiquadState_default |}.

(** One section: the state it leaves and its output. *)
Definition biquad (c : BiquadCoeffs) (s : BiquadState) (y : float) : BiquadState * float :=
  let out := fadd (fmul (bq_b0 c) y) (bs_s1 s) in
  ({| bs_s1 := fadd (fsub (fmul (bq_b1 c) y) (fmul (bq_a1 c) out)) (bs_s2 s);
      bs_s2 := fsub (fmul (bq_b2 c) y) (fmul (bq_a2 c) out) |}, out).

(** The loop over the zipped sections. *)
Fixpoint process_sections (cs : list BiquadCoeffs) (ss : list BiquadState) (y : float)
    : list BiquadState * float :=
  match cs, ss with
  | c :: cs, s :: ss =>
      let '(s', out) := biquad c s y in
      let '(ss', y') := process_sections cs ss out in
      (s' :: ss', y')
  | _, _ => (ss, y)
  end.

Definition SosFilter_process (f : SosFilter) (x : float) : SosFilter * float :=
  let '(ss, y) := process_sections (sos_coeffs f) (sos_state f) x in
  ({| sos_coeffs := sos_coeffs f; sos_state := ss |}, y).

(** A signal through the filter, sample by sample. *)
Fixpoint SosFilter_run (f : SosFilter) (xs : list float) : SosFilter * list float :=
  match xs with
  | [] => (f, [])
  | x :: xs =>
      let '(f', y) := SosFilter_process f x in
      let '(f'', ys) := SosFilter_run f' xs in
      (f'', y :: ys)
  end.

Definition sos_wf (f : SosFilter) : Prop := length (sos_coeffs f) = length (sos_state f).

(** The cascade of two filters. *)
Definition sos_app (f g : SosFilter) : SosFilter :=
  {| sos_coeffs := sos_coeffs f ++ sos_coeffs g; sos_state := sos_state f ++ sos_state g |}.

(** ** Lemmas *)

Lemma process_sections_app cs ds ss ts y :
  length cs = length ss ->
  process_sections (cs ++ ds) (ss ++ ts) y
  = let '(ss', y') := process_sections cs ss y in
    let '(ts', y'') := process_sections ds ts y' in (ss' ++ ts', y'').
Proof.
  revert ss y. induction cs as [|c cs IH]; intros [|s ss] y; cbn [length]; try done; intros Hl.
  - cbn. by destruct (process_sections ds ts y).
  - cbn [app process_sections biquad]. rewrite IH by lia.
    destruct (process_sections cs ss _) as [ss' y']. by destruct (process_sections ds ts y').
Qed.

Lemma process_sections_length cs ss y :
  length (process_sections cs ss y).1 = length ss.
Proof.
  revert ss y. induction cs as [|c cs IH]; intros [|s ss] y; cbn [process_sections biquad]; try done.
  specialize (IH ss (fadd (fmul (bq_b0 c) y) (bs_s1 s))).
  destruct (process_sections cs ss _) as [ss' y']. cbn in *. by rewrite IH.
Qed.

Lemma process_wf f x : sos_wf f -> sos_wf (SosFilter_process f x).1.
Proof.
  unfold sos_wf, SosFilter_process. intros Hf.
  pose proof (process_sections_length (sos_coeffs f) (sos_state f) x) as Hl.
  destruct (process_sections _ _ _) as [ss y]. cbn in *. by rewrite Hl.
Qed.

Lemma process_app f g x :
  sos_wf f ->
  SosFilter_process (sos_app f g) x
  = let '(f', y) := SosFilter_process f x in
    let '(g', z) := SosFilter_process g y in (sos_app f' g', z).
Proof.
  intros Hf. unfold SosFilter_process, sos_app. cbn [sos_coeffs sos_state].
  rewrite process_sections_app by done.
  destruct (process_sections (sos_coeffs f) _ _) as [ss y].
  by destruct (process_sections (sos_coeffs g) _ _) as [ts z].
Qed.

(** ** Properties *)

(** A cascade is composition: running a signal through the sections of [f]
    followed by those of [g] is running it through [f] and then running the
    filtered signal through [g], sample for sample and state for state. *)
Theorem cascade_is_composition (f g : SosFilter) (xs : list float) (Hf : sos_wf f) :
  SosFilter_run (sos_app f g) xs
  = let '(f', ys) := SosFilter_run f xs in
    let '(g', zs) := SosFilter_run g ys in (sos_app f' g', zs).
Proof.
  revert f g Hf. induction xs as [|x xs IH]; intros f g Hf; [done|].
  cbn [SosFilter_run]. rewrite process_app by done.
  pose proof (process_wf f x Hf) as Hf'.
  destruct (SosFilter_process f x) as [f' y]. cbn [fst] in Hf'.
  destruct (SosFilter_process g y) as [g' z] eqn:Eg. rewrite IH by done.
  destruct (SosFilter_run f' xs) as [f'' ys]. cbn [SosFilter_run]. rewrite Eg.
  by destruct (SosFilter_run g' ys).
Qed.

Lemma cascade_is_composition_witness :
  SosFilter_run (sos_app (SosFilter_identity 1) (SosFilter_identity 1)) [f1; f0]
  = let '(f', ys) := SosFilter_run (SosFilter_identity 1) [f1; f0] in
    let '(g', zs) := SosFilter_run (SosFilter_identity 1) ys in (sos_app f' g', zs).
Proof. by apply cascade_is_composition. Defined.

Example identity_passes_through :
  (SosFilter_run (SosFilter_identity 2)
     [f0; f1; fneg (flit 7 2); f32_of_Z 100]).2 = [f0; f1; fneg (flit 7 2); f32_of_Z 100].
Proof. by vm_compute. Qed.
