(* ===== verification/Ssi.v ===== *)
(** * SSI encoder words (helic-drivers/src/ssi.rs)

    Decoding of binary and Gray-coded SSI words and the separation of two words
    that a dual reader interleaves bit by bit. *)

From S2P Require Import Prelude Float32.

#[export] Set Default Goal Selector "!".
Open Scope Z_scope.

Inductive SsiError := InvalidFormat | InvalidWord.

#[export] Instance SsiError_eq_dec : EqDecision SsiError.
Proof. solve_decision. Defined.

Record SsiFormat := { sf_bits : Z; sf_gray : bool }.

(** The loop over [shift], which doubles until it is 32; five turns. *)
Fixpoint gray_loop (fuel : nat) (shift binary : Z) : option Z :=
  if shift <? 32 then
    match fuel with
    | O => None
    | S fuel => gray_loop fuel (wrap 32 (Z.shiftl shift 1)) (Z.lxor binary (Z.shiftr binary shift))
    end
  else Some binary.

(** [Panic] would be a loop that does not end; five turns are enough. *)
Definition SsiFormat_decode (f : SsiFormat) (raw : Z) : outcome SsiError Z :=
  if negb ((1 <=? sf_bits f) && (sf_bits f <=? 32)) then Err InvalidFormat else
  let mask := if sf_bits f =? 32 then umax 32 else Z.shiftl 1 (sf_bits f) - 1 in
  if negb (Z.land raw (Z.lxor mask (umax 32)) =? 0) then Err InvalidWord else
  if negb (sf_gray f) then Ok raw else
  binary ← or_panic (gray_loop 5 1 raw);
  Ok (Z.land binary mask).

Definition deinterleave_pair (raw bits : Z) : outcome SsiError (Z * Z) :=
  if negb ((1 <=? bits) && (bits <=? 16)) then Err InvalidFormat else
  let used := bits * 2 in
  if (used <? 32) && negb (Z.shiftr raw used =? 0) then Err InvalidWord else
  Ok (fold_left (fun '(w0, w1) bit =>
        let shift := bit * 2 in
        (Z.lor w0 (Z.shiftl (Z.land (Z.shiftr raw shift) 1) bit),
         Z.lor w1 (Z.shiftl (Z.land (Z.shiftr raw (shift + 1)) 1) bit))) (seqZ 0 bits) (0, 0)).

(** [None] is the panic of [%] by zero. *)
Definition SsiScale_position (counts_per_rev counts : Z) : option float :=
  if counts_per_rev =? 0 then None
  else Some (fdiv (f32_of_Z (counts mod counts_per_rev)) (f32_of_Z counts_per_rev)).

(** ** Reference codes *)

(** The reflected binary code of [binary]. *)
Definition gray_of (binary : Z) : Z := Z.lxor binary (Z.shiftr binary 1).

(** Bit [2 i] is bit [i] of [a], bit [2 i + 1] is bit [i] of [b]. *)
Fixpoint interleave (n : nat) (a b : Z) : Z :=
  match n with
  | O => 0
  | S n => a mod 2 + 2 * (b mod 2) + 4 * interleave n (a / 2) (b / 2)
  end.

(** ** Lemmas *)

(** One turn of the loop on a code [x ^ (x >> k)]. *)
Definition fold_code (k x : Z) : Z := Z.lxor x (Z.shiftr x k).

Lemma fold_code_twice k x : 0 <= k -> fold_code k (fold_code k x) = fold_code (2 * k) x.
Proof.
  intros Hk. unfold fold_code. rewrite Z.shiftr_lxor, Z.shiftr_shiftr by done.
  replace (k + k) with (2 * k) by lia.
  rewrite Z.lxor_assoc, <-(Z.lxor_assoc (Z.shiftr x k) (Z.shiftr x k)), Z.lxor_nilpotent, Z.lxor_0_l. done.
Qed.

Lemma fold_code_comm j k x : 0 <= j -> 0 <= k -> fold_code j (fold_code k x) = fold_code k (fold_code j x).
Proof.
  intros Hj Hk. unfold fold_code. rewrite !Z.shiftr_lxor, !Z.shiftr_shiftr by done. rewrite (Z.add_comm j k).
  rewrite !Z.lxor_assoc. f_equal. rewrite <-!Z.lxor_assoc. f_equal. apply Z.lxor_comm.
Qed.

Lemma gray_loop_fold raw :
  gray_loop 5 1 raw = Some (fold_code 16 (fold_code 8 (fold_code 4 (fold_code 2 (fold_code 1 raw))))).
Proof. reflexivity. Qed.

Lemma fold_code_small x : fits 32 x -> fold_code 32 x = x.
Proof.
  intros Hx. unfold fold_code. rewrite Z.shiftr_div_pow2, Z.div_small by (done || exact Hx). apply Z.lxor_0_r.
Qed.

(** The loop inverts the code. *)
Lemma gray_loop_gray binary : fits 32 binary -> gray_loop 5 1 (gray_of binary) = Some binary.
Proof.
  intros Hb. rewrite gray_loop_fold. change (gray_of binary) with (fold_code 1 binary).
  rewrite (fold_code_twice 1), (fold_code_twice 2), (fold_code_twice 4), (fold_code_twice 8), (fold_code_twice 16) by done.
  by rewrite fold_code_small.
Qed.

Lemma fold_code_fits n k x : 0 <= n -> 0 <= k -> fits n x -> fits n (fold_code k x).
Proof.
  intros Hn Hk Hx. assert (0 <= x) by apply Hx.
  assert (0 <= Z.shiftr x k) by by apply Z.shiftr_nonneg.
  apply fits_bits; [done|by apply Z.lxor_nonneg|].
  intros i Hi. unfold fold_code. rewrite Z.lxor_spec, Z.shiftr_spec by lia.
  apply fits_bits in Hx; [|done..]. by rewrite !Hx by lia.
Qed.

Lemma mask_ones bits : 1 <= bits <= 32 -> (if bits =? 32 then umax 32 else Z.shiftl 1 bits - 1) = Z.ones bits.
Proof.
  intros Hb. rewrite Z.ones_equiv. destruct (Z.eqb_spec bits 32) as [->|]; [done|].
  rewrite Z.shiftl_mul_pow2 by lia. lia.
Qed.

(** [raw & !mask] looks at the bits above. *)
Lemma land_not_mask raw bits :
  1 <= bits <= 32 -> fits 32 raw -> Z.land raw (Z.lxor (Z.ones bits) (umax 32)) = 0 <-> fits bits raw.
Proof.
  intros Hb Hr. assert (Hr0 : 0 <= raw) by apply Hr. rewrite (fits_bits bits) by lia.
  apply fits_bits in Hr; [|done..]. change (umax 32) with (Z.ones 32). split.
  - intros H i Hi. assert (Hbit := f_equal (fun z => Z.testbit z i) H). cbn beta in Hbit.
    rewrite Z.land_spec, Z.lxor_spec, Z.bits_0 in Hbit. destruct (Z.lt_ge_cases i 32); [|by apply Hr].
    rewrite (Z.ones_spec_high bits), (Z.ones_spec_low 32) in Hbit by lia. by rewrite andb_true_r in Hbit.
  - intros H. apply Z.bits_inj'. intros i Hi. rewrite Z.land_spec, Z.lxor_spec, Z.bits_0.
    destruct (Z.lt_ge_cases i bits).
    + rewrite !Z.ones_spec_low by lia. apply andb_false_r.
    + by rewrite H.
Qed.

Lemma land_ones_fits n x : 0 <= n -> fits n x -> Z.land x (Z.ones n) = x.
Proof. intros Hn Hx. rewrite Z.land_ones by done. by apply Z.mod_small. Qed.

(** *** Interleaved words *)

Lemma testbit_cons (c : bool) z j : 0 <= j ->
  Z.testbit (2 * z + Z.b2z c) 0 = c /\ Z.testbit (2 * z + Z.b2z c) (j + 1) = Z.testbit z j.
Proof. intros Hj. split; [apply Z.testbit_0_r|]. by apply Z.testbit_succ_r. Qed.

Lemma testbit_half x j : 0 <= j -> Z.testbit (x / 2) j = Z.testbit x (j + 1).
Proof. intros Hj. by rewrite <-Z.div2_div, Z.div2_spec, Z.shiftr_spec. Qed.

Lemma interleave_testbit n a b i : 0 <= i ->
  Z.testbit (interleave n a b) (2 * i) = (i <? Z.of_nat n) && Z.testbit a i
  /\ Z.testbit (interleave n a b) (2 * i + 1) = (i <? Z.of_nat n) && Z.testbit b i.
Proof.
  revert a b i. induction n as [|n IH]; intros a b i Hi.
  { cbn [interleave]. change (Z.of_nat 0) with 0. rewrite (proj2 (Z.ltb_ge i 0)) by done. by rewrite !Z.bits_0. }
  cbn [interleave]. set (r := interleave n (a / 2) (b / 2)).
  assert (Hm : forall x, x mod 2 = Z.b2z (Z.testbit x 0)) by (intros x; by rewrite Z.bit0_mod).
  rewrite !Hm. set (inner := 2 * r + Z.b2z (Z.testbit b 0)).
  replace (_ + 4 * r) with (2 * inner + Z.b2z (Z.testbit a 0)) by (unfold inner; lia).
  destruct (Z.eq_dec i 0) as [->|Hne].
  - rewrite (proj2 (Z.ltb_lt 0 _)) by lia. cbn [andb]. change (2 * 0) with 0. split.
    + by apply testbit_cons with (j := 0).
    + rewrite (proj2 (testbit_cons _ inner 0 ltac:(done))). by apply testbit_cons with (j := 0).
  - destruct (IH (a / 2) (b / 2) (i - 1)) as [H1 H2]; [lia|]. fold r in H1, H2.
    rewrite !testbit_half in H1, H2 by lia. replace (i - 1 + 1) with i in H1, H2 by lia.
    replace (i <? Z.of_nat (Datatypes.S n)) with (i - 1 <? Z.of_nat n)
      by (destruct (Z.ltb_spec (i - 1) (Z.of_nat n)), (Z.ltb_spec i (Z.of_nat (Datatypes.S n))); lia || done).
    rewrite <-H1, <-H2. split.
    + replace (2 * i) with (2 * (i - 1) + 1 + 1) by lia.
      rewrite (proj2 (testbit_cons _ inner (2 * (i - 1) + 1) ltac:(lia))).
      exact (proj2 (testbit_cons _ r (2 * (i - 1)) ltac:(lia))).
    + replace (2 * i + 1) with (2 * (i - 1) + 1 + 1 + 1) by lia.
      rewrite (proj2 (testbit_cons _ inner (2 * (i - 1) + 1 + 1) ltac:(lia))).
      exact (proj2 (testbit_cons _ r (2 * (i - 1) + 1) ltac:(lia))).
Qed.

Lemma interleave_bounds n a b : 0 <= interleave n a b < 4 ^ Z.of_nat n.
Proof.
  revert a b. induction n as [|n IH]; intros a b; [done|]. cbn [interleave]. specialize (IH (a / 2) (b / 2)).
  rewrite Nat2Z.inj_succ, Z.pow_succ_r by lia. pose proof (Z.mod_pos_bound a 2). pose proof (Z.mod_pos_bound b 2). lia.
Qed.

Lemma bit_section w x s k i :
  0 <= k -> 0 <= i -> 0 <= s ->
  Z.testbit (Z.lor w (Z.shiftl (Z.land (Z.shiftr x s) 1) k)) i = Z.testbit w i || (i =? k) && Z.testbit x s.
Proof.
  intros Hk Hi Hs. rewrite Z.lor_spec. f_equal. rewrite Z.shiftl_spec by done.
  destruct (Z.eqb_spec i k) as [->|Hne]; cbn [andb].
  - rewrite Z.sub_diag, Z.land_spec, Z.shiftr_spec by done. by rewrite Z.add_0_l, andb_true_r.
  - destruct (Z.lt_ge_cases i k); [by apply Z.testbit_neg_r; lia|].
    rewrite Z.land_spec. change 1 with (Z.ones 1). rewrite (Z.ones_spec_high 1) by lia. apply andb_false_r.
Qed.

Lemma deinterleave_bits raw n :
  let '(w0, w1) := fold_left (fun '(w0, w1) bit =>
        let shift := bit * 2 in
        (Z.lor w0 (Z.shiftl (Z.land (Z.shiftr raw shift) 1) bit),
         Z.lor w1 (Z.shiftl (Z.land (Z.shiftr raw (shift + 1)) 1) bit))) (seqZ 0 (Z.of_nat n)) (0, 0) in
  forall i, 0 <= i -> Z.testbit w0 i = (i <? Z.of_nat n) && Z.testbit raw (2 * i)
                   /\ Z.testbit w1 i = (i <? Z.of_nat n) && Z.testbit raw (2 * i + 1).
Proof.
  induction n as [|n IH].
  { change (seqZ 0 (Z.of_nat 0)) with (@nil Z). cbn [fold_left]. intros i Hi. change (Z.of_nat 0) with 0.
    by rewrite (proj2 (Z.ltb_ge i 0)), !Z.bits_0 by done. }
  rewrite seqZ_S, fold_left_app. destruct (fold_left _ (seqZ 0 (Z.of_nat n)) (0, 0)) as [w0 w1].
  cbn [fold_left]. rewrite Z.add_0_l. intros i Hi.
  rewrite !bit_section by lia. destruct (IH i Hi) as [-> ->].
  destruct (Z.ltb_spec i (Z.of_nat n)), (Z.eqb_spec i (Z.of_nat n)), (Z.ltb_spec i (Z.of_nat (Datatypes.S n))); try lia;
    cbn [andb orb]; rewrite ?orb_false_r; try done. subst i. by rewrite (Z.mul_comm _ 2).
Qed.

Lemma bits_eq a b : (forall i, 0 <= i -> Z.testbit a i = Z.testbit b i) -> a = b.
Proof. intros H. by apply Z.bits_inj'. Qed.

Lemma parity i : 0 <= i -> exists j, 0 <= j /\ (i = 2 * j \/ i = 2 * j + 1).
Proof. intros Hi. exists (i / 2). split; [by apply Z.div_pos|]. div_lia. Qed.

(** The bits of the two words, for a raw word within the two widths. *)
Lemma deinterleave_spec bits x :
  1 <= bits <= 16 -> 0 <= x < 4 ^ bits ->
  exists a b, deinterleave_pair x bits = Ok (a, b)
    /\ forall i, 0 <= i -> Z.testbit a i = (i <? bits) && Z.testbit x (2 * i)
                        /\ Z.testbit b i = (i <? bits) && Z.testbit x (2 * i + 1).
Proof.
  intros Hb Hx. assert (Hpow : 4 ^ bits = 2 ^ (bits * 2)) by (rewrite Z.mul_comm, Z.pow_mul_r by lia; done).
  unfold deinterleave_pair. rewrite (proj2 (Z.leb_le 1 _)), (proj2 (Z.leb_le _ 16)) by lia. cbn [negb andb].
  assert (Hs : Z.shiftr x (bits * 2) = 0) by (rewrite Z.shiftr_div_pow2 by lia; apply Z.div_small; lia).
  rewrite Hs, Z.eqb_refl, andb_false_r.
  pose proof (deinterleave_bits x (Z.to_nat bits)) as H. rewrite Z2Nat.id in H by lia.
  destruct (fold_left _ _ _) as [a b]. by exists a, b.
Qed.

Lemma deinterleave_interleave bits a b :
  1 <= bits <= 16 -> fits bits a -> fits bits b -> deinterleave_pair (interleave (Z.to_nat bits) a b) bits = Ok (a, b).
Proof.
  intros Hb Ha Hb'. pose proof (interleave_bounds (Z.to_nat bits) a b) as Hx. rewrite Z2Nat.id in Hx by lia.
  destruct (deinterleave_spec bits _ Hb Hx) as (a' & b' & -> & H).
  apply fits_bits in Ha, Hb'; [|apply Hb' || apply Ha || lia..].
  f_equal. f_equal; apply bits_eq; intros i Hi; destruct (H i Hi) as [H1 H2];
    destruct (interleave_testbit (Z.to_nat bits) a b i Hi) as [H3 H4]; rewrite Z2Nat.id in H3, H4 by lia;
    rewrite ?H1, ?H2, ?H3, ?H4; destruct (Z.ltb_spec i bits); cbn [andb]; try done; symmetry; auto.
Qed.

(** ** Properties *)

(** Decoding of Gray-coded words: for every width from 1 to 32 a word is
    accepted exactly when it fits the width, and then what it decodes to fits
    too and is the one number whose reflected binary code it is. *)
Theorem gray_decode_exact (bits raw : Z) (Hb : 1 <= bits <= 32) (Hr : fits 32 raw) :
  (fits bits raw -> exists binary, SsiFormat_decode {| sf_bits := bits; sf_gray := true |} raw = Ok binary
     /\ fits bits binary /\ gray_of binary = raw
     /\ forall other, fits bits other -> gray_of other = raw -> other = binary)
  /\ (~ fits bits raw -> SsiFormat_decode {| sf_bits := bits; sf_gray := true |} raw = Err InvalidWord).
Proof.
  unfold SsiFormat_decode. cbn [sf_bits sf_gray negb].
  rewrite (proj2 (Z.leb_le 1 _)), (proj2 (Z.leb_le _ 32)) by lia. cbn [negb andb]. rewrite (mask_ones bits Hb).
  split; intros Hf.
  - rewrite (proj2 (Z.eqb_eq _ 0)) by by apply land_not_mask. cbn [negb]. rewrite gray_loop_fold. cbn [or_panic]. rewrite bind_Ok.
    set (binary := fold_code 16 _).
    assert (Hbin : fits bits binary) by (unfold binary; repeat apply fold_code_fits; lia || done).
    assert (H32 : fits 32 binary).
    { unfold fits in *. assert (2 ^ bits <= 2 ^ 32) by (apply Z.pow_le_mono_r; lia). lia. }
    rewrite land_ones_fits by (done || lia). exists binary. split; [done|]. split; [done|].
    split.
    + change (fold_code 1 binary = raw). unfold binary.
      rewrite (fold_code_comm 1 16), (fold_code_comm 1 8), (fold_code_comm 1 4), (fold_code_comm 1 2) by done.
      by rewrite (fold_code_twice 1), (fold_code_twice 2), (fold_code_twice 4), (fold_code_twice 8),
        (fold_code_twice 16), fold_code_small.
    + intros other Ho <-. assert (Ho32 : fits 32 other).
      { unfold fits in *. assert (2 ^ bits <= 2 ^ 32) by (apply Z.pow_le_mono_r; lia). lia. }
      apply gray_loop_gray in Ho32. rewrite gray_loop_fold in Ho32. by apply (inj Some) in Ho32.
  - rewrite (proj2 (Z.eqb_neq _ 0)); [done|]. by rewrite land_not_mask.
Qed.

(** Binary words pass unchanged or are refused, and so are impossible widths. *)
Theorem binary_decode_exact (bits raw : Z) (gray : bool) (Hr : fits 32 raw) :
  (1 <= bits <= 32 -> SsiFormat_decode {| sf_bits := bits; sf_gray := false |} raw
     = if bool_decide (fits bits raw) then Ok raw else Err InvalidWord)
  /\ (~ 1 <= bits <= 32 -> SsiFormat_decode {| sf_bits := bits; sf_gray := gray |} raw = Err InvalidFormat).
Proof.
  unfold SsiFormat_decode. cbn [sf_bits sf_gray negb]. split; intros Hb.
  - rewrite (proj2 (Z.leb_le 1 _)), (proj2 (Z.leb_le _ 32)) by lia. cbn [negb andb]. rewrite (mask_ones bits Hb).
    destruct (bool_decide_reflect (fits bits raw)) as [Hf|Hf].
    + by rewrite (proj2 (Z.eqb_eq _ 0)) by by apply land_not_mask.
    + rewrite (proj2 (Z.eqb_neq _ 0)); [done|]. by rewrite land_not_mask.
  - destruct (Z.leb_spec 1 bits), (Z.leb_spec bits 32); (done || lia).
Qed.

(** The two words of a dual reader: for every width from 1 to 16, interleaving
    two words that fit and separating them gives them back; a raw word is
    accepted exactly when nothing is set above the two widths, and then it is
    the interleaving of what it gives. *)
Theorem deinterleave_exact (bits raw : Z) (Hb : 1 <= bits <= 16) (Hr : fits 32 raw) :
  (forall a b, fits bits a -> fits bits b -> deinterleave_pair (interleave (Z.to_nat bits) a b) bits = Ok (a, b))
  /\ (raw < 4 ^ bits -> exists a b, deinterleave_pair raw bits = Ok (a, b) /\ raw = interleave (Z.to_nat bits) a b)
  /\ (4 ^ bits <= raw -> deinterleave_pair raw bits = Err InvalidWord).
Proof.
  assert (Hpow : 4 ^ bits = 2 ^ (bits * 2)) by (rewrite Z.mul_comm, Z.pow_mul_r by lia; done).
  split; [|split].
  - intros a b. by apply deinterleave_interleave.
  - intros Hlt. destruct (deinterleave_spec bits raw Hb) as (a & b & E & H); [split; [apply Hr|done]|]. exists a, b. split; [done|].
    apply bits_eq. intros i Hi. destruct (parity i Hi) as (j & Hj & Hij).
    destruct (interleave_testbit (Z.to_nat bits) a b j Hj) as [H3 H4]. rewrite Z2Nat.id in H3, H4 by lia.
    destruct (H j Hj) as [H1 H2].
    assert (Hhigh : bits <= j -> Z.testbit raw i = false).
    { intros Hbj. assert (Hrf : fits (bits * 2) raw) by (split; [apply Hr|by rewrite <-Hpow]).
      apply fits_bits in Hrf; [|lia|apply Hr]. apply Hrf. lia. }
    destruct Hij as [-> | ->]; [rewrite H3, H1|rewrite H4, H2];
      (destruct (Z.ltb_spec j bits) as [Hlj|Hlj]; cbn [andb]; [done|by apply Hhigh]).
  - intros Hge. unfold deinterleave_pair. rewrite (proj2 (Z.leb_le 1 _)), (proj2 (Z.leb_le _ 16)) by lia. cbn [negb andb].
    assert (Hlt : bits * 2 < 32).
    { destruct (Z.eq_dec bits 16) as [->|]; [|lia]. unfold fits in Hr. change (4 ^ 16) with (2 ^ 32) in Hge. lia. }
    rewrite (proj2 (Z.ltb_lt _ _) Hlt), (proj2 (Z.eqb_neq _ 0)); [done|].
    rewrite Z.shiftr_div_pow2 by lia. rewrite Hpow in Hge.
    assert (0 < raw / 2 ^ (bits * 2)); [|lia]. apply Z.div_str_pos. split; [by apply Z.pow_pos_nonneg; lia|done].
Qed.

Lemma gray_decode_exact_witness :
  exists binary, SsiFormat_decode {| sf_bits := 12; sf_gray := true |} (gray_of 1234) = Ok binary /\ gray_of binary = gray_of 1234.
Proof.
  destruct (gray_decode_exact 12 (gray_of 1234) ltac:(lia) ltac:(by vm_compute)) as [H _].
  destruct H as (binary & E & _ & Hg & _); [by vm_compute|]. by exists binary.
Defined.

Lemma binary_decode_exact_witness :
  SsiFormat_decode {| sf_bits := 12; sf_gray := false |} 0x1000 = Err InvalidWord.
Proof. rewrite (proj1 (binary_decode_exact 12 0x1000 false ltac:(by vm_compute)) ltac:(lia)). reflexivity. Defined.

Lemma deinterleave_exact_witness : deinterleave_pair (interleave 12 1234 4000) 12 = Ok (1234, 4000).
Proof. apply (deinterleave_exact 12 0); [lia|by vm_compute|by vm_compute|by vm_compute]. Defined.
