(* ===== verification/Ad7609.v ===== *)
(** * AD7609 analogue input (helic-drivers/src/ad7609.rs)

    The 144-bit conversion frame of the 8-channel, 18-bit converter, and its
    configuration pins.  The SPI bus and the pins are [embedded-hal] traits: a
    read gives the bytes received or an error, a pin call is an event (its
    error is dropped by the source), and a delay is an event. *)

From S2P Require Import Prelude Float32.

#[export] Set Default Goal Selector "!".
Open Scope Z_scope.

Definition CHANNELS : Z := 8.
Definition BITS : Z := 18.

Inductive InputRange := Bipolar10V | Bipolar20V.

Definition InputRange_fsr (r : InputRange) : float :=
  match r with Bipolar10V => f32_of_Z 20 | Bipolar20V => f32_of_Z 40 end.

Definition InputRange_scale (r : InputRange) : float := fdiv (InputRange_fsr r) (f32_of_Z (Z.shiftl 1 BITS)).

Definition pin_high (r : InputRange) : bool := match r with Bipolar20V => true | Bipolar10V => false end.

Inductive Oversampling := Os1 | Os2 | Os4 | Os8 | Os16 | Os32 | Os64.

Definition Oversampling_u8 (o : Oversampling) : Z :=
  match o with Os1 => 0 | Os2 => 1 | Os4 => 2 | Os8 => 3 | Os16 => 4 | Os32 => 5 | Os64 => 6 end.

Definition for_sample_rate (fs : float) : Oversampling :=
  if fgt fs (f32_of_Z 13700) then Os2
  else if fgt fs (f32_of_Z 10300) then Os4
  else if fgt fs (f32_of_Z 6000) then Os8
  else if fgt fs (f32_of_Z 3000) then Os16
  else if fgt fs (f32_of_Z 1500) then Os32
  else Os64.

(** [x as i32] of a [u32]. *)
Definition as_i32 (x : Z) : Z := if x <? 2 ^ 31 then x else x - 2 ^ 32.

(** One turn of the inner loop. *)
Definition channel_bit (raw : list Z) (bit_idx acc : Z) : option Z :=
  byte ← index raw (bit_idx / 8);
  let bit := Z.land (Z.shiftr byte (7 - bit_idx mod 8)) 1 in
  Some (Z.lor (wrap 32 (Z.shiftl acc 1)) bit).

Definition decode_channel (raw : list Z) (ch : Z) : option Z :=
  acc ← for_each (channel_bit raw) (seqZ (ch * 18) 18) 0;
  Some (Z.shiftr (as_i32 (wrap 32 (Z.shiftl acc 14))) 14).

(** [None] would be an index out of bounds. *)
Definition decode_frame (raw : list Z) : option (list Z) :=
  mapM (decode_channel raw) (seqZ 0 CHANNELS).

(** ** The driver *)

Inductive Pin := PinOs0 | PinOs1 | PinOs2 | PinRange | PinReset.

#[export] Instance Pin_eq_dec : EqDecision Pin.
Proof. solve_decision. Defined.

Inductive PinEvent := PinState (p : Pin) (high : bool) | DelayUs (us : Z).

Record Ad7609 := { ad_range : InputRange; ad_events : list PinEvent }.

Definition emit (a : Ad7609) (es : list PinEvent) : Ad7609 := a <| ad_events := ad_events a ++ es |>.

Definition Ad7609_new : Ad7609 := {| ad_range := Bipolar10V; ad_events := [] |}.

Definition set_range (a : Ad7609) (range : InputRange) : Ad7609 :=
  emit (a <| ad_range := range |>) [PinState PinRange (pin_high range)].

Definition set_oversampling (a : Ad7609) (os : Oversampling) : Ad7609 :=
  let bits := Oversampling_u8 os in
  emit a [PinState PinOs0 (negb (Z.land bits 1 =? 0)); PinState PinOs1 (negb (Z.land bits 2 =? 0));
          PinState PinOs2 (negb (Z.land bits 4 =? 0))].

Definition Ad7609_init (a : Ad7609) (range : InputRange) (os : Oversampling) : Ad7609 :=
  let a := set_range a range in
  let a := set_oversampling a os in
  emit a [PinState PinReset true; DelayUs 1; PinState PinReset false; DelayUs 1].

Definition Ad7609_scale (a : Ad7609) : float := InputRange_scale (ad_range a).

(** [received]: the 18 bytes of the SPI read, or its error. *)
Definition read_frame {E} (received : outcome E (list Z)) : outcome E (list Z) :=
  raw ← received;
  or_panic (decode_frame raw).

(** ** The frame as one number *)

(** A big-endian number of bytes. *)
Definition be_number (l : list Z) : Z := fold_left (fun n b => 256 * n + b) l 0.

(** Two's complement of 18 bits. *)
Definition signed18 (x : Z) : Z := if x <? 2 ^ 17 then x else x - 2 ^ 18.

(** Channel [ch] of a frame of 144 bits, the first channel in the top ones. *)
Definition channel_field (n ch : Z) : Z := n / 2 ^ (126 - 18 * ch) mod 2 ^ 18.

(** The frame of eight values. *)
Definition frame_number (values : list Z) : Z := fold_left (fun n v => 2 ^ 18 * n + v mod 2 ^ 18) values 0.

(** The level a pin is left at. *)
Definition level (events : list PinEvent) (p : Pin) : option bool :=
  last (omap (fun e => match e with
                       | PinState q high => if bool_decide (p = q) then Some high else None
                       | DelayUs _ => None
                       end) events).

(** ** Lemmas *)

Lemma be_number_snoc l b : be_number (l ++ [b]) = 256 * be_number l + b.
Proof. unfold be_number. by rewrite fold_left_app. Qed.

Lemma be_number_bounds l : bytes_ok l -> 0 <= be_number l < 256 ^ len l.
Proof.
  induction l as [|b l IH] using rev_ind; intros Hl; [done|]. apply Forall_app in Hl as [Hl Hb].
  apply Forall_cons in Hb as [Hb _]. specialize (IH Hl). rewrite be_number_snoc, len_app. change (len [b]) with 1.
  unfold is_byte, fits in Hb. rewrite Z.pow_add_r by (pose proof (len_nonneg l); lia). lia.
Qed.

(** Bit [i] of a frame, counted from the first byte's top bit. *)
Lemma be_number_bit l i :
  bytes_ok l -> 0 <= i < 8 * len l ->
  exists byte, index l (i / 8) = Some byte
    /\ Z.testbit (be_number l) (8 * len l - 1 - i) = Z.testbit byte (7 - i mod 8).
Proof.
  intros Hl. revert i. induction l as [|b l IH] using rev_ind; intros i Hi; [change (len []) with 0 in Hi; lia|].
  apply Forall_app in Hl as [Hl Hb]. apply Forall_cons in Hb as [Hb _]. unfold is_byte, fits in Hb.
  rewrite len_app in Hi |- *. change (len [b]) with 1 in *. pose proof (len_nonneg l). rewrite be_number_snoc.
  destruct (Z.lt_ge_cases i (8 * len l)) as [Hlt|Hge].
  - destruct (IH Hl i ltac:(lia)) as (byte & Hx & Ht). exists byte. split.
    + apply index_Some in Hx as [H0 Hx]. apply index_Some. split; [done|]. by apply lookup_app_l_Some.
    + rewrite <-Ht. replace (8 * (len l + 1) - 1 - i) with (8 * len l - 1 - i + 8) by lia.
      rewrite <-Z.shiftr_spec by lia. f_equal. rewrite Z.shiftr_div_pow2 by done. change (2 ^ 8) with 256. div_lia.
  - exists b. split.
    + apply index_app. assert (i / 8 = len l) by div_lia. lia.
    + replace (8 * (len l + 1) - 1 - i) with (7 - i mod 8) by div_lia.
      assert (0 <= 7 - i mod 8 < 8) by (pose proof (Z.mod_pos_bound i 8); lia).
      replace (256 * be_number l + b) with (be_number l * 2 ^ 8 + b) by lia.
      rewrite <-(Z.mod_pow2_bits_low _ 8) by lia. rewrite Z.add_comm, Z_mod_plus_full.
      by rewrite Z.mod_small by (change (2 ^ 8) with 256; lia).
Qed.

(** The bit of one turn of the loop. *)
Lemma frame_bit raw i :
  bytes_ok raw -> len raw = 18 -> 0 <= i < 144 ->
  exists byte, index raw (i / 8) = Some byte
    /\ Z.land (Z.shiftr byte (7 - i mod 8)) 1 = be_number raw / 2 ^ (143 - i) mod 2.
Proof.
  intros Hr Hl Hi. destruct (be_number_bit raw i Hr) as (byte & Hx & Ht); [lia|]. exists byte. split; [done|].
  rewrite Hl in Ht. change (8 * 18 - 1) with 143 in Ht.
  assert (0 <= 7 - i mod 8) by (pose proof (Z.mod_pos_bound i 8); lia).
  rewrite (Z.land_ones _ 1) by done. change (2 ^ 1) with 2. rewrite Z.shiftr_div_pow2 by done.
  assert (Hbit : forall x j, 0 <= j -> x / 2 ^ j mod 2 = Z.b2z (Z.testbit x j)) by (intros x j Hj; by rewrite Z.testbit_spec').
  rewrite !Hbit by lia. by rewrite Ht.
Qed.

(** [k] turns of the loop. *)
Lemma channel_loop raw ch k :
  bytes_ok raw -> len raw = 18 -> 0 <= ch < 8 -> (k <= 18)%nat ->
  for_each (channel_bit raw) (seqZ (ch * 18) (Z.of_nat k)) 0
  = Some (be_number raw / 2 ^ (144 - 18 * ch - Z.of_nat k) mod 2 ^ Z.of_nat k).
Proof.
  intros Hr Hl Hch. induction k as [|k IH]; intros Hk; [by rewrite Z.mod_1_r|].
  rewrite seqZ_S, for_each_app, IH by lia. rewrite bind_Some. cbn [for_each]. unfold channel_bit at 1.
  destruct (frame_bit raw (ch * 18 + Z.of_nat k) Hr Hl) as (byte & Hx & Hbit); [lia|].
  rewrite Hx. cbn [mbind option_bind]. rewrite Hbit. clear Hx Hbit.
  set (n := be_number raw). set (m := 143 - (ch * 18 + Z.of_nat k)).
  replace (144 - 18 * ch - Z.of_nat k) with (m + 1) by (unfold m; lia).
  replace (144 - 18 * ch - Z.of_nat (Datatypes.S k)) with m by (unfold m; lia).
  assert (Hm : 0 <= m) by (unfold m; lia).
  rewrite Z.pow_add_r, <-Z.div_div by (try apply Z.pow_pos_nonneg; lia). change (2 ^ 1) with 2. set (q := n / 2 ^ m).
  assert (Hp : 0 < 2 ^ Z.of_nat k <= 2 ^ 17).
  { split; [by apply Z.pow_pos_nonneg; lia|apply Z.pow_le_mono_r; lia]. }
  assert (Ha : 0 <= q / 2 mod 2 ^ Z.of_nat k < 2 ^ Z.of_nat k) by (apply Z.mod_pos_bound; lia).
  assert (Hb : 0 <= q mod 2 < 2 ^ 1) by by apply Z.mod_pos_bound.
  set (acc := q / 2 mod 2 ^ Z.of_nat k) in *.
  assert (Hw : wrap 32 (Z.shiftl acc 1) = Z.shiftl acc 1).
  { apply wrap_id. rewrite Z.shiftl_mul_pow2 by done. unfold fits. lia. }
  rewrite Hw, Z.lor_comm, lor_shift by done. rewrite Nat2Z.inj_succ, Z.pow_succ_r by lia. cbn [mbind option_bind mret option_ret].
  f_equal. rewrite Z.rem_mul_r by lia. fold acc. change (2 ^ 1) with 2. lia.
Qed.

Lemma as_signed18 x : 0 <= x < 2 ^ 18 -> Z.shiftr (as_i32 (wrap 32 (Z.shiftl x 14))) 14 = signed18 x.
Proof.
  intros Hx. rewrite Z.shiftl_mul_pow2 by done. rewrite wrap_id by (unfold fits; lia).
  rewrite Z.shiftr_div_pow2 by done. unfold as_i32, signed18.
  destruct (Z.ltb_spec (x * 2 ^ 14) (2 ^ 31)), (Z.ltb_spec x (2 ^ 17)); try lia.
  - by rewrite Z.div_mul.
  - replace (x * 2 ^ 14 - 2 ^ 32) with ((x - 2 ^ 18) * 2 ^ 14) by lia. by rewrite Z.div_mul.
Qed.

Lemma decode_frame_fields raw :
  bytes_ok raw -> len raw = 18 ->
  decode_frame raw = Some ((fun ch => signed18 (channel_field (be_number raw) ch)) <$> seqZ 0 8).
Proof.
  intros Hr Hl. unfold decode_frame. apply mapM_Some. apply Forall2_fmap_r, Forall_Forall2_diag, Forall_forall.
  intros ch Hch. apply elem_of_seqZ in Hch. unfold decode_channel.
  pose proof (channel_loop raw ch 18 Hr Hl ltac:(lia) ltac:(lia)) as Hc. change (Z.of_nat 18) with 18 in Hc.
  rewrite Hc, bind_Some. f_equal. replace (144 - 18 * ch - 18) with (126 - 18 * ch) by lia.
  apply as_signed18. by apply Z.mod_pos_bound.
Qed.

(** The fields of the frame of eight values. *)
Lemma signed18_mod v : - 2 ^ 17 <= v < 2 ^ 17 -> signed18 (v mod 2 ^ 18) = v.
Proof.
  intros Hv. unfold signed18. destruct (Z.ltb_spec (v mod 2 ^ 18) (2 ^ 17)); div_lia.
Qed.

Lemma frame_number_snoc l v : frame_number (l ++ [v]) = 2 ^ 18 * frame_number l + v mod 2 ^ 18.
Proof. unfold frame_number. by rewrite fold_left_app. Qed.

Lemma frame_number_app l1 l2 : frame_number (l1 ++ l2) = 2 ^ (18 * len l2) * frame_number l1 + frame_number l2.
Proof.
  induction l2 as [|v l2 IH] using rev_ind.
  - rewrite app_nil_r. change (18 * len []) with 0. change (frame_number []) with 0. lia.
  - rewrite app_assoc, !frame_number_snoc, IH, len_app. change (len [v]) with 1.
    replace (18 * (len l2 + 1)) with (18 + 18 * len l2) by lia. rewrite (Z.pow_add_r 2 18) by (pose proof (len_nonneg l2); lia). lia.
Qed.

Lemma frame_number_bounds l : 0 <= frame_number l < 2 ^ (18 * len l).
Proof.
  induction l as [|v l IH] using rev_ind; [done|]. rewrite frame_number_snoc, len_app. change (len [v]) with 1.
  pose proof (len_nonneg l). rewrite Z.mul_add_distr_l, Z.pow_add_r by lia. change (18 * 1) with 18.
  pose proof (Z.mod_pos_bound v (2 ^ 18) ltac:(done)). lia.
Qed.

Lemma frame_number_field values i v :
  len values = 8 -> values !! i = Some v -> channel_field (frame_number values) (Z.of_nat i) = v mod 2 ^ 18.
Proof.
  intros Hl Hi. pose proof (lookup_lt_Some _ _ _ Hi). unfold channel_field.
  rewrite <-(take_drop_middle values i v Hi) at 1. change (v :: drop (S i) values) with ([v] ++ drop (S i) values).
  rewrite app_assoc, frame_number_app, frame_number_snoc. pose proof (frame_number_bounds (drop (S i) values)) as Hb.
  assert (Hd : len (drop (S i) values) = 7 - Z.of_nat i) by (unfold len in *; rewrite length_drop; lia).
  rewrite Hd in *. replace (18 * (7 - Z.of_nat i)) with (126 - 18 * Z.of_nat i) in * by lia.
  assert (Z.of_nat i <= 7) by (unfold len in Hl; lia).
  assert (0 < 2 ^ (126 - 18 * Z.of_nat i)) by (apply Z.pow_pos_nonneg; lia).
  rewrite (Z.mul_comm (2 ^ (126 - _))), Z.div_add_l, Z.div_small by lia.
  rewrite Z.add_0_r, (Z.mul_comm (2 ^ 18)), Z.add_comm, Z_mod_plus_full. by rewrite Z.mod_mod.
Qed.

Lemma level_app es1 es2 p :
  level (es1 ++ es2) p = match level es2 p with Some high => Some high | None => level es1 p end.
Proof. unfold level. rewrite omap_app, last_app. by destruct (last (omap _ es2)). Qed.

(** ** Properties *)

(** The frame decoder reads eight two's complement fields of 18 bits, first
    channel first and most significant bit first, without ever leaving the 18
    bytes of the frame; so it inverts the packing of any eight values in
    range. *)
Theorem decode_frame_exact (raw : list Z) (Hr : bytes_ok raw) (Hl : len raw = 18) :
  decode_frame raw = Some ((fun ch => signed18 (channel_field (be_number raw) ch)) <$> seqZ 0 8)
  /\ forall values, len values = 8 -> Forall (fun v => - 2 ^ 17 <= v < 2 ^ 17) values ->
       be_number raw = frame_number values -> decode_frame raw = Some values.
Proof.
  pose proof (decode_frame_fields raw Hr Hl) as Hd. split; [done|]. intros values Hv Hf He. rewrite Hd, He. f_equal.
  apply list_eq. intros i. rewrite list_lookup_fmap. destruct (values !! i) as [v|] eqn:Ei.
  - pose proof (lookup_lt_Some _ _ _ Ei). rewrite (proj2 (lookup_seqZ _ _ _ _)) by (split; [reflexivity|unfold len in Hv; lia]).
    cbn [fmap option_fmap option_map]. f_equal. rewrite Z.add_0_l, (frame_number_field values i v) by done.
    apply signed18_mod. exact (Forall_lookup_1 _ _ _ _ Hf Ei).
  - apply lookup_ge_None in Ei. rewrite lookup_seqZ_ge; [done|]. unfold len in Hv. lia.
Qed.

(** Whatever the range and the oversampling, [init] leaves the pins at their
    codes and the reset line low, after a pulse. *)
Theorem init_sets_pins (a : Ad7609) (range : InputRange) (os : Oversampling) :
  let b := Ad7609_init a range os in
  ad_range b = range
  /\ level (ad_events b) PinRange = Some (pin_high range)
  /\ level (ad_events b) PinOs0 = Some (Z.testbit (Oversampling_u8 os) 0)
  /\ level (ad_events b) PinOs1 = Some (Z.testbit (Oversampling_u8 os) 1)
  /\ level (ad_events b) PinOs2 = Some (Z.testbit (Oversampling_u8 os) 2)
  /\ level (ad_events b) PinReset = Some false
  /\ exists before, ad_events b = before ++ [PinState PinReset true; DelayUs 1; PinState PinReset false; DelayUs 1].
Proof.
  cbn zeta. unfold Ad7609_init, set_oversampling, set_range, emit. cbn [ad_range ad_events set const].
  rewrite !level_app. split; [reflexivity|]. split; [reflexivity|].
  split; [destruct os; reflexivity|]. split; [destruct os; reflexivity|]. split; [destruct os; reflexivity|].
  split; [reflexivity|]. eexists. reflexivity.
Qed.

(** The eight values of the source's own test. *)
Definition sample_values : list Z := [131071; -131072; 0; -1; 1; 42; -31337; 65536].

Definition be_bytes (n : nat) (x : Z) : list Z := rev (le_bytes n x).

Lemma decode_frame_exact_witness : decode_frame (be_bytes 18 (frame_number sample_values)) = Some sample_values.
Proof.
  destruct (decode_frame_exact (be_bytes 18 (frame_number sample_values))) as [_ H].
  - apply (bool_decide_unpack _). by vm_compute.
  - by vm_compute.
  - apply H; [by vm_compute| |by vm_compute]. apply (bool_decide_unpack _). by vm_compute.
Defined.
