(* ===== verification/Ad5064.v ===== *)
(** * Analogue outputs (helic-drivers/src/ad5064.rs, pwm_out.rs)

    The 4-channel AD5064 converter and the PWM-backed output: words, voltage
    scaling and batches of writes.  The buses are [embedded-hal] traits: whether
    a call fails is asked of the environment, given the calls before it. *)

From S2P Require Import Prelude Float32 Ad7609.

#[export] Set Default Goal Selector "!".
Open Scope Z_scope.

(** ** Words *)

Definition DAC_CHANNELS : Z := 4.
Definition WORD_SETTLE_US : Z := 3.

Inductive Command :=
  | WriteInputReg | UpdateDacReg | WriteInputRegUpdateAll | WriteAndUpdate
  | PowerUpDown | LdacMaskReg | SoftwareReset | DaisyChainDisable.

Definition Command_u8 (c : Command) : Z :=
  match c with
  | WriteInputReg => 0 | UpdateDacReg => 1 | WriteInputRegUpdateAll => 2 | WriteAndUpdate => 3
  | PowerUpDown => 4 | LdacMaskReg => 5 | SoftwareReset => 6 | DaisyChainDisable => 8
  end.

(** [as u8] keeps the low byte; [channel << 4] is a shift of a [u8]. *)
Definition dac_frame (command : Command) (channel data : Z) : list Z :=
  [Command_u8 command;
   Z.lor (wrap 8 (Z.shiftl channel 4)) (wrap 8 (Z.shiftr data 12));
   wrap 8 (Z.shiftr data 4);
   wrap 8 (wrap 16 (Z.shiftl data 4))].

Inductive ChannelPolarity := Unipolar | Bipolar.

(** [None] is the panic of [clamp], which these limits exclude. *)
Definition code_for_volts (volts : float) (polarity : ChannelPolarity) (vref : float) : option Z :=
  let volts := if is_finite volts then volts else f0 in
  let normalized := match polarity with
                    | Unipolar => fdiv volts vref
                    | Bipolar => fdiv (fadd volts vref) (fmul (f32_of_Z 2) vref)
                    end in
  clamped ← fclamp normalized f0 f1;
  Some (cast_u16 (fadd (fmul clamped (f32_of_Z 65535)) (flit 1 2))).

(** ** The driver *)

Section driver.
Context {E : Type}.

Inductive DacEvent := Word (bytes : list Z) | Delay (us : Z).

(** Whether a word is refused, given what went before on the bus. *)
Definition Bus : Type := list DacEvent -> option E.

Record Ad5064 := { da_polarity : list ChannelPolarity; da_vref : float }.

(** A call leaves the events of the bus and its result. *)
Definition Called : Type := list DacEvent * outcome E unit.

Definition write_code (bus : Bus) (events : list DacEvent) (channel code : Z) : Called :=
  (events ++ [Word (dac_frame WriteAndUpdate (wrap 8 channel) code)],
   match bus events with Some e => Err e | None => Ok () end).

(** [Panic] is a channel the board does not have. *)
Definition write_volts (bus : Bus) (d : Ad5064) (events : list DacEvent) (channel : Z) (volts : float) : Called :=
  match (polarity ← index (da_polarity d) channel; code_for_volts volts polarity (da_vref d)) with
  | Some code => write_code bus events channel code
  | None => (events, Panic)
  end.

Definition zero_all (bus : Bus) (d : Ad5064) (events : list DacEvent) : Called :=
  fold_left (fun st ch => and_then st (fun events _ => write_volts bus d events ch f0))
    (seqZ 0 DAC_CHANNELS) (events, Ok ()).

Definition zero_all_with_delay (bus : Bus) (d : Ad5064) (events : list DacEvent) : Called :=
  fold_left (fun st ch =>
    and_then st (fun events _ =>
    and_then (write_volts bus d events ch f0) (fun events _ =>
      (if ch + 1 <? DAC_CHANNELS then events ++ [Delay WORD_SETTLE_US] else events, Ok ()))))
    (seqZ 0 DAC_CHANNELS) (events, Ok ()).

(** The loop from setpoint [i] of [n]. *)
Fixpoint write_setpoints (bus : Bus) (d : Ad5064) (i n : Z) (setpoints : list (Z * float)) (events : list DacEvent) : Called :=
  match setpoints with
  | [] => (events, Ok ())
  | (channel, volts) :: setpoints =>
      and_then (write_volts bus d events channel volts) (fun events _ =>
        let events := if i + 1 <? n then events ++ [Delay WORD_SETTLE_US] else events in
        write_setpoints bus d (i + 1) n setpoints events)
  end.

Definition write_volts_with_delay (bus : Bus) (d : Ad5064) (setpoints : list (Z * float)) (events : list DacEvent) : Called :=
  write_setpoints bus d 0 (len setpoints) setpoints events.
End driver.
Arguments Bus : clear implicits.
Arguments Called : clear implicits.

(** ** PWM outputs *)

Definition duty_for_volts (volts v_min v_max : float) (max_duty : Z) : option Z :=
  let volts := if is_finite volts then volts else f0 in
  normalized ← fclamp (fdiv (fsub volts v_min) (fsub v_max v_min)) f0 f1;
  Some (cast_u16 (fadd (fmul normalized (f32_of_Z max_duty)) (flit 1 2))).

(** A PWM slice: its top, and the duty it was last given. *)
Record PwmChannel := { pw_max : Z; pw_duty : Z }.

Record PwmOut := { po_channels : list PwmChannel; po_v_min : float; po_v_max : float }.

(** [None] is the failed assertion. *)
Definition PwmOut_new (channels : list PwmChannel) (v_min v_max : float) : option PwmOut :=
  if is_finite v_min && is_finite v_max && flt v_min v_max
  then Some {| po_channels := channels; po_v_min := v_min; po_v_max := v_max |} else None.

(** [set_duty_cycle]; [refused] is its error. *)
Definition set_duty {E} (p : PwmOut) (channel : Z) (duty : Z) (refused : option E) : PwmOut * outcome E unit :=
  match index (po_channels p) channel with
  | None => (p, Panic)
  | Some pwm =>
      match refused with
      | Some e => (p, Err e)
      | None => (p <| po_channels := <[Z.to_nat channel := pwm <| pw_duty := duty |>]> (po_channels p) |>, Ok ())
      end
  end.

Definition PwmOut_write_volts {E} (p : PwmOut) (channel : Z) (volts : float) (refused : option E) : PwmOut * outcome E unit :=
  match (pwm ← index (po_channels p) channel; duty_for_volts volts (po_v_min p) (po_v_max p) (pw_max pwm)) with
  | None => (p, Panic)
  | Some duty => set_duty p channel duty refused
  end.

(** [PwmOut::write]: the arithmetic is of [u32]; [None] is its overflow. *)
Definition duty_for_code (code max : Z) : option Z :=
  let product := code * max in
  if umax 32 <? product + umax 16 / 2 then None
  else Some (wrap 16 ((product + umax 16 / 2) / umax 16)).

Definition PwmOut_write {E} (p : PwmOut) (channel code : Z) (refused : option E) : PwmOut * outcome E unit :=
  match (pwm ← index (po_channels p) channel; duty_for_code code (pw_max pwm)) with
  | None => (p, Panic)
  | Some duty => set_duty p channel duty refused
  end.

Definition PwmOut_zero_all {E} (p : PwmOut) (refused : Z -> option E) : PwmOut * outcome E unit :=
  fold_left (fun st channel => and_then st (fun p _ => PwmOut_write_volts p channel f0 (refused channel)))
    (seqZ 0 (len (po_channels p))) (p, Ok ()).

(** ** What the converter is told *)

(** The words of a batch on the bus, each but the last followed by a delay. *)
Fixpoint spaced (words : list (list Z)) : list DacEvent :=
  match words with
  | [] => []
  | [w] => [Word w]
  | w :: words => Word w :: Delay WORD_SETTLE_US :: spaced words
  end.

(** The word of a setpoint, on a board that has its channel. *)
Definition setpoint_word (d : Ad5064) (setpoint : Z * float) : option (list Z) :=
  polarity ← index (da_polarity d) setpoint.1;
  code ← code_for_volts setpoint.2 polarity (da_vref d);
  Some (dac_frame WriteAndUpdate (wrap 8 setpoint.1) code).

(** ** Lemmas *)

Lemma wrap_byte_field x k : 0 <= k -> 0 <= x -> wrap 8 (Z.shiftr x k) = x / 2 ^ k mod 2 ^ 8.
Proof. intros Hk Hx. unfold wrap. by rewrite Z.shiftr_div_pow2. Qed.

Lemma code_spec volts polarity vref :
  exists code, code_for_volts volts polarity vref = Some code /\ fits 16 code
    /\ (is_finite volts = false -> code_for_volts volts polarity vref = code_for_volts f0 polarity vref).
Proof.
  assert (H : forall v, exists code, code_for_volts v polarity vref = Some code /\ fits 16 code).
  { intros v. unfold code_for_volts. set (normalized := match polarity with Unipolar => _ | Bipolar => _ end).
    destruct (fclamp_spec normalized f0 f1) as (r & Hr & _); [by vm_compute|]. rewrite Hr, bind_Some.
    eexists. split; [done|]. apply cast_u16_fits. }
  destruct (H volts) as (code & Hc & Hf). exists code. split; [done|]. split; [done|].
  intros Hn. unfold code_for_volts. by rewrite Hn.
Qed.

Lemma write_volts_word {E} (bus : Bus E) d events setpoint word :
  setpoint_word d setpoint = Some word ->
  write_volts bus d events setpoint.1 setpoint.2
  = (events ++ [Word word], match bus events with Some e => Err e | None => Ok () end).
Proof.
  unfold setpoint_word, write_volts, write_code. destruct (index _ _) as [polarity|]; [|done]. rewrite !bind_Some.
  destruct (code_for_volts _ _ _) as [code|]; [|done]. rewrite bind_Some. by intros [= <-].
Qed.

Lemma spaced_cons w words :
  spaced (w :: words) = Word w :: (if decide (words = []) then [] else Delay WORD_SETTLE_US :: spaced words).
Proof. by destruct words. Qed.

Lemma write_setpoints_spec {E} (bus : Bus E) d i setpoints words events :
  mapM (setpoint_word d) setpoints = Some words ->
  let '(events', r) := write_setpoints bus d i (i + len setpoints) setpoints events in
  exists k, (k <= length words)%nat /\
    match r with
    | Ok _ => events' = events ++ spaced words
    | Err _ => (k < length words)%nat /\ exists before, before ++ [Word (nth k words [])] = spaced (take (S k) words)
                 /\ events' = events ++ spaced (take (S k) words) /\ is_Some (bus (events ++ before))
    | Panic => False
    end.
Proof.
  revert i words events. induction setpoints as [|[channel volts] setpoints IH]; intros i words events Hm.
  { apply (inj Some) in Hm as <-. cbn [write_setpoints]. exists 0%nat. split; [done|]. by rewrite app_nil_r. }
  cbn [mapM] in Hm. apply option.bind_Some in Hm as (w & Hw & Hm). apply option.bind_Some in Hm as (ws & Hws & Hm).
  apply (inj Some) in Hm as <-. cbn [write_setpoints].
  pose proof (write_volts_word bus d events (channel, volts) w Hw) as Hv. cbn [fst snd] in Hv. rewrite Hv. clear Hv.
  rewrite len_cons. destruct (bus events) as [e|] eqn:Eb; cbn [and_then].
  { exists 0%nat. split; [lia|]. split; [cbn; lia|]. exists []. cbn [take nth spaced app]. rewrite app_nil_r. by split_and!. }
  assert (Hlen : length ws = length setpoints) by (apply mapM_Some, Forall2_length in Hws; done).
  set (events2 := if i + 1 <? i + (1 + len setpoints) then _ else _).
  specialize (IH (i + 1) ws events2 Hws). replace (i + 1 + len setpoints) with (i + (1 + len setpoints)) in IH by lia.
  assert (He2 : events2 = events ++ Word w :: (if decide (ws = []) then [] else [Delay WORD_SETTLE_US])).
  { unfold events2. destruct ws as [|w2 ws].
    - destruct setpoints; [|done]. change (len []) with 0. by rewrite (proj2 (Z.ltb_ge _ _)) by lia.
    - rewrite (proj2 (Z.ltb_lt _ _)) by (unfold len; cbn in Hlen; lia). by rewrite <-app_assoc. }
  destruct (write_setpoints _ _ _ _ _ _) as [events' r]. destruct IH as (k & Hk & IH).
  destruct r as [u|e|]; [| |done].
  - exists 0%nat. split; [lia|]. rewrite IH, He2, spaced_cons, <-app_assoc. cbn [app].
    destruct (decide (ws = [])) as [->|]; done.
  - destruct IH as (Hlt & before & Hb & -> & Hs). exists (S k). split; [cbn; lia|]. split; [cbn; lia|].
    destruct ws as [|w2 ws]; [cbn in Hlt; lia|]. cbn [decide] in He2.
    exists (Word w :: Delay WORD_SETTLE_US :: before). rewrite He2 in Hs |- *.
    change (take (S (S k)) (w :: w2 :: ws)) with (w :: take (S k) (w2 :: ws)). rewrite spaced_cons.
    rewrite decide_False by done. rewrite <-Hb. cbn [nth app]. split; [done|].
    split; [by rewrite <-app_assoc|]. rewrite <-app_assoc in Hs. exact Hs.
Qed.

Lemma zero_setpoints {E} (bus : Bus E) d events :
  zero_all_with_delay bus d events = write_volts_with_delay bus d [(0, f0); (1, f0); (2, f0); (3, f0)] events.
Proof.
  unfold zero_all_with_delay, write_volts_with_delay. change (seqZ 0 DAC_CHANNELS) with [0; 1; 2; 3].
  cbn [fold_left write_setpoints and_then len length Z.of_nat Pos.of_succ_nat Pos.succ].
  destruct (write_volts bus d events 0 f0) as [e0 [| |]]; cbn [and_then]; [|done|done].
  destruct (write_volts bus d _ 1 f0) as [e1 [| |]]; cbn [and_then]; [|done|done].
  destruct (write_volts bus d _ 2 f0) as [e2 [| |]]; cbn [and_then]; [|done|done].
  by destruct (write_volts bus d _ 3 f0) as [e3 [| |]].
Qed.

(** ** Properties *)

(** A word of the converter: four bytes that hold the command, the channel and
    the data in their fields, and nothing else. *)
Theorem dac_word_fields (command : Command) (channel data : Z) (Hc : 0 <= channel < 16) (Hd : fits 16 data) :
  bytes_ok (dac_frame command channel data) /\ len (dac_frame command channel data) = 4
  /\ be_number (dac_frame command channel data) = Command_u8 command * 2 ^ 24 + channel * 2 ^ 20 + data * 2 ^ 4.
Proof.
  unfold fits in Hd. unfold dac_frame.
  assert (H1 : wrap 8 (Z.shiftl channel 4) = Z.shiftl channel 4).
  { apply wrap_id. rewrite Z.shiftl_mul_pow2 by done. unfold fits. lia. }
  rewrite H1, !wrap_byte_field by lia.
  assert (H2 : data / 2 ^ 12 mod 2 ^ 8 = data / 2 ^ 12) by (apply Z.mod_small; div_lia). rewrite H2.
  rewrite Z.lor_comm, lor_shift by (try div_lia; lia).
  assert (H3 : wrap 8 (wrap 16 (Z.shiftl data 4)) = 16 * (data mod 2 ^ 4)).
  { rewrite Z.shiftl_mul_pow2 by done. unfold wrap. div_lia. }
  rewrite H3. split; [|split; [done|]].
  - pose proof (Z.mod_pos_bound (data / 2 ^ 4) (2 ^ 8) ltac:(done)). pose proof (Z.mod_pos_bound data (2 ^ 4) ltac:(done)).
    assert (0 <= data / 2 ^ 12 < 2 ^ 4) by div_lia.
    repeat (apply Forall_cons; split); [by destruct command| | | |by constructor]; unfold is_byte, fits; lia.
  - unfold be_number. cbn [fold_left]. div_lia.
Qed.

(** The code of a voltage is a 16-bit word for every input, NaN and infinities
    included, and what is not a number is sent as 0 V. *)
Theorem code_for_volts_total (volts : float) (polarity : ChannelPolarity) (vref : float) :
  exists code, code_for_volts volts polarity vref = Some code /\ fits 16 code
    /\ (is_finite volts = false -> code_for_volts volts polarity vref = code_for_volts f0 polarity vref).
Proof. apply code_spec. Qed.

(** Batches keep the settling time of the converter: when every channel of the
    setpoints exists, the bus sees their words in order with a delay between any
    two, all of them when the bus refuses none, and up to the refused one
    otherwise, whose error is returned; zeroing at start-up is the batch that
    sets the four channels to 0 V. *)
Theorem batch_spaced {E} (bus : Bus E) (d : Ad5064) (setpoints : list (Z * float)) (words : list (list Z))
    (events : list DacEvent) (Hw : mapM (setpoint_word d) setpoints = Some words) :
  let '(events', r) := write_volts_with_delay bus d setpoints events in
  match r with
  | Ok _ => events' = events ++ spaced words
  | Err _ => exists k before, (k < length words)%nat /\ before ++ [Word (nth k words [])] = spaced (take (S k) words)
               /\ events' = events ++ spaced (take (S k) words) /\ is_Some (bus (events ++ before))
  | Panic => False
  end
  /\ zero_all_with_delay bus d events = write_volts_with_delay bus d [(0, f0); (1, f0); (2, f0); (3, f0)] events.
Proof.
  pose proof (write_setpoints_spec bus d 0 setpoints words events Hw) as H. unfold write_volts_with_delay at 1.
  rewrite Z.add_0_l in H. destruct (write_setpoints _ _ _ _ _ _) as [events' r]. destruct H as (k & Hk & H).
  split; [|apply zero_setpoints]. destruct r; [done| |done]. destruct H as (Hlt & before & H). by exists k, before.
Qed.

(** Raw codes of the PWM output: the 32-bit arithmetic never overflows, and the
    duty is within the slice's range, nearest to the code's share of it, and
    monotone; zero and full scale are exact. *)
Theorem duty_for_code_nearest (code max : Z) (Hc : fits 16 code) (Hm : fits 16 max) :
  exists duty, duty_for_code code max = Some duty /\ 0 <= duty <= max
    /\ Z.abs (duty * umax 16 - code * max) <= umax 16 / 2
    /\ (code = 0 -> duty = 0) /\ (code = umax 16 -> duty = max)
    /\ forall code' duty', fits 16 code' -> code <= code' -> duty_for_code code' max = Some duty' -> duty <= duty'.
Proof.
  unfold fits in *.
  assert (Hok : forall c, 0 <= c < 2 ^ 16 -> duty_for_code c max = Some ((c * max + 32767) / 65535)
    /\ 0 <= (c * max + 32767) / 65535 <= max).
  { intros c Hcc. unfold duty_for_code, umax. change ((2 ^ 16 - 1) / 2) with 32767. change (2 ^ 16 - 1) with 65535.
    assert (Hp : 0 <= c * max <= 65535 * max) by nia. rewrite (proj2 (Z.ltb_ge _ _)) by lia.
    assert (Hb : 0 <= (c * max + 32767) / 65535 <= max).
    { split; [apply Z.div_pos; lia|]. apply Z.lt_succ_r, Z.div_lt_upper_bound; lia. }
    split; [|done]. by rewrite wrap_id by (unfold fits; lia). }
  destruct (Hok code Hc) as [-> Hb]. eexists. split; [done|]. split; [done|]. unfold umax.
  change ((2 ^ 16 - 1) / 2) with 32767. change (2 ^ 16 - 1) with 65535. split; [div_lia|].
  split; [intros ->; by rewrite Z.mul_0_l|]. split; [intros ->; div_lia|].
  intros code' duty' Hc' Hle Hd. destruct (Hok code' Hc') as [E' _]. rewrite E' in Hd. apply (inj Some) in Hd as <-.
  apply Z.div_le_mono; [done|]. nia.
Qed.

(** ** Examples *)

Definition sample_dac : Ad5064 :=
  {| da_polarity := replicate 4 Unipolar; da_vref := flit 4096 1000 |}.

(** 0 V, mid scale and full scale of the source's tests. *)
Lemma sample_codes :
  code_for_volts f0 Unipolar (flit 4096 1000) = Some 0
  /\ code_for_volts (flit 4096 1000) Unipolar (flit 4096 1000) = Some 65535
  /\ code_for_volts (flit 2048 1000) Unipolar (flit 4096 1000) = Some 32768
  /\ code_for_volts f0 Bipolar (flit 4096 1000) = Some 32768
  /\ code_for_volts S754_nan Bipolar (flit 4096 1000) = Some 32768
  /\ code_for_volts (S754_infinity true) Unipolar (flit 4096 1000) = Some 0.
Proof. by vm_compute. Qed.

Lemma dac_word_fields_witness : be_number (dac_frame WriteAndUpdate 2 0xABCD) = 0x032ABCD0.
Proof. rewrite (proj2 (proj2 (dac_word_fields WriteAndUpdate 2 0xABCD ltac:(lia) ltac:(by vm_compute)))). reflexivity. Defined.

Lemma batch_spaced_witness :
  (write_volts_with_delay (E := unit) (fun _ => None) sample_dac [(2, flit 2048 1000); (1, f0)] []).1
  = [Word [3; 0x28; 0; 0]; Delay 3; Word [3; 0x10; 0; 0]].
Proof.
  assert (Hm : mapM (setpoint_word sample_dac) [(2, flit 2048 1000); (1, f0)] = Some [[3; 0x28; 0; 0]; [3; 0x10; 0; 0]])
    by by vm_compute.
  pose proof (batch_spaced (E := unit) (fun _ => None) sample_dac _ _ [] Hm) as H.
  destruct (write_volts_with_delay _ _ _ _) as [events r]. destruct H as [H _]. clear Hm. destruct r as [u|e|]; [exact H| |contradiction H].
  destruct H as (k & before & _ & _ & _ & [x Hx]). discriminate Hx.
Defined.

Lemma duty_for_code_nearest_witness : exists duty, duty_for_code 65535 1023 = Some duty /\ duty = 1023.
Proof.
  destruct (duty_for_code_nearest 65535 1023 ltac:(by vm_compute) ltac:(by vm_compute)) as (duty & E & _ & _ & _ & H & _).
  exists duty. split; [exact E|by apply H].
Defined.
