(* ===== verification/Optoncdt.v ===== *)
(** * Laser sensor stream parsers (helic-drivers/src/optoncdt.rs)

    The two push parsers of the optoNCDT 1420 serial stream: the binary
    measurement values and the ASCII command replies that share the line.  Each
    is related to what it means on the whole history of the stream. *)

From S2P Require Import Prelude Float32.

#[export] Set Default Goal Selector "!".
Open Scope Z_scope.

(** ** Data *)

Record RawValue := { rv_value : Z; rv_first : bool }.

Inductive ParseEvent := Pending | Value (v : RawValue) | Resynchronised.

Inductive CommandReply := ReplyOk | ReplyError (code : Z).

Record CommandReplyParser := { cr_previous : Z; cr_window : Z; cr_error : option Z }.

Inductive Reading := InRange (mm : float) | BelowRange | AboveRange | SensorError (code : Z).

(** [stage]: 0 expects an L-byte, 1 an M-byte, 2 an H-byte. *)
Record Parser := { pa_acc : Z; pa_stage : Z }.

(** ** Command replies *)

Definition CommandReplyParser_new : CommandReplyParser :=
  {| cr_previous := 0; cr_window := 0; cr_error := None |}.

Definition is_ascii_digit (b : Z) : bool := (48 <=? b) && (b <=? 57).

(** The digits of an error code. *)
Definition error_code (b1 b2 b3 : Z) : Z := (b1 - 48) * 100 + (b2 - 48) * 10 + (b3 - 48).

Definition CommandReplyParser_push (p : CommandReplyParser) (byte : Z)
    : CommandReplyParser * option CommandReply :=
  let window := Z.lor (wrap 32 (Z.shiftl (cr_window p) 8)) byte in
  (* [window.to_be_bytes()] *)
  let b0 := Z.shiftr window 24 in
  let b1 := Z.land (Z.shiftr window 16) 255 in
  let b2 := Z.land (Z.shiftr window 8) 255 in
  let b3 := Z.land window 255 in
  let error := if (b0 =? 69) && is_ascii_digit b1 && is_ascii_digit b2 && is_ascii_digit b3
               then Some (error_code b1 b2 b3) else cr_error p in
  let complete := (cr_previous p =? 45) && (byte =? 62) in
  ({| cr_previous := byte; cr_window := window; cr_error := error |},
   if complete then Some (match error with Some code => ReplyError code | None => ReplyOk end)
   else None).

(** ** Measurements *)

Definition Parser_new : Parser := {| pa_acc := 0; pa_stage := 0 |}.

Definition Parser_push_event (p : Parser) (byte : Z) : Parser * ParseEvent :=
  let flags := Z.shiftr byte 6 in
  let data := Z.land byte 0x3F in
  if (pa_stage p =? 0) && (flags =? 0) then ({| pa_acc := data; pa_stage := 1 |}, Pending)
  else if (pa_stage p =? 1) && (flags =? 1)
  then ({| pa_acc := Z.lor (pa_acc p) (Z.shiftl data 6); pa_stage := 2 |}, Pending)
  else if (pa_stage p =? 2) && ((flags =? 2) || (flags =? 3))
  then ({| pa_acc := pa_acc p; pa_stage := 0 |},
        Value {| rv_value := Z.lor (pa_acc p) (Z.shiftl data 12); rv_first := flags =? 2 |})
  else if flags =? 0 then ({| pa_acc := data; pa_stage := 1 |}, Resynchronised)
  else ({| pa_acc := pa_acc p; pa_stage := 0 |}, Resynchronised).

Definition Parser_push (p : Parser) (byte : Z) : Parser * option RawValue :=
  let '(p, event) := Parser_push_event p byte in
  (p, match event with Value value => Some value | Pending | Resynchronised => None end).

(** ** Scaling *)

Definition SPAN_LO : Z := 643.
Definition SPAN_HI : Z := 64887.
Definition ERROR_FLOOR : Z := 65520.

(** [102.0 / (100.0 * 65520.0)], folded in [f32]. *)
Definition scale_factor : float := fdiv (f32_of_Z 102) (fmul (f32_of_Z 100) (f32_of_Z 65520)).

Definition DistanceScale_mm (measuring_range_mm : float) (x : Z) : float :=
  fmul (fsub (fmul (f32_of_Z x) scale_factor) (flit 1 100)) measuring_range_mm.

Definition DistanceScale_convert (measuring_range_mm : float) (raw : Z) : Reading :=
  let x := Z.land raw 0xFFFF in
  if ERROR_FLOOR <? x then SensorError x
  else if x <? SPAN_LO then BelowRange
  else if SPAN_HI <? x then AboveRange
  else InRange (DistanceScale_mm measuring_range_mm x).

(** ** Streams *)

(** Feeding bytes one at a time: the state and what every byte gave. *)
Fixpoint run {S O : Type} (push : S -> Z -> S * O) (s : S) (bytes : list Z) : S * list O :=
  match bytes with
  | [] => (s, [])
  | b :: bytes =>
      let '(s, o) := push s b in
      let '(s, os) := run push s bytes in
      (s, o :: os)
  end.

(** The three bytes of a value, as the manual has them. *)
Definition value_bytes (v : RawValue) : list Z :=
  [rv_value v mod 64; 64 + rv_value v / 64 mod 64;
   (if rv_first v then 128 else 192) + rv_value v / 4096].

Definition value_ok (v : RawValue) : Prop := fits 18 (rv_value v).

(** The last [E] with three digits of a stream, newest byte first. *)
Fixpoint last_error (newest_first : list Z) : option Z :=
  match newest_first with
  | [] => None
  | d3 :: older =>
      match older with
      | d2 :: d1 :: e :: _ =>
          if (e =? 69) && is_ascii_digit d1 && is_ascii_digit d2 && is_ascii_digit d3
          then Some (error_code d1 d2 d3) else last_error older
      | _ => None
      end
  end.

(** The reply a byte completes, given the stream up to it, newest byte first. *)
Definition reply_of (newest_first : list Z) : option CommandReply :=
  match newest_first with
  | 62 :: 45 :: _ =>
      Some (match last_error newest_first with Some code => ReplyError code | None => ReplyOk end)
  | _ => None
  end.

(** ** Lemmas *)

Lemma run_app {S O} (push : S -> Z -> S * O) s l1 l2 :
  run push s (l1 ++ l2)
  = let '(s1, o1) := run push s l1 in let '(s2, o2) := run push s1 l2 in (s2, o1 ++ o2).
Proof.
  revert s. induction l1 as [|b l1 IH]; intros s; cbn [run app].
  - by destruct (run push s l2).
  - destruct (push s b) as [s1 o]. rewrite IH. destruct (run push s1 l1) as [s2 o1].
    by destruct (run push s2 l2).
Qed.

(** A state that follows the history determines every output. *)
Lemma run_tracks {S O} (push : S -> Z -> S * O) (tracks : S -> list Z -> Prop) (out : list Z -> O) s h bytes :
  (forall s h b, is_byte b -> tracks s h -> tracks (push s b).1 (b :: h) /\ (push s b).2 = out (b :: h)) ->
  bytes_ok bytes -> tracks s h ->
  tracks (run push s bytes).1 (rev bytes ++ h)
  /\ (run push s bytes).2 = imap (fun i _ => out (rev (take (Datatypes.S i) bytes) ++ h)) bytes.
Proof.
  intros Hstep Hb. revert s h. induction Hb as [|b bytes Hb _ IH]; intros s h Ht; [done|].
  cbn [run]. destruct (Hstep s h b Hb Ht) as [Ht' Ho]. destruct (push s b) as [s1 o]. cbn [fst snd] in *.
  destruct (IH s1 (b :: h) Ht') as [Hr Hos]. destruct (run push s1 bytes) as [s2 os]. cbn [fst snd] in *.
  split.
  - cbn [rev]. rewrite <-app_assoc. exact Hr.
  - rewrite imap_cons. f_equal; [exact Ho|]. rewrite Hos. apply imap_ext. intros i x _.
    cbn [compose]. change (take (Datatypes.S (Datatypes.S i)) (b :: bytes)) with (b :: take (Datatypes.S i) bytes).
    cbn [rev]. by rewrite <-app_assoc.
Qed.

(** *** Measurements *)

Lemma byte_flags b : is_byte b -> Z.shiftr b 6 = b / 64 /\ Z.land b 0x3F = b mod 64 /\ 0 <= b / 64 < 4.
Proof.
  intros Hb. unfold is_byte, fits in Hb. split; [by rewrite Z.shiftr_div_pow2|].
  split; [by apply (Z.land_ones b 6)|]. div_lia.
Qed.

(** The value a byte completes, newest byte first. *)
Definition value_of (newest_first : list Z) : option RawValue :=
  match newest_first with
  | h :: m :: l :: _ =>
      if (l <? 64) && (64 <=? m) && (m <? 128) && (128 <=? h)
      then Some {| rv_value := l + 64 * (m - 64) + 4096 * (h mod 64); rv_first := h <? 192 |}
      else None
  | _ => None
  end.

(** Where the parser stands, newest byte first. *)
Inductive parser_tracks (p : Parser) : list Z -> Prop :=
  | tracks_l l older : 0 <= l < 64 -> p = {| pa_acc := l; pa_stage := 1 |} -> parser_tracks p (l :: older)
  | tracks_m l m older : 0 <= l < 64 -> 64 <= m < 128 ->
      p = {| pa_acc := l + 64 * (m - 64); pa_stage := 2 |} -> parser_tracks p (m :: l :: older)
  | tracks_none h : pa_stage p = 0 -> (forall l older, h = l :: older -> 64 <= l) ->
      (forall m l older, h = m :: l :: older -> 64 <= m < 128 -> 64 <= l) -> parser_tracks p h.

Lemma tracks_new : parser_tracks Parser_new [].
Proof. by apply tracks_none. Qed.

Lemma byte_cases b : is_byte b -> exists f d, b = 64 * f + d /\ 0 <= d < 64 /\ (f = 0 \/ f = 1 \/ f = 2 \/ f = 3)
  /\ Z.shiftr b 6 = f /\ Z.land b 0x3F = d.
Proof.
  intros Hb. destruct (byte_flags b Hb) as (-> & -> & Hf). exists (b / 64), (b mod 64).
  split; [by apply Z_div_mod_eq_full|]. split; [by apply Z.mod_pos_bound|]. split; [lia|done].
Qed.

Lemma value_of_low b h : b < 128 -> value_of (b :: h) = None.
Proof.
  intros Hb. destruct h as [|m [|l h]]; [done..|]. cbn [value_of].
  by rewrite (proj2 (Z.leb_gt 128 _)), andb_false_r by lia.
Qed.

Lemma value_of_not_m b m h : ~ 64 <= m < 128 -> value_of (b :: m :: h) = None.
Proof.
  intros Hm. destruct h as [|l h]; [done|]. cbn [value_of].
  destruct (Z.leb_spec 64 m), (Z.ltb_spec m 128); rewrite ?andb_false_r; done || lia.
Qed.

Lemma value_of_not_l b m l h : 64 <= l -> value_of (b :: m :: l :: h) = None.
Proof. intros Hl. cbn [value_of]. by rewrite (proj2 (Z.ltb_ge l _)) by lia. Qed.

Lemma push_tracks p h b :
  is_byte b -> parser_tracks p h ->
  parser_tracks (Parser_push p b).1 (b :: h) /\ (Parser_push p b).2 = value_of (b :: h).
Proof.
  intros Hb Ht. unfold Parser_push, Parser_push_event.
  destruct (byte_cases b Hb) as (f & d & -> & Hd & Hf & -> & ->).
  destruct Ht as [l older Hl ->|l m older Hl Hm ->|h Es Hn1 Hn2].
  - destruct Hf as [->|[->|Hf]]; cbn [pa_stage pa_acc Z.eqb andb orb Pos.eqb fst snd].
    + rewrite value_of_low by lia. split; [apply tracks_l; [lia|f_equal; lia]|done].
    + rewrite value_of_low by lia. split; [|done].
      apply tracks_m; [lia|lia|]. rewrite (lor_shift l d 6) by lia. f_equal. lia.
    + rewrite value_of_not_m by lia. split; [|by destruct Hf as [->| ->]].
      apply tracks_none; [by destruct Hf as [->| ->]|intros ? ? [= <- <-]; lia|intros ? ? ? [= <- <- <-] ?; lia].
  - destruct Hf as [->|[->|Hf]]; cbn [pa_stage pa_acc Z.eqb andb orb Pos.eqb fst snd].
    + rewrite value_of_low by lia. split; [apply tracks_l; [lia|f_equal; lia]|done].
    + rewrite value_of_low by lia. split; [|done].
      apply tracks_none; [done|intros ? ? [= <- <-]; lia|intros ? ? ? [= <- <- <-] ?; lia].
    + assert (He : (f =? 2) || (f =? 3) = true) by by destruct Hf as [->| ->]. rewrite He. cbn [fst snd].
      split.
      { apply tracks_none; [done|intros ? ? [= <- <-]; lia|intros ? ? ? [= <- <- <-] ?; lia]. }
      cbn [value_of]. rewrite (proj2 (Z.ltb_lt l _)), (proj2 (Z.leb_le 64 _)), (proj2 (Z.ltb_lt m _)),
        (proj2 (Z.leb_le 128 _)) by lia. cbn [andb]. rewrite (lor_shift _ d 12) by lia. do 2 f_equal.
      { replace ((64 * f + d) mod 64) with d by div_lia. lia. }
      destruct Hf as [->| ->]; cbn [Z.eqb Pos.eqb]; destruct (Z.ltb_spec (64 * 2 + d) 192), (Z.ltb_spec (64 * 3 + d) 192);
        done || lia.
  - rewrite Es. destruct Hf as [->|Hf]; cbn [Z.eqb andb fst snd].
    { rewrite value_of_low by lia. split; [apply tracks_l; [lia|f_equal; lia]|done]. }
    assert (Hf0 : (f =? 0) = false) by by destruct Hf as [->|[->| ->]]. rewrite Hf0. cbn [fst snd].
    split.
    { apply tracks_none; [done|intros ? ? [= <- <-]; lia|]. intros m l older [= <- ->] _. by eapply Hn1. }
    destruct h as [|m [|l h]]; [done|done|]. destruct (decide (64 <= m < 128)) as [Hm|Hm].
    + by rewrite value_of_not_l by by eapply Hn2.
    + by rewrite value_of_not_m.
Qed.

Lemma base64_digits v : v mod 64 + 64 * (64 + v / 64 mod 64 - 64) + 4096 * (v / 4096) = v.
Proof. change 4096 with (64 * 64). rewrite <-Z.div_div by lia. div_lia. Qed.

(** A value is completed exactly by its three bytes. *)
Lemma value_of_spec h v : bytes_ok h -> value_of h = Some v <-> value_ok v /\ exists older, h = rev (value_bytes v) ++ older.
Proof.
  intros Hh. unfold value_ok, value_bytes, fits. split.
  - destruct h as [|b [|m [|l h]]]; [done..|]. cbn [value_of].
    destruct (_ && _) eqn:E; [|done]. bool_facts. intros [= <-]. cbn [rv_value rv_first].
    do 3 apply Forall_cons in Hh as [? Hh]. unfold is_byte, fits in *.
    split; [div_lia|]. exists h. cbn [rev app]. f_equal; [|f_equal; [div_lia|f_equal; div_lia]].
    destruct (Z.ltb_spec b 192); div_lia.
  - intros [Hv [older ->]]. cbn [rev app value_of]. destruct v as [v first]. cbn [rv_value rv_first] in *.
    assert (Hh2 : 0 <= v / 4096 < 64) by div_lia.
    rewrite (proj2 (Z.ltb_lt (v mod 64) _)), (proj2 (Z.leb_le 64 _)), (proj2 (Z.ltb_lt _ 128)) by div_lia.
    destruct first.
    + rewrite (proj2 (Z.leb_le 128 _)), (proj2 (Z.ltb_lt _ 192)) by lia. cbn [andb]. do 2 f_equal.
      replace (128 + v / 4096) with (v / 4096 + 2 * 64) by lia. rewrite Z_mod_plus_full, (Z.mod_small (v / 4096)) by lia. apply base64_digits.
    + rewrite (proj2 (Z.leb_le 128 _)), (proj2 (Z.ltb_ge _ 192)) by lia. cbn [andb]. do 2 f_equal.
      replace (192 + v / 4096) with (v / 4096 + 3 * 64) by lia. rewrite Z_mod_plus_full, (Z.mod_small (v / 4096)) by lia. apply base64_digits.
Qed.

(** *** Command replies *)

Lemma last_error_cons b h :
  last_error (b :: h)
  = if (nth 2 h 0 =? 69) && is_ascii_digit (nth 1 h 0) && is_ascii_digit (nth 0 h 0) && is_ascii_digit b
    then Some (error_code (nth 1 h 0) (nth 0 h 0) b) else last_error h.
Proof. by destruct h as [|d2 [|d1 [|e h]]]. Qed.

Record reply_tracks (p : CommandReplyParser) (h : list Z) : Prop := {
  rt_bytes : bytes_ok h;
  rt_previous : cr_previous p = nth 0 h 0;
  rt_window : cr_window p = nth 0 h 0 + 2 ^ 8 * nth 1 h 0 + 2 ^ 16 * nth 2 h 0 + 2 ^ 24 * nth 3 h 0;
  rt_error : cr_error p = last_error h }.

Lemma reply_tracks_new : reply_tracks CommandReplyParser_new [].
Proof. split; [constructor|done..]. Qed.

Lemma nth_byte h n : bytes_ok h -> 0 <= nth n h 0 < 256.
Proof.
  intros Hh. destruct (nth_in_or_default n h 0) as [Hin|Hd]; [|rewrite Hd; lia].
  apply list_elem_of_In in Hin. exact (proj1 (Forall_forall is_byte h) Hh _ Hin).
Qed.

Lemma reply_push_tracks p h b :
  is_byte b -> reply_tracks p h ->
  reply_tracks (CommandReplyParser_push p b).1 (b :: h) /\ (CommandReplyParser_push p b).2 = reply_of (b :: h).
Proof.
  intros Hb [Hh Hp Hw He]. unfold CommandReplyParser_push. rewrite Hp, Hw, He.
  pose proof (nth_byte h 0 Hh) as B0. pose proof (nth_byte h 1 Hh) as B1. pose proof (nth_byte h 2 Hh) as B2.
  assert (Hb' : 0 <= b < 256) by done.
  assert (Hwin : Z.lor (wrap 32 (Z.shiftl (nth 0 h 0 + 2 ^ 8 * nth 1 h 0 + 2 ^ 16 * nth 2 h 0 + 2 ^ 24 * nth 3 h 0) 8)) b
    = b + 2 ^ 8 * nth 0 h 0 + 2 ^ 16 * nth 1 h 0 + 2 ^ 24 * nth 2 h 0).
  { rewrite Z.shiftl_mul_pow2 by done. unfold wrap.
    replace (_ * 2 ^ 8) with (2 ^ 8 * (nth 0 h 0 + 2 ^ 8 * nth 1 h 0 + 2 ^ 16 * nth 2 h 0)
      + nth 3 h 0 * 2 ^ 32) by lia.
    rewrite Z_mod_plus_full, Z.mod_small, Z.lor_comm by lia.
    replace (2 ^ 8 * _) with (Z.shiftl (nth 0 h 0 + 2 ^ 8 * nth 1 h 0 + 2 ^ 16 * nth 2 h 0) 8)
      by (rewrite Z.shiftl_mul_pow2 by done; lia).
    rewrite lor_shift by lia. lia. }
  rewrite Hwin. set (w := b + _ + _ + _).
  assert (E0 : Z.shiftr w 24 = nth 2 h 0) by (rewrite Z.shiftr_div_pow2 by done; unfold w; div_lia).
  assert (E1 : Z.land (Z.shiftr w 16) 255 = nth 1 h 0).
  { rewrite (Z.land_ones _ 8), Z.shiftr_div_pow2 by done.
    replace (w / 2 ^ 16) with (nth 1 h 0 + nth 2 h 0 * 2 ^ 8) by (unfold w; div_lia).
    by rewrite Z_mod_plus_full, Z.mod_small. }
  assert (E2 : Z.land (Z.shiftr w 8) 255 = nth 0 h 0).
  { rewrite (Z.land_ones _ 8), Z.shiftr_div_pow2 by done.
    replace (w / 2 ^ 8) with (nth 0 h 0 + (nth 1 h 0 + 2 ^ 8 * nth 2 h 0) * 2 ^ 8) by (unfold w; div_lia).
    by rewrite Z_mod_plus_full, Z.mod_small. }
  assert (E3 : Z.land w 255 = b).
  { rewrite (Z.land_ones _ 8) by done.
    replace w with (b + (nth 0 h 0 + 2 ^ 8 * nth 1 h 0 + 2 ^ 16 * nth 2 h 0) * 2 ^ 8) by (unfold w; lia).
    by rewrite Z_mod_plus_full, Z.mod_small. }
  rewrite E0, E1, E2, E3, <-last_error_cons. cbn [fst snd]. split.
  - split; [by constructor|done|by unfold w|done].
  - cbn [reply_of]. destruct (Z.eqb_spec b 62) as [->|Hne].
    + destruct h as [|c h]; [done|]. cbn [nth]. destruct (Z.eqb_spec c 45) as [->|Hc]; [done|].
      cbn [andb]. destruct c as [|c|c]; [done| |done]. by repeat (destruct c as [c|c|]; try done).
    + rewrite andb_false_r. destruct b as [|b|b]; [done| |done].
      by repeat (destruct b as [b|b|]; try done).
Qed.

Lemma run_outputs {S O} (push : S -> Z -> S * O) (tracks : S -> list Z -> Prop) (out : list Z -> O) s bytes i o :
  (forall s h b, is_byte b -> tracks s h -> tracks (push s b).1 (b :: h) /\ (push s b).2 = out (b :: h)) ->
  bytes_ok bytes -> tracks s [] -> (run push s bytes).2 !! i = Some o -> o = out (rev (take (Datatypes.S i) bytes)).
Proof.
  intros Hstep Hb Ht. destruct (run_tracks push tracks out s [] bytes Hstep Hb Ht) as [_ ->].
  rewrite list_lookup_imap. destruct (bytes !! i) as [b|]; [|done]. cbn [fmap option_fmap option_map].
  intros [= <-]. by rewrite app_nil_r.
Qed.

Lemma length_run {S O} (push : S -> Z -> S * O) s bytes : length (run push s bytes).2 = length bytes.
Proof.
  revert s. induction bytes as [|b bytes IH]; intros s; [done|]. cbn [run].
  destruct (push s b) as [s1 o]. specialize (IH s1). destruct (run push s1 bytes). cbn in *. by f_equal.
Qed.

(** One value from any state. *)
Lemma run_value p v :
  value_ok v -> exists acc, run Parser_push p (value_bytes v) = ({| pa_acc := acc; pa_stage := 0 |}, [None; None; Some v]).
Proof.
  intros Hv. destruct v as [v first]. unfold value_ok, fits in Hv. cbn [rv_value] in Hv. unfold value_bytes. cbn [rv_value rv_first].
  set (l := v mod 64). set (m := v / 64 mod 64). set (h := v / 4096).
  assert (Hl : 0 <= l < 64) by by apply Z.mod_pos_bound. assert (Hm : 0 <= m < 64) by by apply Z.mod_pos_bound.
  assert (Hh : 0 <= h < 64) by (unfold h; div_lia).
  assert (Hs : forall f d, 0 <= d < 64 -> 0 <= f < 4 -> Z.shiftr (64 * f + d) 6 = f /\ Z.land (64 * f + d) 0x3F = d).
  { intros f d Hd Hf. destruct (byte_flags (64 * f + d)) as (-> & -> & _); [unfold is_byte, fits; lia|]. split; div_lia. }
  assert (E1 : exists q, Parser_push p l = (q, None) /\ q = {| pa_acc := l; pa_stage := 1 |}).
  { unfold Parser_push, Parser_push_event. destruct (Hs 0 l) as [H1 H2]; [lia..|]. rewrite Z.mul_0_r, Z.add_0_l in H1, H2.
    rewrite H1, H2. eexists. split; [|reflexivity].
    destruct (pa_stage p =? 0); [done|]. cbn [andb Z.eqb orb]. by rewrite !andb_false_r. }
  destruct E1 as (q & E1 & ->).
  assert (E2 : Parser_push {| pa_acc := l; pa_stage := 1 |} (64 + m) = ({| pa_acc := l + 64 * m; pa_stage := 2 |}, None)).
  { unfold Parser_push, Parser_push_event. destruct (Hs 1 m) as [H1 H2]; [lia..|]. rewrite Z.mul_1_r in H1, H2.
    rewrite H1, H2. cbn [pa_stage pa_acc Z.eqb andb Pos.eqb]. by rewrite (lor_shift l m 6). }
  set (f := if first then 2 else 3).
  assert (E3 : Parser_push {| pa_acc := l + 64 * m; pa_stage := 2 |} ((if first then 128 else 192) + h)
    = ({| pa_acc := l + 64 * m; pa_stage := 0 |}, Some {| rv_value := v; rv_first := first |})).
  { unfold Parser_push, Parser_push_event. destruct (Hs f h) as [H1 H2]; [done|by destruct first|].
    replace ((if first then 128 else 192) + h) with (64 * f + h) by (by destruct first). rewrite H1, H2.
    assert (Hf : (f =? 2) || (f =? 3) = true) by by destruct first.
    cbn [pa_stage pa_acc Z.eqb andb Pos.eqb]. rewrite Hf, (lor_shift _ h 12) by lia. do 4 f_equal.
    - unfold l, m, h. rewrite <-(base64_digits v) at 4. change (2 ^ 12) with 4096. lia.
    - by destruct first. }
  exists (l + 64 * m). cbn [run]. by rewrite E1, E2, E3.
Qed.

(** *** Measurements among replies *)

(** A stream after which a reply starts afresh, newest byte first. *)
Definition quiet (h : list Z) : Prop :=
  last_error h = None /\ is_ascii_digit (nth 0 h 0) = false /\ nth 0 h 0 <> 69 /\ nth 0 h 0 <> 45.

Lemma quiet_value v h : value_ok v -> quiet h -> quiet (rev (value_bytes v) ++ h).
Proof.
  intros Hv (He & Hd & _). unfold value_ok, fits in Hv. cbn [value_bytes rev app].
  set (b := (if rv_first v then 128 else 192) + _).
  assert (Hb : 128 <= b) by (unfold b; destruct (rv_first v); div_lia).
  assert (Hm : 64 <= 64 + rv_value v / 64 mod 64) by div_lia.
  assert (Hn : forall x, 58 <= x -> is_ascii_digit x = false).
  { intros x Hx. unfold is_ascii_digit. by rewrite (proj2 (Z.leb_gt x 57)), andb_false_r by lia. }
  split; [|cbn [nth]; split_and!; [apply Hn; lia|lia|lia]].
  rewrite !last_error_cons. cbn [nth]. rewrite (Hn b), (Hn (64 + _)), Hd by lia. by rewrite !andb_false_r, !andb_false_l, He.
Qed.

Lemma quiet_values vs h : Forall value_ok vs -> quiet h -> quiet (rev (concat (value_bytes <$> vs)) ++ h).
Proof.
  intros Hvs. revert h. induction Hvs as [|v vs Hv _ IH]; intros h Hh; [done|].
  cbn [fmap list_fmap concat]. rewrite rev_app_distr, <-app_assoc. by apply IH, quiet_value.
Qed.

Lemma quiet_nil : quiet [].
Proof. by split_and!. Qed.

Lemma last_error_quiet t h : quiet h -> last_error (t ++ h) = last_error t.
Proof.
  intros (He & Hd & Hn & _). induction t as [|b t IH]; [done|]. cbn [app]. rewrite !last_error_cons, IH.
  destruct t as [|x [|y [|z t]]]; cbn [app nth]; [| | |done].
  - by rewrite Hd, !andb_false_r.
  - rewrite Hd. by rewrite !andb_false_r.
  - by rewrite (proj2 (Z.eqb_neq _ _) Hn).
Qed.

Lemma reply_of_eq h : reply_of h
  = if (nth 0 h 0 =? 62) && (nth 1 h 0 =? 45)
    then Some (match last_error h with Some code => ReplyError code | None => ReplyOk end) else None.
Proof.
  destruct h as [|b h]; [done|]. cbn [nth reply_of]. destruct (Z.eqb_spec b 62) as [->|Hne].
  - destruct h as [|c h]; [done|]. cbn [nth]. destruct (Z.eqb_spec c 45) as [->|Hc]; [done|].
    cbn [andb]. destruct c as [|c|c]; [done| |done]. by repeat (destruct c as [c|c|]; try done).
  - cbn [andb]. destruct b as [|b|b]; [done| |done]. by repeat (destruct b as [b|b|]; try done).
Qed.

Lemma reply_of_quiet b t h : quiet h -> reply_of (b :: t ++ h) = reply_of (b :: t).
Proof.
  intros Hq. rewrite !reply_of_eq. change (b :: t ++ h) with ((b :: t) ++ h) at 3. rewrite last_error_quiet by done.
  destruct Hq as (_ & _ & _ & Hn). destruct t as [|x t]; [|done]. cbn [nth app].
  by rewrite (proj2 (Z.eqb_neq _ _) Hn).
Qed.

Lemma value_bytes_ok v : value_ok v -> bytes_ok (value_bytes v).
Proof.
  intros Hv. unfold value_ok, fits in Hv. unfold value_bytes.
  pose proof (Z.mod_pos_bound (rv_value v) 64). pose proof (Z.mod_pos_bound (rv_value v / 64) 64).
  assert (0 <= rv_value v / 4096 < 64) by div_lia.
  repeat (apply Forall_cons; split); [..|by constructor]; unfold is_byte, fits; [lia..|].
  destruct (rv_first v); lia.
Qed.

(** Complete values give no reply. *)
Lemma run_reply_values p h vs :
  Forall value_ok vs -> quiet h -> reply_tracks p h ->
  let r := run CommandReplyParser_push p (concat (value_bytes <$> vs)) in
  r.2 = replicate (3 * length vs) None /\ reply_tracks r.1 (rev (concat (value_bytes <$> vs)) ++ h).
Proof.
  intros Hvs. revert p h. induction Hvs as [|v vs Hv Hvs IH]; intros p h Hq Ht; [done|].
  cbn [fmap list_fmap concat]. rewrite run_app.
  destruct (run_tracks _ _ _ p h (value_bytes v) reply_push_tracks (value_bytes_ok v Hv) Ht) as [Ht1 Ho1].
  assert (Hn : imap (fun i _ => reply_of (rev (take (Datatypes.S i) (value_bytes v)) ++ h)) (value_bytes v)
    = [None; None; None]).
  { destruct Hq as (_ & _ & _ & Hq). unfold value_ok, fits in Hv. unfold value_bytes. cbn -[reply_of Z.div Z.modulo Z.add].
    rewrite !reply_of_eq. cbn [nth]. rewrite (proj2 (Z.eqb_neq (nth 0 h 0) 45) Hq), andb_false_r.
    rewrite (proj2 (Z.eqb_neq (64 + _) 62)) by div_lia.
    destruct (rv_first v); by rewrite (proj2 (Z.eqb_neq _ 62)) by div_lia. }
  rewrite Hn in Ho1. destruct (run _ p (value_bytes v)) as [p1 o1]. cbn [fst snd] in Ht1, Ho1.
  destruct (IH p1 (rev (value_bytes v) ++ h) (quiet_value v h Hv Hq) Ht1) as [Ho2 Ht2].
  destruct (run _ p1 _) as [p2 o2]. cbn [fst snd] in *. subst. split.
  - cbn [length]. replace (3 * S (length vs))%nat with (3 + 3 * length vs)%nat by lia. done.
  - rewrite rev_app_distr, <-app_assoc. exact Ht2.
Qed.

(** ** Properties *)

(** The measurement parser decodes exactly what is on the line: after any
    history of bytes, whatever it holds, a byte completes the value [v] if and
    only if it and the two bytes before it are the three bytes of [v]. *)
Theorem measurements_exact (bytes : list Z) (i : nat) (o : option RawValue) (v : RawValue)
    (Hb : bytes_ok bytes) (Ho : (run Parser_push Parser_new bytes).2 !! i = Some o) :
  o = Some v <-> value_ok v /\ exists before, take (Datatypes.S i) bytes = before ++ value_bytes v.
Proof.
  rewrite (run_outputs _ _ _ _ _ _ _ push_tracks Hb tracks_new Ho).
  rewrite value_of_spec by by apply Forall_rev, Forall_take.
  split; intros [Hv [l Hl]]; (split; [done|]).
  - exists (rev l). rewrite <-(rev_involutive (take _ _)), Hl, rev_app_distr, rev_involutive. done.
  - exists (rev l). by rewrite Hl, rev_app_distr.
Qed.

(** The parser synchronises itself: from any state whatever, every complete
    value that follows is decoded, none is lost or added. *)
Theorem measurements_self_synchronise (p : Parser) (vs : list RawValue) (Hv : Forall value_ok vs) :
  omap id (run Parser_push p (concat (value_bytes <$> vs))).2 = vs.
Proof.
  revert p. induction Hv as [|v vs Hv _ IH]; intros p; [done|]. cbn [fmap list_fmap concat]. rewrite run_app.
  destruct (run_value p v Hv) as [acc ->]. specialize (IH {| pa_acc := acc; pa_stage := 0 |}).
  destruct (run _ _ _) as [q os]. cbn [snd] in *. by rewrite <-IH.
Qed.

(** Measurements do not disturb command replies: when any number of complete
    values precedes the text of a reply, every byte of the text is answered as
    if the text were alone, and no byte of a value is: a reply ends exactly with
    its prompt [->], as an error when the text before it had a code [Exxx], the
    last one if there are several. *)
Theorem reply_after_measurements (vs : list RawValue) (text : list Z)
    (Hv : Forall value_ok vs) (Ht : bytes_ok text) :
  (run CommandReplyParser_push CommandReplyParser_new (concat (value_bytes <$> vs) ++ text)).2
  = replicate (3 * length vs) None ++ imap (fun i _ => reply_of (rev (take (Datatypes.S i) text))) text.
Proof.
  rewrite run_app. destruct (run_reply_values CommandReplyParser_new [] vs Hv quiet_nil reply_tracks_new) as [Ho Hr].
  destruct (run _ _ (concat _)) as [p os]. cbn [fst snd] in Ho, Hr. rewrite app_nil_r in Hr.
  destruct (run_tracks _ _ _ p _ text reply_push_tracks Ht Hr) as [_ Ho2].
  destruct (run _ p text) as [q os2]. cbn [snd] in *. subst. f_equal. apply imap_ext. intros i b Hi.
  assert (Hq : quiet (rev (concat (value_bytes <$> vs)))).
  { rewrite <-app_nil_r. apply quiet_values; [done|apply quiet_nil]. }
  destruct (rev (take (Datatypes.S i) text)) as [|c t] eqn:E.
  - exfalso. apply (f_equal length) in E. rewrite length_rev, length_take in E. apply lookup_lt_Some in Hi. cbn [length] in E. lia.
  - cbn [app]. by apply reply_of_quiet.
Qed.

(** ** Examples *)

Definition sample_values : list RawValue :=
  [{| rv_value := 12345; rv_first := true |}; {| rv_value := 262143; rv_first := false |}].

Lemma sample_values_ok : Forall value_ok sample_values.
Proof. unfold sample_values. repeat (apply Forall_cons; split); done. Qed.

Lemma measurements_exact_witness :
  (run Parser_push Parser_new ([62; 1; 200] ++ value_bytes {| rv_value := 12345; rv_first := true |})).2 !! 5%nat
  = Some (Some {| rv_value := 12345; rv_first := true |}).
Proof.
  assert (H : exists o, (run Parser_push Parser_new ([62; 1; 200] ++ value_bytes {| rv_value := 12345; rv_first := true |})).2
    !! 5%nat = Some o) by (eexists; reflexivity).
  destruct H as [o E]. rewrite E. f_equal. refine (proj2 (measurements_exact _ 5 o _ _ E) _).
  - apply (bool_decide_unpack _). by vm_compute.
  - split; [done|]. by exists [62; 1; 200].
Defined.

Lemma measurements_self_synchronise_witness :
  omap id (run Parser_push {| pa_acc := 77; pa_stage := 2 |} (concat (value_bytes <$> sample_values))).2 = sample_values.
Proof. apply measurements_self_synchronise, sample_values_ok. Defined.

(** [E202 ->] after two measurements. *)
Lemma reply_after_measurements_witness :
  last (run CommandReplyParser_push CommandReplyParser_new
    (concat (value_bytes <$> sample_values) ++ [69; 50; 48; 50; 32; 45; 62])).2 = Some (Some (ReplyError 202)).
Proof.
  rewrite (reply_after_measurements sample_values [69; 50; 48; 50; 32; 45; 62] sample_values_ok).
  - by vm_compute.
  - apply (bool_decide_unpack _). by vm_compute.
Defined.
