(* ===== verification/AnalogSpi.v ===== *)
(** * Raw SPI transfers (firmware/rt/src/analog_spi.rs)

    The SRAM path of the real-time core: the clock divider, the blocking
    full-duplex exchange over the registers of the SSP peripheral, and the
    converter writer on top of it.  What the status registers answer is the
    environment's. *)

From S2P Require Import Prelude Float32 Ad7609 Ad5064.

#[export] Set Default Goal Selector "!".
Open Scope Z_scope.

(** ** The clock *)

(** [SPO] and [SPH] are the clock polarity and phase. *)
Record RawSpiConfig := { sc_cpsr : Z; sc_scr : Z; sc_cpol : bool; sc_cpha : bool }.

(** [u32::div_ceil]; [None] is its division by zero. *)
Definition div_ceil (a b : Z) : option Z :=
  if b =? 0 then None else Some (a / b + if 0 <? a mod b then 1 else 0).

(** [None] is a panic: an overflow, a division by zero or the assertion. *)
Definition RawSpiConfig_new (clk_peri freq : Z) (cpol cpha : bool) : option RawSpiConfig :=
  if umax 32 <? freq * 2 then None else
  ratio ← div_ceil clk_peri (freq * 2);
  if negb ((1 <=? ratio) && (ratio <=? 127 * 256)) then None else
  presc ← div_ceil ratio 256;
  postdiv ← (if presc =? 1 then Some ratio else div_ceil ratio presc);
  Some {| sc_cpsr := wrap 8 (presc * 2); sc_scr := wrap 8 (postdiv - 1); sc_cpol := cpol; sc_cpha := cpha |}.

(** [embassy_rp::spi]'s modes, and the configuration both paths share. *)
Inductive Polarity := IdleLow | IdleHigh.
Inductive SpiPhase := CaptureOnFirstTransition | CaptureOnSecondTransition.

Record HotSpiConfig := { hc_frequency : Z; hc_polarity : Polarity; hc_phase : SpiPhase }.

Definition HotSpiConfig_raw (clk_peri : Z) (c : HotSpiConfig) : option RawSpiConfig :=
  RawSpiConfig_new clk_peri (hc_frequency c)
    (match hc_polarity c with IdleHigh => true | IdleLow => false end)
    (match hc_phase c with CaptureOnSecondTransition => true | CaptureOnFirstTransition => false end).

(** ** The transfer *)

Record SioOutPin := { sp_mask : Z; sp_bank : Z }.

Definition SioOutPin_new (pin : Z) : SioOutPin := {| sp_mask := Z.shiftl 1 (pin mod 32); sp_bank := pin / 32 |}.

(** The accesses to the registers that change something: writes, and reads of
    the data register. *)
Inductive SpiEvent :=
  | SetEnable (sse : bool)
  | SetPrescale (cpsdvsr : Z)
  | SetFormat (dss : Z) (spo sph : bool) (scr : Z)
  | DataRead (data : Z)
  | DataWrite (data : Z)
  | PinClear (bank mask : Z)
  | PinSet (bank mask : Z).

(** What one turn of the loop reads: whether the transmit queue has room and,
    when the receive queue is not empty, its first word. *)
Record SpiReading := { sr_tnf : bool; sr_rne : option Z }.

(** What the peripheral answers: the stale words of the receive queue, the
    readings of the loop, and how often it is busy at the end. *)
Record SpiAnswers := { sa_stale : list Z; sa_readings : list SpiReading; sa_busy : nat }.

(** The loop while [rx < n]: the buffer, what was done, and whether it has
    ended; [None] is an index out of range. *)
Fixpoint transfer_loop (n : Z) (readings : list SpiReading) (buf : list Z) (tx rx : Z)
    : option (list Z * list SpiEvent * bool) :=
  if negb (rx <? n) then Some (buf, [], true) else
  match readings with
  | [] => Some (buf, [], false)
  | r :: readings =>
      '(tx, sent) ← (if (tx <? n) && sr_tnf r
                     then data ← index buf tx; Some (tx + 1, [DataWrite data])
                     else Some (tx, []));
      '(buf, rx, received) ← match sr_rne r with
                             | Some data => buf ← put buf rx (wrap 8 data); Some (buf, rx + 1, [DataRead data])
                             | None => Some (buf, rx, [])
                             end;
      '(buf, events, finished) ← transfer_loop n readings buf tx rx;
      Some (buf, sent ++ received ++ events, finished)
  end.

(** The registers, the stale words, and the select. *)
Definition transfer_setup (cfg : RawSpiConfig) : list SpiEvent :=
  [SetEnable false; SetPrescale (sc_cpsr cfg); SetFormat 7 (sc_cpol cfg) (sc_cpha cfg) (sc_scr cfg); SetEnable true].

Definition pin_low (p : SioOutPin) : SpiEvent := PinClear (sp_bank p) (sp_mask p).
Definition pin_up (p : SioOutPin) : SpiEvent := PinSet (sp_bank p) (sp_mask p).

(** A transfer that does not finish is still in its loop, selected. *)
Definition transfer_in_place (cfg : RawSpiConfig) (cs : SioOutPin) (buf : list Z) (answers : SpiAnswers)
    : option (list Z * list SpiEvent * bool) :=
  let before := transfer_setup cfg ++ (DataRead <$> sa_stale answers) ++ [pin_low cs] in
  '(buf, events, finished) ← transfer_loop (len buf) (sa_readings answers) buf 0 0;
  Some (buf, before ++ events ++ (if (finished : bool) then [pin_up cs] else []), finished).

(** ** The converter writer *)

Record RawSpiDevice := { rd_config : RawSpiConfig; rd_cs : SioOutPin }.

Definition RawSpiDevice_new (clk_peri : Z) (config : HotSpiConfig) (cs_pin : Z) : option RawSpiDevice :=
  config ← HotSpiConfig_raw clk_peri config;
  Some {| rd_config := config; rd_cs := SioOutPin_new cs_pin |}.

Record SramAd5064 := { sa_device : RawSpiDevice; sa_polarity : list ChannelPolarity; sa_vref : float }.

(** [None] is the failed assertion. *)
Definition SramAd5064_new (device : RawSpiDevice) (polarity : list ChannelPolarity) (vref : float) : option SramAd5064 :=
  if is_finite vref && flt f0 vref
  then Some {| sa_device := device; sa_polarity := polarity; sa_vref := vref |} else None.

(** The word of a write; [None] is a channel out of range. *)
Definition sram_word (d : SramAd5064) (channel : Z) (volts : float) : option (list Z) :=
  polarity ← index (sa_polarity d) channel;
  code ← code_for_volts volts polarity (sa_vref d);
  Some (dac_frame WriteAndUpdate (wrap 8 channel) code).

Definition SramAd5064_write_volts (d : SramAd5064) (channel : Z) (volts : float) (answers : SpiAnswers)
    : option (list SpiEvent * bool) :=
  word ← sram_word d channel volts;
  '(_, events, finished) ← transfer_in_place (rd_config (sa_device d)) (rd_cs (sa_device d)) word answers;
  Some (events, finished).

(** ** What is on the line *)

Definition data_written (e : SpiEvent) : option Z := match e with DataWrite d => Some d | _ => None end.
Definition is_data (e : SpiEvent) : bool := match e with DataWrite _ | DataRead _ => true | _ => false end.

(** The bytes sent, in order. *)
Definition sent (events : list SpiEvent) : list Z := omap data_written events.

(** The words the peripheral has received, in order. *)
Definition received (readings : list SpiReading) : list Z := omap sr_rne readings.

(** The exchange is full duplex: a word is received only for one that was sent
    before, from [tx] sent and [rx] received of [n]. *)
Fixpoint duplex (n tx rx : Z) (readings : list SpiReading) : Prop :=
  match readings with
  | [] => True
  | r :: readings =>
      rx < n ->
      let tx := if (tx <? n) && sr_tnf r then tx + 1 else tx in
      match sr_rne r with
      | Some _ => rx < tx /\ duplex n tx (rx + 1) readings
      | None => duplex n tx rx readings
      end
  end.

(** ** Lemmas *)

Lemma div_ceil_spec a b : 0 < b -> 0 <= a ->
  exists q, div_ceil a b = Some q /\ b * (q - 1) < a <= b * q.
Proof.
  intros Hb Ha. unfold div_ceil. rewrite (proj2 (Z.eqb_neq b 0)) by lia. eexists. split; [done|].
  destruct (Z.ltb_spec 0 (a mod b)); div_lia.
Qed.

Lemma sent_app l1 l2 : sent (l1 ++ l2) = sent l1 ++ sent l2.
Proof. apply omap_app. Qed.

Lemma sent_reads l : sent (DataRead <$> l) = [].
Proof. induction l as [|x l IH]; [done|]. exact IH. Qed.

Lemma sent_writes l : sent (DataWrite <$> l) = l.
Proof. induction l as [|x l IH]; [done|]. cbn. by f_equal. Qed.

(** The write of an iteration: it takes the next byte, if there is one and room
    for it. *)
Lemma transfer_send n tx r got flying todo :
  tx = len got + len flying -> n = len got + len flying + len todo ->
  let tx1 := if (tx <? n) && sr_tnf r then tx + 1 else tx in
  exists flying1 todo1 out,
    (if (tx <? n) && sr_tnf r then data ← index (got ++ flying ++ todo) tx; Some (tx + 1, [DataWrite data])
     else Some (tx, [])) = Some (tx1, DataWrite <$> out)
    /\ todo = out ++ todo1 /\ flying1 = flying ++ out /\ tx1 = len got + len flying1 /\ n = len got + len flying1 + len todo1.
Proof.
  intros Htx Hn tx1. unfold tx1. destruct ((tx <? n) && sr_tnf r) eqn:Es.
  - apply andb_prop in Es as [Ht%Z.ltb_lt _]. destruct todo as [|b todo]; [rewrite (len_nil (A := Z)) in Hn; lia|].
    rewrite app_assoc, (index_app (got ++ flying) todo b tx) by (rewrite len_app; lia). rewrite bind_Some.
    exists (flying ++ [b]), todo, [b]. rewrite len_app. change (len [b]) with 1. rewrite len_cons in Hn.
    split_and!; [done|done|done|lia|lia].
  - exists flying, todo, []. rewrite app_nil_r. split_and!; [done|done|done|lia|lia].
Qed.

(** From any point of the loop: the received prefix, the bytes in flight and
    the bytes to send. *)
Lemma transfer_loop_spec n readings got flying todo tx rx :
  rx = len got -> tx = len got + len flying -> n = len got + len flying + len todo ->
  duplex n tx rx readings ->
  exists buf events finished,
    transfer_loop n readings (got ++ flying ++ todo) tx rx = Some (buf, events, finished)
    /\ finished = (n - rx <=? len (received readings))
    /\ Forall (fun e => is_data e = true) events
    /\ sent events `prefix_of` todo /\ len buf = n
    /\ (finished = true -> sent events = todo
        /\ buf = got ++ (wrap 8 <$> take (Z.to_nat (n - rx)) (received readings))).
Proof.
  revert got flying todo tx rx. induction readings as [|r readings IH]; intros got flying todo tx rx Hrx Htx Hn Hd.
  - cbn [transfer_loop]. destruct (Z.ltb_spec rx n) as [Hl|Hl]; cbn [negb]; eexists _, _, _; (split; [reflexivity|]).
    + split; [symmetry; apply Z.leb_gt; change (len (received [])) with 0; lia|].
      split; [constructor|]. split; [apply prefix_nil|]. split; [rewrite !len_app; lia|done].
    + split; [symmetry; apply Z.leb_le; change (len (received [])) with 0; lia|].
      split; [constructor|]. split; [apply prefix_nil|]. split; [rewrite !len_app; lia|]. intros _.
      pose proof (len_nonneg flying). pose proof (len_nonneg todo).
      rewrite (len_zero flying), (len_zero todo) by lia. split; [done|].
      by replace (Z.to_nat (n - rx)) with 0%nat by lia.
  - cbn [transfer_loop]. cbn [duplex] in Hd. destruct (Z.ltb_spec rx n) as [Hl|Hl]; cbn [negb].
    2:{ pose proof (len_nonneg flying). pose proof (len_nonneg todo). pose proof (len_nonneg (received (r :: readings))).
      eexists _, _, _. split; [reflexivity|]. split; [symmetry; apply Z.leb_le; lia|].
      rewrite (len_zero flying), (len_zero todo) by lia.
      split; [constructor|]. split; [done|]. split; [rewrite !app_nil_r; lia|]. intros _. split; [done|].
      by replace (Z.to_nat (n - rx)) with 0%nat by lia. }
    specialize (Hd Hl). cbv zeta in Hd.
    set (tx1 := if (tx <? n) && sr_tnf r then tx + 1 else tx) in Hd.
    destruct (transfer_send n tx r got flying todo Htx Hn) as (flying1 & todo1 & out & Es & -> & -> & Ht1 & Hn1).
    fold tx1 in Es, Ht1. rewrite Es, bind_Some. rewrite (app_assoc flying), (app_assoc got).
    pose proof (sent_writes out) as Hout.
    assert (Hdata : Forall (fun e => is_data e = true) (DataWrite <$> out)) by (apply Forall_fmap, Forall_true; done).
    rewrite <-app_assoc. unfold received at 1 2. cbn [omap list_omap]. fold (omap sr_rne readings). fold (received readings).
    destruct (sr_rne r) as [data|] eqn:Er.
    + destruct Hd as [Hlt Hd]. destruct (flying ++ out) as [|f flying2]; [rewrite (len_nil (A := Z)) in Ht1; lia|].
      rewrite <-app_comm_cons, put_cursor by (rewrite ?len_cons; pose proof (len_nonneg (flying2 ++ todo1)); lia).
      rewrite !bind_Some. cbn [drop]. rewrite len_cons in Ht1, Hn1.
      assert (Hg : len (got ++ [wrap 8 data]) = len got + 1) by (by rewrite len_app).
      destruct (IH (got ++ [wrap 8 data]) flying2 todo1 tx1 (rx + 1)) as (buf & events & fin & E & Hf & Hda & Hp & Hlb & Hok);
        [lia|lia|lia|exact Hd|].
      rewrite drop_0, E, bind_Some. eexists _, _, _. split; [reflexivity|]. rewrite len_cons. rewrite !sent_app, Hout.
      change (sent [DataRead data]) with (@nil Z). cbn [app].
      split; [rewrite Hf; apply eq_true_iff_eq; rewrite !Z.leb_le; lia|].
      split; [apply Forall_app; split; [done|]; by constructor|].
      split; [by apply prefix_app|]. split; [done|]. intros Ht. destruct (Hok Ht) as [-> ->]. split; [done|].
      rewrite <-app_assoc. f_equal. replace (Z.to_nat (n - rx)) with (S (Z.to_nat (n - (rx + 1)))) by lia. done.
    + rewrite !bind_Some. destruct (IH got (flying ++ out) todo1 tx1 rx) as (buf & events & fin & E & Hf & Hda & Hp & Hlb & Hok);
        [lia|lia|lia|exact Hd|].
      rewrite E, bind_Some. eexists _, _, _. split; [reflexivity|]. cbn [app]. rewrite sent_app, Hout.
      split; [done|]. split; [by apply Forall_app|]. split; [by apply prefix_app|]. split; [done|].
      intros Ht. destruct (Hok Ht) as [-> ->]. by split.
Qed.

(** ** Properties *)

(** The divider: a configuration is computed exactly when the frequency can be
    reached, its fields fit the registers (an even prescaler from 2 to 254, a
    post-divider of 8 bits), the clock it gives is never above the requested
    frequency, and while the prescaler is at its minimum it is the fastest such
    clock. *)
Theorem spi_clock_bounded (clk_peri freq : Z) (cpol cpha : bool) (Hc : fits 32 clk_peri) (Hf : 0 < freq < 2 ^ 31) :
  match RawSpiConfig_new clk_peri freq cpol cpha with
  | Some c =>
      Z.even (sc_cpsr c) = true /\ 2 <= sc_cpsr c <= 254 /\ fits 8 (sc_scr c)
      /\ clk_peri <= freq * (sc_cpsr c * (sc_scr c + 1))
      /\ (sc_cpsr c = 2 -> freq * (sc_cpsr c * sc_scr c) < clk_peri)
      /\ sc_cpol c = cpol /\ sc_cpha c = cpha
  | None => clk_peri = 0 \/ freq * 2 * (127 * 256) < clk_peri
  end.
Proof.
  unfold fits in Hc. unfold RawSpiConfig_new, umax. rewrite (proj2 (Z.ltb_ge _ _)) by lia.
  destruct (div_ceil_spec clk_peri (freq * 2)) as (ratio & -> & Hr); [lia..|]. rewrite bind_Some.
  destruct (Z.leb_spec 1 ratio) as [H1|H1]; cbn [andb negb]; [|left; nia].
  destruct (Z.leb_spec ratio (127 * 256)) as [H2|H2]; cbn [negb]; [|right; nia].
  destruct (div_ceil_spec ratio 256) as (presc & -> & Hp); [lia..|]. rewrite bind_Some.
  assert (Hpost : exists postdiv, (if presc =? 1 then Some ratio else div_ceil ratio presc) = Some postdiv
    /\ presc * (postdiv - 1) < ratio <= presc * postdiv).
  { destruct (Z.eqb_spec presc 1) as [->|Hne]; [by exists ratio; split; [done|lia]|]. apply div_ceil_spec; lia. }
  destruct Hpost as (postdiv & -> & Hd). rewrite bind_Some. cbn [sc_cpsr sc_scr sc_cpol sc_cpha].
  assert (1 <= presc <= 127) by lia. assert (1 <= postdiv <= 256) by nia.
  rewrite !wrap_id by (unfold fits; lia). split; [by rewrite Z.even_mul, orb_true_r|].
  split; [lia|]. split; [unfold fits; lia|]. split_and!; [nia| |done|done].
  intros He. assert (presc = 1) as -> by lia. nia.
Qed.

(** An exchange in place, for whatever the status registers answer while the
    receive queue holds no word that was not sent: no access is out of range,
    the bytes sent are the bytes of the buffer in order, although the received
    ones overwrite it meanwhile; the exchange ends exactly when as many words
    have come back, and then the buffer holds them, everything was sent inside
    one selection of the device, and the clock and format were set before. *)
Theorem transfer_exact (cfg : RawSpiConfig) (cs : SioOutPin) (buf : list Z) (answers : SpiAnswers)
    (Hd : duplex (len buf) 0 0 (sa_readings answers)) :
  exists buf' events finished,
    transfer_in_place cfg cs buf answers
    = Some (buf', transfer_setup cfg ++ (DataRead <$> sa_stale answers) ++ [pin_low cs] ++ events
                    ++ (if (finished : bool) then [pin_up cs] else []), finished)
    /\ finished = (len buf <=? len (received (sa_readings answers)))
    /\ Forall (fun e => is_data e = true) events
    /\ sent events `prefix_of` buf /\ len buf' = len buf
    /\ (finished = true -> sent events = buf
        /\ buf' = wrap 8 <$> take (length buf) (received (sa_readings answers))).
Proof.
  destruct (transfer_loop_spec (len buf) (sa_readings answers) [] [] buf 0 0) as
    (buf' & events & fin & E & Hf & Hda & Hp & Hl & Hok); [done|done|done|exact Hd|].
  cbn [app] in E, Hok. rewrite Z.sub_0_r in Hf, Hok.
  exists buf', events, fin. unfold transfer_in_place. rewrite E, bind_Some.
  split; [by rewrite <-!app_assoc|]. split; [exact Hf|]. split; [done|]. split; [done|]. split; [done|].
  unfold len in Hok. by rewrite Nat2Z.id in Hok.
Qed.

(** A finished write of the converter puts on the line, inside one selection,
    exactly the four bytes of the word for the clamped voltage. *)
Theorem sram_write_exact (d : SramAd5064) (channel : Z) (volts : float) (answers : SpiAnswers) (word : list Z)
    (Hw : sram_word d channel volts = Some word) (Hd : duplex 4 0 0 (sa_readings answers))
    (Hn : 4 <= len (received (sa_readings answers))) :
  exists before inside, SramAd5064_write_volts d channel volts answers
    = Some (before ++ [pin_low (rd_cs (sa_device d))] ++ inside ++ [pin_up (rd_cs (sa_device d))], true)
    /\ sent inside = word /\ sent before = [] /\ Forall (fun e => is_data e = true) inside.
Proof.
  unfold SramAd5064_write_volts. assert (Hl : len word = 4).
  { unfold sram_word in Hw. apply option.bind_Some in Hw as (p & _ & Hw). apply option.bind_Some in Hw as (code & _ & Hw).
    by apply (inj Some) in Hw as <-. }
  rewrite Hw, bind_Some. unfold transfer_in_place. rewrite Hl.
  destruct (transfer_loop_spec 4 (sa_readings answers) [] [] word 0 0) as
    (buf' & events & fin & E & Hf & Hda & _ & _ & Hok); [done|done|done|exact Hd|].
  rewrite Z.sub_0_r, (proj2 (Z.leb_le _ _)) in Hf by done. subst fin. cbn [app] in E. rewrite E, !bind_Some.
  destruct (Hok eq_refl) as [Hs _].
  exists (transfer_setup (rd_config (sa_device d)) ++ (DataRead <$> sa_stale answers)), events.
  split; [by rewrite <-!app_assoc|]. split; [done|]. split; [|done]. by rewrite sent_app, sent_reads.
Qed.

(** ** Examples *)

Definition shipped_spi : HotSpiConfig :=
  {| hc_frequency := 16000000; hc_polarity := IdleLow; hc_phase := CaptureOnSecondTransition |}.

(** 150 MHz for 16 MHz: divided by 10. *)
Example shipped_spi_clock :
  HotSpiConfig_raw 150000000 shipped_spi
  = Some {| sc_cpsr := 2; sc_scr := 4; sc_cpol := false; sc_cpha := true |}.
Proof. reflexivity. Qed.

Lemma spi_clock_bounded_witness :
  exists c, RawSpiConfig_new 150000000 16000000 false true = Some c /\ 150000000 <= 16000000 * (sc_cpsr c * (sc_scr c + 1)).
Proof.
  pose proof (spi_clock_bounded 150000000 16000000 false true ltac:(by vm_compute) ltac:(lia)) as H.
  destruct (RawSpiConfig_new 150000000 16000000 false true) as [c|] eqn:E.
  - exists c. split; [done|]. apply H.
  - vm_compute in E. done.
Defined.

(** The queue takes two bytes before the first comes back. *)
Definition sample_answers : SpiAnswers := {|
  sa_stale := [7];
  sa_readings := [{| sr_tnf := true; sr_rne := None |}; {| sr_tnf := true; sr_rne := Some 255 |};
                  {| sr_tnf := false; sr_rne := Some 254 |}; {| sr_tnf := true; sr_rne := None |};
                  {| sr_tnf := true; sr_rne := Some 253 |}; {| sr_tnf := true; sr_rne := Some 252 |}];
  sa_busy := 3 |}.

Lemma transfer_exact_witness :
  exists events, transfer_in_place {| sc_cpsr := 2; sc_scr := 4; sc_cpol := false; sc_cpha := true |}
      (SioOutPin_new 9) [1; 2; 3; 4] sample_answers = Some ([255; 254; 253; 252], events, true).
Proof.
  destruct (transfer_exact {| sc_cpsr := 2; sc_scr := 4; sc_cpol := false; sc_cpha := true |}
    (SioOutPin_new 9) [1; 2; 3; 4] sample_answers) as (buf' & events & fin & E & -> & _ & _ & _ & Hok).
  - cbn. repeat first [intros _ | split]; lia.
  - destruct (Hok eq_refl) as [_ ->]. eexists. exact E.
Defined.

Definition sample_sram : SramAd5064 := {|
  sa_device := {| rd_config := {| sc_cpsr := 2; sc_scr := 4; sc_cpol := false; sc_cpha := true |}; rd_cs := SioOutPin_new 9 |};
  sa_polarity := [Unipolar; Unipolar; Unipolar; Unipolar]; sa_vref := flit 4096 1000 |}.

Lemma sram_write_exact_witness :
  exists before inside, SramAd5064_write_volts sample_sram 2 (f32_of_Z 9) sample_answers
    = Some (before ++ [pin_low (SioOutPin_new 9)] ++ inside ++ [pin_up (SioOutPin_new 9)], true)
    /\ sent inside = [3; 47; 255; 240].
Proof.
  destruct (sram_write_exact sample_sram 2 (f32_of_Z 9) sample_answers [3; 47; 255; 240]) as (before & inside & E & Hs & _).
  - by vm_compute.
  - cbn. repeat first [intros _ | split]; lia.
  - by vm_compute.
  - exists before, inside. split; [exact E|exact Hs].
Defined.
