(* ===== verification/RtMem.v ===== *)
(** * SRAM memory helpers (firmware/rt/src/rt_mem.rs)

    The copy and clear routines the compiler calls implicitly from the hot
    loop, over a byte memory in which an access outside the mapped addresses,
    or a word access off a word boundary, is a fault. *)

From stdpp Require Import gmap.
From S2P Require Import Prelude.

#[export] Set Default Goal Selector "!".
Open Scope Z_scope.

(** ** Memory

    The mapped addresses and their bytes; [None] is a fault. *)

Abbreviation memory := (gmap Z Z).

(** [p & (align_of::<u32>() - 1)] *)
Definition word_offset (p : Z) : Z := Z.land p 3.

Definition read8 (m : memory) (p : Z) : option Z := m !! p.

Definition write8 (m : memory) (p v : Z) : option memory :=
  _ ← m !! p; Some (<[p := v]> m).

(** [p.cast::<u32>()] needs its alignment. *)
Definition read32 (m : memory) (p : Z) : option Z :=
  if word_offset p =? 0 then
    b0 ← m !! p; b1 ← m !! (p + 1); b2 ← m !! (p + 2); b3 ← m !! (p + 3);
    Some (of_le_bytes [b0; b1; b2; b3])
  else None.

Definition write32 (m : memory) (p v : Z) : option memory :=
  if word_offset p =? 0 then
    m ← write8 m p (v mod 256); m ← write8 m (p + 1) (v / 256 mod 256);
    m ← write8 m (p + 2) (v / 256 / 256 mod 256); write8 m (p + 3) (v / 256 / 256 / 256 mod 256)
  else None.

(** ** Loops *)

(** [while c(s) { b }]; [None] is a fault in the body, or a turn too many. *)
Fixpoint while {S} (fuel : nat) (c : S -> bool) (b : S -> option S) (s : S) : option S :=
  if c s then
    match fuel with
    | O => None
    | S fuel => s ← b s; while fuel c b s
    end
  else Some s.

(** ** Copying *)

Record Copy := { cp_mem : memory; cp_dst : Z; cp_src : Z; cp_len : Z }.

Definition copy_byte (c : Copy) : option Copy :=
  v ← read8 (cp_mem c) (cp_src c);
  m ← write8 (cp_mem c) (cp_dst c) v;
  Some {| cp_mem := m; cp_dst := cp_dst c + 1; cp_src := cp_src c + 1; cp_len := cp_len c - 1 |}.

Definition copy_word (c : Copy) : option Copy :=
  v ← read32 (cp_mem c) (cp_src c);
  m ← write32 (cp_mem c) (cp_dst c) v;
  Some {| cp_mem := m; cp_dst := cp_dst c + 4; cp_src := cp_src c + 4; cp_len := cp_len c - 4 |}.

(** The conditions of the four loops. *)
Definition apart (c : Copy) : bool :=
  negb (cp_len c =? 0) && negb (word_offset (cp_dst c) =? word_offset (cp_src c)).
Definition off_word (c : Copy) : bool := negb (cp_len c =? 0) && negb (word_offset (cp_dst c) =? 0).
Definition has_word (c : Copy) : bool := 4 <=? cp_len c.
Definition has_byte (c : Copy) : bool := negb (cp_len c =? 0).

(** [length] bytes are at most [length] turns of each loop. *)
Definition aeabi_memcpy4 (m : memory) (destination source length : Z) : option memory :=
  let fuel := Z.to_nat length in
  let c := {| cp_mem := m; cp_dst := destination; cp_src := source; cp_len := length |} in
  c ← while fuel has_word copy_word c;
  c ← while fuel has_byte copy_byte c;
  Some (cp_mem c).

Definition aeabi_memcpy8 (m : memory) (destination source length : Z) : option memory :=
  aeabi_memcpy4 m destination source length.

Definition aeabi_memcpy (m : memory) (destination source length : Z) : option memory :=
  let fuel := Z.to_nat length in
  let c := {| cp_mem := m; cp_dst := destination; cp_src := source; cp_len := length |} in
  c ← while fuel apart copy_byte c;
  c ← while fuel off_word copy_byte c;
  c ← while fuel has_word copy_word c;
  c ← while fuel has_byte copy_byte c;
  Some (cp_mem c).

(** ** Clearing *)

Record Clear := { cl_mem : memory; cl_dst : Z; cl_len : Z }.

Definition clear_byte (c : Clear) : option Clear :=
  m ← write8 (cl_mem c) (cl_dst c) 0;
  Some {| cl_mem := m; cl_dst := cl_dst c + 1; cl_len := cl_len c - 1 |}.

Definition clear_word (c : Clear) : option Clear :=
  m ← write32 (cl_mem c) (cl_dst c) 0;
  Some {| cl_mem := m; cl_dst := cl_dst c + 4; cl_len := cl_len c - 4 |}.

Definition clear_off_word (c : Clear) : bool := negb (cl_len c =? 0) && negb (word_offset (cl_dst c) =? 0).
Definition clear_has_word (c : Clear) : bool := 4 <=? cl_len c.
Definition clear_has_byte (c : Clear) : bool := negb (cl_len c =? 0).

Definition aeabi_memclr4 (m : memory) (destination length : Z) : option memory :=
  let fuel := Z.to_nat length in
  let c := {| cl_mem := m; cl_dst := destination; cl_len := length |} in
  c ← while fuel clear_has_word clear_word c;
  c ← while fuel clear_has_byte clear_byte c;
  Some (cl_mem c).

Definition aeabi_memclr8 (m : memory) (destination length : Z) : option memory :=
  aeabi_memclr4 m destination length.

Definition aeabi_memclr (m : memory) (destination length : Z) : option memory :=
  let fuel := Z.to_nat length in
  let c := {| cl_mem := m; cl_dst := destination; cl_len := length |} in
  c ← while fuel clear_off_word clear_byte c;
  c ← while fuel clear_has_word clear_word c;
  c ← while fuel clear_has_byte clear_byte c;
  Some (cl_mem c).

(** ** Regions *)

(** [length] bytes from [p] are mapped. *)
Definition mapped (m : memory) (p length : Z) : Prop := forall i, 0 <= i < length -> is_Some (m !! (p + i)).

Definition mem_ok (m : memory) : Prop := map_Forall (fun _ v => is_byte v) m.

#[export] Instance mem_ok_dec m : Decision (mem_ok m).
Proof. unfold mem_ok, is_byte. apply _. Defined.

(** The first [k] bytes from [d] are [f]'s, the rest of the memory is [m]'s. *)
Definition filled (m : memory) (d k : Z) (f : Z -> option Z) (m' : memory) : Prop :=
  forall a, m' !! a = if (d <=? a) && (a <? d + k) then f (a - d) else m !! a.

(** ** Reference: the bytes of [l] at [d], and nothing else *)

Definition bytes_at (m : memory) (p length : Z) : list (option Z) := (fun i => m !! (p + i)) <$> seqZ 0 length.

Definition same_outside (m m' : memory) (d length : Z) : Prop :=
  forall a, ~ (d <= a < d + length) -> m' !! a = m !! a.

(** ** Lemmas *)

Lemma word_offset_mod p : word_offset p = p mod 4.
Proof. exact (Z.land_ones p 2 ltac:(lia)). Qed.

(** The loop rule: an invariant, and a measure that the fuel bounds. *)
Lemma while_rule {S} (c : S -> bool) (b : S -> option S) (I : S -> Prop) (measure : S -> Z) fuel s :
  (forall s, I s -> c s = true -> exists s', b s = Some s' /\ I s' /\ measure s' < measure s) ->
  (forall s, I s -> c s = true -> 0 < measure s) ->
  I s -> measure s <= Z.of_nat fuel ->
  exists s', while fuel c b s = Some s' /\ I s' /\ c s' = false.
Proof.
  intros Hb Hpos. revert s. induction fuel as [|fuel IH]; intros s Hs Hf; cbn [while]; destruct (c s) eqn:E.
  - specialize (Hpos s Hs E). lia.
  - eauto.
  - destruct (Hb s Hs E) as (s1 & -> & H1 & Hm). rewrite bind_Some. apply IH; [done|lia].
  - eauto.
Qed.

Lemma while_stop {S} (c : S -> bool) (b : S -> option S) fuel s : c s = false -> while fuel c b s = Some s.
Proof. intros E. destruct fuel; cbn [while]; by rewrite E. Qed.

Lemma filled_0 m d f : filled m d 0 f m.
Proof. intros a. destruct (Z.leb_spec d a), (Z.ltb_spec a (d + 0)); try done. lia. Qed.

Section filling.
Variables (m : memory) (d n : Z) (f : Z -> option Z).
Hypothesis Hd : mapped m d n.

Lemma write8_filled k m' v :
  filled m d k f m' -> 0 <= k < n -> f k = Some v ->
  exists m'', write8 m' (d + k) v = Some m'' /\ filled m d (k + 1) f m''.
Proof.
  intros Hm Hk Hv. unfold write8. destruct (Hd k Hk) as [old Hold].
  rewrite Hm, (proj2 (Z.leb_le d (d + k))), (proj2 (Z.ltb_ge (d + k) (d + k))) by lia. cbn [andb].
  rewrite Hold, bind_Some. eexists. split; [done|]. intros a. destruct (Z.eq_dec a (d + k)) as [->|Hne].
  - rewrite lookup_insert_eq, (proj2 (Z.leb_le _ _)), (proj2 (Z.ltb_lt _ _)) by lia. cbn [andb].
    by replace (d + k - d) with k by lia.
  - rewrite lookup_insert_ne, Hm by done.
    destruct (Z.leb_spec d a), (Z.ltb_spec a (d + k)), (Z.ltb_spec a (d + (k + 1))); try done; lia.
Qed.

Lemma write32_filled k m' v :
  filled m d k f m' -> 0 <= k -> k + 4 <= n -> word_offset (d + k) = 0 ->
  (forall j, (j < 4)%nat -> f (k + Z.of_nat j) = le_bytes 4 v !! j) ->
  exists m'', write32 m' (d + k) v = Some m'' /\ filled m d (k + 4) f m''.
Proof.
  intros Hm Hk Hn Ha Hv. unfold write32. rewrite Ha. cbn [Z.eqb].
  pose proof (Hv 0%nat ltac:(lia)) as H0. pose proof (Hv 1%nat ltac:(lia)) as H1.
  pose proof (Hv 2%nat ltac:(lia)) as H2. pose proof (Hv 3%nat ltac:(lia)) as H3.
  cbn [le_bytes lookup list_lookup Z.of_nat Pos.of_succ_nat Pos.succ] in H0, H1, H2, H3. rewrite Z.add_0_r in H0.
  destruct (write8_filled k m' _ Hm ltac:(lia) H0) as (m1 & -> & Hm1). rewrite bind_Some.
  destruct (write8_filled (k + 1) m1 _ Hm1 ltac:(lia) H1) as (m2 & E2 & Hm2).
  rewrite Z.add_assoc in E2. rewrite E2, bind_Some. replace (k + 1 + 1) with (k + 2) in Hm2 by lia.
  destruct (write8_filled (k + 2) m2 _ Hm2 ltac:(lia) H2) as (m3 & E3 & Hm3).
  rewrite Z.add_assoc in E3. rewrite E3, bind_Some. replace (k + 2 + 1) with (k + 3) in Hm3 by lia.
  destruct (write8_filled (k + 3) m3 _ Hm3 ltac:(lia) H3) as (m4 & E4 & Hm4).
  rewrite Z.add_assoc in E4. rewrite E4. replace (k + 3 + 1) with (k + 4) in Hm4 by lia. eauto.
Qed.
End filling.

(** *** Copy loops *)

Section copying.
Variables (m : memory) (d s n : Z).
Hypothesis (Hd : mapped m d n) (Hs : mapped m s n) (Hok : mem_ok m).
(** A forward copy: the destination does not run into what is still to be read. *)
Hypothesis (Hforward : d <= s \/ s + n <= d).

Definition source_byte (i : Z) : option Z := m !! (s + i).

(** [k] bytes are copied. *)
Definition copied (k : Z) (c : Copy) : Prop :=
  cp_dst c = d + k /\ cp_src c = s + k /\ cp_len c = n - k /\ 0 <= k <= n
  /\ filled m d k source_byte (cp_mem c).

Definition copying (c : Copy) : Prop := exists k, copied k c.

Lemma source_intact k c j : copied k c -> 0 <= j -> k + j < n -> cp_mem c !! (s + k + j) = source_byte (k + j).
Proof.
  intros (_ & _ & _ & Hk & Hm) Hj Hn. rewrite Hm. unfold source_byte.
  destruct (Z.leb_spec d (s + k + j)), (Z.ltb_spec (s + k + j) (d + k)); cbn [andb];
    f_equal; lia.
Qed.

Lemma copy_byte_copied k c : copied k c -> k < n -> exists c', copy_byte c = Some c' /\ copied (k + 1) c'.
Proof.
  intros Hc Hk. pose proof (source_intact k c 0 Hc ltac:(lia) ltac:(lia)) as Hr. rewrite !Z.add_0_r in Hr.
  destruct Hc as (E1 & E2 & E3 & Hkn & Hm). destruct (Hs k ltac:(lia)) as [v Hv]. unfold source_byte in Hr at 1.
  unfold copy_byte, read8. rewrite E1, E2, E3, Hr, Hv, bind_Some.
  destruct (write8_filled m d n source_byte Hd k _ v Hm ltac:(lia) Hv) as (m' & -> & Hm'). rewrite bind_Some.
  eexists. split; [done|]. split_and!; cbn; [lia..|done].
Qed.

Lemma copy_word_copied k c :
  copied k c -> k + 4 <= n -> word_offset (d + k) = 0 -> word_offset (s + k) = 0 ->
  exists c', copy_word c = Some c' /\ copied (k + 4) c'.
Proof.
  intros Hc Hk Had Has.
  assert (forall j, 0 <= j < 4 -> exists v, cp_mem c !! (s + k + j) = Some v /\ source_byte (k + j) = Some v /\ is_byte v)
    as Hread.
  { intros j Hj. destruct Hc as (E1 & E2 & E3 & Hkn & Hm). destruct (Hs (k + j) ltac:(lia)) as [v Hv].
    exists v. rewrite (source_intact k c j) by (done || lia). split_and!; [done..|]. by apply (Hok _ _ Hv). }
  destruct Hc as (E1 & E2 & E3 & Hkn & Hm).
  destruct (Hread 0 ltac:(lia)) as (v0 & R0 & S0 & B0). destruct (Hread 1 ltac:(lia)) as (v1 & R1 & S1 & B1).
  destruct (Hread 2 ltac:(lia)) as (v2 & R2 & S2 & B2). destruct (Hread 3 ltac:(lia)) as (v3 & R3 & S3 & B3).
  rewrite Z.add_0_r in R0. unfold copy_word, read32. rewrite E1, E2, E3, Has. cbn [Z.eqb].
  rewrite R0, bind_Some, R1, bind_Some, R2, bind_Some, R3, !bind_Some.
  destruct (write32_filled m d n source_byte Hd k (cp_mem c) (of_le_bytes [v0; v1; v2; v3]) Hm) as (m' & -> & Hm');
    [lia|lia|done| |].
  { intros j Hj. change (le_bytes 4 ?x) with (le32 x). rewrite le32_of_bytes by done.
    destruct j as [|[|[|[|j]]]]; [done..|lia]. }
  rewrite bind_Some. eexists. split; [done|]. split_and!; cbn; [lia..|done].
Qed.

(** A byte loop keeps copying until its condition fails. *)
Lemma byte_loop_copied (test : Copy -> bool) fuel c :
  (forall c, test c = true -> cp_len c <> 0) -> copying c -> cp_len c <= Z.of_nat fuel ->
  exists c' k, while fuel test copy_byte c = Some c' /\ copied k c' /\ test c' = false.
Proof.
  intros Htest Hc Hf.
  destruct (while_rule test copy_byte copying cp_len fuel c) as (c' & -> & [k Hk] & Hend); [| |done|done|eauto].
  - intros c1 [k Hk] E%Htest. destruct (copy_byte_copied k c1 Hk) as (c2 & -> & H2).
    + destruct Hk as (_ & _ & ? & ? & _). lia.
    + exists c2. split; [done|]. split; [by eexists|]. destruct Hk as (_ & _ & ? & _), H2 as (_ & _ & ? & _). lia.
  - intros c1 [k (_ & _ & ? & ? & _)] E%Htest. lia.
Qed.

(** Nothing is left, or both cursors are on a word. *)
Definition on_word (k : Z) : Prop := k = n \/ (d mod 4 = s mod 4 /\ (d + k) mod 4 = 0).

Lemma word_loop_copied fuel c k :
  copied k c -> on_word k -> cp_len c <= Z.of_nat fuel ->
  exists c' k', while fuel has_word copy_word c = Some c' /\ copied k' c'.
Proof.
  intros Hc Hw Hf.
  destruct (while_rule has_word copy_word (fun c => exists k, copied k c /\ on_word k) cp_len fuel c)
    as (c' & -> & (k' & Hk & _) & _); [| |by exists k|done|by exists c', k'].
  - intros c1 (k1 & Hk1 & Hw1) E%Z.leb_le. pose proof Hk1 as (_ & _ & E3 & Hkn & _).
    destruct Hw1 as [->|[H1 H2]]; [lia|].
    destruct (copy_word_copied k1 c1 Hk1) as (c2 & -> & Hk2); [lia|rewrite word_offset_mod; div_lia..|].
    exists c2. split; [done|]. pose proof Hk2 as (_ & _ & E4 & _). split; [|lia].
    exists (k1 + 4). split; [done|]. right. split; [done|]. div_lia.
  - intros c1 (k1 & (_ & _ & ? & ? & _) & _) E%Z.leb_le. lia.
Qed.

Lemma has_byte_len c : has_byte c = true -> cp_len c <> 0.
Proof. unfold has_byte. intros E. by bool_facts. Qed.
Lemma apart_len c : apart c = true -> cp_len c <> 0.
Proof. unfold apart. intros E. by bool_facts. Qed.
Lemma off_word_len c : off_word c = true -> cp_len c <> 0.
Proof. unfold off_word. intros E. by bool_facts. Qed.

Lemma copied_len k c : copied k c -> cp_len c <= Z.of_nat (Z.to_nat n).
Proof. intros (_ & _ & ? & ? & _). lia. Qed.

(** The last two loops, which are all of [memcpy4], finish the copy. *)
Lemma tail_copied c k :
  copied k c -> on_word k ->
  exists c1 c', while (Z.to_nat n) has_word copy_word c = Some c1
    /\ while (Z.to_nat n) has_byte copy_byte c1 = Some c' /\ filled m d n source_byte (cp_mem c').
Proof.
  intros Hc Hw. destruct (word_loop_copied (Z.to_nat n) c k) as (c1 & k1 & E1 & H1); [done..|by eapply copied_len|].
  destruct (byte_loop_copied has_byte (Z.to_nat n) c1) as (c2 & k2 & E2 & H2 & Hend);
    [apply has_byte_len|by eexists|by eapply copied_len|].
  exists c1, c2. split_and!; [done..|]. destruct H2 as (_ & _ & E3 & Hk & Hm). unfold has_byte in Hend.
  bool_facts. by assert (k2 = n) as -> by lia.
Qed.

Definition copy_start : Copy := {| cp_mem := m; cp_dst := d; cp_src := s; cp_len := n |}.

Lemma copy_started : 0 <= n -> copied 0 copy_start.
Proof. intros Hn. split_and!; cbn; [lia..|apply filled_0]. Qed.

Lemma memcpy4_filled :
  0 <= n -> d mod 4 = 0 -> s mod 4 = 0 ->
  exists m', aeabi_memcpy4 m d s n = Some m' /\ filled m d n source_byte m'.
Proof.
  intros Hn Ed Es. destruct (tail_copied copy_start 0 (copy_started Hn)) as (c1 & c2 & E1 & E2 & Hm).
  { right. rewrite Z.add_0_r. by rewrite Ed, Es. }
  unfold aeabi_memcpy4. fold copy_start. cbv zeta. rewrite E1, bind_Some, E2, bind_Some. eauto.
Qed.

(** After the first two loops. *)
Lemma heads_on_word c1 c2 k1 k2 fuel :
  copied k1 c1 -> copied k2 c2 -> apart c1 = false -> off_word c2 = false ->
  while fuel off_word copy_byte c1 = Some c2 -> on_word k2.
Proof.
  intros (D1 & S1 & L1 & _ & _) (D2 & S2 & L2 & Hk & _) A1 A2 E. unfold on_word.
  unfold apart in A1. apply andb_false_iff in A1 as [A1%negb_false_iff%Z.eqb_eq|A1%negb_false_iff%Z.eqb_eq].
  - assert (Hstop : off_word c1 = false) by (unfold off_word; by rewrite A1).
    rewrite while_stop in E by done. apply (inj Some) in E as <-. lia.
  - rewrite !word_offset_mod, D1, S1 in A1.
    unfold off_word in A2. apply andb_false_iff in A2 as [A2%negb_false_iff%Z.eqb_eq|A2%negb_false_iff%Z.eqb_eq]; [lia|].
    rewrite word_offset_mod, D2 in A2. right. split; [div_lia|done].
Qed.

Lemma memcpy_filled : 0 <= n -> exists m', aeabi_memcpy m d s n = Some m' /\ filled m d n source_byte m'.
Proof.
  intros Hn. unfold aeabi_memcpy. fold copy_start. cbv zeta. pose proof (copy_started Hn) as H0.
  destruct (byte_loop_copied apart (Z.to_nat n) copy_start) as (c1 & k1 & -> & H1 & A1);
    [apply apart_len|by eexists|by eapply copied_len|]. rewrite bind_Some.
  destruct (byte_loop_copied off_word (Z.to_nat n) c1) as (c2 & k2 & E2 & H2 & A2);
    [apply off_word_len|by eexists|by eapply copied_len|]. rewrite E2, bind_Some.
  destruct (tail_copied c2 k2 H2) as (c3 & c4 & E3 & E4 & Hm); [exact (heads_on_word c1 c2 k1 k2 _ H1 H2 A1 A2 E2)|].
  rewrite E3, bind_Some, E4, bind_Some. eauto.
Qed.
End copying.

(** *** Clear loops *)

Section clearing.
Variables (m : memory) (d n : Z).
Hypothesis Hd : mapped m d n.

Definition zero_byte (_ : Z) : option Z := Some 0.

Definition cleared (k : Z) (c : Clear) : Prop :=
  cl_dst c = d + k /\ cl_len c = n - k /\ 0 <= k <= n /\ filled m d k zero_byte (cl_mem c).

Lemma clear_byte_cleared k c : cleared k c -> k < n -> exists c', clear_byte c = Some c' /\ cleared (k + 1) c'.
Proof.
  intros (E1 & E2 & Hk & Hm) Hn. unfold clear_byte. rewrite E1, E2.
  destruct (write8_filled m d n zero_byte Hd k _ 0 Hm ltac:(lia) eq_refl) as (m' & -> & Hm').
  rewrite bind_Some. eexists. split; [done|]. split_and!; cbn; [lia..|done].
Qed.

Lemma clear_word_cleared k c :
  cleared k c -> k + 4 <= n -> (d + k) mod 4 = 0 -> exists c', clear_word c = Some c' /\ cleared (k + 4) c'.
Proof.
  intros (E1 & E2 & Hk & Hm) Hn Ha. unfold clear_word. rewrite E1, E2.
  destruct (write32_filled m d n zero_byte Hd k _ 0 Hm ltac:(lia) Hn) as (m' & -> & Hm').
  { by rewrite word_offset_mod. }
  { intros j Hj. destruct j as [|[|[|[|j]]]]; [done..|lia]. }
  rewrite bind_Some. eexists. split; [done|]. split_and!; cbn; [lia..|done].
Qed.

Lemma clear_byte_loop (test : Clear -> bool) fuel c :
  (forall c, test c = true -> cl_len c <> 0) -> (exists k, cleared k c) -> cl_len c <= Z.of_nat fuel ->
  exists c' k, while fuel test clear_byte c = Some c' /\ cleared k c' /\ test c' = false.
Proof.
  intros Htest Hc Hf.
  destruct (while_rule test clear_byte (fun c => exists k, cleared k c) cl_len fuel c)
    as (c' & -> & [k Hk] & Hend); [| |done|done|eauto].
  - intros c1 [k Hk] E%Htest. destruct (clear_byte_cleared k c1 Hk) as (c2 & -> & H2).
    + destruct Hk as (_ & ? & ? & _). lia.
    + exists c2. split; [done|]. split; [by eexists|]. destruct Hk as (_ & ? & _), H2 as (_ & ? & _). lia.
  - intros c1 [k (_ & ? & ? & _)] E%Htest. lia.
Qed.

Lemma clear_word_loop fuel c k :
  cleared k c -> k = n \/ (d + k) mod 4 = 0 -> cl_len c <= Z.of_nat fuel ->
  exists c' k', while fuel clear_has_word clear_word c = Some c' /\ cleared k' c'.
Proof.
  intros Hc Hw Hf.
  destruct (while_rule clear_has_word clear_word
              (fun c => exists k, cleared k c /\ (k = n \/ (d + k) mod 4 = 0)) cl_len fuel c)
    as (c' & -> & (k' & Hk & _) & _); [| |by exists k|done|by exists c', k'].
  - intros c1 (k1 & Hk1 & Hw1) E%Z.leb_le. pose proof Hk1 as (_ & E2 & Hkn & _). destruct Hw1 as [->|Hw1]; [lia|].
    destruct (clear_word_cleared k1 c1 Hk1) as (c2 & -> & Hk2); [lia|done|].
    exists c2. split; [done|]. pose proof Hk2 as (_ & E4 & _). split; [|lia].
    exists (k1 + 4). split; [done|]. right. div_lia.
  - intros c1 (k1 & (_ & ? & ? & _) & _) E%Z.leb_le. lia.
Qed.

Lemma cleared_len k c : cleared k c -> cl_len c <= Z.of_nat (Z.to_nat n).
Proof. intros (_ & ? & ? & _). lia. Qed.

(** The last two loops, which are all of [memclr4]. *)
Lemma tail_cleared c k :
  cleared k c -> k = n \/ (d + k) mod 4 = 0 ->
  exists c1 c', while (Z.to_nat n) clear_has_word clear_word c = Some c1
    /\ while (Z.to_nat n) clear_has_byte clear_byte c1 = Some c' /\ filled m d n zero_byte (cl_mem c').
Proof.
  intros Hc Hw. destruct (clear_word_loop (Z.to_nat n) c k) as (c1 & k1 & E1 & H1); [done..|by eapply cleared_len|].
  destruct (clear_byte_loop clear_has_byte (Z.to_nat n) c1) as (c2 & k2 & E2 & H2 & Hend);
    [unfold clear_has_byte; intros ? ?; by bool_facts|by eexists|by eapply cleared_len|].
  exists c1, c2. split_and!; [done..|]. destruct H2 as (_ & E3 & Hk & Hm). unfold clear_has_byte in Hend.
  bool_facts. by assert (k2 = n) as -> by lia.
Qed.

Definition clear_start : Clear := {| cl_mem := m; cl_dst := d; cl_len := n |}.

Lemma clear_started : 0 <= n -> cleared 0 clear_start.
Proof. intros Hn. split_and!; cbn; [lia..|apply filled_0]. Qed.

Lemma memclr4_filled :
  0 <= n -> d mod 4 = 0 -> exists m', aeabi_memclr4 m d n = Some m' /\ filled m d n zero_byte m'.
Proof.
  intros Hn Ed. destruct (tail_cleared clear_start 0 (clear_started Hn)) as (c1 & c2 & E1 & E2 & Hm).
  { right. by rewrite Z.add_0_r. }
  unfold aeabi_memclr4. fold clear_start. cbv zeta. rewrite E1, bind_Some, E2, bind_Some. eauto.
Qed.

Lemma memclr_filled : 0 <= n -> exists m', aeabi_memclr m d n = Some m' /\ filled m d n zero_byte m'.
Proof.
  intros Hn. unfold aeabi_memclr. fold clear_start. cbv zeta. pose proof (clear_started Hn) as H0.
  destruct (clear_byte_loop clear_off_word (Z.to_nat n) clear_start) as (c1 & k1 & -> & H1 & A1);
    [unfold clear_off_word; intros ? ?; by bool_facts|by eexists|by eapply cleared_len|]. rewrite bind_Some.
  destruct (tail_cleared c1 k1 H1) as (c3 & c4 & E3 & E4 & Hm); [|rewrite E3, bind_Some, E4, bind_Some; eauto].
  destruct H1 as (E1 & E2 & _). unfold clear_off_word in A1.
  apply andb_false_iff in A1 as [A1%negb_false_iff%Z.eqb_eq|A1%negb_false_iff%Z.eqb_eq]; [lia|].
  rewrite word_offset_mod, E1 in A1. by right.
Qed.
End clearing.

(** *** Regions *)

Lemma filled_bytes m d n f m' :
  filled m d n f m' -> bytes_at m' d n = f <$> seqZ 0 n.
Proof.
  intros Hm. apply list_fmap_ext. intros i x Hx. apply lookup_seqZ in Hx as [-> Hi]. rewrite Hm.
  rewrite (proj2 (Z.leb_le _ _)), (proj2 (Z.ltb_lt _ _)) by lia. cbn [andb]. f_equal. lia.
Qed.

Lemma filled_outside m d n f m' : filled m d n f m' -> same_outside m m' d n.
Proof.
  intros Hm a Ha. rewrite Hm. destruct (Z.leb_spec d a), (Z.ltb_spec a (d + n)); cbn; try done. lia.
Qed.

(** ** Properties *)

(** C36. For mapped regions of which the destination does not run into the source,
    the copy routines return, without a fault whatever the alignment of the
    pointers ([memcpy4] and [memcpy8]: for aligned pointers), with the source's
    bytes in the destination and the rest of the memory unchanged. *)
Theorem memcpy_exact (m : memory) (d s n : Z)
    (Hok : mem_ok m) (Hn : 0 <= n) (Hd : mapped m d n) (Hs : mapped m s n) (Hforward : d <= s \/ s + n <= d) :
  let copy (r : option memory) :=
    exists m', r = Some m' /\ bytes_at m' d n = bytes_at m s n /\ same_outside m m' d n in
  copy (aeabi_memcpy m d s n)
  /\ (d mod 4 = 0 -> s mod 4 = 0 -> copy (aeabi_memcpy4 m d s n))
  /\ (d mod 8 = 0 -> s mod 8 = 0 -> copy (aeabi_memcpy8 m d s n)).
Proof.
  assert (Hc : forall r, (exists m', r = Some m' /\ filled m d n (source_byte m s) m') ->
    exists m', r = Some m' /\ bytes_at m' d n = bytes_at m s n /\ same_outside m m' d n).
  { intros r (m' & -> & Hm). exists m'. split; [done|]. split; [by rewrite (filled_bytes _ _ _ _ _ Hm)|].
    by eapply filled_outside. }
  intros copy. unfold aeabi_memcpy8.
  split_and!; [|intros E1 E2..]; apply Hc;
    [by apply memcpy_filled|apply memcpy4_filled; [done..| |]; clear -E1 E2; div_lia..].
Qed.

(** For a mapped region the clear routines return, without a fault whatever the
    alignment of the pointer ([memclr4] and [memclr8]: for an aligned one), with
    zeroes in the region and the rest of the memory unchanged. *)
Theorem memclr_exact (m : memory) (d n : Z) (Hn : 0 <= n) (Hd : mapped m d n) :
  let clear (r : option memory) :=
    exists m', r = Some m' /\ bytes_at m' d n = replicate (Z.to_nat n) (Some 0) /\ same_outside m m' d n in
  clear (aeabi_memclr m d n)
  /\ (d mod 4 = 0 -> clear (aeabi_memclr4 m d n)) /\ (d mod 8 = 0 -> clear (aeabi_memclr8 m d n)).
Proof.
  assert (Hc : forall r, (exists m', r = Some m' /\ filled m d n zero_byte m') ->
    exists m', r = Some m' /\ bytes_at m' d n = replicate (Z.to_nat n) (Some 0) /\ same_outside m m' d n).
  { intros r (m' & -> & Hm). exists m'. split; [done|]. split; [|by eapply filled_outside].
    rewrite (filled_bytes _ _ _ _ _ Hm). rewrite (const_fmap zero_byte _ (Some 0)) by done. by rewrite length_seqZ. }
  intros clear. unfold aeabi_memclr8.
  split_and!; [|intros E..]; apply Hc; [by apply memclr_filled|apply memclr4_filled; [done..|]; clear -E; div_lia..].
Qed.

(** ** Witnesses *)

(** Eleven bytes from 5, and room for them at 22: neither is on a word. *)
Definition example_memory : memory :=
  list_to_map ((fun i => (i, 100 + i)) <$> seqZ 4 12) ∪ list_to_map ((fun i => (i, 0)) <$> seqZ 20 16).

Lemma example_memory_ok : mem_ok example_memory.
Proof. apply (bool_decide_eq_true_1 (mem_ok example_memory)). by vm_compute. Qed.

Lemma mapped_by_cases m p n : forallb (fun i => bool_decide (is_Some (m !! (p + i)))) (seqZ 0 n) = true -> mapped m p n.
Proof.
  intros H i Hi. rewrite forallb_forall in H. apply (bool_decide_eq_true_1 _), H.
  apply list_elem_of_In, elem_of_seqZ. lia.
Qed.

(** Equal offsets take the word path, unequal ones the byte path. *)
Example copies_run :
  (m ← aeabi_memcpy example_memory 21 5 11; Some (bytes_at m 20 13))
    = Some (Some <$> [0; 105; 106; 107; 108; 109; 110; 111; 112; 113; 114; 115; 0])
  /\ (m ← aeabi_memcpy example_memory 22 5 11; Some (bytes_at m 21 13))
    = Some (Some <$> [0; 105; 106; 107; 108; 109; 110; 111; 112; 113; 114; 115; 0])
  /\ aeabi_memcpy4 example_memory 22 5 11 = None.
Proof. by vm_compute. Qed.

Lemma memcpy_exact_witness :
  exists m', aeabi_memcpy example_memory 22 5 11 = Some m'
    /\ bytes_at m' 22 11 = bytes_at example_memory 5 11 /\ same_outside example_memory m' 22 11.
Proof.
  apply (memcpy_exact example_memory 22 5 11);
    [apply example_memory_ok|lia|by apply mapped_by_cases; vm_compute|by apply mapped_by_cases; vm_compute|lia].
Defined.

Lemma memclr_exact_witness :
  exists m', aeabi_memclr example_memory 5 10 = Some m'
    /\ bytes_at m' 5 10 = replicate 10 (Some 0) /\ same_outside example_memory m' 5 10.
Proof. apply (memclr_exact example_memory 5 10); [lia|by apply mapped_by_cases; vm_compute]. Defined.
