(* ===== verification/Pio.v ===== *)
(** * Programmable input and output (assembler of firmware/rt/src/ssi_pio.rs and pulse_pio.rs)

    The instructions that the two embedded state-machine programs use, one cycle
    at a time: every instruction takes a cycle and its delay, sets the side pin
    even when it stalls, and the program wraps around.  The FIFOs are lists. *)

From S2P Require Import Prelude.

#[export] Set Default Goal Selector "!".
Open Scope Z_scope.

(** ** Instructions *)

Inductive Source := SrcX | SrcOsr | SrcNull.
Inductive Destination := DstX | DstIsr.
Inductive Condition := Always | XNonZeroDec | PinHigh.

Inductive Operation :=
  | Nop
  | PullBlock
  | Push (block : bool)
  | Mov (d : Destination) (invert : bool) (s : Source)
  | InPins (n : Z)
  | Jmp (c : Condition) (target : nat)
  | Wait (polarity : bool).

Record Instruction := { in_op : Operation; in_side : option bool; in_delay : nat }.

(** A program, and the depth of the receive FIFO. *)
Record PioProgram := { pp_code : list Instruction; pp_rx_depth : Z }.

(** ** The state machine *)

Record Sm := {
  sm_pc : nat; sm_wait : nat; sm_x : Z; sm_osr : Z; sm_isr : Z;
  sm_tx : list Z; sm_rx : list Z; sm_rxstall : bool; sm_side : bool }.

Definition source_value (s : Sm) (src : Source) : Z :=
  match src with SrcX => sm_x s | SrcOsr => sm_osr s | SrcNull => 0 end.

(** The next instruction, after the last the first. *)
Definition next_pc (p : PioProgram) (pc : nat) : nat :=
  if (S pc <? length (pp_code p))%nat then S pc else 0%nat.

(** What an instruction does and where it goes on; [None] is a stall. *)
Definition execute_op (p : PioProgram) (pins : Z) (jmp_pin : bool) (op : Operation) (s : Sm) : Sm * option nat :=
  let next := Some (next_pc p (sm_pc s)) in
  match op with
  | Nop => (s, next)
  | PullBlock => match sm_tx s with
                 | [] => (s, None)
                 | v :: tx => (s <| sm_osr := v |> <| sm_tx := tx |>, next)
                 end
  | Push block =>
      if len (sm_rx s) <? pp_rx_depth p
      then (s <| sm_rx := sm_rx s ++ [sm_isr s] |> <| sm_isr := 0 |>, next)
      else if block : bool then (s <| sm_rxstall := true |>, None)
      else (s <| sm_rxstall := true |> <| sm_isr := 0 |>, next)
  | Mov d invert src =>
      let v := source_value s src in
      let v := if invert : bool then umax 32 - v else v in
      (match d with DstX => s <| sm_x := v |> | DstIsr => s <| sm_isr := v |> end, next)
  | InPins n => (s <| sm_isr := Z.lor (Z.land pins (Z.ones n)) (wrap 32 (Z.shiftl (sm_isr s) n)) |>, next)
  | Jmp c target =>
      match c with
      | Always => (s, Some target)
      | XNonZeroDec => (s <| sm_x := wrapping_sub 32 (sm_x s) 1 |>,
                        if sm_x s =? 0 then next else Some target)
      | PinHigh => (s, if jmp_pin : bool then Some target else next)
      end
  | Wait polarity => (s, if eqb (Z.odd pins) polarity then next else None)
  end.

(** A cycle; [None] is a program counter outside the program. *)
Definition sm_step (p : PioProgram) (pins : Z) (jmp_pin : bool) (s : Sm) : option Sm :=
  match sm_wait s with
  | S n => Some (s <| sm_wait := n |>)
  | O =>
      i ← pp_code p !! sm_pc s;
      let s := s <| sm_side := default (sm_side s) (in_side i) |> in
      match execute_op p pins jmp_pin (in_op i) s with
      | (s, Some pc) => Some (s <| sm_pc := pc |> <| sm_wait := in_delay i |>)
      | (s, None) => Some s
      end
  end.

(** The processor's side of the FIFOs; both are four words deep unless joined. *)
Definition FIFO_DEPTH : Z := 4.

(** [TXF], when [FSTAT.TXFULL] is clear. *)
Definition txf_write (v : Z) (s : Sm) : option Sm :=
  if len (sm_tx s) <? FIFO_DEPTH then Some (s <| sm_tx := sm_tx s ++ [v] |>) else None.

(** [RXF], when [FSTAT.RXEMPTY] is clear. *)
Definition rxf_read (s : Sm) : option (Z * Sm) :=
  match sm_rx s with [] => None | v :: rx => Some (v, s <| sm_rx := rx |>) end.

(** ** Lemmas *)

Lemma execute_op_rx p pins jp op s s' pc :
  execute_op p pins jp op s = (s', pc) -> exists l, sm_rx s' = sm_rx s ++ l.
Proof.
  intros E. destruct op as [| |block|d inv src|n|c target|pol]; cbn in E.
  - exists []. rewrite app_nil_r. by simplify_eq.
  - exists []. rewrite app_nil_r. destruct (sm_tx s); by simplify_eq.
  - destruct (_ <? _); [exists [sm_isr s]; by simplify_eq|]. exists []. rewrite app_nil_r.
    destruct block; by simplify_eq.
  - exists []. rewrite app_nil_r. destruct d; by simplify_eq.
  - exists []. rewrite app_nil_r. by simplify_eq.
  - exists []. rewrite app_nil_r. destruct c; by simplify_eq.
  - exists []. rewrite app_nil_r. by simplify_eq.
Qed.

(** What has been received stays until the processor takes it. *)
Lemma sm_step_rx p pins jp s s' : sm_step p pins jp s = Some s' -> exists l, sm_rx s' = sm_rx s ++ l.
Proof.
  unfold sm_step. destruct (sm_wait s).
  - destruct (_ !! _) as [i|]; [|done]. rewrite bind_Some. cbv zeta.
    destruct (execute_op _ _ _ _ _) as [s1 [pc|]] eqn:E; apply execute_op_rx in E as [l E];
      intros [= <-]; exists l; exact E.
  - intros [= <-]. exists []. by rewrite app_nil_r.
Qed.
