(* ===== verification/SsiPio.v ===== *)
(** * The dual SSI reader (firmware/rt/src/ssi_pio.rs)

    The program of the state machine, the reader over its FIFOs, and the two
    encoders it clocks, as the source describes them: the clock idles high, the
    position is latched by the first falling edge, and every rising edge after
    it presents the next bit, the most significant first. *)

From S2P Require Import Prelude Float32 Ssi Pio.

#[export] Set Default Goal Selector "!".
Open Scope Z_scope.

(** ** The program *)

Definition side (level : bool) (op : Operation) : Instruction := {| in_op := op; in_side := Some level; in_delay := 0 |}.
Definition side1 (level : bool) (op : Operation) : Instruction := {| in_op := op; in_side := Some level; in_delay := 1 |}.

Definition SSI_PROGRAM : PioProgram := {|
  pp_code := [
    side true PullBlock;
    side true (Mov DstX false SrcOsr);
    side true (Mov DstIsr false SrcNull);
    (* bitloop: *)
    side false Nop;
    side true Nop;
    side true (InPins 2);
    side true (Jmp XNonZeroDec 3);
    side1 false Nop;
    side1 true Nop;
    side true (Push true)];
  pp_rx_depth := FIFO_DEPTH |}.

(** ** The reader *)

Record DualSsiReader := { ds_sm : Sm; ds_bit_count : Z }.

(** The state machine as it is enabled; the assertions are the [None]. *)
Definition DualSsiReader_new (bits bit_rate_hz : Z) : option DualSsiReader :=
  if negb ((1 <=? bits) && (bits <=? 16)) then None
  else if negb ((1 <=? bit_rate_hz) && (bit_rate_hz <=? 4000000)) then None
  else Some {|
    ds_sm := {| sm_pc := 0; sm_wait := 0; sm_x := 0; sm_osr := 0; sm_isr := 0; sm_tx := []; sm_rx := [];
                sm_rxstall := false; sm_side := true |};
    ds_bit_count := bits - 1 |}.

Definition DualSsiReader_start (r : DualSsiReader) : DualSsiReader * bool :=
  match txf_write (ds_bit_count r) (ds_sm r) with
  | Some sm => (r <| ds_sm := sm |>, true)
  | None => (r, false)
  end.

Definition DualSsiReader_read (r : DualSsiReader) : DualSsiReader * option Z :=
  match rxf_read (ds_sm r) with
  | Some (v, sm) => (r <| ds_sm := sm |>, Some v)
  | None => (r, None)
  end.

(** ** Encoders *)

(** The bits of a position, the most significant first. *)
Fixpoint bits_msb (n : nat) (z : Z) : list bool :=
  match n with O => [] | S n => bits_msb n (z / 2) ++ [Z.odd z] end.

(** [en_shift] is what is still to be presented of a latched position. *)
Record Encoder := {
  en_width : nat; en_position : Z; en_clock : bool; en_latched : bool; en_shift : list bool; en_out : bool }.

(** The level of the clock during a cycle. *)
Definition encoder_clock (clock : bool) (e : Encoder) : Encoder :=
  let e1 := e <| en_clock := clock |> in
  if en_clock e then
    if clock then e1
    else if en_latched e then e1
    else e1 <| en_latched := true |> <| en_shift := bits_msb (en_width e) (en_position e) |>
  else if clock then
    match en_shift e with
    | [] => e1 <| en_out := false |>
    | b :: rest => e1 <| en_out := b |> <| en_shift := rest |>
    end
  else e1.

(** ** The system *)

Record SsiSystem := { sy_sm : Sm; sy_0 : Encoder; sy_1 : Encoder }.

(** A cycle of the state machine, whose side pin clocks the encoders; what they
    present is sampled from the next cycle on. *)
Definition ssi_cycle (y : SsiSystem) : option SsiSystem :=
  let pins := Z.b2z (en_out (sy_0 y)) + 2 * Z.b2z (en_out (sy_1 y)) in
  sm ← sm_step SSI_PROGRAM pins false (sy_sm y);
  Some {| sy_sm := sm; sy_0 := encoder_clock (sm_side sm) (sy_0 y); sy_1 := encoder_clock (sm_side sm) (sy_1 y) |}.

Fixpoint ssi_cycles (n : nat) (y : SsiSystem) : option SsiSystem :=
  match n with O => Some y | S n => y ← ssi_cycle y; ssi_cycles n y end.

(** ** Lemmas *)

(** A word that [n] bits have been shifted into, two at a time. *)
Fixpoint shifted_in (acc : Z) (l0 l1 : list bool) : Z :=
  match l0, l1 with
  | b0 :: l0, b1 :: l1 => shifted_in (4 * acc + Z.b2z b0 + 2 * Z.b2z b1) l0 l1
  | _, _ => acc
  end.

(** An encoder, its clock high, that has these bits still to present. *)
Definition presents (e : Encoder) (l : list bool) : Prop :=
  en_clock e = true /\ (if en_latched e then en_shift e else bits_msb (en_width e) (en_position e)) = l.

Definition pulse_down (e : Encoder) : Encoder := encoder_clock false e.
Definition pulse_up (e : Encoder) : Encoder := encoder_clock true (pulse_down e).

Lemma pulse_presents e b l :
  presents e (b :: l) -> en_out (pulse_up e) = b /\ presents (pulse_up e) l.
Proof.
  intros [Hc Hl]. destruct e as [w pos clock latched shift out]. cbn in *. subst clock.
  unfold pulse_up, pulse_down, presents. destruct latched; cbn in *; rewrite Hl; done.
Qed.

Lemma encoder_clock_high e : en_clock e = true -> encoder_clock true e = e.
Proof. destruct e. cbn. by intros ->. Qed.

Lemma encoder_clock_low e : en_clock e = false -> encoder_clock false e = e.
Proof. destruct e. cbn. by intros ->. Qed.

Lemma pulse_down_low e : en_clock (pulse_down e) = false.
Proof. unfold pulse_down, encoder_clock. destruct e as [w pos [] [] shift out]; done. Qed.

Lemma pulse_up_high e : en_clock (pulse_up e) = true.
Proof.
  unfold pulse_up, encoder_clock at 1. rewrite pulse_down_low. by destruct (en_shift (pulse_down e)).
Qed.

Lemma ssi_cycles_add n m y : ssi_cycles (n + m) y = (y ← ssi_cycles n y; ssi_cycles m y).
Proof.
  revert y. induction n as [|n IH]; intros y; [done|]. cbn [ssi_cycles Nat.add].
  destruct (ssi_cycle y) as [y1|]; [|done]. rewrite !bind_Some. apply IH.
Qed.

(** The state machine, with empty FIFOs. *)
Definition machine (pc wait : nat) (side : bool) (x osr isr : Z) (stall : bool) : Sm := {|
  sm_pc := pc; sm_wait := wait; sm_x := x; sm_osr := osr; sm_isr := isr; sm_tx := []; sm_rx := [];
  sm_rxstall := stall; sm_side := side |}.

Section cycles.
Variables (osr : Z) (stall : bool) (e0 e1 : Encoder).
Abbreviation run sm := (ssi_cycle {| sy_sm := sm; sy_0 := e0; sy_1 := e1 |}).
Abbreviation clocked sm level :=
  (Some {| sy_sm := sm; sy_0 := encoder_clock level e0; sy_1 := encoder_clock level e1 |}).

Lemma cycle_mov_x level x isr : run (machine 1 0 level x osr isr stall) = clocked (machine 2 0 true osr osr isr stall) true.
Proof. reflexivity. Qed.
Lemma cycle_mov_isr level x isr : run (machine 2 0 level x osr isr stall) = clocked (machine 3 0 true x osr 0 stall) true.
Proof. reflexivity. Qed.
Lemma cycle_low level x isr : run (machine 3 0 level x osr isr stall) = clocked (machine 4 0 false x osr isr stall) false.
Proof. reflexivity. Qed.
Lemma cycle_high level x isr : run (machine 4 0 level x osr isr stall) = clocked (machine 5 0 true x osr isr stall) true.
Proof. reflexivity. Qed.
Lemma cycle_in level x isr : run (machine 5 0 level x osr isr stall)
  = clocked (machine 6 0 true x osr
      (Z.lor (Z.land (Z.b2z (en_out e0) + 2 * Z.b2z (en_out e1)) (Z.ones 2)) (wrap 32 (Z.shiftl isr 2))) stall) true.
Proof. reflexivity. Qed.
Lemma cycle_jmp level x isr : run (machine 6 0 level x osr isr stall)
  = clocked (machine (if x =? 0 then 7 else 3) 0 true (wrapping_sub 32 x 1) osr isr stall) true.
Proof. unfold ssi_cycle. cbn. by destruct (x =? 0). Qed.
Lemma cycle_tail_low level x isr : run (machine 7 0 level x osr isr stall) = clocked (machine 8 1 false x osr isr stall) false.
Proof. reflexivity. Qed.
Lemma cycle_tail_high level x isr : run (machine 8 0 level x osr isr stall) = clocked (machine 9 1 true x osr isr stall) true.
Proof. reflexivity. Qed.
Lemma cycle_wait pc level x isr : run (machine pc 1 level x osr isr stall) = clocked (machine pc 0 level x osr isr stall) level.
Proof. reflexivity. Qed.
End cycles.

(** The two new bits below the old ones. *)
Lemma in_pins_bits isr b0 b1 :
  0 <= isr < 2 ^ 30 ->
  Z.lor (Z.land (Z.b2z b0 + 2 * Z.b2z b1) (Z.ones 2)) (wrap 32 (Z.shiftl isr 2)) = 4 * isr + Z.b2z b0 + 2 * Z.b2z b1.
Proof.
  intros Hi. rewrite wrap_id by (unfold fits; rewrite Z.shiftl_mul_pow2 by done; lia).
  rewrite Z.land_ones by done. rewrite Z.mod_small by (destruct b0, b1; cbn; lia).
  rewrite lor_shift by (destruct b0, b1; cbn; lia). lia.
Qed.

(** A turn of the bit loop samples the next bit of each encoder. *)
Lemma ssi_turn x osr isr stall e0 e1 b0 b1 l0 l1 :
  presents e0 (b0 :: l0) -> presents e1 (b1 :: l1) -> 0 <= isr < 2 ^ 30 ->
  ssi_cycles 4 {| sy_sm := machine 3 0 true x osr isr stall; sy_0 := e0; sy_1 := e1 |}
    = Some {| sy_sm := machine (if x =? 0 then 7 else 3) 0 true (wrapping_sub 32 x 1) osr
                         (4 * isr + Z.b2z b0 + 2 * Z.b2z b1) stall; sy_0 := pulse_up e0; sy_1 := pulse_up e1 |}
  /\ presents (pulse_up e0) l0 /\ presents (pulse_up e1) l1.
Proof.
  intros H0 H1 Hi.
  destruct (pulse_presents e0 b0 l0 H0) as [O0 P0], (pulse_presents e1 b1 l1 H1) as [O1 P1].
  split; [|done]. cbn [ssi_cycles]. rewrite cycle_low, bind_Some. fold (pulse_down e0) (pulse_down e1).
  rewrite cycle_high, bind_Some. fold (pulse_up e0) (pulse_up e1).
  rewrite cycle_in, bind_Some, !encoder_clock_high, O0, O1, in_pins_bits by (done || apply pulse_up_high).
  rewrite cycle_jmp, bind_Some. by rewrite !encoder_clock_high by apply pulse_up_high.
Qed.

(** The whole loop: [n + 1] turns for a counter of [n]. *)
Lemma ssi_loop n osr isr stall e0 e1 l0 l1 :
  length l0 = S n -> length l1 = S n -> presents e0 l0 -> presents e1 l1 ->
  0 <= isr -> isr * 4 ^ Z.of_nat (S n) + 4 ^ Z.of_nat (S n) <= 2 ^ 32 ->
  exists e0' e1' x,
    ssi_cycles (4 * S n) {| sy_sm := machine 3 0 true (Z.of_nat n) osr isr stall; sy_0 := e0; sy_1 := e1 |}
    = Some {| sy_sm := machine 7 0 true x osr (shifted_in isr l0 l1) stall; sy_0 := e0'; sy_1 := e1' |}
    /\ presents e0' [] /\ presents e1' [].
Proof.
  revert isr e0 e1 l0 l1. induction n as [|n IH]; intros isr e0 e1 [|b0 l0] [|b1 l1] L0 L1 H0 H1 Hi Hb; try done;
    injection L0 as L0; injection L1 as L1.
  - destruct (ssi_turn 0 osr isr stall e0 e1 b0 b1 l0 l1 H0 H1) as (E & P0 & P1); [change (4 ^ Z.of_nat 1) with 4 in Hb; lia|].
    apply nil_length_inv in L0 as ->, L1 as ->. eexists _, _, _. split; [exact E|done].
  - assert (Hp : 4 ^ Z.of_nat (S (S n)) = 4 * 4 ^ Z.of_nat (S n)) by (rewrite (Nat2Z.inj_succ (S n)), Z.pow_succ_r by lia; done).
    assert (0 < 4 ^ Z.of_nat (S n)) by (apply Z.pow_pos_nonneg; lia).
    assert (4 <= 4 ^ Z.of_nat (S n)) by (rewrite Nat2Z.inj_succ, Z.pow_succ_r by lia; assert (0 < 4 ^ Z.of_nat n) by (apply Z.pow_pos_nonneg; lia); lia).
    destruct (ssi_turn (Z.of_nat (S n)) osr isr stall e0 e1 b0 b1 l0 l1 H0 H1) as (E & P0 & P1); [nia|].
    replace (4 * S (S n))%nat with (4 + 4 * S n)%nat by lia. rewrite ssi_cycles_add, E, bind_Some.
    rewrite (proj2 (Z.eqb_neq _ 0)) by lia. unfold wrapping_sub.
    replace (Z.of_nat (S n) - 1) with (Z.of_nat n) by lia. rewrite wrap_id by (unfold fits; pose proof (Z.pow_gt_lin_r 4 (Z.of_nat (S n)) ltac:(lia)); nia).
    cbn [shifted_in]. apply IH; [done|done|done|done|destruct b0, b1; cbn; lia|].
    assert (0 <= Z.b2z b0 + 2 * Z.b2z b1 <= 3) by (destruct b0, b1; cbn; lia). nia.
Qed.

(** What the loop leaves in the register is the word that [deinterleave_pair] separates. *)
Lemma shifted_in_snoc acc l0 l1 b0 b1 :
  length l0 = length l1 -> shifted_in acc (l0 ++ [b0]) (l1 ++ [b1]) = 4 * shifted_in acc l0 l1 + Z.b2z b0 + 2 * Z.b2z b1.
Proof.
  revert acc l1. induction l0 as [|c0 l0 IH]; intros acc [|c1 l1] L; try done; cbn [shifted_in app]. apply IH. by injection L.
Qed.

Lemma length_bits_msb n z : length (bits_msb n z) = n.
Proof. revert z. induction n as [|n IH]; intros z; [done|]. cbn. rewrite length_app, IH. cbn. lia. Qed.

Lemma shifted_in_interleave n a b : shifted_in 0 (bits_msb n a) (bits_msb n b) = interleave n a b.
Proof.
  revert a b. induction n as [|n IH]; intros a b; [done|]. cbn [bits_msb interleave].
  rewrite shifted_in_snoc by (by rewrite !length_bits_msb). rewrite IH, !Zmod_odd. by destruct (Z.odd a), (Z.odd b); cbn [Z.b2z]; lia.
Qed.

(** Receiving only ever adds. *)
Lemma ssi_cycles_rx n y y' : ssi_cycles n y = Some y' -> exists l, sm_rx (sy_sm y') = sm_rx (sy_sm y) ++ l.
Proof.
  revert y. induction n as [|n IH]; intros y E.
  - apply (inj Some) in E as <-. exists []. by rewrite app_nil_r.
  - cbn [ssi_cycles] in E. apply option.bind_Some in E as (y1 & E1 & E). apply IH in E as [l E].
    unfold ssi_cycle in E1. apply option.bind_Some in E1 as (sm & E1 & E2). apply (inj Some) in E2 as <-.
    apply sm_step_rx in E1 as [l1 E1]. exists (l1 ++ l). cbn [sy_sm] in E. by rewrite E, E1, app_assoc.
Qed.

(** A reader that waits for a transaction. *)
Definition ssi_idle (bits : Z) (r : DualSsiReader) : Prop :=
  ds_bit_count r = bits - 1 /\ exists x osr isr stall, ds_sm r = machine 0 0 true x osr isr stall.

(** An encoder between two transactions. *)
Definition encoder_idle (bits position : Z) (e : Encoder) : Prop :=
  en_width e = Z.to_nat bits /\ en_position e = position /\ en_clock e = true /\ en_latched e = false.

(** The reader, and the two encoders after [n] cycles. *)
Definition transacting (r : DualSsiReader) (e0 e1 : Encoder) (n : nat) : option (DualSsiReader * Encoder * Encoder) :=
  y ← ssi_cycles n {| sy_sm := ds_sm r; sy_0 := e0; sy_1 := e1 |};
  Some (r <| ds_sm := sy_sm y |>, sy_0 y, sy_1 y).

(** A started machine up to the push, and the push. *)
Lemma ssi_run bits w0 w1 x osr isr stall e0 e1 :
  1 <= bits <= 16 -> encoder_idle bits w0 e0 -> encoder_idle bits w1 e1 ->
  exists e0' e1' x' osr',
    ssi_cycles (4 * Z.to_nat bits + 7)
        {| sy_sm := (machine 0 0 true x osr isr stall) <| sm_tx := [bits - 1] |>; sy_0 := e0; sy_1 := e1 |}
    = Some {| sy_sm := machine 9 0 true x' osr' (interleave (Z.to_nat bits) w0 w1) stall; sy_0 := e0'; sy_1 := e1' |}.
Proof.
  intros Hb (W0 & P0 & C0 & L0) (W1 & P1 & C1 & L1).
  assert (H0 : presents e0 (bits_msb (Z.to_nat bits) w0)) by (split; [done|by rewrite L0, W0, P0]).
  assert (H1 : presents e1 (bits_msb (Z.to_nat bits) w1)) by (split; [done|by rewrite L1, W1, P1]).
  replace (4 * Z.to_nat bits + 7)%nat with (3 + (4 * S (Z.to_nat (bits - 1)) + 4))%nat by lia.
  replace (Z.to_nat bits) with (S (Z.to_nat (bits - 1))) in H0, H1 |- * by lia.
  rewrite ssi_cycles_add. cbn [ssi_cycles].
  assert (E : ssi_cycle {| sy_sm := (machine 0 0 true x osr isr stall) <| sm_tx := [bits - 1] |>; sy_0 := e0; sy_1 := e1 |}
    = Some {| sy_sm := machine 1 0 true x (bits - 1) isr stall; sy_0 := encoder_clock true e0; sy_1 := encoder_clock true e1 |})
    by reflexivity.
  rewrite E, bind_Some, cycle_mov_x, bind_Some, cycle_mov_isr, !bind_Some, !(encoder_clock_high e0 C0), !(encoder_clock_high e1 C1).
  rewrite ssi_cycles_add.
  destruct (ssi_loop (Z.to_nat (bits - 1)) (bits - 1) 0 stall e0 e1 _ _ (length_bits_msb _ _) (length_bits_msb _ _) H0 H1)
    as (e0' & e1' & x' & El & _); [lia| |].
  { assert (4 ^ Z.of_nat (S (Z.to_nat (bits - 1))) <= 4 ^ 16) by (apply Z.pow_le_mono_r; lia). change (4 ^ 16) with (2 ^ 32) in *. lia. }
  rewrite Z2Nat.id in El by lia. rewrite El, bind_Some, shifted_in_interleave. cbn [ssi_cycles].
  rewrite cycle_tail_low, bind_Some, cycle_wait, bind_Some, cycle_tail_high, bind_Some, cycle_wait, !bind_Some. by eexists _, _, _, _.
Qed.

Lemma read_nothing r : sm_rx (ds_sm r) = [] -> (DualSsiReader_read r).2 = None.
Proof. unfold DualSsiReader_read, rxf_read. by intros ->. Qed.

(** ** Properties *)

(** C25. A transaction of the dual reader, from the assembler text to the decoded
    positions: on an idle reader and two idle encoders [start] succeeds, nothing
    can be read for [4 bits + 7] cycles, the word read after one more separates into exactly
    the positions the encoders latched, and the reader is idle again; and the
    constructor accepts exactly its two ranges and gives an idle reader. *)
Theorem ssi_transaction (bits w0 w1 : Z) (r : DualSsiReader) (e0 e1 : Encoder)
    (Hb : 1 <= bits <= 16) (Hw0 : fits bits w0) (Hw1 : fits bits w1)
    (Hr : ssi_idle bits r) (He0 : encoder_idle bits w0 e0) (He1 : encoder_idle bits w1 e1) :
  (forall rate, match DualSsiReader_new bits rate with
                | Some r => ssi_idle bits r /\ 1 <= rate <= 4000000
                | None => ~ 1 <= rate <= 4000000 end)
  /\ exists r1, DualSsiReader_start r = (r1, true)
    /\ (forall k, (k < 4 * Z.to_nat bits + 8)%nat ->
         exists r2 e0' e1', transacting r1 e0 e1 k = Some (r2, e0', e1') /\ (DualSsiReader_read r2).2 = None)
    /\ exists r2 e0' e1' r3 raw, transacting r1 e0 e1 (4 * Z.to_nat bits + 8) = Some (r2, e0', e1')
         /\ DualSsiReader_read r2 = (r3, Some raw) /\ deinterleave_pair raw bits = Ok (w0, w1) /\ ssi_idle bits r3.
Proof.
  split.
  { intros rate. unfold DualSsiReader_new. rewrite (proj2 (Z.leb_le 1 _)), (proj2 (Z.leb_le _ 16)) by lia. cbn [andb negb].
    destruct (Z.leb_spec 1 rate), (Z.leb_spec rate 4000000); cbn [andb negb]; try lia.
    split; [|lia]. split; [done|]. by exists 0, 0, 0, false. }
  destruct Hr as [Hbits (x & osr & isr & stall & Hsm)]. destruct r as [sm bc]. cbn [ds_bit_count ds_sm] in Hbits, Hsm. subst bc sm.
  exists {| ds_sm := (machine 0 0 true x osr isr stall) <| sm_tx := [bits - 1] |>; ds_bit_count := bits - 1 |}.
  split; [reflexivity|].
  destruct (ssi_run bits w0 w1 x osr isr stall e0 e1 Hb He0 He1) as (e0' & e1' & x' & osr' & E). split.
  - intros k Hk. unfold transacting. cbn [ds_sm].
    replace (4 * Z.to_nat bits + 7)%nat with (k + (4 * Z.to_nat bits + 7 - k))%nat in E by lia.
    rewrite ssi_cycles_add in E. apply option.bind_Some in E as (y & Ek & E).
    apply ssi_cycles_rx in E as [l E]. symmetry in E. cbn [sy_sm machine sm_rx] in E. apply app_eq_nil in E as [E _].
    eexists _, _, _. split; [rewrite Ek, bind_Some; reflexivity|].
    apply read_nothing. exact E.
  - unfold transacting. replace (4 * Z.to_nat bits + 8)%nat with (4 * Z.to_nat bits + 7 + 1)%nat by lia.
    cbn [ds_sm]. rewrite ssi_cycles_add, E, bind_Some. cbn [ssi_cycles].
    eexists _, _, _, _, _. split; [reflexivity|]. split; [reflexivity|]. split; [by apply deinterleave_interleave|].
    split; [done|]. by eexists _, _, _, _.
Qed.

(** ** Witnesses *)

Definition example_encoder (position : Z) : Encoder := {|
  en_width := 12; en_position := position; en_clock := true; en_latched := false; en_shift := []; en_out := true |}.

Definition example_reader : DualSsiReader := {| ds_sm := machine 0 0 true 0 0 0 false; ds_bit_count := 11 |}.

(** The program run on two positions. *)
Example transaction_runs :
  ('(r, _, _) ← transacting (DualSsiReader_start example_reader).1 (example_encoder 1234) (example_encoder 4000) 56;
   (DualSsiReader_read r).2) = Some (interleave 12 1234 4000).
Proof. by vm_compute. Qed.

Lemma ssi_transaction_witness :
  exists r2 e0' e1' r3 raw,
    transacting (DualSsiReader_start example_reader).1 (example_encoder 1234) (example_encoder 4000) 56 = Some (r2, e0', e1')
    /\ DualSsiReader_read r2 = (r3, Some raw) /\ deinterleave_pair raw 12 = Ok (1234, 4000).
Proof.
  destruct (ssi_transaction 12 1234 4000 example_reader (example_encoder 1234) (example_encoder 4000))
    as (_ & r1 & E & _ & r2 & e0' & e1' & r3 & raw & E2 & E3 & E4 & _);
    [lia|by vm_compute|by vm_compute|split; [done|by exists 0, 0, 0, false]|by repeat split|by repeat split|].
  rewrite E. by exists r2, e0', e1', r3, raw.
Defined.
