(* ===== verification/PulsePio.v ===== *)
(** * The pulse period reader (firmware/rt/src/pulse_pio.rs)

    The program that counts from one rising edge of its pin to the next, and the
    reader over its receive FIFO.  The pin is the level that each cycle samples. *)

From S2P Require Import Prelude Pio.

#[export] Set Default Goal Selector "!".
Open Scope Z_scope.

(** ** The program *)

Definition unsided (op : Operation) : Instruction := {| in_op := op; in_side := None; in_delay := 0 |}.

(** The FIFOs are joined for reception. *)
Definition PULSE_PROGRAM : PioProgram := {|
  pp_code := [
    unsided (Wait false);
    unsided (Wait true);
    unsided (Mov DstX true SrcNull);
    (* high: *)
    unsided (Jmp PinHigh 6);
    (* low: *)
    unsided (Jmp PinHigh 7);
    unsided (Jmp XNonZeroDec 4);
    (* high_count: *)
    unsided (Jmp XNonZeroDec 3);
    (* edge: *)
    unsided (Mov DstIsr true SrcX);
    unsided (Push false);
    unsided (Mov DstX true SrcNull);
    unsided (Jmp Always 3)];
  pp_rx_depth := 2 * FIFO_DEPTH |}.

(** ** The reader *)

Record PulsePeriodReader := { pr_sm : Sm }.

(** The state machine as it is enabled; [None] is the assertion. *)
Definition PulsePeriodReader_new (counter_hz : Z) : option PulsePeriodReader :=
  if (1 <=? counter_hz) && (counter_hz <=? 10000000)
  then Some {| pr_sm := {| sm_pc := 0; sm_wait := 0; sm_x := 0; sm_osr := 0; sm_isr := 0; sm_tx := []; sm_rx := [];
                           sm_rxstall := false; sm_side := false |} |}
  else None.

Definition PulsePeriodReader_read (r : PulsePeriodReader) : PulsePeriodReader * option Z :=
  match rxf_read (pr_sm r) with
  | Some (v, sm) => ({| pr_sm := sm |}, Some v)
  | None => (r, None)
  end.

(** The stall flag is write-one-to-clear. *)
Definition PulsePeriodReader_stalled (r : PulsePeriodReader) : PulsePeriodReader * bool :=
  if sm_rxstall (pr_sm r) then ({| pr_sm := (pr_sm r) <| sm_rxstall := false |> |}, true) else (r, false).

(** ** Running *)

(** The cycles from [t] on. *)
Fixpoint pulse_cycles (pin : Z -> bool) (n : nat) (t : Z) (s : Sm) : option Sm :=
  match n with
  | O => Some s
  | S n => s ← sm_step PULSE_PROGRAM (Z.b2z (pin t)) (pin t) s; pulse_cycles pin n (t + 1) s
  end.

(** ** Lemmas *)

Lemma pulse_cycles_add pin n m t s :
  pulse_cycles pin (n + m) t s = (s ← pulse_cycles pin n t s; pulse_cycles pin m (t + Z.of_nat n) s).
Proof.
  revert t s. induction n as [|n IH]; intros t s.
  - cbn [Nat.add pulse_cycles]. rewrite bind_Some. by rewrite Z.add_0_r.
  - cbn [pulse_cycles Nat.add]. destruct (sm_step _ _ _ s) as [s1|]; [|done]. rewrite !bind_Some, IH.
    replace (t + Z.of_nat (S n)) with (t + 1 + Z.of_nat n) by lia. done.
Qed.

(** The machine with its counter [c] steps into the measurement. *)
Definition counting (pc : nat) (c : Z) (osr isr : Z) (tx rx : list Z) (stall side : bool) : Sm := {|
  sm_pc := pc; sm_wait := 0; sm_x := umax 32 - c; sm_osr := osr; sm_isr := isr; sm_tx := tx; sm_rx := rx;
  sm_rxstall := stall; sm_side := side |}.

Section cycles.
Variables (pin : Z -> bool) (osr isr : Z) (tx rx : list Z) (stall side : bool).
Abbreviation at_pc pc c := (counting pc c osr isr tx rx stall side).

(** A count, while fewer than [2^32 - 1] have been made. *)
Lemma counted c : 0 <= c < umax 32 -> wrapping_sub 32 (umax 32 - c) 1 = umax 32 - (c + 1) /\ (umax 32 - c =? 0) = false.
Proof.
  intros Hc. split; [|by apply Z.eqb_neq; lia]. unfold wrapping_sub. rewrite wrap_id; [lia|].
  unfold fits, umax in *. lia.
Qed.

(** While the pin is high: two cycles for a count. *)
Lemma count_high t c : 0 <= c < umax 32 -> pin t = true -> pulse_cycles pin 2 t (at_pc 3 c) = Some (at_pc 3 (c + 1)).
Proof.
  intros Hc Ht. destruct (counted c Hc) as [E1 E2]. cbn [pulse_cycles]. rewrite Ht. unfold counting, sm_step.
  cbn -[umax wrapping_sub Z.sub Z.eqb]. rewrite E2, E1. done.
Qed.

(** While it is low. *)
Lemma count_low t c : 0 <= c < umax 32 -> pin t = false -> pulse_cycles pin 2 t (at_pc 4 c) = Some (at_pc 4 (c + 1)).
Proof.
  intros Hc Ht. destruct (counted c Hc) as [E1 E2]. cbn [pulse_cycles]. rewrite Ht. unfold counting, sm_step.
  cbn -[umax wrapping_sub Z.sub Z.eqb]. rewrite E2, E1. done.
Qed.

Lemma fall t c : pin t = false -> pulse_cycles pin 1 t (at_pc 3 c) = Some (at_pc 4 c).
Proof. intros Ht. cbn [pulse_cycles]. rewrite Ht. done. Qed.

Lemma rise t c : pin t = true -> pulse_cycles pin 1 t (at_pc 4 c) = Some (at_pc 7 c).
Proof. intros Ht. cbn [pulse_cycles]. rewrite Ht. done. Qed.
End cycles.

Section loops.
Variables (pin : Z -> bool) (osr isr : Z) (tx rx : list Z) (stall side : bool).
Abbreviation at_pc pc c := (counting pc c osr isr tx rx stall side).

Lemma loop_high n t c :
  0 <= c -> c + Z.of_nat n <= umax 32 -> (forall i, 0 <= i < Z.of_nat n -> pin (t + 2 * i) = true) ->
  pulse_cycles pin (2 * n) t (at_pc 3 c) = Some (at_pc 3 (c + Z.of_nat n)).
Proof.
  revert t c. induction n as [|n IH]; intros t c Hc Hn Hp; [by rewrite Z.add_0_r|].
  replace (2 * S n)%nat with (2 + 2 * n)%nat by lia. rewrite pulse_cycles_add, count_high, bind_Some;
    [|lia|specialize (Hp 0); rewrite Z.add_0_r in Hp; apply Hp; lia].
  rewrite IH; [do 2 f_equal; lia|lia|lia|]. intros i Hi. specialize (Hp (i + 1) ltac:(lia)).
  by replace (t + Z.of_nat 2 + 2 * i) with (t + 2 * (i + 1)) by lia.
Qed.

Lemma loop_low n t c :
  0 <= c -> c + Z.of_nat n <= umax 32 -> (forall i, 0 <= i < Z.of_nat n -> pin (t + 2 * i) = false) ->
  pulse_cycles pin (2 * n) t (at_pc 4 c) = Some (at_pc 4 (c + Z.of_nat n)).
Proof.
  revert t c. induction n as [|n IH]; intros t c Hc Hn Hp; [by rewrite Z.add_0_r|].
  replace (2 * S n)%nat with (2 + 2 * n)%nat by lia. rewrite pulse_cycles_add, count_low, bind_Some;
    [|lia|specialize (Hp 0); rewrite Z.add_0_r in Hp; apply Hp; lia].
  rewrite IH; [do 2 f_equal; lia|lia|lia|]. intros i Hi. specialize (Hp (i + 1) ltac:(lia)).
  by replace (t + Z.of_nat 2 + 2 * i) with (t + 2 * (i + 1)) by lia.
Qed.

(** From a check of a high pin to the detection of the next rising edge: the pin
    is high until [f], low until [r], and high for two cycles. *)
Lemma measure_interval t f r :
  (forall i, t <= i < f -> pin i = true) -> (forall i, f <= i < r -> pin i = false) ->
  pin r = true -> pin (r + 1) = true -> Z.max t f + 3 <= r -> r - t <= 2 ^ 32 ->
  exists v c, r <= v <= r + 1 /\ v - t = 2 * c + 1 /\ 0 <= c < umax 32
    /\ pulse_cycles pin (Z.to_nat (v + 1 - t)) t (at_pc 3 0) = Some (at_pc 7 c).
Proof.
  intros Hh Hl Hr Hr1 Hlong Hwrap. unfold umax.
  pose (h := Z.max 0 (f - t + 1) / 2). pose (u := t + 2 * h).
  assert (Hu : Z.max t f <= u <= Z.max t f + 1) by (unfold u, h; div_lia).
  pose (l := (r - u) / 2). pose (v := u + 1 + 2 * l).
  assert (Hv : r <= v <= r + 1) by (unfold v, l; div_lia).
  assert (0 <= h /\ 0 <= l) by (unfold h, l; div_lia).
  exists v, (h + l). split; [done|]. split; [unfold v, u; lia|]. split; [unfold v, u in *; lia|].
  replace (Z.to_nat (v + 1 - t)) with (2 * Z.to_nat h + (1 + (2 * Z.to_nat l + 1)))%nat by (unfold v, u; lia).
  rewrite pulse_cycles_add, loop_high, bind_Some; [|lia|unfold umax, v, u in *; lia|intros i Hi; apply Hh; unfold u in *; div_lia].
  replace (0 + Z.of_nat (Z.to_nat h)) with h by lia.
  replace (t + Z.of_nat (2 * Z.to_nat h)) with u by (unfold u; lia).
  rewrite pulse_cycles_add, fall, bind_Some by (apply Hl; lia).
  rewrite pulse_cycles_add, loop_low, bind_Some;
    [|lia|unfold umax, v, u in *; lia|intros i Hi; apply Hl; unfold v in *; lia].
  replace (h + Z.of_nat (Z.to_nat l)) with (h + l) by lia. apply rise.
  replace (u + Z.of_nat 1 + Z.of_nat (2 * Z.to_nat l)) with v by (unfold v; lia).
  assert (v = r \/ v = r + 1) as [-> | ->] by lia; done.
Qed.
End loops.

(** The four instructions at an edge: the count is published, if there is room. *)
Lemma publish pin t c osr isr tx rx stall side :
  0 <= c <= umax 32 ->
  pulse_cycles pin 4 t (counting 7 c osr isr tx rx stall side)
  = Some (counting 3 0 osr 0 tx (if len rx <? 8 then rx ++ [c] else rx) (stall || negb (len rx <? 8)) side).
Proof.
  intros Hc. pose (x := umax 32 - c).
  assert (E7 : forall pins jp, sm_step PULSE_PROGRAM pins jp (counting 7 c osr isr tx rx stall side)
    = Some (Build_Sm 8 0 x osr (umax 32 - x) tx rx stall side)) by reflexivity.
  assert (E8 : forall pins jp i, sm_step PULSE_PROGRAM pins jp (Build_Sm 8 0 x osr i tx rx stall side)
    = Some (Build_Sm 9 0 x osr 0 tx (if len rx <? 8 then rx ++ [i] else rx) (stall || negb (len rx <? 8)) side)).
  { intros pins jp i. unfold sm_step. cbn. change (2 * FIFO_DEPTH) with 8.
    destruct (len rx <? 8); [by rewrite orb_false_r|by rewrite orb_true_r]. }
  assert (E9 : forall pins jp rx stall, sm_step PULSE_PROGRAM pins jp (Build_Sm 9 0 x osr 0 tx rx stall side)
    = Some (Build_Sm 10 0 (umax 32 - 0) osr 0 tx rx stall side)) by reflexivity.
  assert (E10 : forall pins jp rx stall, sm_step PULSE_PROGRAM pins jp (Build_Sm 10 0 (umax 32 - 0) osr 0 tx rx stall side)
    = Some (counting 3 0 osr 0 tx rx stall side)) by reflexivity.
  assert (Ex : umax 32 - x = c) by (unfold x; lia).
  cbn [pulse_cycles]. by rewrite E7, bind_Some, E8, bind_Some, E9, bind_Some, E10, Ex.
Qed.

(** The three instructions before the first measurement, on a pin that is low and
    rises at [r0]. *)
Lemma first_edge pin n s :
  (forall i, 0 <= i < Z.of_nat n -> pin i = false) -> (0 < n)%nat -> pin (Z.of_nat n) = true ->
  sm_pc s = 0%nat -> sm_wait s = 0%nat ->
  pulse_cycles pin (n + 2) 0 s
  = Some (counting 3 0 (sm_osr s) (sm_isr s) (sm_tx s) (sm_rx s) (sm_rxstall s) (sm_side s)).
Proof.
  intros Hl Hn Hr Hpc Hw. destruct s as [pc wait x osr isr tx rx stall side]. cbn in *. subst pc wait.
  assert (Estep : sm_step PULSE_PROGRAM (Z.b2z false) false (Build_Sm 1 0 x osr isr tx rx stall side)
    = Some (Build_Sm 1 0 x osr isr tx rx stall side)) by reflexivity.
  assert (Hwait : forall k t, (forall i, 0 <= i < Z.of_nat k -> pin (t + i) = false) ->
    pulse_cycles pin k t (Build_Sm 1 0 x osr isr tx rx stall side) = Some (Build_Sm 1 0 x osr isr tx rx stall side)).
  { intros k. induction k as [|k IH]; intros t Hk; [done|]. cbn [pulse_cycles].
    pose proof (Hk 0 ltac:(lia)) as H0. rewrite Z.add_0_r in H0. rewrite H0, Estep, bind_Some.
    apply IH. intros i Hi. rewrite <-Z.add_assoc. apply Hk. lia. }
  destruct n as [|n]; [lia|]. replace (S n + 2)%nat with (1 + (n + 2))%nat by lia.
  rewrite pulse_cycles_add. cbn [pulse_cycles]. rewrite (Hl 0) by lia.
  assert (E0 : sm_step PULSE_PROGRAM (Z.b2z false) false (Build_Sm 0 0 x osr isr tx rx stall side)
    = Some (Build_Sm 1 0 x osr isr tx rx stall side)) by reflexivity.
  rewrite E0, !bind_Some.
  change (0 + Z.of_nat 1) with 1. rewrite pulse_cycles_add, Hwait, bind_Some by (intros i Hi; apply Hl; lia).
  replace (1 + Z.of_nat n) with (Z.of_nat (S n)) by lia. cbn [pulse_cycles]. rewrite Hr. done.
Qed.

(** ** Properties *)

(** C40. The intervals of the pulse reader.  When the machine has just seen a rising
    edge at [v0] and the pin then falls and, after three low cycles at least,
    rises at [r], the machine sees that edge at [r] or one cycle later, with a
    count that is exactly half of what it measured between the two detections,
    less the three counts that publishing takes, and it publishes the previous
    count, or drops it and flags the stall when the FIFO is full; so that every
    interval between edges is [2 count + 6] cycles to within one cycle. *)
Theorem pulse_interval (pin : Z -> bool) (r0 v0 f r c0 osr isr : Z) (tx rx : list Z) (stall side : bool)
    (Hv0 : r0 <= v0 <= r0 + 1) (Hc0 : 0 <= c0 <= umax 32)
    (Hhigh : forall i, v0 < i < f -> pin i = true) (Hlow : forall i, f <= i < r -> pin i = false)
    (Hrise : pin r = true) (Hrise1 : pin (r + 1) = true)
    (Hlong : Z.max f (v0 + 5) + 3 <= r) (Hwrap : r - v0 <= 2 ^ 32) :
  exists v c, r <= v <= r + 1 /\ v - v0 = 2 * c + 6 /\ 0 <= c < umax 32
    /\ Z.abs ((r - r0) - (2 * c + 6)) <= 1
    /\ pulse_cycles pin (Z.to_nat (v - v0)) (v0 + 1) (counting 7 c0 osr isr tx rx stall side)
       = Some (counting 7 c osr 0 tx (if len rx <? 8 then rx ++ [c0] else rx) (stall || negb (len rx <? 8)) side).
Proof.
  destruct (measure_interval pin osr 0 tx (if len rx <? 8 then rx ++ [c0] else rx) (stall || negb (len rx <? 8)) side
    (v0 + 5) f r) as (v & c & Hv & Ev & Hc & E); [intros; apply Hhigh; lia|done|done|done|lia|lia|].
  exists v, c. split; [done|]. split; [lia|]. split; [done|]. split; [lia|].
  replace (Z.to_nat (v - v0)) with (4 + Z.to_nat (v + 1 - (v0 + 5)))%nat by lia.
  rewrite pulse_cycles_add, publish, bind_Some by done.
  by replace (v0 + 1 + Z.of_nat 4) with (v0 + 5) by lia.
Qed.

(** From power-up: the machine waits for the first rising edge, at [r0], and the
    first interval is measured from there, [2 count + 3] cycles to within one. *)
Theorem pulse_first (counter_hz r0 f r : Z) (reader : PulsePeriodReader) (pin : Z -> bool)
    (Hnew : PulsePeriodReader_new counter_hz = Some reader) (Hr0 : 0 < r0)
    (Hlow0 : forall i, 0 <= i < r0 -> pin i = false) (Hhigh : forall i, r0 <= i < f -> pin i = true)
    (Hlow : forall i, f <= i < r -> pin i = false) (Hrise : pin r = true) (Hrise1 : pin (r + 1) = true)
    (Hf : r0 < f) (Hlong : Z.max f (r0 + 2) + 3 <= r) (Hwrap : r - r0 <= 2 ^ 32) :
  1 <= counter_hz <= 10000000
  /\ exists v c, r <= v <= r + 1 /\ v - r0 = 2 * c + 3 /\ 0 <= c < umax 32
    /\ pulse_cycles pin (Z.to_nat (v + 1)) 0 (pr_sm reader) = Some (counting 7 c 0 0 [] [] false false).
Proof.
  unfold PulsePeriodReader_new in Hnew. destruct (_ && _) eqn:E; [|done]. apply (inj Some) in Hnew as <-. bool_facts.
  split; [done|].
  destruct (measure_interval pin 0 0 [] [] false false (r0 + 2) f r) as (v & c & Hv & Ev & Hc & Er);
    [intros; apply Hhigh; lia|done|done|done|lia|lia|].
  exists v, c. split; [done|]. split; [lia|]. split; [done|].
  replace (Z.to_nat (v + 1)) with (Z.to_nat r0 + 2 + Z.to_nat (v + 1 - (r0 + 2)))%nat by lia.
  rewrite pulse_cycles_add, first_edge, bind_Some; cbn [sm_pc sm_wait pr_sm sm_osr sm_isr sm_tx sm_rx sm_rxstall sm_side]; try done.
  - by replace (0 + Z.of_nat (Z.to_nat r0 + 2)) with (r0 + 2) by lia.
  - intros i Hi. apply Hlow0. lia.
  - lia.
  - apply Hhigh. lia.
Qed.

(** ** Witnesses *)

(** High for 10 of every 30 cycles, from cycle 5 on. *)
Definition example_pin (t : Z) : bool := (5 <=? t) && ((t - 5) mod 30 <? 10).

Example intervals_run :
  (s ← pulse_cycles example_pin 130 0
     {| sm_pc := 0; sm_wait := 0; sm_x := 0; sm_osr := 0; sm_isr := 0; sm_tx := []; sm_rx := []; sm_rxstall := false;
        sm_side := false |}; Some (sm_rx s)) = Some [14; 12; 12; 12].
Proof. by vm_compute. Qed.

Ltac pin_solve := unfold example_pin; intros; repeat match goal with
  | |- context [?a <=? ?b] => destruct (Z.leb_spec a b) | |- context [?a <? ?b] => destruct (Z.ltb_spec a b) end; cbn; try done; div_lia.

Lemma pulse_interval_witness :
  exists v c, 35 <= v <= 36 /\ v - 5 = 2 * c + 6
    /\ pulse_cycles example_pin (Z.to_nat (v - 5)) 6 (counting 7 9 0 0 [] [] false false)
       = Some (counting 7 c 0 0 [] [9] false false).
Proof.
  destruct (pulse_interval example_pin 5 5 15 35 9 0 0 [] [] false false)
    as (v & c & H1 & H2 & _ & _ & H3); [lia|by vm_compute|pin_solve|pin_solve|done|done|lia|lia|].
  exists v, c. split; [done|]. split; [done|]. exact H3.
Defined.

Lemma pulse_first_witness :
  exists reader v c, PulsePeriodReader_new 1000000 = Some reader /\ v - 5 = 2 * c + 3
    /\ pulse_cycles example_pin (Z.to_nat (v + 1)) 0 (pr_sm reader) = Some (counting 7 c 0 0 [] [] false false).
Proof.
  eexists.
  destruct (pulse_first 1000000 5 15 35 _ example_pin eq_refl)
    as (_ & v & c & _ & H2 & _ & H3); [lia|pin_solve|pin_solve|pin_solve|done|done|lia|lia|lia|].
  exists v, c. split; [reflexivity|]. split; [done|]. exact H3.
Defined.

