(* ===== verification/Pid.v ===== *)
(** * PID controller

    [helic-core/src/pid.rs]: filtered derivative, output clamp and conditional
    integration.  [None] is the panic of [f32::clamp] on inverted or NaN
    limits. *)

From S2P Require Import Prelude Float32.

Record PidConfig := {
  pc_kp : float; pc_ki : float; pc_kd : float; pc_tau_d : float;
  pc_out_min : float; pc_out_max : float }.

Definition PidConfig_default : PidConfig :=
  {| pc_kp := f0; pc_ki := f0; pc_kd := f0; pc_tau_d := f0;
     pc_out_min := f32_MIN; pc_out_max := f32_MAX |}.

Record Pid := {
  pid_config : PidConfig; pid_integral : float; pid_prev_error : float;
  pid_deriv : float; pid_first : bool }.

Definition Pid_new (config : PidConfig) : Pid :=
  {| pid_config := config; pid_integral := f0; pid_prev_error := f0;
     pid_deriv := f0; pid_first := true |}.

Definition Pid_default : Pid := Pid_new PidConfig_default.

Definition Pid_reset (p : Pid) : Pid :=
  {| pid_config := pid_config p; pid_integral := f0; pid_prev_error := f0;
     pid_deriv := f0; pid_first := true |}.

(** The filtered derivative after this sample. *)
Definition next_deriv (p : Pid) (error dt : float) : float :=
  let raw_deriv := if pid_first p then f0 else fdiv (fsub error (pid_prev_error p)) dt in
  let tau_d := pc_tau_d (pid_config p) in
  let alpha := if fgt tau_d f0 then fdiv dt (fadd tau_d dt) else f1 in
  fadd (pid_deriv p) (fmul alpha (fsub raw_deriv (pid_deriv p))).

Definition unclamped_output (p : Pid) (error dt : float) : float :=
  let c := pid_config p in
  fadd (fadd (fmul (pc_kp c) error) (pid_integral p)) (fmul (pc_kd c) (next_deriv p error dt)).

Definition integral_increment (p : Pid) (error dt : float) : float :=
  fmul (fmul (pc_ki (pid_config p)) error) dt.

Definition Pid_update (p : Pid) (error dt : float) : option (Pid * float) :=
  let c := pid_config p in
  let unclamped := unclamped_output p error dt in
  out ← fclamp unclamped (pc_out_min c) (pc_out_max c);
  let inc := integral_increment p error dt in
  let saturated_high := fgt unclamped (pc_out_max c) && fgt inc f0 in
  let saturated_low := flt unclamped (pc_out_min c) && flt inc f0 in
  let integral :=
    if negb (saturated_high || saturated_low) then fadd (pid_integral p) inc
    else pid_integral p in
  Some ({| pid_config := c; pid_integral := integral; pid_prev_error := error;
           pid_deriv := next_deriv p error dt; pid_first := false |}, out).

(** The outputs over a sequence of errors. *)
Fixpoint Pid_run (p : Pid) (dt : float) (errors : list float) : option (Pid * list float) :=
  match errors with
  | [] => Some (p, [])
  | e :: es =>
      '(p, out) ← Pid_update p e dt;
      '(p, outs) ← Pid_run p dt es;
      Some (p, out :: outs)
  end.

(** ** Lemmas *)

Definition limits_ok (c : PidConfig) : Prop := fle (pc_out_min c) (pc_out_max c) = true.

Lemma Pid_update_spec p error dt :
  limits_ok (pid_config p) ->
  exists p' out, Pid_update p error dt = Some (p', out) /\ pid_config p' = pid_config p
    /\ pid_first p' = false
    /\ (is_nan out = true \/ fin_range (pc_out_min (pid_config p)) (pc_out_max (pid_config p)) out).
Proof.
  intros Hc. destruct (fclamp_spec (unclamped_output p error dt) _ _ Hc) as (r & E & Hn & Hr).
  unfold Pid_update. rewrite E. cbn [mbind option_bind]. eexists _, r. split; [done|].
  split; [done|]. split; [done|]. destruct (is_nan (unclamped_output p error dt)) eqn:En.
  - left. by rewrite Hn.
  - right. by apply Hr.
Qed.

(** ** Properties *)

(** With ordered limits the controller never panics, whatever the errors and
    the sample period (infinities and NaN included), its configuration never
    changes, and every output it produces is within the limits or is a NaN. *)
Theorem pid_output_bounded (p : Pid) (dt : float) (errors : list float)
    (Hc : limits_ok (pid_config p)) :
  exists p' outs, Pid_run p dt errors = Some (p', outs) /\ pid_config p' = pid_config p
    /\ length outs = length errors
    /\ Forall (fun out => is_nan out = true
         \/ fin_range (pc_out_min (pid_config p)) (pc_out_max (pid_config p)) out) outs.
Proof.
  revert p Hc. induction errors as [|e es IH]; intros p Hc.
  { exists p, []. done. }
  destruct (Pid_update_spec p e dt Hc) as (p1 & out & E1 & C1 & _ & Hout).
  destruct (IH p1) as (p2 & outs & E2 & C2 & L2 & F2); [by rewrite C1|].
  cbn [Pid_run]. rewrite E1. cbn. rewrite E2. cbn.
  rewrite C1 in *. eexists _, _. split; [done|]. split_and!; [done|cbn; lia|].
  by constructor.
Qed.

Lemma pid_output_bounded_witness :
  limits_ok (pid_config Pid_default)
  /\ exists p' outs, Pid_run Pid_default f1 [f1; S754_nan; S754_infinity true] = Some (p', outs)
    /\ pid_config p' = PidConfig_default /\ length outs = 3%nat
    /\ Forall (fun out => is_nan out = true \/ fin_range f32_MIN f32_MAX out) outs.
Proof.
  assert (H : limits_ok (pid_config Pid_default)) by by vm_compute.
  split; [exact H|]. exact (pid_output_bounded Pid_default f1 _ H).
Defined.

(** Anti-windup: a sample whose unclamped output lies beyond a limit, and whose
    error would move the integral further that way, leaves the integral as it
    was and outputs that limit; every other sample adds exactly its increment.
    After a reset, or on the first sample, the derivative term starts from a
    zero difference, and a reset controller is a new one. *)
Theorem pid_anti_windup (p : Pid) (error dt : float) (p' : Pid) (out : float)
    (Hu : Pid_update p error dt = Some (p', out)) :
  let c := pid_config p in
  let u := unclamped_output p error dt in
  let inc := integral_increment p error dt in
  (fgt u (pc_out_max c) = true -> fgt inc f0 = true ->
     pid_integral p' = pid_integral p /\ out = pc_out_max c)
  /\ (flt u (pc_out_min c) = true -> flt inc f0 = true ->
     pid_integral p' = pid_integral p /\ (out = pc_out_min c))
  /\ ((fgt u (pc_out_max c) = false \/ fgt inc f0 = false) ->
      (flt u (pc_out_min c) = false \/ flt inc f0 = false) ->
      pid_integral p' = fadd (pid_integral p) inc)
  /\ (fin_range (pc_out_min c) (pc_out_max c) u -> out = u)
  /\ (pid_first p = true -> next_deriv p error dt
        = fadd (pid_deriv p) (fmul (if fgt (pc_tau_d c) f0 then fdiv dt (fadd (pc_tau_d c) dt)
                                    else f1) (fsub f0 (pid_deriv p))))
  /\ Pid_reset p' = Pid_new c.
Proof.
  intros c u inc. revert Hu. unfold Pid_update. fold c. fold u. fold inc.
  unfold fclamp. destruct (fle _ _) eqn:Hlim; [|done]. cbn [mbind option_bind].
  intros [<- <-]%(inj Some)%pair_equal_spec. cbn [pid_integral pid_config].
  unfold fgt. split_and!.
  - intros H1 H2. rewrite H1, H2. cbn [andb orb negb].
    destruct (flt u (pc_out_min c)) eqn:H3; [|by rewrite H1].
    pose proof (flt_trans _ _ _ H1 H3) as H4. by rewrite (fle_flt _ _ Hlim) in H4.
  - intros H1 H2. rewrite H1, H2. rewrite (fle_flt _ _ Hlim), orb_true_r. done.
  - intros H1 H2. destruct H1 as [-> | ->], H2 as [-> | ->]; by rewrite ?andb_false_r.
  - intros [H1 H2]. by rewrite (fle_flt _ _ H1), (fle_flt _ _ H2).
  - intros H1. unfold next_deriv. by rewrite H1.
  - done.
Qed.

Definition saturating_pid : Pid :=
  Pid_new {| pc_kp := f1; pc_ki := f32_of_Z 100; pc_kd := f0; pc_tau_d := f0;
             pc_out_min := fneg f1; pc_out_max := f1 |}.

Lemma pid_anti_windup_witness :
  exists p' out, Pid_update saturating_pid (f32_of_Z 10) (flit 1 8000) = Some (p', out)
    /\ pid_integral p' = pid_integral saturating_pid /\ out = f1.
Proof.
  destruct (Pid_update saturating_pid (f32_of_Z 10) (flit 1 8000)) as [[p' out]|] eqn:E.
  - exists p', out. split; [done|].
    destruct (pid_anti_windup _ _ _ _ _ E) as [H _]. by apply H; vm_compute.
  - by vm_compute in E.
Defined.
