(* ===== verification/Table.v ===== *)
(** * Waveform table and its player

    [helic-core/src/table.rs].  A [WaveTable<N>] keeps [N] values and the
    length in use; the capacity [N] is the length of the list.  Out-of-range
    indices are [None]. *)

From S2P Require Import Prelude Float32 Phase.

Definition MAX_TABLE_LEN : Z := 4096.

Record WaveTable := { wt_values : list float; wt_len : Z }.

(** [empty] asserts its capacity at compile time ([table_capacity]). *)
Definition WaveTable_empty (N : Z) : WaveTable :=
  {| wt_values := replicate (Z.to_nat N) f0; wt_len := 0 |}.

Definition WaveTable_capacity (t : WaveTable) : Z := len (wt_values t).

Definition WaveTable_from_slice (N : Z) (values : list float) : option WaveTable :=
  if negb ((2 <=? len values) && (len values <=? N)) then None
  else
    v ← blit (wt_values (WaveTable_empty N)) 0 values;
    Some {| wt_values := v; wt_len := wrap 16 (len values) |}.

Definition WaveTable_is_empty (t : WaveTable) : bool := wt_len t =? 0.
(** [&self.values[..self.len()]] *)
Definition WaveTable_samples (t : WaveTable) : option (list float) :=
  slice (wt_values t) 0 (wt_len t).
(** [self.values.get(..len)] *)
Definition WaveTable_prefix (t : WaveTable) (n : Z) : option (list float) :=
  slice (wt_values t) 0 n.

(** The block is written and [true], or nothing is written and [false]; the
    [checked_add] fails only beyond [usize::MAX] of a 32-bit target. *)
Definition WaveTable_write_block (t : WaveTable) (offset : Z) (values : list float)
    : option (WaveTable * bool) :=
  let end_ := offset + len values in
  if umax 32 <? end_ then Some (t, false)
  else if WaveTable_capacity t <? end_ then Some (t, false)
  else
    v ← blit (wt_values t) offset values;
    Some ({| wt_values := v; wt_len := wt_len t |}, true).

Definition WaveTable_set_len (t : WaveTable) (n : Z) : WaveTable * bool :=
  if negb ((2 <=? n) && (n <=? WaveTable_capacity t)) then (t, false)
  else ({| wt_values := wt_values t; wt_len := wrap 16 n |}, true).

Inductive TableInterpolation := ZeroOrderHold | Linear.

#[export] Instance TableInterpolation_eq_dec : EqDecision TableInterpolation.
Proof. solve_decision. Defined.

Definition TableInterpolation_from_u32 (value : Z) : option TableInterpolation :=
  if value =? 0 then Some ZeroOrderHold
  else if value =? 1 then Some Linear
  else None.

(** The fixed-point position: knot index and 32-bit fraction to the next. *)
Definition WaveTable_evaluate_with (t : WaveTable) (theta : Z) (interp : TableInterpolation)
    : option float :=
  let n := wt_len t in
  let position := theta * n in
  let i := Z.shiftr position 32 in
  match interp with
  | Linear =>
      let fraction := fmul (f32_of_Z (wrap 32 position)) f2pm32 in
      let next := if i + 1 =? n then 0 else i + 1 in
      a ← index (wt_values t) i;
      b ← index (wt_values t) next;
      Some (fadd a (fmul (fsub b a) fraction))
  | ZeroOrderHold => index (wt_values t) i
  end.

Definition WaveTable_evaluate (t : WaveTable) (theta : Z) : option float :=
  WaveTable_evaluate_with t theta Linear.

Inductive TableMode := Off | Loop | OneShot | LockedLoop | LockedOneShot.

#[export] Instance TableMode_eq_dec : EqDecision TableMode.
Proof. solve_decision. Defined.

Definition TableMode_from_u32 (value : Z) : option TableMode :=
  if value =? 0 then Some Off
  else if value =? 1 then Some Loop
  else if value =? 2 then Some OneShot
  else if value =? 3 then Some LockedLoop
  else if value =? 4 then Some LockedOneShot
  else None.

Inductive OneShotState := Idle | Armed | Running.

#[export] Instance OneShotState_eq_dec : EqDecision OneShotState.
Proof. solve_decision. Defined.

(** ** [TablePlayer] *)

Record TablePlayer := {
  tp_phase : PhaseAccumulator; tp_mode : TableMode; tp_interpolation : TableInterpolation;
  tp_gain : float; tp_multiplier : Z; tp_phase_offset : Z; tp_one_shot : OneShotState;
  tp_previous_master : Z; tp_locked_progress : Z }.

Definition TablePlayer_new : TablePlayer :=
  {| tp_phase := PhaseAccumulator_new; tp_mode := Off; tp_interpolation := Linear;
     tp_gain := f1; tp_multiplier := 1; tp_phase_offset := 0; tp_one_shot := Idle;
     tp_previous_master := 0; tp_locked_progress := 0 |}.

Definition with_phase (p : TablePlayer) (a : PhaseAccumulator) : TablePlayer :=
  {| tp_phase := a; tp_mode := tp_mode p; tp_interpolation := tp_interpolation p;
     tp_gain := tp_gain p; tp_multiplier := tp_multiplier p;
     tp_phase_offset := tp_phase_offset p; tp_one_shot := tp_one_shot p;
     tp_previous_master := tp_previous_master p; tp_locked_progress := tp_locked_progress p |}.

Definition with_one_shot (p : TablePlayer) (o : OneShotState) : TablePlayer :=
  {| tp_phase := tp_phase p; tp_mode := tp_mode p; tp_interpolation := tp_interpolation p;
     tp_gain := tp_gain p; tp_multiplier := tp_multiplier p;
     tp_phase_offset := tp_phase_offset p; tp_one_shot := o;
     tp_previous_master := tp_previous_master p; tp_locked_progress := tp_locked_progress p |}.

Definition with_progress (p : TablePlayer) (master progress : Z) : TablePlayer :=
  {| tp_phase := tp_phase p; tp_mode := tp_mode p; tp_interpolation := tp_interpolation p;
     tp_gain := tp_gain p; tp_multiplier := tp_multiplier p;
     tp_phase_offset := tp_phase_offset p; tp_one_shot := tp_one_shot p;
     tp_previous_master := master; tp_locked_progress := progress |}.

Definition TablePlayer_set_increment (p : TablePlayer) (increment : Z) : TablePlayer :=
  with_phase p (PhaseAccumulator_set_increment (tp_phase p) increment).

Definition TablePlayer_set_gain (p : TablePlayer) (gain : float) : TablePlayer :=
  {| tp_phase := tp_phase p; tp_mode := tp_mode p; tp_interpolation := tp_interpolation p;
     tp_gain := gain; tp_multiplier := tp_multiplier p;
     tp_phase_offset := tp_phase_offset p; tp_one_shot := tp_one_shot p;
     tp_previous_master := tp_previous_master p; tp_locked_progress := tp_locked_progress p |}.

Definition TablePlayer_set_mode (p : TablePlayer) (mode : TableMode) : TablePlayer :=
  {| tp_phase := tp_phase p; tp_mode := mode; tp_interpolation := tp_interpolation p;
     tp_gain := tp_gain p; tp_multiplier := tp_multiplier p;
     tp_phase_offset := tp_phase_offset p; tp_one_shot := Idle;
     tp_previous_master := tp_previous_master p; tp_locked_progress := tp_locked_progress p |}.

Definition TablePlayer_set_interpolation (p : TablePlayer) (i : TableInterpolation) : TablePlayer :=
  {| tp_phase := tp_phase p; tp_mode := tp_mode p; tp_interpolation := i;
     tp_gain := tp_gain p; tp_multiplier := tp_multiplier p;
     tp_phase_offset := tp_phase_offset p; tp_one_shot := tp_one_shot p;
     tp_previous_master := tp_previous_master p; tp_locked_progress := tp_locked_progress p |}.

Definition TablePlayer_set_multiplier (p : TablePlayer) (multiplier : Z) : TablePlayer :=
  {| tp_phase := tp_phase p; tp_mode := tp_mode p; tp_interpolation := tp_interpolation p;
     tp_gain := tp_gain p; tp_multiplier := Z.max multiplier 1;
     tp_phase_offset := tp_phase_offset p; tp_one_shot := tp_one_shot p;
     tp_previous_master := tp_previous_master p; tp_locked_progress := tp_locked_progress p |}.

Definition TablePlayer_set_phase_offset (p : TablePlayer) (offset : Z) : TablePlayer :=
  {| tp_phase := tp_phase p; tp_mode := tp_mode p; tp_interpolation := tp_interpolation p;
     tp_gain := tp_gain p; tp_multiplier := tp_multiplier p;
     tp_phase_offset := offset; tp_one_shot := tp_one_shot p;
     tp_previous_master := tp_previous_master p; tp_locked_progress := tp_locked_progress p |}.

Definition TablePlayer_trigger (p : TablePlayer) : TablePlayer :=
  match tp_mode p with
  | OneShot => with_one_shot (with_phase p (PhaseAccumulator_reset (tp_phase p))) Running
  | LockedOneShot => with_one_shot p Armed
  | _ => p
  end.

(** The phase at which to read the table, or [None] for an early return of
    zero; with the state after the tick. *)
Definition player_theta (p : TablePlayer) (master_phase : Z) (master_start : bool)
    : TablePlayer * option Z :=
  let locked := wrapping_add 32 (wrapping_mul 32 master_phase (tp_multiplier p))
                             (tp_phase_offset p) in
  match tp_mode p with
  | Off => (p, None)
  | Loop =>
      let '(a, (theta, _)) := PhaseAccumulator_step (tp_phase p) in
      (with_phase p a, Some theta)
  | OneShot =>
      if negb (bool_decide (tp_one_shot p = Running)) then (p, None)
      else
        let '(a, (theta, wrapped)) := PhaseAccumulator_step (tp_phase p) in
        let p := with_phase p a in
        if (wrapped : bool) then (with_one_shot p Idle, None) else (p, Some theta)
  | LockedLoop => (p, Some locked)
  | LockedOneShot =>
      match tp_one_shot p with
      | Armed =>
          if negb master_start then (p, None)
          else (with_progress (with_one_shot p Running) master_phase 0, Some locked)
      | Running =>
          let delta := wrapping_sub 32 master_phase (tp_previous_master p) in
          let progress := saturating_add 64 (tp_locked_progress p) (delta * tp_multiplier p) in
          let p := with_progress p master_phase progress in
          if Z.shiftl 1 32 <=? progress then (with_one_shot p Idle, None) else (p, Some locked)
      | Idle => (p, None)
      end
  end.

Definition TablePlayer_step (p : TablePlayer) (t : WaveTable) (master_phase : Z)
    (master_start : bool) : option (TablePlayer * float) :=
  if wt_len t <? 2 then Some (p, f0)
  else
    let '(p, theta) := player_theta p master_phase master_start in
    match theta with
    | None => Some (p, f0)
    | Some theta =>
        v ← WaveTable_evaluate_with t theta (tp_interpolation p);
        Some (p, fmul (tp_gain p) v)
    end.

(** ** Lemmas *)

Definition table_wf (t : WaveTable) : Prop :=
  2 <= WaveTable_capacity t <= umax 16
  /\ (wt_len t = 0 \/ 2 <= wt_len t <= WaveTable_capacity t).

Lemma WaveTable_empty_wf N : 2 <= N <= umax 16 -> table_wf (WaveTable_empty N).
Proof.
  intros HN. unfold table_wf, WaveTable_capacity, WaveTable_empty, len. cbn [wt_values wt_len].
  rewrite length_replicate. lia.
Qed.

Lemma WaveTable_write_block_spec t offset values :
  table_wf t -> 0 <= offset ->
  exists t' ok, WaveTable_write_block t offset values = Some (t', ok)
    /\ table_wf t' /\ WaveTable_capacity t' = WaveTable_capacity t /\ wt_len t' = wt_len t
    /\ ok = (offset + len values <=? WaveTable_capacity t)
    /\ (ok = false -> t' = t)
    /\ (ok = true -> blit (wt_values t) offset values = Some (wt_values t')).
Proof.
  intros [[H1 H2] H3] Ho. unfold WaveTable_write_block.
  assert (Hu : umax 16 < umax 32) by by vm_compute.
  pose proof (len_nonneg values).
  destruct (Z.ltb_spec (umax 32) (offset + len values)).
  { exists t, false. split_and!; try done. by destruct (Z.leb_spec (offset + len values) (WaveTable_capacity t)); [lia|]. }
  destruct (Z.ltb_spec (WaveTable_capacity t) (offset + len values)) as [|Hle].
  { exists t, false. split_and!; try done. by destruct (Z.leb_spec (offset + len values) (WaveTable_capacity t)); [lia|]. }
  destruct (blit (wt_values t) offset values) as [v|] eqn:Eb.
  - cbn [mbind option_bind]. exists {| wt_values := v; wt_len := wt_len t |}, true.
    pose proof (blit_length _ _ _ _ Eb) as Hv.
    unfold table_wf, WaveTable_capacity in *. cbn [wt_values wt_len]. rewrite Hv.
    split_and!; try done. by rewrite (proj2 (Z.leb_le _ _)).
  - unfold blit, WaveTable_capacity in *. by rewrite !(proj2 (Z.leb_le _ _)) in Eb by lia.
Qed.

Lemma WaveTable_set_len_wf t n : table_wf t -> table_wf (WaveTable_set_len t n).1.
Proof.
  intros [Hc Ht]. unfold WaveTable_set_len. destruct (_ && _) eqn:E; cbn [negb fst]; [|done].
  bool_facts. unfold table_wf, WaveTable_capacity in *. cbn [wt_values wt_len].
  rewrite wrap_id by (unfold fits, umax in *; lia). lia.
Qed.

Lemma table_position t theta :
  2 <= wt_len t -> fits 32 theta ->
  0 <= Z.shiftr (theta * wt_len t) 32 < wt_len t.
Proof.
  unfold fits. intros Hn Ht. rewrite Z.shiftr_div_pow2 by lia. split.
  - apply Z.div_pos; lia.
  - apply Z.div_lt_upper_bound; nia.
Qed.

Lemma WaveTable_evaluate_with_Some t theta i :
  table_wf t -> 2 <= wt_len t -> fits 32 theta ->
  is_Some (WaveTable_evaluate_with t theta i).
Proof.
  intros [Hc [?|Hl]] Hn Ht; [lia|].
  pose proof (table_position t theta Hn Ht) as Hi. unfold WaveTable_capacity in *.
  unfold WaveTable_evaluate_with.
  destruct (index_is_Some (wt_values t) (Z.shiftr (theta * wt_len t) 32)) as [a Ea]; [lia|].
  destruct i; [done|]. rewrite Ea. cbn [mbind option_bind].
  destruct (index_is_Some (wt_values t) (if Z.shiftr (theta * wt_len t) 32 + 1 =? wt_len t then 0
    else Z.shiftr (theta * wt_len t) 32 + 1)) as [b Eb].
  { destruct (Z.eqb_spec (Z.shiftr (theta * wt_len t) 32 + 1) (wt_len t)); lia. }
  rewrite Eb. cbn. eauto.
Qed.

Lemma player_theta_fits p m s p' theta :
  phase_wf (tp_phase p) -> player_theta p m s = (p', Some theta) -> fits 32 theta.
Proof.
  intros Hp. unfold player_theta, PhaseAccumulator_step, overflowing_add.
  assert (forall z, fits 32 (wrap 32 z)) by (intros; apply wrap_fits; lia).
  repeat case_match; intros; simplify_eq; unfold wrapping_add, wrapping_mul in *; try done.
Qed.

(** The outputs of a sequence of ticks, each with the master phase and its
    period start. *)
Fixpoint player_run (p : TablePlayer) (t : WaveTable) (ticks : list (Z * bool))
    : option (list float) :=
  match ticks with
  | [] => Some []
  | (m, s) :: ticks =>
      '(p, y) ← TablePlayer_step p t m s;
      ys ← player_run p t ticks;
      Some (y :: ys)
  end.

(** The sample the player reads at [theta]. *)
Definition table_sample (p : TablePlayer) (t : WaveTable) (theta : Z) : float :=
  fmul (tp_gain p) (default f0 (WaveTable_evaluate_with t theta (tp_interpolation p))).

Lemma TablePlayer_step_theta p t m s :
  table_wf t -> 2 <= wt_len t -> phase_wf (tp_phase p) ->
  TablePlayer_step p t m s
  = let '(p', theta) := player_theta p m s in
    Some (p', match theta with Some theta => table_sample p' t theta | None => f0 end).
Proof.
  intros Ht Hn Hp. unfold TablePlayer_step.
  rewrite (proj2 (Z.ltb_ge _ _)) by lia.
  destruct (player_theta p m s) as [p' [theta|]] eqn:E; [|done].
  destruct (WaveTable_evaluate_with_Some t theta (tp_interpolation p') Ht Hn) as [v Ev].
  { by eapply player_theta_fits. }
  unfold table_sample. by rewrite Ev.
Qed.

(** A player whose one-shot is idle outputs zero for ever. *)
Lemma idle_one_shot_run p t ticks :
  2 <= wt_len t -> tp_one_shot p = Idle ->
  tp_mode p = OneShot \/ tp_mode p = LockedOneShot ->
  player_run p t ticks = Some (replicate (length ticks) f0).
Proof.
  intros Hn Hi Hm.
  assert (Hs : forall m s, TablePlayer_step p t m s = Some (p, f0)).
  { intros m s. unfold TablePlayer_step. rewrite (proj2 (Z.ltb_ge _ _)) by lia.
    unfold player_theta. rewrite Hi. by destruct Hm as [-> | ->]. }
  induction ticks as [|[m s] ticks IH]; [done|].
  cbn [player_run]. rewrite Hs. cbn [mbind option_bind]. by rewrite IH.
Qed.

Lemma table_sample_ext p p' t theta :
  tp_gain p = tp_gain p' -> tp_interpolation p = tp_interpolation p' ->
  table_sample p t theta = table_sample p' t theta.
Proof. unfold table_sample. by intros -> ->. Qed.

Lemma one_shot_run p t k ticks :
  table_wf t -> 2 <= wt_len t -> tp_mode p = OneShot -> tp_one_shot p = Running ->
  phase_wf (tp_phase p) ->
  0 <= k -> pa_phase (tp_phase p) = k * pa_increment (tp_phase p) ->
  player_run p t ticks
  = Some (imap (fun j _ =>
      let theta := (k + Z.of_nat j + 1) * pa_increment (tp_phase p) in
      if theta <? 2 ^ 32 then table_sample p t theta else f0) ticks).
Proof.
  intros Ht Hn. revert p k. induction ticks as [|[m s] ticks IH]; intros p k Hm Hr Hp Hk Hph;
    [done|].
  cbn [player_run]. rewrite imap_cons, TablePlayer_step_theta by done.
  unfold player_theta. rewrite Hm, Hr, bool_decide_eq_true_2 by done.
  cbn [negb]. unfold PhaseAccumulator_step, overflowing_add.
  destruct Hp as [Hp1 Hp2]. unfold fits in Hp1, Hp2. set (inc := pa_increment (tp_phase p)) in *.
  replace (pa_phase (tp_phase p) + inc) with ((k + Z.of_nat 0 + 1) * inc) by lia.
  set (theta := (k + Z.of_nat 0 + 1) * inc).
  assert (Hpos : 0 <= theta) by nia.
  destruct (Z.leb_spec (2 ^ 32) theta); cbn [mbind option_bind].
  - rewrite idle_one_shot_run by (done || by left). cbn [mbind option_bind]. do 2 f_equal.
    + by rewrite (proj2 (Z.ltb_ge _ _)) by lia.
    + symmetry. apply imap_replicate. intros j x _. cbn [compose].
      rewrite (proj2 (Z.ltb_ge _ _)); [done|]. nia.
  - rewrite (IH _ (k + 1)); cbn [with_phase tp_phase tp_mode tp_one_shot pa_phase pa_increment].
    + cbn [mbind option_bind]. do 2 f_equal.
      * rewrite (proj2 (Z.ltb_lt _ _)) by lia. rewrite wrap_id by done. by apply table_sample_ext.
      * apply imap_ext. intros j x _. cbn [compose]. fold inc.
        replace (k + 1 + Z.of_nat j + 1) with (k + Z.of_nat (S j) + 1) by lia.
        by rewrite (table_sample_ext _ p).
    + done.
    + done.
    + split; [by apply wrap_fits|done].
    + lia.
    + rewrite wrap_id by done. unfold theta. fold inc. lia.
Qed.

(** Ticks of a master generator that advances by [inc]: the phases are its
    multiples from [m], the period starts are given. *)
Fixpoint master_ticks (m inc : Z) (starts : list bool) : list (Z * bool) :=
  match starts with
  | [] => []
  | s :: starts => (wrap 32 m, s) :: master_ticks (m + inc) inc starts
  end.

Lemma length_master_ticks m inc starts : length (master_ticks m inc starts) = length starts.
Proof. revert m. induction starts as [|s starts IH]; intros m; [done|]. cbn. by rewrite IH. Qed.

Definition locked_theta (p : TablePlayer) (master_phase : Z) : Z :=
  wrapping_add 32 (wrapping_mul 32 master_phase (tp_multiplier p)) (tp_phase_offset p).

Lemma wrap_delta a inc : fits 32 inc -> wrapping_sub 32 (wrap 32 (a + inc)) (wrap 32 a) = inc.
Proof.
  intros Hi. unfold wrapping_sub, wrap. rewrite <-Zminus_mod.
  replace (a + inc - a) with inc by lia. by apply Z.mod_small.
Qed.

Lemma locked_running_run p t m k inc starts :
  table_wf t -> 2 <= wt_len t -> tp_mode p = LockedOneShot -> tp_one_shot p = Running ->
  phase_wf (tp_phase p) -> fits 32 inc -> 1 <= tp_multiplier p <= umax 32 -> 0 <= k ->
  tp_previous_master p = wrap 32 m -> tp_locked_progress p = k * inc * tp_multiplier p ->
  tp_locked_progress p < 2 ^ 32 ->
  player_run p t (master_ticks (m + inc) inc starts)
  = Some (imap (fun j _ =>
      if (k + Z.of_nat j + 1) * inc * tp_multiplier p <? 2 ^ 32
      then table_sample p t (locked_theta p (wrap 32 (m + (Z.of_nat j + 1) * inc))) else f0) starts).
Proof.
  intros Ht Hn. revert p m k.
  induction starts as [|s starts IH]; intros p m k Hm Hr Hp Hi Hmul Hk Hpm Hpr Hlt; [done|].
  cbn [master_ticks player_run]. rewrite imap_cons, TablePlayer_step_theta by done.
  unfold player_theta. rewrite Hm, Hr, Hpm, wrap_delta, Hpr by done.
  assert (He : k * inc * tp_multiplier p + inc * tp_multiplier p
               = (k + Z.of_nat 0 + 1) * inc * tp_multiplier p) by lia.
  assert (Hbound : k * inc * tp_multiplier p + inc * tp_multiplier p <= umax 64).
  { rewrite <-Hpr. unfold fits, umax in *. change (2 ^ 64) with (2 ^ 32 * 2 ^ 32). nia. }
  unfold saturating_add. rewrite Z.min_l by done. rewrite He. change (Z.shiftl 1 32) with (2 ^ 32).
  set (e := (k + Z.of_nat 0 + 1) * inc * tp_multiplier p) in *.
  unfold fits, umax in *.
  destruct (Z.leb_spec (2 ^ 32) e); cbn [mbind option_bind].
  - rewrite idle_one_shot_run by (done || by right). cbn [mbind option_bind]. do 2 f_equal.
    + by rewrite (proj2 (Z.ltb_ge _ _)) by lia.
    + rewrite length_master_ticks. symmetry. apply imap_replicate. intros j x _. cbn [compose].
      rewrite (proj2 (Z.ltb_ge _ _)); [done|]. unfold e in *. nia.
  - rewrite (IH _ (m + inc) (k + 1));
      cbn [with_progress tp_mode tp_one_shot tp_phase tp_multiplier tp_previous_master
           tp_locked_progress]; try done; try (unfold e in *; lia).
    cbn [mbind option_bind]. do 2 f_equal.
    + rewrite (proj2 (Z.ltb_lt _ _)) by lia. unfold locked_theta.
      replace (m + (Z.of_nat 0 + 1) * inc) with (m + inc) by lia. by apply table_sample_ext.
    + apply imap_ext. intros j x _. cbn [compose].
      replace (k + 1 + Z.of_nat j + 1) with (k + Z.of_nat (S j) + 1) by lia.
      replace (m + inc + (Z.of_nat j + 1) * inc) with (m + (Z.of_nat (S j) + 1) * inc) by lia.
      by rewrite (table_sample_ext _ p).
Qed.

Lemma locked_armed_run p t m inc n after :
  table_wf t -> 2 <= wt_len t -> tp_mode p = LockedOneShot -> tp_one_shot p = Armed ->
  phase_wf (tp_phase p) -> fits 32 inc -> 1 <= tp_multiplier p <= umax 32 ->
  player_run p t (master_ticks m inc (replicate n false ++ true :: after))
  = Some (imap (fun j _ =>
      let i := Z.of_nat j - Z.of_nat n in
      if (0 <=? i) && (i * inc * tp_multiplier p <? 2 ^ 32)
      then table_sample p t (locked_theta p (wrap 32 (m + Z.of_nat j * inc))) else f0)
      (replicate n false ++ true :: after)).
Proof.
  intros Ht Hn Hm Ha Hp Hi Hmul. revert m. induction n as [|n IH]; intros m.
  - cbn [replicate app master_ticks player_run].
    rewrite imap_cons, TablePlayer_step_theta by done. unfold player_theta. rewrite Hm, Ha.
    cbn [negb mbind option_bind]. rewrite (locked_running_run _ t m 0); try done.
    cbn [mbind option_bind]. do 2 f_equal.
    + unfold locked_theta. replace (m + Z.of_nat 0 * inc) with m by lia. by apply table_sample_ext.
    + apply imap_ext. intros j x _. cbn [compose].
      replace (Z.of_nat (S j) - Z.of_nat 0) with (0 + Z.of_nat j + 1) by lia.
      rewrite (proj2 (Z.leb_le _ _)) by lia. cbn [andb].
      cbn [with_progress with_one_shot tp_multiplier].
      replace (m + (Z.of_nat j + 1) * inc) with (m + Z.of_nat (S j) * inc) by lia.
      by rewrite (table_sample_ext _ p).
  - cbn [replicate app master_ticks player_run].
    rewrite imap_cons, TablePlayer_step_theta by done. unfold player_theta. rewrite Hm, Ha.
    cbn [negb mbind option_bind]. rewrite IH. cbn [mbind option_bind]. do 2 f_equal.
    apply imap_ext. intros j x _. cbn [compose].
    replace (Z.of_nat (S j) - Z.of_nat (S n)) with (Z.of_nat j - Z.of_nat n) by lia.
    by replace (m + inc + Z.of_nat j * inc) with (m + Z.of_nat (S j) * inc) by lia.
Qed.

(** ** Properties *)

(** Interpolation is exact fixed-point arithmetic within the table: for every
    32-bit phase the knot is [floor (theta * len / 2^32)], in bounds, the last
    knot interpolates back to the first, the fraction is the 32-bit remainder,
    and no access is out of range. *)
Theorem table_evaluate_spec (t : WaveTable) (theta : Z)
    (Ht : table_wf t) (Hn : 2 <= wt_len t) (Hf : fits 32 theta) :
  let i := theta * wt_len t / 2 ^ 32 in
  0 <= i < wt_len t /\
  exists a b, index (wt_values t) i = Some a
    /\ index (wt_values t) ((i + 1) mod wt_len t) = Some b
    /\ WaveTable_evaluate_with t theta ZeroOrderHold = Some a
    /\ WaveTable_evaluate t theta
       = Some (fadd a (fmul (fsub b a)
                (fmul (f32_of_Z (theta * wt_len t - i * 2 ^ 32)) f2pm32))).
Proof.
  intros i. pose proof (table_position t theta Hn Hf) as Hi.
  rewrite Z.shiftr_div_pow2 in Hi by lia. fold i in Hi. split; [done|].
  destruct Ht as [Hc [?|Hl]]; [lia|]. unfold WaveTable_capacity in *.
  destruct (index_is_Some (wt_values t) i) as [a Ea]; [lia|].
  destruct (index_is_Some (wt_values t) ((i + 1) mod wt_len t)) as [b Eb].
  { pose proof (Z.mod_pos_bound (i + 1) (wt_len t)). lia. }
  exists a, b. split; [done|]. split; [done|].
  unfold WaveTable_evaluate, WaveTable_evaluate_with.
  rewrite Z.shiftr_div_pow2 by lia. fold i. split; [done|].
  rewrite Ea. cbn [mbind option_bind].
  replace (if i + 1 =? wt_len t then 0 else i + 1) with ((i + 1) mod wt_len t).
  2: { destruct (Z.eqb_spec (i + 1) (wt_len t)) as [->|].
       - apply Z.mod_same. lia.
       - apply Z.mod_small. lia. }
  rewrite Eb. cbn [mbind option_bind]. unfold wrap. rewrite Z.mod_eq by lia.
  fold i. by rewrite (Z.mul_comm i).
Qed.

Definition ramp : WaveTable :=
  {| wt_values := [f0; f1; f32_of_Z 2; f32_of_Z 3; f0; f0; f0; f0]; wt_len := 4 |}.

Lemma ramp_wf : table_wf ramp.
Proof. split; [by vm_compute|right; by vm_compute]. Defined.

Lemma table_evaluate_spec_witness :
  let i := (7 * 2 ^ 29) * wt_len ramp / 2 ^ 32 in
  0 <= i < wt_len ramp /\
  exists a b, index (wt_values ramp) i = Some a
    /\ index (wt_values ramp) ((i + 1) mod wt_len ramp) = Some b
    /\ WaveTable_evaluate_with ramp (7 * 2 ^ 29) ZeroOrderHold = Some a
    /\ WaveTable_evaluate ramp (7 * 2 ^ 29)
       = Some (fadd a (fmul (fsub b a)
                (fmul (f32_of_Z ((7 * 2 ^ 29) * wt_len ramp - i * 2 ^ 32)) f2pm32))).
Proof.
  apply (table_evaluate_spec ramp (7 * 2 ^ 29)); [apply ramp_wf|by cbn; lia|unfold fits; lia].
Defined.

Example final_segment_wraps_to_first :
  WaveTable_evaluate ramp (7 * 2 ^ 29) = Some (flit 3 2).
Proof. by vm_compute. Qed.

(** A triggered one-shot plays exactly one pass: tick [j] outputs the table at
    phase [(j + 1) * increment] while that is within one turn, and zero from
    the tick that completes the turn on, whatever the master generator does. *)
Theorem one_shot_single_pass (p : TablePlayer) (t : WaveTable) (ticks : list (Z * bool))
    (Ht : table_wf t) (Hn : 2 <= wt_len t) (Hm : tp_mode p = OneShot)
    (Hp : phase_wf (tp_phase p)) :
  player_run (TablePlayer_trigger p) t ticks
  = Some (imap (fun j _ =>
      let theta := (Z.of_nat j + 1) * pa_increment (tp_phase p) in
      if theta <? 2 ^ 32 then table_sample p t theta else f0) ticks).
Proof.
  unfold TablePlayer_trigger. rewrite Hm.
  rewrite (one_shot_run _ t 0); try done.
  split; [by cbn|]. by destruct Hp.
Qed.

Definition one_shot_player : TablePlayer :=
  TablePlayer_set_increment (TablePlayer_set_mode TablePlayer_new OneShot) (2 ^ 30).

Lemma one_shot_single_pass_witness :
  player_run (TablePlayer_trigger one_shot_player) ramp (replicate 6 (0, false))
  = Some [f1; f32_of_Z 2; f32_of_Z 3; f0; f0; f0].
Proof.
  rewrite (one_shot_single_pass one_shot_player ramp); [|apply ramp_wf|by cbn; lia|done|].
  - by vm_compute.
  - split; cbn; unfold fits; lia.
Defined.

(** A triggered locked one-shot waits for the next start of the master period,
    then plays while the master has moved by less than one turn over the
    multiplier, at the exact (wrapping) multiple of the master phase plus the
    offset, and is silent afterwards; its 64-bit progress never saturates. *)
Theorem locked_one_shot_single_pass (p : TablePlayer) (t : WaveTable) (m inc : Z) (n : nat)
    (after : list bool) (Ht : table_wf t) (Hn : 2 <= wt_len t)
    (Hm : tp_mode p = LockedOneShot) (Hp : phase_wf (tp_phase p)) (Hi : fits 32 inc)
    (Hmul : 1 <= tp_multiplier p <= umax 32) :
  let starts := replicate n false ++ true :: after in
  player_run (TablePlayer_trigger p) t (master_ticks m inc starts)
  = Some (imap (fun j _ =>
      let i := Z.of_nat j - Z.of_nat n in
      if (0 <=? i) && (i * inc * tp_multiplier p <? 2 ^ 32)
      then table_sample p t (locked_theta p (wrap 32 (m + Z.of_nat j * inc))) else f0) starts).
Proof.
  intros starts. unfold starts, TablePlayer_trigger. rewrite Hm. by rewrite locked_armed_run.
Qed.

Definition locked_player : TablePlayer := TablePlayer_set_mode TablePlayer_new LockedOneShot.

Lemma locked_one_shot_single_pass_witness :
  player_run (TablePlayer_trigger locked_player) ramp
    (master_ticks (3 * 2 ^ 30) (2 ^ 30) (replicate 1 false ++ true :: replicate 5 false))
  = Some [f0; f0; f1; f32_of_Z 2; f32_of_Z 3; f0; f0].
Proof.
  rewrite (locked_one_shot_single_pass locked_player ramp (3 * 2 ^ 30) (2 ^ 30) 1);
    [|apply ramp_wf|by cbn; lia|done| | |].
  - by vm_compute.
  - split; cbn; unfold fits; lia.
  - unfold fits. lia.
  - cbn. unfold umax. lia.
Defined.
