(* ===== verification/TableBuffer.v ===== *)
(** * Double buffer between the cores

    [helic-core/src/table_buffer.rs]: two banks shared by a staging endpoint
    (core 0) and an active endpoint (core 1) through two atomics and a linear
    commit token.  The first part translates the operations; the second lets
    the two cores interleave between their atomic accesses and shows that the
    protocol is an atomic swap without a data race.

    Memory is sequentially consistent here: the release/acquire orders of the
    source are what makes that adequate on the target, and are not modelled. *)

From S2P Require Import Prelude Float32 Table.

Definition NO_PENDING : Z := 0.

Inductive BufferError := BufferBusy.

Record CommitToken := { ct_owner : Z; ct_bank : Z }.

(** [db_identity] is the address of the buffer. *)
Record DoubleBuffer (T : Type) := {
  db_banks : list T; db_active : Z; db_pending : Z; db_identity : Z }.
Arguments Build_DoubleBuffer {T}.
Arguments db_banks {T}.
Arguments db_active {T}.
Arguments db_pending {T}.
Arguments db_identity {T}.

(** The active endpoint: the shared buffer apart, it caches the bank. *)
Record Active := { ac_current : Z }.

Section operations.
Context {T : Type}.
Implicit Types buf : DoubleBuffer T.

Definition DoubleBuffer_from_banks (identity : Z) (first second : T) : DoubleBuffer T :=
  {| db_banks := [first; second]; db_active := 0; db_pending := NO_PENDING;
     db_identity := identity |}.

(** [split]: the staging endpoint has no state of its own. *)
Definition DoubleBuffer_split buf : DoubleBuffer T * Active := (buf, {| ac_current := 0 |}).

Definition set_pending buf (p : Z) : DoubleBuffer T :=
  {| db_banks := db_banks buf; db_active := db_active buf; db_pending := p;
     db_identity := db_identity buf |}.
Definition set_active buf (a : Z) : DoubleBuffer T :=
  {| db_banks := db_banks buf; db_active := a; db_pending := db_pending buf;
     db_identity := db_identity buf |}.
Definition set_banks buf (banks : list T) : DoubleBuffer T :=
  {| db_banks := banks; db_active := db_active buf; db_pending := db_pending buf;
     db_identity := db_identity buf |}.

(** The bank that [buffer] borrows for writing. *)
Definition Staging_bank buf : outcome BufferError Z :=
  if negb (db_pending buf =? NO_PENDING) then Err BufferBusy
  else Ok (Z.lxor (db_active buf) 1).

(** [staging.buffer()?] followed by a use [f] of the borrowed bank. *)
Definition Staging_buffer {R} buf (f : T -> option (T * R))
    : outcome BufferError (DoubleBuffer T * R) :=
  b ← Staging_bank buf;
  x ← or_panic (index (db_banks buf) b);
  '(y, r) ← or_panic (f x);
  banks ← or_panic (put (db_banks buf) b y);
  Ok (set_banks buf banks, r).

Definition Staging_commit buf : outcome BufferError (DoubleBuffer T * CommitToken) :=
  if negb (db_pending buf =? NO_PENDING) then Err BufferBusy
  else
    let bank := Z.lxor (db_active buf) 1 in
    Ok (set_pending buf (bank + 1), {| ct_owner := db_identity buf; ct_bank := bank |}).

Definition Staging_cancel buf (token : CommitToken) : DoubleBuffer T :=
  if ct_owner token =? db_identity buf then set_pending buf NO_PENDING else buf.

Definition Active_get buf (a : Active) : option T := index (db_banks buf) (ac_current a).

Definition Active_activate buf (a : Active) (token : CommitToken) : DoubleBuffer T * Active :=
  if negb (ct_owner token =? db_identity buf) then (buf, a)
  else
    let pending := db_pending buf in
    if (pending =? NO_PENDING) || negb (pending - 1 =? ct_bank token) then (buf, a)
    else
      let current := pending - 1 in
      (set_pending (set_active buf current) NO_PENDING, {| ac_current := current |}).

(** ** The two cores, one atomic access at a time *)

Inductive pc0 :=
  | Idle0
  | BufferChecked                (* [buffer]: pending was free *)
  | Borrowed (b : Z)             (* the [&mut T] of bank [b] is live *)
  | CommitChecked                (* [commit]: pending was free *)
  | CommitBank (b : Z).          (* [commit]: the bank to publish is known *)

Inductive pc1 :=
  | Idle1
  | Reading (b : Z)              (* the [&T] of bank [b] is live *)
  | Activating (t : CommitToken) (* [activate]: the owner matched *)
  | Loaded (p : Z)               (* [activate]: pending matched the token *)
  | Stored.                      (* [activate]: the active bank is published *)

(** [s_tokens] are this buffer's tokens not yet consumed: in the command queue
    or held by either core. *)
Record sys := {
  s_buf : DoubleBuffer T; s_current : Z; s_pc0 : pc0; s_pc1 : pc1;
  s_tokens : list CommitToken }.

Inductive event :=
  | EvWrite (v : T) | EvCommit | EvCancel | EvActivate | EvRead (v : T).

Definition mk buf (current : Z) (p0 : pc0) (p1 : pc1) (tokens : list CommitToken) : sys :=
  {| s_buf := buf; s_current := current; s_pc0 := p0; s_pc1 := p1; s_tokens := tokens |}.

Inductive step : sys -> option event -> sys -> Prop :=
  | step_busy s :
      s_pc0 s = Idle0 -> db_pending (s_buf s) <> NO_PENDING -> step s None s
  | step_buffer_pending buf c p1 ts :
      db_pending buf = NO_PENDING ->
      step (mk buf c Idle0 p1 ts) None (mk buf c BufferChecked p1 ts)
  | step_buffer_active buf c p1 ts :
      step (mk buf c BufferChecked p1 ts) None
           (mk buf c (Borrowed (Z.lxor (db_active buf) 1)) p1 ts)
  | step_write buf c b p1 ts v banks :
      put (db_banks buf) b v = Some banks ->
      step (mk buf c (Borrowed b) p1 ts) (Some (EvWrite v))
           (mk (set_banks buf banks) c (Borrowed b) p1 ts)
  | step_release buf c b p1 ts :
      step (mk buf c (Borrowed b) p1 ts) None (mk buf c Idle0 p1 ts)
  | step_commit_pending buf c p1 ts :
      db_pending buf = NO_PENDING ->
      step (mk buf c Idle0 p1 ts) None (mk buf c CommitChecked p1 ts)
  | step_commit_active buf c p1 ts :
      step (mk buf c CommitChecked p1 ts) None
           (mk buf c (CommitBank (Z.lxor (db_active buf) 1)) p1 ts)
  | step_commit_store buf c b p1 ts :
      step (mk buf c (CommitBank b) p1 ts) (Some EvCommit)
           (mk (set_pending buf (b + 1)) c Idle0 p1
               ({| ct_owner := db_identity buf; ct_bank := b |} :: ts))
  | step_cancel buf c p1 ts1 t ts2 :
      ct_owner t = db_identity buf ->
      step (mk buf c Idle0 p1 (ts1 ++ t :: ts2)) (Some EvCancel)
           (mk (set_pending buf NO_PENDING) c Idle0 p1 (ts1 ++ ts2))
  | step_foreign s t :
      ct_owner t <> db_identity (s_buf s) -> step s None s
  | step_get buf c p0 ts :
      step (mk buf c p0 Idle1 ts) None (mk buf c p0 (Reading c) ts)
  | step_read buf c p0 b ts v :
      index (db_banks buf) b = Some v ->
      step (mk buf c p0 (Reading b) ts) (Some (EvRead v)) (mk buf c p0 (Reading b) ts)
  | step_get_end buf c p0 b ts :
      step (mk buf c p0 (Reading b) ts) None (mk buf c p0 Idle1 ts)
  | step_activate buf c p0 ts1 t ts2 :
      ct_owner t = db_identity buf ->
      step (mk buf c p0 Idle1 (ts1 ++ t :: ts2)) None (mk buf c p0 (Activating t) (ts1 ++ ts2))
  | step_activate_reject buf c p0 t ts :
      db_pending buf = NO_PENDING \/ db_pending buf - 1 <> ct_bank t ->
      step (mk buf c p0 (Activating t) ts) None (mk buf c p0 Idle1 ts)
  | step_activate_pending buf c p0 t ts :
      db_pending buf <> NO_PENDING -> db_pending buf - 1 = ct_bank t ->
      step (mk buf c p0 (Activating t) ts) None (mk buf c p0 (Loaded (db_pending buf)) ts)
  | step_activate_store buf c p0 p ts :
      step (mk buf c p0 (Loaded p) ts) (Some EvActivate)
           (mk (set_active buf (p - 1)) (p - 1) p0 Stored ts)
  | step_activate_clear buf c p0 ts :
      step (mk buf c p0 Stored ts) None (mk (set_pending buf NO_PENDING) c p0 Idle1 ts).

Definition emit (l : option event) (tr : list event) : list event :=
  match l with Some e => e :: tr | None => tr end.

(** Runs, with the trace of their events. *)
Inductive steps : sys -> list event -> sys -> Prop :=
  | steps_refl s : steps s [] s
  | steps_step s l s' tr s'' : step s l s' -> steps s' tr s'' -> steps s (emit l tr) s''.

Definition init (identity : Z) (x y : T) : sys :=
  mk (DoubleBuffer_from_banks identity x y) 0 Idle0 Idle1 [].

(** ** Specification: a register with a staged value and an atomic swap *)

Record spec := { sp_visible : T; sp_staged : T; sp_committed : bool }.

Definition spec_next (a : spec) (e : event) (a' : spec) : Prop :=
  match e with
  | EvWrite v => sp_committed a = false
      /\ a' = {| sp_visible := sp_visible a; sp_staged := v; sp_committed := false |}
  | EvCommit => sp_committed a = false
      /\ a' = {| sp_visible := sp_visible a; sp_staged := sp_staged a; sp_committed := true |}
  | EvCancel => sp_committed a = true
      /\ a' = {| sp_visible := sp_visible a; sp_staged := sp_staged a; sp_committed := false |}
  | EvActivate => sp_committed a = true
      /\ a' = {| sp_visible := sp_staged a; sp_staged := sp_visible a; sp_committed := false |}
  | EvRead v => v = sp_visible a /\ a' = a
  end.

Inductive spec_run : spec -> list event -> spec -> Prop :=
  | spec_refl a : spec_run a [] a
  | spec_step a e a' tr a'' : spec_next a e a' -> spec_run a' tr a'' -> spec_run a (e :: tr) a''.

(** ** Invariant and simulation *)

Definition own buf (t : CommitToken) : Prop :=
  ct_owner t = db_identity buf /\ db_pending buf = ct_bank t + 1
  /\ ct_bank t = Z.lxor (db_active buf) 1.

Definition tokens_ok (s : sys) : Prop :=
  let buf := s_buf s in
  match s_pc1 s with
  | Idle1 => (db_pending buf = 0 /\ s_tokens s = []) \/ exists t, s_tokens s = [t] /\ own buf t
  | Reading b => b = s_current s
      /\ ((db_pending buf = 0 /\ s_tokens s = []) \/ exists t, s_tokens s = [t] /\ own buf t)
  | Activating t => s_tokens s = [] /\ own buf t
  | Loaded p => s_tokens s = [] /\ p = db_pending buf /\ p = Z.lxor (db_active buf) 1 + 1
  | Stored => s_tokens s = [] /\ db_pending buf = db_active buf + 1
  end.

Definition core0_ok (s : sys) : Prop :=
  match s_pc0 s with
  | Idle0 => True
  | BufferChecked | CommitChecked => db_pending (s_buf s) = 0
  | Borrowed b | CommitBank b =>
      db_pending (s_buf s) = 0 /\ b = Z.lxor (db_active (s_buf s)) 1
  end.

Definition inv (s : sys) : Prop :=
  (db_active (s_buf s) = 0 \/ db_active (s_buf s) = 1)
  /\ s_current s = db_active (s_buf s) /\ tokens_ok s /\ core0_ok s.

Definition is_stored (p : pc1) : bool := match p with Stored => true | _ => false end.

Definition sim (s : sys) (a : spec) : Prop :=
  index (db_banks (s_buf s)) (s_current s) = Some (sp_visible a)
  /\ index (db_banks (s_buf s)) (Z.lxor (s_current s) 1) = Some (sp_staged a)
  /\ sp_committed a = negb (db_pending (s_buf s) =? 0) && negb (is_stored (s_pc1 s)).
End operations.

(** [TableBuffer::new] and [ValueBuffer::values]: zeroed banks. *)
Definition TableBuffer_new (identity N : Z) : DoubleBuffer WaveTable :=
  DoubleBuffer_from_banks identity (WaveTable_empty N) (WaveTable_empty N).

Definition ValueBuffer_values (identity : Z) (N : nat) : DoubleBuffer (list float) :=
  DoubleBuffer_from_banks identity (replicate N f0) (replicate N f0).

Arguments sys : clear implicits.
Arguments event : clear implicits.
Arguments spec : clear implicits.

(** ** Lemmas *)

Section lemmas.
Context {T : Type}.
Implicit Types (s : sys T) (a : spec T).

Lemma lxor_bit x : x = 0 \/ x = 1 -> Z.lxor x 1 = 1 - x.
Proof. by intros [-> | ->]. Qed.

Ltac unpack :=
  unfold inv, sim, tokens_ok, core0_ok, own, NO_PENDING in *;
  cbn [s_buf s_current s_pc0 s_pc1 s_tokens mk set_pending set_active set_banks
       db_banks db_active db_pending db_identity is_stored negb andb] in *.

Lemma app_singleton {A} (l1 l2 : list A) x y :
  l1 ++ x :: l2 = [y] -> l1 = [] /\ l2 = [] /\ x = y.
Proof. destruct l1 as [|? [|? ?]]; intros; simplify_eq/=; done. Qed.

Lemma step_inv s l s' : inv s -> step s l s' -> inv s'.
Proof.
  intros Hi Hs. destruct Hs; unpack; destruct Hi as (Ha & Hc & Ht & Hz);
    rewrite ?(lxor_bit _ Ha) in *; try tauto.
  - (* commit_store *) destruct Hz as [Hp ->]. split_and!; try done.
    destruct p1; [destruct Ht as [[_ ->] | (t & _ & Ho)]
                 |destruct Ht as (-> & [[_ ->] | (t & _ & Ho)])| | |]; try lia.
    + right. by eexists.
    + split; [done|]. right. by eexists.
  - (* cancel *) split_and!; try done.
    destruct p1; [destruct Ht as [[_ Ht] | (t' & Ht & _)]
                 |destruct Ht as (-> & [[_ Ht] | (t' & Ht & _)])
                 |destruct Ht as [Ht _]..]; try (by destruct ts1);
      apply app_singleton in Ht as (-> & -> & _); auto.
  - (* activate *) destruct Ht as [[_ Ht] | (t' & Ht & Ho)]; [by destruct ts1|].
    by apply app_singleton in Ht as (-> & -> & ->).
  - (* reject *) destruct Ht as (_ & _ & Hp & Hb). lia.
  - (* activate_pending *) destruct Ht as (-> & _ & Hp & Hb). split_and!; try done. lia.
  - (* activate_store *) destruct Ht as (-> & -> & Hp). rewrite Hp.
    split_and!; try done; [lia|lia|]. destruct p0; try done; lia.
  - (* clear *) destruct Ht as [-> Hp]. split_and!; auto. destruct p0; try done; lia.
Qed.

(** Writing the bank that is not current leaves the current one. *)
Lemma put_other (l l' : list T) b v c w :
  put l b v = Some l' -> c = 0 \/ c = 1 -> b = 1 - c ->
  index l c = Some w -> index l' c = Some w /\ index l' b = Some v.
Proof.
  intros Hp Hc Hb Hw.
  assert (Hl : 0 <= b < len l).
  { apply index_Some in Hw as [_ Hw]. unfold put, blit in Hp. change (len [v]) with 1 in Hp.
    destruct ((0 <=? b) && _) eqn:E; [|done]. bool_facts. lia. }
  destruct (put_spec l b v Hl) as (l2 & E & _ & Hi). simplify_eq.
  rewrite !Hi, Z.eqb_refl. split; [|done]. by rewrite (proj2 (Z.eqb_neq _ _)) by lia.
Qed.

Lemma step_sim s l s' a :
  inv s -> sim s a -> step s l s' ->
  match l with None => sim s' a | Some e => exists a', spec_next a e a' /\ sim s' a' end.
Proof.
  intros Hi Hsim Hs.
  destruct a as [vis stg com].
  destruct Hs; unpack; destruct Hi as (Ha & Hc & Ht & Hz), Hsim as (Hv & Hw & Hb);
    cbn [sp_visible sp_staged sp_committed] in *;
    rewrite ?(lxor_bit _ Ha) in *; subst; rewrite ?(lxor_bit _ Ha) in *; try done.
  - (* write *) destruct Hz as [Hp ->].
    destruct (put_other _ _ _ _ _ _ H Ha eq_refl Hv) as [H1 H2].
    eexists. split; [split; [|reflexivity]|]; cbn; by rewrite ?Hp.
  - (* commit *) destruct Hz as [Hp ->].
    assert (Hst : is_stored p1 = false) by (destruct p1; try done; lia).
    eexists. split; [split; [|reflexivity]|]; cbn; rewrite ?Hp, ?Hst; [done|].
    split_and!; try done. by rewrite (proj2 (Z.eqb_neq _ _)) by lia.
  - (* cancel *)
    assert (Hst : is_stored p1 = false /\ db_pending buf <> 0).
    { destruct p1; [destruct Ht as [[_ Ht] | (t' & Ht & _ & -> & ->)]
                   |destruct Ht as (_ & [[_ Ht] | (t' & Ht & _ & -> & ->)])
                   |destruct Ht as [Ht _]..]; try (by destruct ts1); split; (done || lia). }
    destruct Hst as [Hst Hp].
    eexists. split; [split; [|reflexivity]|]; cbn; rewrite ?Hst; [|done].
    by rewrite (proj2 (Z.eqb_neq _ _)).
  - (* read *) destruct Ht as [-> _]. eexists. split; [split; [|reflexivity]|]; cbn; [congruence|done].
  - (* store *) destruct Ht as (-> & -> & Hp). rewrite Hp in *.
    replace (1 - db_active buf + 1 - 1) with (1 - db_active buf) by lia.
    rewrite (lxor_bit (1 - db_active buf)) by lia.
    replace (1 - (1 - db_active buf)) with (db_active buf) by lia.
    eexists. split; [split; [|reflexivity]|]; cbn.
    + by rewrite (proj2 (Z.eqb_neq _ _)) by lia.
    + by rewrite andb_false_r.
  - (* clear *) by rewrite andb_false_r.
Qed.

Lemma steps_sim s tr s' a :
  steps s tr s' -> inv s -> sim s a -> exists a', spec_run a tr a' /\ sim s' a' /\ inv s'.
Proof.
  intros Hs. revert a. induction Hs as [s|s l s1 tr s2 H1 _ IH]; intros a Hi Hsim.
  - exists a. split_and!; [constructor|done|done].
  - pose proof (step_inv _ _ _ Hi H1) as Hi1. pose proof (step_sim _ _ _ _ Hi Hsim H1) as Hs1.
    destruct l as [e|]; [destruct Hs1 as (a1 & Ha1 & Hs1)|];
      destruct (IH _ Hi1 Hs1) as (a2 & Ha2 & Hs2); exists a2; split; try done.
    by econstructor.
Qed.

Lemma init_ok (identity : Z) (x y : T) :
  inv (init identity x y)
  /\ sim (init identity x y) {| sp_visible := x; sp_staged := y; sp_committed := false |}.
Proof. split; [|done]. unfold inv. cbn. split_and!; auto. Qed.
End lemmas.

(** ** Properties *)

(** C1. Refinement: whatever the interleaving of the two cores' atomic accesses,
    the trace of writes, commits, cancellations, activations and reads is one
    of a register whose staged value replaces the visible one atomically: a
    read never sees a value that was not committed and activated, staged
    values are hidden until then, and a pending commit excludes writes and
    further commits. *)
Theorem double_buffer_refines {T : Type} (identity : Z) (x y : T) (tr : list (event T)) (s : sys T)
    (Hs : steps (init identity x y) tr s) :
  exists a, spec_run {| sp_visible := x; sp_staged := y; sp_committed := false |} tr a
    /\ sim s a.
Proof.
  destruct (init_ok identity x y) as [Hi H0].
  destruct (steps_sim _ _ _ _ Hs Hi H0) as (a & Ha & Hsim & _). eauto.
Qed.

Lemma double_buffer_refines_witness :
  exists s a, steps (init 64 10 20) [EvWrite 7; EvCommit; EvActivate; EvRead 7] s
    /\ spec_run {| sp_visible := 10; sp_staged := 20; sp_committed := false |}
         [EvWrite 7; EvCommit; EvActivate; EvRead 7] a /\ sim s a.
Proof.
  eassert (Hs : steps (init 64 10 20) [EvWrite 7; EvCommit; EvActivate; EvRead 7] _).
  { eapply (steps_step _ None); [by apply step_buffer_pending|].
    eapply (steps_step _ None); [apply step_buffer_active|].
    eapply (steps_step _ (Some _)); [by apply step_write|].
    eapply (steps_step _ None); [apply step_release|].
    eapply (steps_step _ None); [by apply step_commit_pending|].
    eapply (steps_step _ None); [apply step_commit_active|].
    eapply (steps_step _ (Some _)); [apply step_commit_store|].
    eapply (steps_step _ None); [by apply (step_activate _ _ _ [])|].
    eapply (steps_step _ None); [by apply step_activate_pending|].
    eapply (steps_step _ (Some _)); [apply step_activate_store|].
    eapply (steps_step _ None); [apply step_activate_clear|].
    eapply (steps_step _ None); [apply step_get|].
    eapply (steps_step _ (Some _)); [by apply step_read|].
    apply steps_refl. }
  destruct (double_buffer_refines 64 10 20 _ _ Hs) as (a & Ha & Hsim).
  eexists _, a. split; [exact Hs|]. split; [exact Ha|exact Hsim].
Defined.

(** C4. Exclusion: in no reachable interleaving does the mutable borrow of the
    staging core name the bank that the real-time core is reading or has
    cached, and while it lives no activation is under way; an activation under
    way always finds its own commit pending, so no token is ever rejected. *)
Theorem double_buffer_no_race {T : Type} (identity : Z) (x y : T) (tr : list (event T)) (s : sys T)
    (b : Z) (Hs : steps (init identity x y) tr s) :
  (s_pc0 s = Borrowed b ->
     b <> s_current s /\ s_pc1 s <> Reading b /\ s_tokens s = []
     /\ (forall t, s_pc1 s <> Activating t) /\ (forall p, s_pc1 s <> Loaded p)
     /\ s_pc1 s <> Stored)
  /\ (forall t, s_pc1 s = Activating t -> db_pending (s_buf s) = ct_bank t + 1
        /\ ct_bank t <> s_current s).
Proof.
  destruct (init_ok identity x y) as [Hi H0].
  destruct (steps_sim _ _ _ _ Hs Hi H0) as (_ & _ & _ & Hinv). clear Hs.
  destruct Hinv as (Ha & Hc & Ht & Hz). unfold tokens_ok, core0_ok, own in *.
  rewrite (lxor_bit _ Ha) in *. split.
  - intros E. rewrite E in Hz. destruct Hz as [Hp ->].
    destruct (s_pc1 s); [destruct Ht as [[_ Ht] | (t & _ & Ho)]
      |destruct Ht as (-> & [[_ Ht] | (t & _ & Ho)])| | |]; try lia;
      split_and!; try done; try lia. intros [= ?]. lia.
  - intros t E. rewrite E in Ht. lia.
Qed.

Lemma double_buffer_no_race_witness :
  exists s b, steps (init 64 10 20) [] s /\ s_pc0 s = Borrowed b /\ b <> s_current s.
Proof.
  eassert (Hs : steps (init 64 10 20) [] _).
  { eapply (steps_step _ None); [by apply step_buffer_pending|].
    eapply (steps_step _ None); [apply step_buffer_active|]. apply steps_refl. }
  eexists _, 1. split; [exact Hs|]. split; [done|].
  by apply (proj1 (double_buffer_no_race 64 10 20 _ _ 1 Hs)).
Defined.

(** The translated operations are the same protocol run without interference:
    a staged write, commit and activation make the value visible, a cancelled
    commit leaves the active bank alone, and foreign tokens do nothing. *)
Section sequential.
Context {T : Type}.

Definition buffer_ok (buf : DoubleBuffer T) (a : Active) (x y : T) : Prop :=
  (db_active buf = 0 \/ db_active buf = 1) /\ ac_current a = db_active buf
  /\ db_pending buf = NO_PENDING /\ len (db_banks buf) = 2
  /\ index (db_banks buf) (db_active buf) = Some x
  /\ index (db_banks buf) (1 - db_active buf) = Some y.

Lemma DoubleBuffer_new_ok identity (x y : T) :
  buffer_ok (DoubleBuffer_from_banks identity x y) {| ac_current := 0 |} x y.
Proof. unfold buffer_ok. cbn. split_and!; auto. Qed.

(** A staged update succeeds on the inactive bank only. *)
Lemma Staging_buffer_spec {R} (buf : DoubleBuffer T) a x y (f : T -> option (T * R)) y' r :
  buffer_ok buf a x y -> f y = Some (y', r) ->
  exists buf', Staging_buffer buf f = Ok (buf', r) /\ buffer_ok buf' a x y'
    /\ db_identity buf' = db_identity buf.
Proof.
  intros (Ha & Hc & Hp & Hl & Hx & Hy) Hf. unfold Staging_buffer, Staging_bank. rewrite Hp.
  cbn [NO_PENDING Z.eqb negb mbind outcome_bind]. rewrite (lxor_bit _ Ha), Hy.
  cbn [or_panic mbind outcome_bind]. rewrite Hf. cbn [or_panic mbind outcome_bind].
  destruct (put_spec (db_banks buf) (1 - db_active buf) y') as (banks & E & Lb & Ib); [lia|].
  rewrite E. cbn [or_panic mbind outcome_bind]. eexists. split; [done|]. split; [|done].
  unfold buffer_ok. cbn [set_banks db_active db_pending db_banks].
  rewrite !Ib, Z.eqb_refl, (proj2 (Z.eqb_neq _ _)) by lia. split_and!; auto. lia.
Qed.

Lemma commit_activate_spec (buf : DoubleBuffer T) a x y :
  buffer_ok buf a x y ->
  exists buf1 t, Staging_commit buf = Ok (buf1, t) /\ ct_owner t = db_identity buf
    /\ Staging_bank buf1 = Err BufferBusy /\ Staging_commit buf1 = Err BufferBusy
    /\ Active_get buf1 a = Some x
    /\ buffer_ok (Active_activate buf1 a t).1 (Active_activate buf1 a t).2 y x
    /\ Active_get (Active_activate buf1 a t).1 (Active_activate buf1 a t).2 = Some y
    /\ buffer_ok (Staging_cancel buf1 t) a x y.
Proof.
  intros (Ha & Hc & Hp & Hl & Hx & Hy). unfold Staging_commit. rewrite Hp, (lxor_bit _ Ha).
  cbn [NO_PENDING Z.eqb negb]. eexists _, _. split; [done|].
  unfold Staging_bank, Staging_cancel, Active_get, Active_activate, NO_PENDING, buffer_ok.
  cbn [set_pending set_active db_pending db_active db_identity db_banks ct_owner ct_bank].
  assert (Hn : (1 - db_active buf + 1 =? 0) = false) by (apply Z.eqb_neq; lia).
  assert (Hb : 1 - db_active buf + 1 - 1 = 1 - db_active buf) by lia.
  rewrite Hn, !Hb, !Z.eqb_refl, Hc. cbn [negb orb].
  cbn [fst snd ac_current set_pending set_active db_pending db_active db_banks].
  replace (1 - (1 - db_active buf)) with (db_active buf) by lia.
  split_and!; auto; lia.
Qed.
End sequential.
