(* ===== verification/Pll.v ===== *)
(** * Phase-locked frequency tracking

    [helic-core/src/pll.rs].  The demodulator, the loop filter, the acquisition
    and lock state machine, and every setter.  [None] is a panic: the
    configuration assertion, an inverted [clamp], or a frame without
    harmonics. *)

From S2P Require Import Prelude Float32 Harmonics.

Definition PI : float := f32_of_bits 0x40490FDB.
Definition FRAC_PI_2 : float := f32_of_bits 0x3FC90FDB.
Definition FRAC_PI_4 : float := f32_of_bits 0x3F490FDB.
Definition RAD_TO_DEG : float := fdiv (f32_of_Z 180) PI.
Definition PLL_WARMUP_TIME_CONSTANTS : float := f32_of_Z 5.
Definition f180 : float := f32_of_Z 180.
Definition f360 : float := f32_of_Z 360.
Definition fhalf : float := flit 1 2.

Inductive PllState := Fixed | Acquiring | Locked | LockLost.

#[export] Instance PllState_eq_dec : EqDecision PllState.
Proof. solve_decision. Defined.

Definition PllState_u8 (s : PllState) : Z :=
  match s with Fixed => 0 | Acquiring => 1 | Locked => 2 | LockLost => 3 end.

Record PllConfig := {
  cfg_centre_increment : Z; cfg_min_increment : Z; cfg_max_increment : Z;
  cfg_proportional_gain : float; cfg_integral_gain : float; cfg_target_phase_deg : float;
  cfg_delay_s : float; cfg_dc_time_constant_s : float; cfg_demod_time_constant_s : float;
  cfg_min_excitation_amplitude : float; cfg_min_response_amplitude : float;
  cfg_lock_phase_tolerance_deg : float; cfg_unlock_phase_tolerance_deg : float;
  cfg_lock_frequency_tolerance : float; cfg_lock_dwell_s : float; cfg_unlock_dwell_s : float;
  cfg_acquire_timeout_s : float; cfg_saturation_dwell_s : float }.

Definition PllConfig_default : PllConfig := {|
  cfg_centre_increment := 0; cfg_min_increment := 0; cfg_max_increment := umax 32;
  cfg_proportional_gain := f0; cfg_integral_gain := f0; cfg_target_phase_deg := f0;
  cfg_delay_s := f0; cfg_dc_time_constant_s := flit 1 10; cfg_demod_time_constant_s := flit 1 10;
  cfg_min_excitation_amplitude := f0; cfg_min_response_amplitude := f0;
  cfg_lock_phase_tolerance_deg := f32_of_Z 5; cfg_unlock_phase_tolerance_deg := f32_of_Z 10;
  cfg_lock_frequency_tolerance := f32_MAX; cfg_lock_dwell_s := flit 1 10;
  cfg_unlock_dwell_s := flit 1 10; cfg_acquire_timeout_s := f32_of_Z 5;
  cfg_saturation_dwell_s := flit 1 10 |}.

Definition non_negative_finite (v : float) : bool := fge v f0 && is_finite v.
Definition positive_finite (v : float) : bool := fgt v f0 && is_finite v.
Definition valid_dt (dt_s : float) : bool := is_finite dt_s && fgt dt_s f0.
Definition valid_phase_degrees (d : float) : bool :=
  fge d (fneg f180) && flt d f180 && is_finite d.

Definition PllConfig_is_valid (c : PllConfig) : bool :=
  (cfg_min_increment c <=? cfg_centre_increment c)
  && (cfg_centre_increment c <=? cfg_max_increment c)
  && is_finite (cfg_proportional_gain c)
  && is_finite (cfg_integral_gain c)
  && valid_phase_degrees (cfg_target_phase_deg c)
  && is_finite (cfg_delay_s c)
  && positive_finite (cfg_dc_time_constant_s c)
  && non_negative_finite (cfg_demod_time_constant_s c)
  && non_negative_finite (cfg_min_excitation_amplitude c)
  && non_negative_finite (cfg_min_response_amplitude c)
  && non_negative_finite (cfg_lock_phase_tolerance_deg c)
  && non_negative_finite (cfg_unlock_phase_tolerance_deg c)
  && fle (cfg_lock_phase_tolerance_deg c) (cfg_unlock_phase_tolerance_deg c)
  && non_negative_finite (cfg_lock_frequency_tolerance c)
  && non_negative_finite (cfg_lock_dwell_s c)
  && non_negative_finite (cfg_unlock_dwell_s c)
  && non_negative_finite (cfg_acquire_timeout_s c)
  && non_negative_finite (cfg_saturation_dwell_s c).

(** ** Scalar helpers *)

Definition square (v : float) : float := fmul v v.

(** Four Newton steps from the halved exponent. *)
Definition sqrtf_rt (value : float) : float :=
  if fle value f0 then f0
  else
    let estimate := f32_of_bits (Z.shiftr (f32_to_bits value) 1 + 0x1fc00000) in
    Nat.iter 4 (fun estimate => fmul fhalf (fadd estimate (fdiv value estimate))) estimate.

Definition signed_difference (value centre : Z) : float :=
  if centre <=? value then f32_of_Z (value - centre) else fneg (f32_of_Z (centre - value)).

Definition add_signed_correction (centre : Z) (correction : float) (min max : Z) : Z :=
  if fge correction f0 then
    Z.min (saturating_add 32 centre (cast_u32 (fadd correction fhalf))) max
  else
    Z.max (saturating_sub centre (cast_u32 (fadd (fneg correction) fhalf))) min.

Definition wrap_degrees (d : float) : float :=
  if fge d f180 then fsub d f360
  else if flt d (fneg f180) then fadd d f360
  else d.

(** The [while] loop of [wrap_degrees_full]; [None] when the fuel runs out. *)
Fixpoint reduce_turns (fuel : nat) (modulus degrees : float) : option float :=
  match fuel with
  | O => None
  | S fuel =>
      if fge modulus f360 then
        let degrees :=
          if fge (fabs degrees) modulus then
            let quotient := cast_i32 (fdiv degrees modulus) in
            fsub degrees (fmul (f32_of_Z quotient) modulus)
          else degrees in
        reduce_turns fuel (fmul modulus fhalf) degrees
      else Some degrees
  end.

Definition DIRECT_TURNS : float := f32_of_Z 2000000000.
Definition REDUCE_FUEL : nat := 128.

Definition wrap_degrees_full (degrees : float) : option float :=
  degrees ← (if fgt (fabs degrees) (fmul f360 DIRECT_TURNS)
             then reduce_turns REDUCE_FUEL (fmul f360 (f32_of_Z (10 ^ 30))) degrees
             else Some degrees);
  let turns := cast_i32 (fdiv degrees f360) in
  Some (wrap_degrees (fsub degrees (fmul (f32_of_Z turns) f360))).

Definition atan_unit (v : float) : float :=
  let magnitude := fabs v in
  fsub (fmul FRAC_PI_4 v)
       (fmul (fmul v (fsub magnitude f1))
             (fadd (flit 2447 10000) (fmul (flit 663 10000) magnitude))).

Definition atan2_degrees (y x : float) : float :=
  if feq x f0 then
    if fgt y f0 then f32_of_Z 90 else if flt y f0 then fneg (f32_of_Z 90) else f0
  else
    let angle :=
      if fge (fabs x) (fabs y) then
        let base := atan_unit (fdiv y x) in
        if flt x f0 then (if fge y f0 then fadd base PI else fsub base PI) else base
      else if fgt y f0 then fsub FRAC_PI_2 (atan_unit (fdiv x y))
      else fsub (fneg FRAC_PI_2) (atan_unit (fdiv x y)) in
    fmul angle RAD_TO_DEG.

(** ** Demodulator *)

Record DcEstimator := { dc_mean : float; dc_initialised : bool }.
Definition DcEstimator_default : DcEstimator := {| dc_mean := f0; dc_initialised := false |}.

Definition DcEstimator_remove (e : DcEstimator) (sample dt_s time_constant_s : float)
    : DcEstimator * float :=
  let e :=
    if negb (dc_initialised e) then {| dc_mean := sample; dc_initialised := true |}
    else
      let beta := fdiv dt_s (fadd time_constant_s dt_s) in
      {| dc_mean := fadd (dc_mean e) (fmul beta (fsub sample (dc_mean e)));
         dc_initialised := dc_initialised e |} in
  (e, fsub sample (dc_mean e)).

Record Demodulated := {
  dm_phase_deg : float; dm_excitation_amplitude_sq : float; dm_response_amplitude_sq : float }.

Record FundamentalDemodulator := {
  fd_excitation_dc : DcEstimator; fd_response_dc : DcEstimator;
  fd_excitation_cos : float; fd_excitation_sin : float;
  fd_response_cos : float; fd_response_sin : float }.

Definition FundamentalDemodulator_default : FundamentalDemodulator := {|
  fd_excitation_dc := DcEstimator_default; fd_response_dc := DcEstimator_default;
  fd_excitation_cos := f0; fd_excitation_sin := f0; fd_response_cos := f0; fd_response_sin := f0 |}.

(** The outer [None] is the index panic of an empty frame, the inner one the
    source's [None]. *)
Definition FundamentalDemodulator_update (d : FundamentalDemodulator) (frame : HarmonicFrame)
    (excitation response dt_s dc_time_constant_s demod_time_constant_s : float)
    : option (FundamentalDemodulator * option Demodulated) :=
  if negb (is_finite excitation) || negb (is_finite response) || negb (valid_dt dt_s)
  then Some (d, None)
  else
    let '(edc, excitation) :=
      DcEstimator_remove (fd_excitation_dc d) excitation dt_s dc_time_constant_s in
    let '(rdc, response) :=
      DcEstimator_remove (fd_response_dc d) response dt_s dc_time_constant_s in
    let alpha := if feq demod_time_constant_s f0 then f1
                 else fdiv dt_s (fadd demod_time_constant_s dt_s) in
    cos ← HarmonicFrame_cos frame 0;
    sin ← HarmonicFrame_sin frame 0;
    let ec := one_pole alpha (fmul (fmul f2 excitation) cos) (fd_excitation_cos d) in
    let es := one_pole alpha (fmul (fmul f2 excitation) sin) (fd_excitation_sin d) in
    let rc := one_pole alpha (fmul (fmul f2 response) cos) (fd_response_cos d) in
    let rs := one_pole alpha (fmul (fmul f2 response) sin) (fd_response_sin d) in
    let ea := fadd (fmul ec ec) (fmul es es) in
    let ra := fadd (fmul rc rc) (fmul rs rs) in
    let excitation_phase := atan2_degrees (fneg es) ec in
    let response_phase := atan2_degrees (fneg rs) rc in
    Some ({| fd_excitation_dc := edc; fd_response_dc := rdc; fd_excitation_cos := ec;
             fd_excitation_sin := es; fd_response_cos := rc; fd_response_sin := rs |},
          Some {| dm_phase_deg := wrap_degrees (fsub response_phase excitation_phase);
                  dm_excitation_amplitude_sq := ea; dm_response_amplitude_sq := ra |}).

(** ** [Pll] *)

Record Pll := {
  pl_state : PllState; pl_centre_increment : Z; pl_min_increment : Z; pl_max_increment : Z;
  pl_commanded_increment : Z; pl_proportional_gain : float; pl_integral_gain : float;
  pl_integral_correction : float; pl_unquantised_correction : float;
  pl_target_phase_deg : float; pl_delay_s : float; pl_dc_time_constant_s : float;
  pl_demod_time_constant_s : float; pl_min_excitation_amplitude_sq : float;
  pl_min_response_amplitude_sq : float; pl_lock_phase_tolerance_deg : float;
  pl_unlock_phase_tolerance_deg : float; pl_lock_frequency_tolerance : float;
  pl_lock_dwell_s : float; pl_unlock_dwell_s : float; pl_acquire_timeout_s : float;
  pl_saturation_dwell_s : float; pl_measured_phase_deg : float; pl_phase_error_deg : float;
  pl_excitation_amplitude : float; pl_response_amplitude : float; pl_observation_valid : bool;
  pl_saturated : bool; pl_warmup_elapsed_s : float; pl_acquire_elapsed_s : float;
  pl_lock_elapsed_s : float; pl_unlock_elapsed_s : float; pl_saturation_elapsed_s : float;
  pl_lock_correction_min : float; pl_lock_correction_max : float;
  pl_demodulator : FundamentalDemodulator }.

Definition Pll_new (c : PllConfig) : option Pll :=
  if PllConfig_is_valid c then Some {|
    pl_state := Fixed; pl_centre_increment := cfg_centre_increment c;
    pl_min_increment := cfg_min_increment c; pl_max_increment := cfg_max_increment c;
    pl_commanded_increment := cfg_centre_increment c;
    pl_proportional_gain := cfg_proportional_gain c; pl_integral_gain := cfg_integral_gain c;
    pl_integral_correction := f0; pl_unquantised_correction := f0;
    pl_target_phase_deg := cfg_target_phase_deg c; pl_delay_s := cfg_delay_s c;
    pl_dc_time_constant_s := cfg_dc_time_constant_s c;
    pl_demod_time_constant_s := cfg_demod_time_constant_s c;
    pl_min_excitation_amplitude_sq := square (cfg_min_excitation_amplitude c);
    pl_min_response_amplitude_sq := square (cfg_min_response_amplitude c);
    pl_lock_phase_tolerance_deg := cfg_lock_phase_tolerance_deg c;
    pl_unlock_phase_tolerance_deg := cfg_unlock_phase_tolerance_deg c;
    pl_lock_frequency_tolerance := cfg_lock_frequency_tolerance c;
    pl_lock_dwell_s := cfg_lock_dwell_s c; pl_unlock_dwell_s := cfg_unlock_dwell_s c;
    pl_acquire_timeout_s := cfg_acquire_timeout_s c;
    pl_saturation_dwell_s := cfg_saturation_dwell_s c;
    pl_measured_phase_deg := S754_nan; pl_phase_error_deg := S754_nan;
    pl_excitation_amplitude := S754_nan; pl_response_amplitude := S754_nan;
    pl_observation_valid := false; pl_saturated := false; pl_warmup_elapsed_s := f0;
    pl_acquire_elapsed_s := f0; pl_lock_elapsed_s := f0; pl_unlock_elapsed_s := f0;
    pl_saturation_elapsed_s := f0; pl_lock_correction_min := f0; pl_lock_correction_max := f0;
    pl_demodulator := FundamentalDemodulator_default |}
  else None.

Definition apply_correction (p : Pll) (dt_s : float) : option (Pll * bool) :=
  let integral_increment := fmul (fmul (pl_integral_gain p) (pl_phase_error_deg p)) dt_s in
  let candidate_integral := fadd (pl_integral_correction p) integral_increment in
  let proportional := fmul (pl_proportional_gain p) (pl_phase_error_deg p) in
  let candidate := fadd proportional candidate_integral in
  let min_correction :=
    fneg (f32_of_Z (wrapping_sub 32 (pl_centre_increment p) (pl_min_increment p))) in
  let max_correction :=
    f32_of_Z (wrapping_sub 32 (pl_max_increment p) (pl_centre_increment p)) in
  let saturated_high := fgt candidate max_correction in
  let saturated_low := flt candidate min_correction in
  let p :=
    if negb ((saturated_high && fgt integral_increment f0)
             || (saturated_low && flt integral_increment f0))
    then p <| pl_integral_correction := candidate_integral |> else p in
  let correction := fadd proportional (pl_integral_correction p) in
  unquantised ← fclamp correction min_correction max_correction;
  let p := p <| pl_unquantised_correction := unquantised |> in
  let p := p <| pl_commanded_increment :=
    add_signed_correction (pl_centre_increment p) unquantised
      (pl_min_increment p) (pl_max_increment p) |> in
  Some (p, saturated_high || saturated_low).

Definition restart_lock_dwell (p : Pll) : Pll :=
  p <| pl_lock_elapsed_s := f0 |>
    <| pl_lock_correction_min := pl_unquantised_correction p |>
    <| pl_lock_correction_max := pl_unquantised_correction p |>.

Definition enter_locked (p : Pll) : Pll :=
  p <| pl_state := Locked |> <| pl_unlock_elapsed_s := f0 |> <| pl_saturation_elapsed_s := f0 |>.

Definition clear_qualification (p : Pll) : Pll :=
  p <| pl_measured_phase_deg := S754_nan |> <| pl_phase_error_deg := S754_nan |>
    <| pl_excitation_amplitude := S754_nan |> <| pl_response_amplitude := S754_nan |>
    <| pl_observation_valid := false |> <| pl_warmup_elapsed_s := f0 |>
    <| pl_acquire_elapsed_s := f0 |> <| pl_lock_elapsed_s := f0 |>
    <| pl_unlock_elapsed_s := f0 |> <| pl_saturation_elapsed_s := f0 |>
    <| pl_lock_correction_min := pl_unquantised_correction p |>
    <| pl_lock_correction_max := pl_unquantised_correction p |>.

Definition reset_loop (p : Pll) (reset_demodulator : bool) : Pll :=
  let p := p <| pl_commanded_increment := pl_centre_increment p |>
             <| pl_integral_correction := f0 |> <| pl_unquantised_correction := f0 |>
             <| pl_saturated := false |> in
  let p := if reset_demodulator
           then p <| pl_demodulator := FundamentalDemodulator_default |> else p in
  clear_qualification p.

Definition acquisition_failed (p : Pll) : Pll := (reset_loop p true) <| pl_state := Fixed |>.

Definition Pll_reset (p : Pll) : Pll := (reset_loop p true) <| pl_state := Fixed |>.

(** The peak-to-peak window of corrections while in tolerance. *)
Definition track_lock_correction (p : Pll) : Pll :=
  let u := pl_unquantised_correction p in
  if feq (pl_lock_elapsed_s p) f0
  then p <| pl_lock_correction_min := u |> <| pl_lock_correction_max := u |>
  else p <| pl_lock_correction_min := fmin (pl_lock_correction_min p) u |>
         <| pl_lock_correction_max := fmax (pl_lock_correction_max p) u |>.

Definition update_acquisition (p : Pll) (dt_s : float) : Pll :=
  let timeout p := if fge (pl_acquire_elapsed_s p) (pl_acquire_timeout_s p)
                   then acquisition_failed p else p in
  if pl_observation_valid p && fle (fabs (pl_phase_error_deg p)) (pl_lock_phase_tolerance_deg p)
  then
    let p := track_lock_correction p in
    if fle (fsub (pl_lock_correction_max p) (pl_lock_correction_min p))
           (pl_lock_frequency_tolerance p)
    then
      let p := p <| pl_lock_elapsed_s := fadd (pl_lock_elapsed_s p) dt_s |> in
      if fge (pl_lock_elapsed_s p) (pl_lock_dwell_s p) then enter_locked p else timeout p
    else timeout (restart_lock_dwell p)
  else timeout (restart_lock_dwell p).

Definition update_lock (p : Pll) (dt_s : float) : Pll :=
  let outside_lock := negb (pl_observation_valid p)
    || fgt (fabs (pl_phase_error_deg p)) (pl_unlock_phase_tolerance_deg p) in
  let p := p <| pl_unlock_elapsed_s :=
    if outside_lock then fadd (pl_unlock_elapsed_s p) dt_s else f0 |> in
  let p := p <| pl_saturation_elapsed_s :=
    if pl_saturated p then fadd (pl_saturation_elapsed_s p) dt_s else f0 |> in
  if (outside_lock && fge (pl_unlock_elapsed_s p) (pl_unlock_dwell_s p))
     || (pl_saturated p && fge (pl_saturation_elapsed_s p) (pl_saturation_dwell_s p))
  then p <| pl_state := LockLost |> else p.

Definition qualified (p : Pll) (v : Demodulated) : bool :=
  is_finite (dm_phase_deg v)
  && fge (dm_excitation_amplitude_sq v) (pl_min_excitation_amplitude_sq p)
  && fge (dm_response_amplitude_sq v) (pl_min_response_amplitude_sq p).

(** The state machine's part of an update. *)
Definition update_state (p : Pll) (dt_s : float) : Pll :=
  match pl_state p with
  | Acquiring => update_acquisition p dt_s
  | Locked => update_lock p dt_s
  | Fixed | LockLost => p
  end.

Definition record_measurement (p : Pll) (v : Demodulated) (measured : float) : Pll :=
  p <| pl_measured_phase_deg := measured |>
    <| pl_phase_error_deg := wrap_degrees (fsub measured (pl_target_phase_deg p)) |>
    <| pl_excitation_amplitude := sqrtf_rt (dm_excitation_amplitude_sq v) |>
    <| pl_response_amplitude := sqrtf_rt (dm_response_amplitude_sq v) |>
    <| pl_observation_valid := true |>.

(** The observed phase with the path delay at the current frequency. *)
Definition delayed_phase (p : Pll) (v : Demodulated) (current_increment : Z) (dt_s : float)
    : float :=
  let frequency_hz := fdiv (fmul (f32_of_Z current_increment) f2pm32) dt_s in
  fadd (dm_phase_deg v) (fmul (fmul f360 frequency_hz) (pl_delay_s p)).

(** Measurement and correction from a qualified observation. *)
Definition observe (p : Pll) (v : Demodulated) (current_increment : Z) (dt_s : float)
    : option Pll :=
  measured ← wrap_degrees_full (delayed_phase p v current_increment dt_s);
  '(p, saturated) ← apply_correction (record_measurement p v measured) dt_s;
  Some (p <| pl_saturated := saturated |>).

Definition observe_nothing (p : Pll) : Pll :=
  p <| pl_measured_phase_deg := S754_nan |> <| pl_phase_error_deg := S754_nan |>
    <| pl_excitation_amplitude := S754_nan |> <| pl_response_amplitude := S754_nan |>
    <| pl_saturated := false |>.

Definition add_warmup (p : Pll) (dt_s : float) : Pll :=
  p <| pl_observation_valid := false |>
    <| pl_warmup_elapsed_s := fadd (pl_warmup_elapsed_s p) dt_s |>.

Definition add_acquire (p : Pll) (dt_s : float) : Pll :=
  p <| pl_acquire_elapsed_s := fadd (pl_acquire_elapsed_s p) dt_s |>.

Definition update_observation (p : Pll) (observation : option Demodulated)
    (current_increment : Z) (dt_s : float) : option (Pll * Z) :=
  let p := add_warmup p dt_s in
  let warmup_s := fmul PLL_WARMUP_TIME_CONSTANTS
                       (fmax (pl_dc_time_constant_s p) (pl_demod_time_constant_s p)) in
  if flt (pl_warmup_elapsed_s p) warmup_s then Some (p, pl_commanded_increment p)
  else
    let p := add_acquire p dt_s in
    p ← match observation with
        | Some v =>
            if qualified p v then observe p v current_increment dt_s else Some (observe_nothing p)
        | None => Some (observe_nothing p)
        end;
    let p := update_state p dt_s in
    Some (p, pl_commanded_increment p).

(** The assertion [H > 0] is the frame's length. *)
Definition Pll_update (p : Pll) (frame : HarmonicFrame) (excitation response : float)
    (current_increment : Z) (dt_s : float) : option (Pll * Z) :=
  if len (hf_cos frame) <=? 0 then None
  else if bool_decide (pl_state p = Fixed \/ pl_state p = LockLost) || negb (valid_dt dt_s)
  then Some (p, pl_commanded_increment p)
  else
    '(d, demodulated) ← FundamentalDemodulator_update (pl_demodulator p) frame excitation response
       dt_s (pl_dc_time_constant_s p) (pl_demod_time_constant_s p);
    update_observation (p <| pl_demodulator := d |>) demodulated current_increment dt_s.

Definition Pll_set_enabled (p : Pll) (enabled : bool) : Pll :=
  if negb enabled && negb (bool_decide (pl_state p = LockLost)) then Pll_reset p
  else if bool_decide (pl_state p = Fixed) then (reset_loop p true) <| pl_state := Acquiring |>
  else p.

Definition Pll_reacquire (p : Pll) : Pll :=
  if bool_decide (pl_state p = Fixed \/ pl_state p = Locked) then
    let i := signed_difference (pl_commanded_increment p) (pl_centre_increment p) in
    (clear_qualification (p <| pl_integral_correction := i |> <| pl_unquantised_correction := i |>))
      <| pl_state := Acquiring |>
  else p.

(** ** Setters: the new state, and whether the value was accepted *)

Definition Pll_set_centre_increment (p : Pll) (increment : Z) : Pll * bool :=
  if negb ((pl_min_increment p <=? increment) && (increment <=? pl_max_increment p))
  then (p, false)
  else
    let p := p <| pl_centre_increment := increment |> in
    (if bool_decide (pl_state p = Fixed)
     then p <| pl_commanded_increment := increment |> <| pl_integral_correction := f0 |>
            <| pl_unquantised_correction := f0 |>
     else p, true).

Definition Pll_set_min_increment (p : Pll) (increment : Z) : Pll * bool :=
  if pl_centre_increment p <? increment then (p, false)
  else (p <| pl_min_increment := increment |>
          <| pl_commanded_increment := Z.max (pl_commanded_increment p) increment |>, true).

Definition Pll_set_max_increment (p : Pll) (increment : Z) : Pll * bool :=
  if increment <? pl_centre_increment p then (p, false)
  else (p <| pl_max_increment := increment |>
          <| pl_commanded_increment := Z.min (pl_commanded_increment p) increment |>, true).

Definition Pll_set_proportional_gain (p : Pll) (gain : float) : Pll * bool :=
  if negb (is_finite gain) then (p, false) else (p <| pl_proportional_gain := gain |>, true).
Definition Pll_set_integral_gain (p : Pll) (gain : float) : Pll * bool :=
  if negb (is_finite gain) then (p, false) else (p <| pl_integral_gain := gain |>, true).

Definition Pll_set_target_phase (p : Pll) (degrees : float) : Pll * bool :=
  if negb (valid_phase_degrees degrees) then (p, false)
  else
    let changed := fne (pl_target_phase_deg p) degrees in
    let p := p <| pl_target_phase_deg := degrees |> in
    (if changed then Pll_reacquire p else p, true).

Definition Pll_set_delay (p : Pll) (seconds : float) : Pll * bool :=
  if negb (is_finite seconds) then (p, false) else (p <| pl_delay_s := seconds |>, true).
Definition Pll_set_dc_time_constant (p : Pll) (seconds : float) : Pll * bool :=
  if negb (positive_finite seconds) then (p, false)
  else (p <| pl_dc_time_constant_s := seconds |>, true).
Definition Pll_set_demod_time_constant (p : Pll) (seconds : float) : Pll * bool :=
  if negb (non_negative_finite seconds) then (p, false)
  else (p <| pl_demod_time_constant_s := seconds |>, true).
Definition Pll_set_min_excitation_amplitude (p : Pll) (amplitude : float) : Pll * bool :=
  if negb (non_negative_finite amplitude) then (p, false)
  else (p <| pl_min_excitation_amplitude_sq := square amplitude |>, true).
Definition Pll_set_min_response_amplitude (p : Pll) (amplitude : float) : Pll * bool :=
  if negb (non_negative_finite amplitude) then (p, false)
  else (p <| pl_min_response_amplitude_sq := square amplitude |>, true).
Definition Pll_set_lock_phase_tolerance (p : Pll) (degrees : float) : Pll * bool :=
  if negb (non_negative_finite degrees) || fgt degrees (pl_unlock_phase_tolerance_deg p)
  then (p, false) else (p <| pl_lock_phase_tolerance_deg := degrees |>, true).
Definition Pll_set_unlock_phase_tolerance (p : Pll) (degrees : float) : Pll * bool :=
  if negb (non_negative_finite degrees) || flt degrees (pl_lock_phase_tolerance_deg p)
  then (p, false) else (p <| pl_unlock_phase_tolerance_deg := degrees |>, true).
Definition Pll_set_lock_frequency_tolerance (p : Pll) (tolerance : float) : Pll * bool :=
  if negb (non_negative_finite tolerance) then (p, false)
  else (p <| pl_lock_frequency_tolerance := tolerance |>, true).
Definition Pll_set_lock_dwell (p : Pll) (seconds : float) : Pll * bool :=
  if negb (non_negative_finite seconds) then (p, false)
  else (p <| pl_lock_dwell_s := seconds |>, true).
Definition Pll_set_unlock_dwell (p : Pll) (seconds : float) : Pll * bool :=
  if negb (non_negative_finite seconds) then (p, false)
  else (p <| pl_unlock_dwell_s := seconds |>, true).
Definition Pll_set_acquire_timeout (p : Pll) (seconds : float) : Pll * bool :=
  if negb (non_negative_finite seconds) then (p, false)
  else (p <| pl_acquire_timeout_s := seconds |>, true).
Definition Pll_set_saturation_dwell (p : Pll) (seconds : float) : Pll * bool :=
  if negb (non_negative_finite seconds) then (p, false)
  else (p <| pl_saturation_dwell_s := seconds |>, true).

(** ** Lemmas *)

(** The moduli of the loop do not depend on the angle. *)
Fixpoint reduction_ends (fuel : nat) (modulus : float) : bool :=
  match fuel with
  | O => false
  | S fuel => if fge modulus f360 then reduction_ends fuel (fmul modulus fhalf) else true
  end.

Lemma reduce_turns_Some fuel modulus d :
  reduction_ends fuel modulus = true -> is_Some (reduce_turns fuel modulus d).
Proof.
  revert modulus d. induction fuel as [|fuel IH]; intros modulus d; [done|].
  cbn [reduction_ends reduce_turns]. destruct (fge modulus f360); [|by eauto].
  apply IH.
Qed.

Lemma wrap_degrees_full_Some d : is_Some (wrap_degrees_full d).
Proof.
  unfold wrap_degrees_full. destruct (fgt (fabs d) (fmul f360 DIRECT_TURNS)); [|by eexists].
  destruct (reduce_turns_Some REDUCE_FUEL (fmul f360 (f32_of_Z (10 ^ 30))) d) as [r ->].
  - by vm_compute.
  - by eexists.
Qed.

(** The frequency limits, and every command within them. *)
Definition pll_inv (p : Pll) : Prop :=
  0 <= pl_min_increment p <= pl_centre_increment p
  /\ pl_centre_increment p <= pl_max_increment p < 2 ^ 32
  /\ pl_min_increment p <= pl_commanded_increment p <= pl_max_increment p
  /\ fle (pl_lock_phase_tolerance_deg p) (pl_unlock_phase_tolerance_deg p) = true.

Lemma Pll_new_inv c :
  0 <= cfg_min_increment c -> cfg_max_increment c < 2 ^ 32 -> PllConfig_is_valid c = true ->
  exists p, Pll_new c = Some p /\ pll_inv p /\ pl_state p = Fixed.
Proof.
  intros Hmin Hmax Hv. unfold Pll_new. rewrite Hv. eexists. split; [done|]. split; [|done].
  unfold PllConfig_is_valid in Hv. unfold pll_inv. cbn. bool_facts. split_and!; (done || lia).
Qed.

Lemma add_signed_correction_bounds centre correction min max :
  0 <= min <= centre -> centre <= max < 2 ^ 32 ->
  min <= add_signed_correction centre correction min max <= max.
Proof.
  intros H1 H2. unfold add_signed_correction, saturating_add, saturating_sub, umax.
  pose proof (cast_u32_fits (fadd correction fhalf)) as [? _].
  pose proof (cast_u32_fits (fadd (fneg correction) fhalf)) as [? _].
  destruct (fge correction f0); lia.
Qed.

Lemma apply_correction_spec p dt :
  pll_inv p ->
  exists p' b, apply_correction p dt = Some (p', b) /\ pll_inv p'
    /\ pl_state p' = pl_state p /\ pl_observation_valid p' = pl_observation_valid p.
Proof.
  intros (H1 & H2 & H3 & H4). unfold apply_correction, wrapping_sub.
  rewrite !wrap_id by (unfold fits; lia).
  match goal with |- context [fclamp ?x ?lo ?hi] =>
    destruct (fclamp_spec x lo hi) as (r & E & _) end.
  { apply f32_neg_le; lia. }
  rewrite E. cbn [mbind option_bind]. eexists _, _. split; [done|].
  pose proof (add_signed_correction_bounds (pl_centre_increment p) r _ _ H1 H2).
  destruct (negb _); unfold pll_inv; cbn -[add_signed_correction]; split_and!; (done || lia).
Qed.

Lemma clear_qualification_frame p :
  pll_inv p -> pll_inv (clear_qualification p) /\ pl_state (clear_qualification p) = pl_state p.
Proof. done. Qed.

Lemma set_state_inv p s : pll_inv p -> pll_inv (p <| pl_state := s |>).
Proof. done. Qed.

Lemma reset_loop_inv p b : pll_inv p -> pll_inv (reset_loop p b).
Proof.
  intros (H1 & H2 & H3 & H4). destruct b; unfold pll_inv; cbn; split_and!; (done || lia).
Qed.

Lemma track_lock_correction_spec p :
  pll_inv p -> pl_state p = Acquiring ->
  pll_inv (track_lock_correction p) /\ pl_state (track_lock_correction p) = Acquiring.
Proof. intros. unfold track_lock_correction. by destruct (feq _ _). Qed.

Lemma update_acquisition_spec p dt :
  pll_inv p -> pl_state p = Acquiring ->
  pll_inv (update_acquisition p dt)
  /\ (pl_state (update_acquisition p dt) = Acquiring
      \/ pl_state (update_acquisition p dt) = Fixed
      \/ (pl_state (update_acquisition p dt) = Locked /\ pl_observation_valid p = true
          /\ fle (fabs (pl_phase_error_deg p)) (pl_lock_phase_tolerance_deg p) = true)).
Proof.
  intros Hi Hs.
  assert (Ht : forall q, pll_inv q -> pl_state q = Acquiring ->
    pll_inv (if fge (pl_acquire_elapsed_s q) (pl_acquire_timeout_s q)
             then acquisition_failed q else q)
    /\ (pl_state (if fge (pl_acquire_elapsed_s q) (pl_acquire_timeout_s q)
             then acquisition_failed q else q) = Acquiring
        \/ pl_state (if fge (pl_acquire_elapsed_s q) (pl_acquire_timeout_s q)
             then acquisition_failed q else q) = Fixed)).
  { intros q Hq Es. destruct (fge _ _); [|tauto]. split; [|by right].
    by apply set_state_inv, reset_loop_inv. }
  unfold update_acquisition.
  destruct (pl_observation_valid p && _) eqn:E1.
  - apply andb_prop in E1 as [E1 E2].
    destruct (track_lock_correction_spec p Hi Hs) as [Hq Hqs].
    generalize dependent (track_lock_correction p).
    intros q Hq Hqs. destruct (fle _ (pl_lock_frequency_tolerance q)).
    + destruct (fge _ (pl_lock_dwell_s _)).
      * split; [exact Hq|]. auto.
      * destruct (Ht (q <| pl_lock_elapsed_s := fadd (pl_lock_elapsed_s q) dt |>)); [done..|tauto].
    + destruct (Ht (restart_lock_dwell q)); [done..|tauto].
  - destruct (Ht (restart_lock_dwell p)); [done..|tauto].
Qed.

Lemma update_lock_spec p dt :
  pll_inv p -> pl_state p = Locked ->
  pll_inv (update_lock p dt)
  /\ (pl_state (update_lock p dt) = Locked
      \/ (pl_state (update_lock p dt) = LockLost
          /\ (pl_observation_valid p = false \/ pl_saturated p = true
              \/ fgt (fabs (pl_phase_error_deg p)) (pl_unlock_phase_tolerance_deg p) = true))).
Proof.
  intros Hi Hs. unfold update_lock. cbn [pl_saturated set const].
  destruct (_ || _) eqn:E; [|by auto]. split; [exact Hi|]. right. split; [done|].
  apply orb_prop in E as [E|E]; apply andb_prop in E as [E _]; [|by auto].
  apply orb_prop in E as [E|E]; [|by auto]. left. by apply negb_true_iff.
Qed.

Lemma update_state_spec p dt :
  pll_inv p ->
  pll_inv (update_state p dt)
  /\ match pl_state p with
     | Acquiring => pl_state (update_state p dt) <> LockLost
     | Locked => pl_state (update_state p dt) = Locked \/ pl_state (update_state p dt) = LockLost
     | s => pl_state (update_state p dt) = s
     end.
Proof.
  intros Hi. unfold update_state. destruct (pl_state p) eqn:Es; try (split; [done|congruence]).
  - destruct (update_acquisition_spec p dt Hi Es) as [H1 H2]. split; [done|].
    destruct H2 as [-> | [-> | [-> _]]]; done.
  - destruct (update_lock_spec p dt Hi Es) as [H1 [H2 | [H2 _]]]; auto.
Qed.

(** What an update may do to the state. *)
Definition update_edge (s s' : PllState) : Prop :=
  match s with
  | Fixed => s' = Fixed
  | Acquiring => s' <> LockLost
  | Locked => s' = Locked \/ s' = LockLost
  | LockLost => s' = LockLost
  end.

Lemma record_measurement_spec p v m :
  pll_inv p -> pll_inv (record_measurement p v m)
  /\ pl_state (record_measurement p v m) = pl_state p.
Proof. done. Qed.

Lemma correction_step_spec p dt :
  pll_inv p ->
  exists q, ('(p, saturated) ← apply_correction p dt; Some (p <| pl_saturated := saturated |>))
            = Some q /\ pll_inv q /\ pl_state q = pl_state p.
Proof.
  intros Hi. destruct (apply_correction_spec p dt Hi) as (q & b & -> & Hq & Hs & _).
  cbn. eexists. split; [reflexivity|]. split; [exact Hq|exact Hs].
Qed.

Lemma observe_spec p v inc dt :
  pll_inv p -> exists q, observe p v inc dt = Some q /\ pll_inv q /\ pl_state q = pl_state p.
Proof.
  intros Hi. unfold observe.
  destruct (wrap_degrees_full_Some (delayed_phase p v inc dt)) as [m ->].
  rewrite bind_Some. destruct (record_measurement_spec p v m Hi) as [H1 <-].
  exact (correction_step_spec _ dt H1).
Qed.

Lemma observe_nothing_spec p :
  pll_inv p -> pll_inv (observe_nothing p) /\ pl_state (observe_nothing p) = pl_state p.
Proof. done. Qed.

Lemma add_warmup_spec p dt :
  pll_inv p -> pll_inv (add_warmup p dt) /\ pl_state (add_warmup p dt) = pl_state p.
Proof. done. Qed.

Lemma add_acquire_spec p dt :
  pll_inv p -> pll_inv (add_acquire p dt) /\ pl_state (add_acquire p dt) = pl_state p.
Proof. done. Qed.

Lemma update_edge_refl s : update_edge s s.
Proof. destruct s; cbn; auto. Qed.

Lemma update_observation_spec p o inc dt :
  pll_inv p ->
  exists p', update_observation p o inc dt = Some (p', pl_commanded_increment p')
    /\ pll_inv p' /\ update_edge (pl_state p) (pl_state p').
Proof.
  intros Hi. unfold update_observation. cbv zeta.
  destruct (add_warmup_spec p dt Hi) as [H1 <-]. generalize dependent (add_warmup p dt).
  intros p1 H1. destruct (flt _ _).
  { exists p1. auto using update_edge_refl. }
  destruct (add_acquire_spec p1 dt H1) as [H2 <-]. generalize dependent (add_acquire p1 dt).
  intros p2 H2.
  assert (Hq : exists q, match o with
     | Some v => if qualified p2 v then observe p2 v inc dt else Some (observe_nothing p2)
     | None => Some (observe_nothing p2) end = Some q /\ pll_inv q /\ pl_state q = pl_state p2).
  { destruct o as [v|]; [destruct (qualified p2 v); [by apply observe_spec|]|];
      eexists; (split; [reflexivity|by apply observe_nothing_spec]). }
  destruct Hq as (q & -> & Hq & <-). cbn [mbind option_bind].
  exists (update_state q dt). split; [done|].
  destruct (update_state_spec q dt Hq) as [H3 H4]. split; [done|].
  by destruct (pl_state q).
Qed.

Definition frame_ok (f : HarmonicFrame) : Prop := 0 < len (hf_cos f) /\ 0 < len (hf_sin f).

Lemma FundamentalDemodulator_update_Some d f x y dt a b :
  frame_ok f -> is_Some (FundamentalDemodulator_update d f x y dt a b).
Proof.
  intros [Hc Hs]. unfold FundamentalDemodulator_update.
  destruct (_ || _); [by eexists|].
  destruct (DcEstimator_remove (fd_excitation_dc d) x dt a) as [edc x'].
  destruct (DcEstimator_remove (fd_response_dc d) y dt a) as [rdc y'].
  unfold HarmonicFrame_cos, HarmonicFrame_sin.
  destruct (index_is_Some (hf_cos f) 0) as [c ->]; [lia|].
  destruct (index_is_Some (hf_sin f) 0) as [s ->]; [lia|]. by eexists.
Qed.

Lemma Pll_update_spec p f x y inc dt :
  pll_inv p -> frame_ok f ->
  exists p', Pll_update p f x y inc dt = Some (p', pl_commanded_increment p')
    /\ pll_inv p' /\ update_edge (pl_state p) (pl_state p')
    /\ ((pl_state p = Fixed \/ pl_state p = LockLost) -> p' = p).
Proof.
  intros Hi Hf. unfold Pll_update. rewrite (proj2 (Z.leb_gt _ _)) by apply Hf.
  destruct (bool_decide _ || _) eqn:E.
  { exists p. split_and!; try done. destruct (pl_state p); cbn; auto. }
  destruct (FundamentalDemodulator_update_Some (pl_demodulator p) f x y dt
    (pl_dc_time_constant_s p) (pl_demod_time_constant_s p) Hf) as [[d o] ->].
  rewrite bind_Some.
  match goal with |- context [update_observation ?q o inc dt] =>
    destruct (update_observation_spec q o inc dt Hi) as (p' & -> & Hi' & He) end.
  exists p'. split_and!; try done. intros Hs. bool_facts. tauto.
Qed.

(** ** Every public operation *)

Inductive float_setting :=
  | SProportionalGain | SIntegralGain | STargetPhase | SDelay | SDcTimeConstant
  | SDemodTimeConstant | SMinExcitation | SMinResponse | SLockPhaseTolerance
  | SUnlockPhaseTolerance | SLockFrequencyTolerance | SLockDwell | SUnlockDwell
  | SAcquireTimeout | SSaturationDwell.

Definition set_float (p : Pll) (s : float_setting) (v : float) : Pll * bool :=
  match s with
  | SProportionalGain => Pll_set_proportional_gain p v
  | SIntegralGain => Pll_set_integral_gain p v
  | STargetPhase => Pll_set_target_phase p v
  | SDelay => Pll_set_delay p v
  | SDcTimeConstant => Pll_set_dc_time_constant p v
  | SDemodTimeConstant => Pll_set_demod_time_constant p v
  | SMinExcitation => Pll_set_min_excitation_amplitude p v
  | SMinResponse => Pll_set_min_response_amplitude p v
  | SLockPhaseTolerance => Pll_set_lock_phase_tolerance p v
  | SUnlockPhaseTolerance => Pll_set_unlock_phase_tolerance p v
  | SLockFrequencyTolerance => Pll_set_lock_frequency_tolerance p v
  | SLockDwell => Pll_set_lock_dwell p v
  | SUnlockDwell => Pll_set_unlock_dwell p v
  | SAcquireTimeout => Pll_set_acquire_timeout p v
  | SSaturationDwell => Pll_set_saturation_dwell p v
  end.

Inductive pll_op :=
  | OpUpdate (f : HarmonicFrame) (excitation response : float) (increment : Z) (dt_s : float)
  | OpSetEnabled (enabled : bool)
  | OpReacquire
  | OpReset
  | OpCentre (increment : Z)
  | OpMin (increment : Z)
  | OpMax (increment : Z)
  | OpFloat (s : float_setting) (v : float).

Definition pll_apply (p : Pll) (op : pll_op) : option Pll :=
  match op with
  | OpUpdate f x y inc dt => fst <$> Pll_update p f x y inc dt
  | OpSetEnabled b => Some (Pll_set_enabled p b)
  | OpReacquire => Some (Pll_reacquire p)
  | OpReset => Some (Pll_reset p)
  | OpCentre z => Some (Pll_set_centre_increment p z).1
  | OpMin z => Some (Pll_set_min_increment p z).1
  | OpMax z => Some (Pll_set_max_increment p z).1
  | OpFloat s v => Some (set_float p s v).1
  end.

Definition pll_run (p : Pll) (ops : list pll_op) : option Pll :=
  foldl (fun o op => p ← o; pll_apply p op) (Some p) ops.

(** Frames have a fundamental; increments are [u32]. *)
Definition op_ok (op : pll_op) : Prop :=
  match op with
  | OpUpdate f _ _ _ _ => frame_ok f
  | OpMin z | OpMax z => fits 32 z
  | _ => True
  end.

Definition op_edge (op : pll_op) (s s' : PllState) : Prop :=
  match op with
  | OpUpdate _ _ _ _ _ => update_edge s s'
  | OpReset => s' = Fixed
  | OpSetEnabled false => s' = if bool_decide (s = LockLost) then LockLost else Fixed
  | OpSetEnabled true => s' = if bool_decide (s = Fixed) then Acquiring else s
  | OpReacquire => s' = if bool_decide (s = Fixed \/ s = Locked) then Acquiring else s
  | OpFloat STargetPhase _ => s' = s \/ ((s = Fixed \/ s = Locked) /\ s' = Acquiring)
  | _ => s' = s
  end.

Lemma Pll_reacquire_spec p :
  pll_inv p -> pll_inv (Pll_reacquire p)
  /\ pl_state (Pll_reacquire p)
     = if bool_decide (pl_state p = Fixed \/ pl_state p = Locked) then Acquiring else pl_state p.
Proof.
  intros Hi. unfold Pll_reacquire.
  destruct (bool_decide _); [|done]. split; [|done]. by apply set_state_inv.
Qed.

Lemma Pll_set_enabled_spec p b :
  pll_inv p -> pll_inv (Pll_set_enabled p b)
  /\ op_edge (OpSetEnabled b) (pl_state p) (pl_state (Pll_set_enabled p b)).
Proof.
  intros Hi. unfold Pll_set_enabled. destruct b; cbn [negb andb op_edge].
  - destruct (bool_decide _); [|done]. split; [|done]. by apply set_state_inv, reset_loop_inv.
  - destruct (bool_decide (pl_state p = LockLost)) eqn:E; cbn [negb].
    + rewrite bool_decide_eq_false_2; [|bool_facts; congruence]. bool_facts. by rewrite E.
    + split; [|done]. by apply set_state_inv, reset_loop_inv.
Qed.

Lemma set_float_spec p s v :
  pll_inv p -> pll_inv (set_float p s v).1
  /\ op_edge (OpFloat s v) (pl_state p) (pl_state (set_float p s v).1).
Proof.
  intros Hi. destruct s; cbn [set_float op_edge];
    match goal with |- context [fst (?f p v)] => unfold f end;
    match goal with |- context [fst (if ?c then _ else _)] => destruct c eqn:E end; auto;
    cbn [fst]; try done.
  - destruct (fne _ _); [|by auto]. destruct (Pll_reacquire_spec (p <| pl_target_phase_deg := v |>))
      as [H1 ->]; [done|]. split; [done|]. cbn. destruct (bool_decide _) eqn:Eb; [|by auto].
    bool_facts. auto.
  - bool_facts. split; [|done]. destruct Hi as (H1 & H2 & H3 & H4).
    refine (conj H1 (conj H2 (conj H3 _))). cbn.
    unfold non_negative_finite in *. bool_facts. apply fle_total; [by destruct v| |done].
    apply (fle_nan _ _ H4).
  - bool_facts. split; [|done]. destruct Hi as (H1 & H2 & H3 & H4).
    refine (conj H1 (conj H2 (conj H3 _))). cbn.
    unfold non_negative_finite in *. bool_facts. apply fle_total; [|by destruct v|done].
    apply (fle_nan _ _ H4).
Qed.

Lemma pll_apply_spec p op :
  pll_inv p -> op_ok op ->
  exists p', pll_apply p op = Some p' /\ pll_inv p' /\ op_edge op (pl_state p) (pl_state p').
Proof.
  intros Hi Ho. destruct op; cbn [pll_apply op_ok] in *.
  - destruct (Pll_update_spec p f excitation response increment dt_s Hi Ho)
      as (p' & -> & H1 & H2 & _). by exists p'.
  - eexists. split; [done|]. by apply Pll_set_enabled_spec.
  - eexists. split; [done|]. by apply Pll_reacquire_spec.
  - eexists. split; [done|]. split; [|done]. by apply set_state_inv, reset_loop_inv.
  - eexists. split; [done|]. unfold Pll_set_centre_increment.
    destruct (_ && _) eqn:E; [|done]. bool_facts. destruct Hi as (H1 & H2 & H3 & H4).
    cbn [negb fst]. destruct (bool_decide _); unfold pll_inv; cbn; split_and!; (done || lia).
  - eexists. split; [done|]. unfold Pll_set_min_increment. destruct Hi as (H1 & H2 & H3 & H4).
    unfold fits in Ho.
    destruct (Z.ltb_spec (pl_centre_increment p) increment); unfold pll_inv; cbn;
      split_and!; (done || lia).
  - eexists. split; [done|]. unfold Pll_set_max_increment. destruct Hi as (H1 & H2 & H3 & H4).
    unfold fits in Ho.
    destruct (Z.ltb_spec increment (pl_centre_increment p)); unfold pll_inv; cbn;
      split_and!; (done || lia).
  - eexists. split; [done|]. by apply set_float_spec.
Qed.

Lemma pll_run_cons p op ops : pll_run p (op :: ops) = p' ← pll_apply p op; pll_run p' ops.
Proof.
  unfold pll_run. cbn. destruct (pll_apply p op) as [p'|]; [done|]. cbn.
  induction ops; [done|]. cbn. done.
Qed.

Lemma pll_run_inv p ops :
  pll_inv p -> Forall op_ok ops -> exists p', pll_run p ops = Some p' /\ pll_inv p'.
Proof.
  intros Hi Ho. revert p Hi. induction Ho as [|op ops Ho _ IH]; intros p Hi; [by exists p|].
  rewrite pll_run_cons. destruct (pll_apply_spec p op Hi Ho) as (p' & -> & Hi' & _).
  by apply IH.
Qed.

(** ** Properties *)

(** C13. Whatever the samples (infinities and NaN included), gains and sequence of
    operations, a PLL built from a valid configuration never panics, its loop
    over turns ends, its limits stay ordered around the centre, and every
    increment it commands is within them. *)
Theorem pll_frequency_bounded (c : PllConfig) (ops : list pll_op)
    (Hmin : 0 <= cfg_min_increment c) (Hmax : cfg_max_increment c < 2 ^ 32)
    (Hv : PllConfig_is_valid c = true) (Hops : Forall op_ok ops) :
  exists p p', Pll_new c = Some p /\ pll_run p ops = Some p'
    /\ 0 <= pl_min_increment p' <= pl_centre_increment p'
    /\ pl_centre_increment p' <= pl_max_increment p' < 2 ^ 32
    /\ pl_min_increment p' <= pl_commanded_increment p' <= pl_max_increment p'
    /\ forall f x y inc dt, frame_ok f -> exists p'' r, Pll_update p' f x y inc dt = Some (p'', r)
         /\ pl_min_increment p'' <= r <= pl_max_increment p''.
Proof.
  destruct (Pll_new_inv c Hmin Hmax Hv) as (p & E & Hi & _).
  destruct (pll_run_inv p ops Hi Hops) as (p' & E' & Hi'). exists p, p'.
  assert (H := Hi'). destruct H as (H1 & H2 & H3 & _). split_and!; try done; try lia.
  intros f x y inc dt Hf. destruct (Pll_update_spec p' f x y inc dt Hi' Hf) as (p'' & -> & H & _).
  exists p'', (pl_commanded_increment p''). split; [done|]. apply H.
Qed.

Definition test_frame : HarmonicFrame :=
  {| hf_phase := 0; hf_period_start := true; hf_cos := [f1]; hf_sin := [f0] |}.

Definition test_config : PllConfig :=
  PllConfig_default <| cfg_centre_increment := 100 |> <| cfg_min_increment := 90 |>
    <| cfg_max_increment := 110 |> <| cfg_proportional_gain := f32_of_Z 1000 |>
    <| cfg_demod_time_constant_s := f0 |> <| cfg_dc_time_constant_s := flit 1 1000 |>.

Definition test_ops : list pll_op :=
  OpSetEnabled true :: OpUpdate test_frame f0 f0 100 (flit 1 100)
    :: OpUpdate test_frame f1 f1 100 f1
    :: OpFloat STargetPhase (f32_of_Z 90) :: replicate 8 (OpUpdate test_frame f1 (S754_nan) 100 f1).

Lemma pll_frequency_bounded_witness :
  PllConfig_is_valid test_config = true /\
  exists p p', Pll_new test_config = Some p /\ pll_run p test_ops = Some p'
    /\ 0 <= pl_min_increment p' <= pl_centre_increment p'
    /\ pl_centre_increment p' <= pl_max_increment p' < 2 ^ 32
    /\ pl_min_increment p' <= pl_commanded_increment p' <= pl_max_increment p'
    /\ forall f x y inc dt, frame_ok f -> exists p'' r, Pll_update p' f x y inc dt = Some (p'', r)
         /\ pl_min_increment p'' <= r <= pl_max_increment p''.
Proof.
  assert (Hv : PllConfig_is_valid test_config = true) by by vm_compute.
  split; [exact Hv|].
  apply (pll_frequency_bounded test_config test_ops); [done|done|exact Hv|].
  unfold test_ops. repeat constructor; done.
Defined.

(** C28. The lock state machine: each operation changes the state only along its
    edges.  Acquisition is entered only by enabling, reacquiring or a new
    target; a timed-out acquisition returns to [Fixed] and never faults; only
    an update from [Locked] can lose the lock. *)
Theorem pll_state_machine (p : Pll) (op : pll_op) (Hi : pll_inv p) (Ho : op_ok op) :
  exists p', pll_apply p op = Some p' /\ pll_inv p' /\ op_edge op (pl_state p) (pl_state p')
    /\ (pl_state p' = LockLost -> pl_state p <> LockLost ->
        pl_state p = Locked
        /\ exists f x y inc dt, op = OpUpdate f x y inc dt).
Proof.
  destruct (pll_apply_spec p op Hi Ho) as (p' & E & Hi' & He). exists p'.
  split_and!; try done. intros Hs' Hs. rewrite Hs' in He.
  destruct op as [f x y inc dt|[]| | | | | |[] v]; cbn in He;
    repeat case_bool_decide; try congruence; try (by destruct He as [? | [_ ?]]).
  split; [|eauto 10]. by destruct (pl_state p).
Qed.

Lemma pll_state_machine_witness :
  exists p p', Pll_new test_config = Some p /\ pll_apply p (OpSetEnabled true) = Some p'
    /\ op_edge (OpSetEnabled true) (pl_state p) (pl_state p').
Proof.
  destruct (Pll_new_inv test_config) as (p & E & Hi & Hs); [done|done|by vm_compute|].
  destruct (pll_state_machine p (OpSetEnabled true) Hi I) as (p' & E' & _ & He & _).
  exists p, p'. split; [exact E|]. split; [exact E'|exact He].
Defined.

(** C31. A lost lock is latched: whatever operations follow, short of an explicit
    reset, the state stays [LockLost] and the command moves only if its limits are
    moved; updates, enabling, disabling and reacquiring leave the whole PLL
    untouched; and a reset, which only it does, brings the loop back to [Fixed]. *)
Theorem pll_lock_lost_latched (p : Pll) (ops : list pll_op) (Hi : pll_inv p)
    (Hs : pl_state p = LockLost) (Hops : Forall op_ok ops) (Hr : ~ In OpReset ops) :
  exists p', pll_run p ops = Some p' /\ pl_state p' = LockLost
    /\ pll_inv p'
    /\ (Forall (fun op => match op with OpMin _ | OpMax _ => False | _ => True end) ops ->
        pl_commanded_increment p' = pl_commanded_increment p)
    /\ (forall f x y inc dt, frame_ok f ->
         Pll_update p' f x y inc dt = Some (p', pl_commanded_increment p'))
    /\ (forall enabled, Pll_set_enabled p' enabled = p') /\ Pll_reacquire p' = p'
    /\ exists p'', pll_apply p' OpReset = Some p'' /\ pl_state p'' = Fixed.
Proof.
  revert p Hi Hs. induction Hops as [|op ops Ho Hops IH]; intros p Hi Hs.
  { destruct (pll_apply_spec p OpReset Hi I) as (p2 & E2 & _ & He2).
    exists p. split_and!; try done.
    - intros f x y inc dt Hf. destruct (Pll_update_spec p f x y inc dt Hi Hf) as (p' & -> & _ & _ & Hp).
      by rewrite Hp by (by right).
    - intros b. unfold Pll_set_enabled. rewrite Hs. by destruct b.
    - unfold Pll_reacquire. by rewrite Hs, bool_decide_eq_false_2 by naive_solver.
    - by exists p2. }
  rewrite pll_run_cons. destruct (pll_apply_spec p op Hi Ho) as (p1 & E1 & Hi1 & He).
  assert (Hs1 : pl_state p1 = LockLost).
  { rewrite Hs in He. destruct op as [| [] | | | | | |[]]; cbn in He; try done;
      try (by destruct He as [? | [[? | ?] _]]). by destruct Hr; left. }
  destruct IH with (p := p1) as (p' & Ep & Hp & Hip & Hc & Hu & Hen & Hra & Hre0); [by intros ?; apply Hr; right|done..|].
  exists p'. rewrite E1. split_and!; try done.
  intros [Hop Hrest]%Forall_cons. rewrite (Hc Hrest).
  assert (Hre : forall q, pl_state q = LockLost -> Pll_reacquire q = q).
  { intros q Hq. unfold Pll_reacquire. by rewrite Hq, bool_decide_eq_false_2 by naive_solver. }
  destruct op as [f x y inc dt|b| | |z| | |s v]; try done; cbn [pll_apply] in E1.
  - destruct (Pll_update_spec p f x y inc dt Hi Ho) as (q & Eq & _ & _ & Hq).
    rewrite Eq, Hq in E1 by (by right). by simplify_eq/=.
  - unfold Pll_set_enabled in E1. rewrite Hs in E1. destruct b; by simplify_eq/=.
  - rewrite Hre in E1 by done. by simplify_eq.
  - by destruct Hr; left.
  - apply (inj Some) in E1 as <-. unfold Pll_set_centre_increment. destruct (_ && _); [|done].
    cbn [negb fst]. cbn [pl_state set]. rewrite bool_decide_eq_false_2; [done|]. cbn. by rewrite Hs.
  - apply (inj Some) in E1 as <-. destruct s; cbn [set_float];
      match goal with |- context [fst (?f p v)] => unfold f end;
      match goal with |- context [fst (if ?c then _ else _)] => destruct c end; try done.
    cbn [fst]. destruct (fne _ _); [|done]. by rewrite Hre.
Qed.

Lemma pll_lock_lost_latched_witness :
  exists p p', Pll_new test_config = Some p
    /\ pll_run (p <| pl_state := LockLost |>) [OpSetEnabled false; OpReacquire; OpCentre 95] = Some p'
    /\ pl_state p' = LockLost /\ pl_commanded_increment p' = pl_commanded_increment p.
Proof.
  destruct (Pll_new_inv test_config) as (p & E & Hi & _); [done|done|by vm_compute|].
  destruct (pll_lock_lost_latched (p <| pl_state := LockLost |>)
    [OpSetEnabled false; OpReacquire; OpCentre 95]) as (p' & Ep & Hp & _ & Hc & _).
  - by apply set_state_inv.
  - done.
  - repeat constructor.
  - by intros [H | [H | [H | []]]].
  - exists p, p'. split; [exact E|]. split; [exact Ep|]. split; [exact Hp|].
    apply Hc. repeat constructor.
Defined.
