(* ===== verification/Channels.v ===== *)
(** * Sample rates, commands, records and queues

    [helic-rt/src/sample_rate.rs] and [channels.rs].  The queues between the
    cores are [heapless::spsc], which is not part of the repository: they are
    an interface with its documented behaviour as laws, and one instance for
    the examples. *)

From S2P Require Import Prelude Float32 TableBuffer.

(** ** Sample rates *)

Inductive SampleRate := Hz1000 | Hz2000 | Hz4000 | Hz8000.

Definition SampleRate_hz (r : SampleRate) : float :=
  match r with
  | Hz1000 => f32_of_Z 1000 | Hz2000 => f32_of_Z 2000
  | Hz4000 => f32_of_Z 4000 | Hz8000 => f32_of_Z 8000
  end.

Definition SampleRate_dt (r : SampleRate) : float := fdiv f1 (SampleRate_hz r).

Definition SampleRate_period_us (r : SampleRate) : Z :=
  match r with Hz1000 => 1000 | Hz2000 => 500 | Hz4000 => 250 | Hz8000 => 125 end.

(** [(divider, top)] for a 150 MHz PWM clock. *)
Definition SampleRate_pwm_params (r : SampleRate) : Z * Z :=
  match r with
  | Hz1000 => (4, 37500 - 1) | Hz2000 => (2, 37500 - 1)
  | Hz4000 => (2, 18750 - 1) | Hz8000 => (2, 9375 - 1)
  end.

(** ** Commands *)

Definition DEFAULT_HARMONICS : Z := 16.
Definition MAX_HARMONICS : Z := 16.
Definition MAX_SOURCES : Z := 24.
Definition MAX_ACTUATORS : Z := 4.

Definition DOMAIN_RIG : Z := 0.
Definition DOMAIN_GENERATOR : Z := 1.
Definition DOMAIN_TABLE : Z := 2.
Definition DOMAIN_CONTROLLER : Z := 3.

Module command_id.
Module generator.
Definition SET_INCREMENT : Z := 0.
Definition SET_TARGET : Z := 1.
Definition SET_FORCING : Z := 2.
End generator.
Module table.
Definition ACTIVATE : Z := 0.
Definition SET_INCREMENT : Z := 1.
Definition SET_GAIN : Z := 2.
Definition SET_INTERPOLATION : Z := 3.
Definition SET_MODE : Z := 4.
Definition SET_MULTIPLIER : Z := 5.
Definition SET_PHASE : Z := 6.
Definition TRIGGER : Z := 7.
End table.
End command_id.

Inductive Payload :=
  | PUnit
  | PF32 (v : float)
  | PU32 (v : Z)
  | PBuffer (token : CommitToken).

Record RtCommand := { cmd_domain : Z; cmd_id : Z; cmd_payload : Payload }.

Definition COMMAND_QUEUE_LEN : Z := 32.
Definition COMMANDS_PER_TICK : nat := 2.
Definition RECORD_QUEUE_LEN : Z := 256.

(** [Record]: [values] is a [[f32; MAX_SOURCES]]. *)
Record StreamRecord := { rec_index : Z; rec_n : Z; rec_values : list float }.

(** ** Single-producer single-consumer queues *)

Class SpscQueue (Q T : Type) := {
  q_contents : Q -> list T;
  q_capacity : Q -> Z;
  (** [None]: full, the element is handed back. *)
  q_enqueue : Q -> T -> option Q;
  q_dequeue : Q -> option (T * Q) }.

Class SpscLaws (Q T : Type) `{SpscQueue Q T} := {
  q_enqueue_ok q x : len (q_contents q) < q_capacity q ->
    exists q', q_enqueue q x = Some q' /\ q_contents q' = q_contents q ++ [x]
      /\ q_capacity q' = q_capacity q;
  q_enqueue_full q x : q_capacity q <= len (q_contents q) -> q_enqueue q x = None;
  q_dequeue_some q x l : q_contents q = x :: l ->
    exists q', q_dequeue q = Some (x, q') /\ q_contents q' = l /\ q_capacity q' = q_capacity q;
  q_dequeue_none q : q_contents q = [] -> q_dequeue q = None }.

Definition q_len {Q T} `{SpscQueue Q T} (q : Q) : Z := len (q_contents q).

(** A queue of at most [lq_capacity] elements. *)
Record ListQueue (T : Type) := { lq_items : list T; lq_capacity : Z }.
Arguments Build_ListQueue {T}.
Arguments lq_items {T}.
Arguments lq_capacity {T}.

#[export] Instance list_queue {T} : SpscQueue (ListQueue T) T := {|
  q_contents := lq_items;
  q_capacity := lq_capacity;
  q_enqueue q x :=
    if len (lq_items q) <? lq_capacity q
    then Some {| lq_items := lq_items q ++ [x]; lq_capacity := lq_capacity q |} else None;
  q_dequeue q :=
    match lq_items q with
    | [] => None
    | x :: l => Some (x, {| lq_items := l; lq_capacity := lq_capacity q |})
    end |}.

#[export] Instance list_queue_laws {T} : SpscLaws (ListQueue T) T.
Proof.
  split; cbn.
  - intros q x Hl. rewrite (proj2 (Z.ltb_lt _ _)) by done. by eexists.
  - intros q x Hl. by rewrite (proj2 (Z.ltb_ge _ _)) by done.
  - intros q x l ->. by eexists.
  - by intros q ->.
Qed.

(** The presets agree: period, rate and PWM divisor describe one clock. *)
Lemma SampleRate_consistent r :
  SampleRate_dt r = fdiv f1 (SampleRate_hz r)
  /\ f32_of_Z (SampleRate_period_us r) = fdiv (f32_of_Z 1000000) (SampleRate_hz r)
  /\ let '(divider, top) := SampleRate_pwm_params r in
     divider * (top + 1) = 150 * SampleRate_period_us r.
Proof. by destruct r; vm_compute. Qed.
