(* ===== verification/HwTimer.v ===== *)
(** * The clock of the board (firmware/rt/src/rig.rs, firmware/support/src/time_watchdog.rs)

    The two spinning tick sources, which wait for a latched edge or a timeout
    of the free-running 32-bit microsecond counter, and the heartbeat that
    re-arms the second alarm of the same timer.  How long the code takes
    between two accesses, and which edges arrive meanwhile, is the
    environment's. *)

From stdpp Require Import gmap.
From S2P Require Import Prelude Float32 Channels.

#[export] Set Default Goal Selector "!".
Open Scope Z_scope.

(** ** The counter

    [now] is the time since reset in microseconds, of which the register shows
    the low word. *)

Definition timerawl (now : Z) : Z := wrap 32 now.

(** ** Waiting for a tick *)

(** What happens during one turn of the loop: what is latched by the time the
    latch is read, and how much later the counter is read. *)
Record Turn (A : Type) := { tn_arrivals : A; tn_delay : Z }.
Arguments Build_Turn {A}.
Arguments tn_arrivals {A}.
Arguments tn_delay {A}.

(** A register of edges: whether the tick's is latched, its clearing, and the
    arrivals. *)
Class Latch (L A : Type) := {
  latch_set : L -> bool;
  latch_clear : L -> L;
  latch_arrive : A -> L -> L
}.

(** The result, the register and the time; [None] is a loop still running. *)
Fixpoint tick_wait_loop {L A} `{Latch L A} (start timeout : Z) (turns : list (Turn A)) (latch : L) (now : Z)
    : option (bool * L * Z) :=
  match turns with
  | [] => None
  | t :: turns =>
      let latch := latch_arrive (tn_arrivals t) latch in
      if latch_set latch then Some (true, latch_clear latch, now) else
      let now := now + tn_delay t in
      if timeout <? wrapping_sub 32 (timerawl now) start then Some (false, latch, now)
      else tick_wait_loop start timeout turns latch now
  end.

Definition timeout_of (rate : SampleRate) : Z := wrap 32 (2 * SampleRate_period_us rate).

(** The latched low edges of the pins, by register and position. *)
Abbreviation Edges := (gset (Z * Z)).

Record BusyEdgeSpinTick := { bt_pin : Z; bt_timeout_us : Z }.

Definition edge_of (pin : Z) : Z * Z := (pin / 8, pin mod 8).

Definition BusyEdgeSpinTick_new (pin : Z) (rate : SampleRate) (edges : Edges) : BusyEdgeSpinTick * Edges :=
  ({| bt_pin := pin; bt_timeout_us := timeout_of rate |}, edges ∖ {[edge_of pin]}).

Definition busy_latch (pin : Z) : Latch Edges Edges := {|
  latch_set edges := bool_decide (edge_of pin ∈ edges);
  latch_clear edges := edges ∖ {[edge_of pin]};
  latch_arrive arrivals edges := edges ∪ arrivals
|}.

Definition busy_wait (t : BusyEdgeSpinTick) (turns : list (Turn Edges)) (edges : Edges) (now : Z)
    : option (bool * Edges * Z) :=
  tick_wait_loop (H := busy_latch (bt_pin t)) (timerawl now) (bt_timeout_us t) turns edges now.

(** The PWM block: the slice's divider and top, the interrupt enables and the
    raw wrap flags, a bit for each slice. *)
Record PwmBlock := { pb_divider : Z; pb_top : Z; pb_inte : Z; pb_intr : Z }.
Record PwmWrapSpinTick := { pt_mask : Z; pt_timeout_us : Z }.

Definition PwmWrapSpinTick_new (slice : Z) (rate : SampleRate) (b : PwmBlock) : PwmWrapSpinTick * PwmBlock :=
  let mask := Z.shiftl 1 slice in
  let '(divider, top) := SampleRate_pwm_params rate in
  ({| pt_mask := mask; pt_timeout_us := timeout_of rate |},
   {| pb_divider := divider; pb_top := top;
      pb_inte := Z.ldiff (pb_inte b) mask; pb_intr := Z.ldiff (pb_intr b) mask |}).

(** The flags are write-one-to-clear. *)
Definition pwm_latch (mask : Z) : Latch Z Z := {|
  latch_set intr := negb (Z.land intr mask =? 0);
  latch_clear intr := Z.ldiff intr mask;
  latch_arrive arrivals intr := Z.lor intr arrivals
|}.

Definition pwm_wait (t : PwmWrapSpinTick) (turns : list (Turn Z)) (intr : Z) (now : Z) : option (bool * Z * Z) :=
  tick_wait_loop (H := pwm_latch (pt_mask t)) (timerawl now) (pt_timeout_us t) turns intr now.

(** *** Reference

    The same wait by the unbounded time: the first turn that finds an edge, or
    ends later than [deadline]. *)
Fixpoint wait_until {L A} `{Latch L A} (deadline : Z) (turns : list (Turn A)) (latch : L) (now : Z)
    : option (bool * L * Z) :=
  match turns with
  | [] => None
  | t :: turns =>
      let latch := latch_arrive (tn_arrivals t) latch in
      if latch_set latch then Some (true, latch_clear latch, now) else
      let now := now + tn_delay t in
      if deadline <? now then Some (false, latch, now) else wait_until deadline turns latch now
  end.

Definition delays {A} (turns : list (Turn A)) : Z := foldr (fun t sum => tn_delay t + sum) 0 turns.

(** A turn takes less than the counter's range less the timeout: over an hour. *)
Definition steady {A} (timeout : Z) (turns : list (Turn A)) : Prop :=
  Forall (fun t => 0 <= tn_delay t < 2 ^ 32 - timeout) turns.

(** ** The alarm of the time watchdog *)

Definition KICK_INTERVAL_US : Z := 50000.

(** The second alarm of the timer: its register, whether it is armed, its raw
    interrupt flag and its enable; and whether the time driver's own interrupt
    has been pended. *)
Record Timer0 := {
  ti_now : Z; ti_alarm : Z; ti_armed : bool; ti_intr : bool; ti_inte : bool; ti_driver_pended : bool }.

(** A microsecond: the comparator only looks when the counter moves, so an alarm
    written for a moment that has passed does not match before the counter wraps. *)
Definition tick (t : Timer0) : Timer0 :=
  let now := ti_now t + 1 in
  if ti_armed t && (timerawl now =? ti_alarm t)
  then t <| ti_now := now |> <| ti_armed := false |> <| ti_intr := true |>
  else t <| ti_now := now |>.

Definition advance (us : Z) (t : Timer0) : Timer0 := Nat.iter (Z.to_nat us) tick t.

(** The time that passes before each of the three later accesses of a turn. *)
Record KickDelays := { kd_write : Z; kd_read : Z; kd_armed : Z }.

(** [as i32 > 0] *)
Definition i32_positive (z : Z) : bool := (0 <? z) && (z <? 2 ^ 31).

(** [None] is a loop still running. *)
Fixpoint arm_kick (turns : list KickDelays) (t : Timer0) : option Timer0 :=
  match turns with
  | [] => None
  | d :: turns =>
      let target := wrapping_add 32 (timerawl (ti_now t)) KICK_INTERVAL_US in
      let t := (advance (kd_write d) t) <| ti_alarm := target |> <| ti_armed := true |> in
      let t := advance (kd_read d) t in
      let still_ahead := i32_positive (wrapping_sub 32 target (timerawl (ti_now t))) in
      let t := advance (kd_armed d) t in
      let fired := negb (ti_armed t) in
      if still_ahead || fired then Some t
      else arm_kick turns (t <| ti_armed := false |>)
  end.

Definition on_interrupt (turns : list KickDelays) (t : Timer0) : option Timer0 :=
  t ← arm_kick turns (t <| ti_intr := false |>);
  Some (t <| ti_driver_pended := true |>).

Definition watchdog_start (turns : list KickDelays) (t : Timer0) : option Timer0 :=
  arm_kick turns (t <| ti_inte := true |>).

(** ** Lemmas *)

Lemma timerawl_elapsed now start :
  0 <= now - start < 2 ^ 32 -> wrapping_sub 32 (timerawl now) (timerawl start) = now - start.
Proof. intros H. unfold wrapping_sub, timerawl, wrap. rewrite <-Zminus_mod. by apply Z.mod_small. Qed.

Section waiting.
Context {L A : Type} `{Latch L A}.
Implicit Types (turns : list (Turn A)) (latch : L).

Lemma tick_wait_loop_until start timeout turns latch now :
  0 <= timeout -> steady timeout turns -> start <= now <= start + timeout ->
  tick_wait_loop (timerawl start) timeout turns latch now = wait_until (start + timeout) turns latch now.
Proof.
  intros Ht. revert latch now. induction turns as [|t turns IH]; intros latch now Hs Hnow; [done|].
  apply Forall_cons in Hs as [Hd Hs]. cbn beta in Hd. cbn [tick_wait_loop wait_until]. cbv zeta.
  destruct (latch_set _); [done|]. rewrite timerawl_elapsed by lia.
  destruct (Z.ltb_spec timeout (now + tn_delay t - start)), (Z.ltb_spec (start + timeout) (now + tn_delay t));
    [done|lia|lia|]. apply IH; [done|lia].
Qed.

Lemma wait_until_ends deadline turns latch now :
  deadline < now + delays turns -> now <= deadline -> is_Some (wait_until deadline turns latch now).
Proof.
  revert latch now. induction turns as [|t turns IH]; intros latch now Hd Hn; cbn in *; [lia|].
  destruct (latch_set _); [by eexists|].
  destruct (Z.ltb_spec deadline (now + tn_delay t)); [by eexists|]. apply IH; [unfold delays|]; lia.
Qed.

Lemma wait_until_result deadline turns latch now tick latch' now' :
  now <= deadline ->
  wait_until deadline turns latch now = Some (tick, latch', now') ->
  if (tick : bool) then now' <= deadline /\ (exists l, latch_set l = true /\ latch' = latch_clear l)
  else deadline < now' /\ latch_set latch' = false.
Proof.
  revert latch now. induction turns as [|t turns IH]; intros latch now Hn; cbn; [done|].
  destruct (latch_set (latch_arrive _ _)) eqn:E; [intros ?; simplify_eq; split; [done|by eexists]|].
  destruct (Z.ltb_spec deadline (now + tn_delay t)) as [Hd|Hd]; [intros ?; by simplify_eq|by apply IH].
Qed.

(** The three together, for a latch whose clearing clears it. *)
Lemma tick_wait_loop_exact timeout turns latch now :
  0 <= timeout -> steady timeout turns -> (forall l, latch_set (latch_clear l) = false) ->
  tick_wait_loop (timerawl now) timeout turns latch now = wait_until (now + timeout) turns latch now
  /\ (now + timeout < now + delays turns -> is_Some (tick_wait_loop (timerawl now) timeout turns latch now))
  /\ (forall tick latch' now', tick_wait_loop (timerawl now) timeout turns latch now = Some (tick, latch', now') ->
       latch_set latch' = false /\ if (tick : bool) then now' <= now + timeout else now + timeout < now').
Proof.
  intros Ht Hs Hclear. rewrite tick_wait_loop_until by (done || lia). split; [done|].
  split; [intros; apply wait_until_ends; lia|]. intros tk latch' now' E.
  apply wait_until_result in E; [|lia]. destruct tk; [destruct E as (Hn & l & _ & ->); by split|tauto].
Qed.
End waiting.

(** *** The alarm *)

Lemma advance_succ us t : 0 <= us -> advance (us + 1) t = tick (advance us t).
Proof. intros Hu. unfold advance. by rewrite Z.add_1_r, Z2Nat.inj_succ by lia. Qed.

Lemma advance_0 t : advance 0 t = t.
Proof. done. Qed.

Lemma tick_now t : ti_now (tick t) = ti_now t + 1.
Proof. unfold tick. by destruct (_ && _). Qed.

Lemma tick_intr t : ti_intr t = true -> ti_intr (tick t) = true.
Proof. unfold tick. by destruct (_ && _). Qed.

Lemma advance_intr us t : ti_intr t = true -> ti_intr (advance us t) = true.
Proof. intros Ht. unfold advance. induction (Z.to_nat us); cbn; auto using tick_intr. Qed.

Lemma advance_now us t : 0 <= us -> ti_now (advance us t) = ti_now t + us.
Proof.
  intros Hu. unfold advance. rewrite <-(Z2Nat.id us) at 2 by done.
  induction (Z.to_nat us) as [|n IH]; [cbn; lia|]. cbn [Nat.iter nat_rect]. rewrite tick_now.
  unfold Nat.iter in IH. rewrite IH. lia.
Qed.

Lemma timerawl_inj now a b : 0 < a <= 2 ^ 32 -> 0 < b <= 2 ^ 32 -> timerawl (now + a) = timerawl (now + b) -> a = b.
Proof.
  intros Ha Hb E. unfold timerawl, wrap in E. div_lia.
Qed.

(** An armed alarm [e] microseconds ahead fires after exactly [e]. *)
Lemma advance_armed us e t :
  0 <= us < 2 ^ 32 -> 0 < e <= 2 ^ 32 -> ti_armed t = true -> ti_alarm t = timerawl (ti_now t + e) ->
  ti_alarm (advance us t) = ti_alarm t
  /\ if us <? e then ti_armed (advance us t) = true
     else ti_armed (advance us t) = false /\ ti_intr (advance us t) = true.
Proof.
  intros [Hu Hlt] He Harm Hal. revert Hlt. pattern us. apply natlike_ind; [|clear us Hu; intros us Hu IH Hlt|done].
  - intros _. rewrite advance_0, (proj2 (Z.ltb_lt _ _)) by lia. done.
  - destruct (IH ltac:(lia)) as [E1 E2]. rewrite <-Z.add_1_r, advance_succ by done. unfold tick.
    rewrite advance_now, E1, Hal by done. destruct (Z.ltb_spec us e) as [Hlt'|Hge].
    + rewrite E2. cbn [andb]. destruct (Z.eqb_spec (timerawl (ti_now t + us + 1)) (timerawl (ti_now t + e))) as [E|E].
      * rewrite <-Z.add_assoc in E. apply timerawl_inj in E; [|lia..]. rewrite (proj2 (Z.ltb_ge _ _)) by lia.
        split; [|done]. cbn. by rewrite E1.
      * rewrite (proj2 (Z.ltb_lt (us + 1) e)).
        { split; [cbn; by rewrite E1|done]. }
        destruct (Z.eq_dec (us + 1) e) as [Ee|]; [|lia]. destruct E. f_equal. lia.
    + destruct E2 as [E2 E3]. rewrite E2, (proj2 (Z.ltb_ge _ _)) by lia. cbn. by rewrite E1.
Qed.

Lemma timeout_of_eq rate : timeout_of rate = 2 * SampleRate_period_us rate /\ 0 <= timeout_of rate < 2 ^ 32.
Proof. by destruct rate. Qed.

Lemma advance_add a b t : 0 <= a -> 0 <= b -> advance b (advance a t) = advance (a + b) t.
Proof. intros. unfold advance. by rewrite Z.add_comm, Z2Nat.inj_add, Nat.iter_add. Qed.

(** How far the target is ahead of a later reading. *)
Lemma target_ahead now k later :
  wrapping_sub 32 (wrapping_add 32 (timerawl now) k) (timerawl (now + later)) = wrap 32 (k - later).
Proof. unfold wrapping_sub, wrapping_add, timerawl, wrap. div_lia. Qed.

Lemma i32_positive_wrap x : - 2 ^ 31 < x < 2 ^ 31 -> i32_positive (wrap 32 x) = (0 <? x).
Proof.
  intros Hx. unfold i32_positive. destruct (Z.ltb_spec 0 x) as [Hp|Hp].
  - rewrite wrap_id by (unfold fits; lia). by rewrite !(proj2 (Z.ltb_lt _ _)) by lia.
  - destruct (Z.eq_dec x 0) as [->|Hne]; [done|].
    assert (wrap 32 x = 2 ^ 32 + x) as -> by (unfold wrap; div_lia).
    by rewrite (proj2 (Z.ltb_ge (2 ^ 32 + x) _)), andb_false_r by lia.
Qed.

Lemma tick_pend t b : tick (t <| ti_driver_pended := b |>) = (tick t) <| ti_driver_pended := b |>.
Proof. unfold tick. cbn. by destruct (_ && _). Qed.

Lemma advance_pend us t b : ti_intr (advance us (t <| ti_driver_pended := b |>)) = ti_intr (advance us t).
Proof.
  assert (H : advance us (t <| ti_driver_pended := b |>) = (advance us t) <| ti_driver_pended := b |>).
  { unfold advance. induction (Z.to_nat us) as [|n IH]; [done|]. cbn [Nat.iter nat_rect]. unfold Nat.iter in IH.
    by rewrite IH, tick_pend. }
  by rewrite H.
Qed.

#[local] Opaque advance.

(** An alarm written [write] microseconds after its target was chosen, and the
    two accesses after that: it is still ahead, it has fired, or it was written
    too late and the turn sees it. *)
Lemma kick_turn d t :
  0 <= kd_write d -> 0 <= kd_read d -> 0 <= kd_armed d -> kd_write d + kd_read d + kd_armed d < 2 ^ 31 ->
  let target := wrapping_add 32 (timerawl (ti_now t)) KICK_INTERVAL_US in
  let written := (advance (kd_write d) t) <| ti_alarm := target |> <| ti_armed := true |> in
  let read := advance (kd_read d) written in
  let last := advance (kd_armed d) read in
  let returns := i32_positive (wrapping_sub 32 target (timerawl (ti_now read))) || negb (ti_armed last) in
  (kd_write d < KICK_INTERVAL_US -> returns = true)
  /\ (returns = true -> ti_intr (advance KICK_INTERVAL_US last) = true).
Proof.
  intros Hw Hr Ha Hsum target written read last returns. unfold KICK_INTERVAL_US in *.
  pose (e := if kd_write d <? 50000 then 50000 - kd_write d else 2 ^ 32 + 50000 - kd_write d).
  assert (He : 0 < e <= 2 ^ 32) by (unfold e; destruct (Z.ltb_spec (kd_write d) 50000); lia).
  assert (Hnow : ti_now written = ti_now t + kd_write d) by (unfold written; cbn; by apply advance_now).
  assert (Hal : ti_alarm written = timerawl (ti_now written + e)).
  { rewrite Hnow. unfold written, target, e. cbn. unfold wrapping_add, timerawl, wrap.
    destruct (_ <? _); div_lia. }
  assert (Elast : last = advance (kd_read d + kd_armed d) written) by (by apply advance_add).
  destruct (advance_armed (kd_read d + kd_armed d) e written) as [_ Hlast]; [lia|done..|]. rewrite <-Elast in Hlast.
  destruct (advance_armed (kd_read d + kd_armed d + 50000) e written) as [_ Hend]; [lia|done..|].
  rewrite <-advance_add, <-Elast in Hend by lia.
  assert (Eread : i32_positive (wrapping_sub 32 target (timerawl (ti_now read))) = (kd_write d + kd_read d <? 50000)).
  { unfold read. rewrite advance_now, Hnow by done. unfold target. rewrite <-Z.add_assoc, target_ahead.
    rewrite i32_positive_wrap by lia. destruct (Z.ltb_spec 0 (50000 - (kd_write d + kd_read d)));
      symmetry; [apply Z.ltb_lt|apply Z.ltb_ge]; lia. }
  unfold returns. rewrite Eread. split.
  - intros Hlt. destruct (Z.ltb_spec (kd_write d + kd_read d) 50000) as [|Hover]; [done|]. cbn [orb].
    destruct (Z.ltb_spec (kd_read d + kd_armed d) e) as [Hb|_]; [|by destruct Hlast as [-> _]].
    unfold e in Hb. rewrite (proj2 (Z.ltb_lt _ _)) in Hb by done. lia.
  - intros Hret. destruct (Z.ltb_spec (kd_read d + kd_armed d + 50000) e) as [Hb|_]; [exfalso|by destruct Hend].
    assert (Hlate : 50000 <= kd_write d).
    { destruct (Z.le_gt_cases 50000 (kd_write d)); [done|]. unfold e in Hb.
      rewrite (proj2 (Z.ltb_lt _ _)) in Hb by done. lia. }
    rewrite (proj2 (Z.ltb_ge _ _)) in Hret by lia.
    rewrite (proj2 (Z.ltb_lt (kd_read d + kd_armed d) e)) in Hlast by lia. by rewrite Hlast in Hret.
Qed.

(** Accesses that together take less than half the counter's range. *)
Definition prompt (d : KickDelays) : Prop :=
  0 <= kd_write d /\ 0 <= kd_read d /\ 0 <= kd_armed d /\ kd_write d + kd_read d + kd_armed d < 2 ^ 31.

Lemma arm_kick_pending turns t t' :
  Forall prompt turns -> arm_kick turns t = Some t' -> ti_intr (advance KICK_INTERVAL_US t') = true.
Proof.
  revert t. induction turns as [|d turns IH]; intros t Hp; [done|].
  apply Forall_cons in Hp as [(Hw & Hr & Ha & Hsum) Hp]. cbn [arm_kick]. cbv zeta.
  destruct (kick_turn d t Hw Hr Ha Hsum) as [_ H].
  destruct (_ || _) eqn:E; [|by apply IH]. intros Et. apply (inj Some) in Et as <-. by apply H.
Qed.

Lemma arm_kick_returns turns t :
  Forall prompt turns -> Exists (fun d => kd_write d < KICK_INTERVAL_US) turns -> is_Some (arm_kick turns t).
Proof.
  revert t. induction turns as [|d turns IH]; intros t Hp He; [by apply Exists_nil in He|].
  apply Forall_cons in Hp as [(Hw & Hr & Ha & Hsum) Hp]. cbn [arm_kick]. cbv zeta.
  destruct (kick_turn d t Hw Hr Ha Hsum) as [H _]. apply Exists_cons in He as [He|He].
  - rewrite H by done. by eexists.
  - destruct (_ || _); [by eexists|]. by apply IH.
Qed.

(** ** Properties *)

(** The ADC tick: the constructor discards a latched edge; an edge latched before
    the wait is taken at once, its own latch alone being cleared; and, however
    the 32-bit counter wraps, the wait is the reference by unbounded time with a
    deadline of two sample periods: it reports a tick only up to the deadline and
    a timeout only beyond it with no edge latched, and it returns once the
    deadline has passed. *)
Theorem busy_wait_exact (pin : Z) (rate : SampleRate) (edges : Edges) :
  let '(t, edges0) := BusyEdgeSpinTick_new pin rate edges in
  let deadline now := now + 2 * SampleRate_period_us rate in
  (edge_of pin ∉ edges0)
  /\ (forall turn turns edges now, (edge_of pin ∈ edges) ->
       busy_wait t (turn :: turns) edges now = Some (true, (edges ∪ tn_arrivals turn) ∖ {[edge_of pin]}, now))
  /\ (forall turns edges now, steady (2 * SampleRate_period_us rate) turns ->
       busy_wait t turns edges now = wait_until (H := busy_latch pin) (deadline now) turns edges now
       /\ (deadline now < now + delays turns -> is_Some (busy_wait t turns edges now))
       /\ (forall tick edges' now', busy_wait t turns edges now = Some (tick, edges', now') ->
            (edge_of pin ∉ edges') /\ if (tick : bool) then now' <= deadline now else deadline now < now')).
Proof.
  unfold BusyEdgeSpinTick_new. destruct (timeout_of_eq rate) as [Et Hr]. cbv zeta beta. split_and!.
  - set_solver.
  - intros turn turns es now He. unfold busy_wait. cbn. by rewrite bool_decide_eq_true_2 by set_solver.
  - intros turns es now Hs. unfold busy_wait. cbn [bt_timeout_us bt_pin]. rewrite <-Et in *.
    destruct (tick_wait_loop_exact (H := busy_latch pin) (timeout_of rate) turns es now) as (E1 & E2 & E3); [lia|done| |].
    { intros l. cbn. apply bool_decide_eq_false_2. set_solver. }
    split; [done|]. split; [done|]. intros tk es' now' E. apply E3 in E as [E ?].
    split; [by apply bool_decide_eq_false in E|done].
Qed.

(** The PWM tick: the constructor programs the slice for the sample rate, keeps
    its interrupt from the processor and discards a latched wrap; a wrap latched
    before the wait is taken at once, clearing no other slice's flag; and the
    wait is the reference by unbounded time, as for the ADC tick. *)
Theorem pwm_wait_exact (slice : Z) (rate : SampleRate) (b : PwmBlock) (Hslice : 0 <= slice < 32) :
  let '(t, b0) := PwmWrapSpinTick_new slice rate b in
  let deadline now := now + 2 * SampleRate_period_us rate in
  pb_divider b0 * (pb_top b0 + 1) = 150 * SampleRate_period_us rate
  /\ Z.testbit (pb_inte b0) slice = false /\ Z.testbit (pb_intr b0) slice = false
  /\ (forall turn turns intr now, Z.testbit intr slice = true ->
       exists intr', pwm_wait t (turn :: turns) intr now = Some (true, intr', now)
         /\ forall i, 0 <= i -> Z.testbit intr' i
              = (Z.testbit intr i || Z.testbit (tn_arrivals turn) i) && negb (i =? slice))
  /\ (forall turns intr now, steady (2 * SampleRate_period_us rate) turns ->
       pwm_wait t turns intr now = wait_until (H := pwm_latch (Z.shiftl 1 slice)) (deadline now) turns intr now
       /\ (deadline now < now + delays turns -> is_Some (pwm_wait t turns intr now))
       /\ (forall tick intr' now', pwm_wait t turns intr now = Some (tick, intr', now') ->
            Z.testbit intr' slice = false /\ if (tick : bool) then now' <= deadline now else deadline now < now')).
Proof.
  assert (Hbit : forall i, 0 <= i -> Z.testbit (Z.shiftl 1 slice) i = (i =? slice)).
  { intros i Hi. rewrite Z.shiftl_spec by done. destruct (Z.eqb_spec i slice) as [->|Hne]; [by rewrite Z.sub_diag|].
    destruct (Z.lt_ge_cases i slice); [apply Z.testbit_neg_r; lia|]. apply Z.bits_above_log2; cbn; lia. }
  assert (Hset : forall intr, latch_set (Latch := pwm_latch (Z.shiftl 1 slice)) intr = Z.testbit intr slice).
  { intros intr. cbn. destruct (Z.testbit intr slice) eqn:E.
    - apply negb_true_iff, Z.eqb_neq. intros E0. apply (f_equal (fun z => Z.testbit z slice)) in E0.
      rewrite Z.land_spec, E, Hbit, Z.eqb_refl, Z.bits_0 in E0 by lia. done.
    - apply negb_false_iff, Z.eqb_eq, Z.bits_inj'. intros i Hi. rewrite Z.land_spec, Hbit, Z.bits_0 by done.
      destruct (Z.eqb_spec i slice) as [->|]; [by rewrite E|apply andb_false_r]. }
  assert (Hclear : forall intr, Z.testbit (Z.ldiff intr (Z.shiftl 1 slice)) slice = false).
  { intros intr. rewrite Z.ldiff_spec, Hbit, Z.eqb_refl by lia. apply andb_false_r. }
  destruct (timeout_of_eq rate) as [Et Hr].
  unfold PwmWrapSpinTick_new. destruct (SampleRate_pwm_params rate) as [divider top] eqn:Ep. cbv zeta.
  cbn [pb_divider pb_top pb_inte pb_intr]. split_and!; [by destruct rate; injection Ep as <- <-|apply Hclear..| |].
  - intros turn turns intr now Hb. unfold pwm_wait. cbn [pt_mask pt_timeout_us tick_wait_loop]. cbv zeta.
    rewrite Hset. change (latch_arrive _ _) with (Z.lor intr (tn_arrivals turn)). rewrite Z.lor_spec, Hb. cbn [orb].
    eexists. split; [done|]. intros i Hi. change (latch_clear ?l) with (Z.ldiff l (Z.shiftl 1 slice)).
    by rewrite Z.ldiff_spec, Z.lor_spec, Hbit.
  - intros turns intr now Hs. unfold pwm_wait. cbn [pt_timeout_us pt_mask]. rewrite <-Et in *.
    destruct (tick_wait_loop_exact (H := pwm_latch (Z.shiftl 1 slice)) (timeout_of rate) turns intr now)
      as (E1 & E2 & E3); [lia|done|intros l; rewrite Hset; apply Hclear|].
    split; [done|]. split; [done|]. intros tk intr' now' E. apply E3 in E as [E ?]. by rewrite Hset in E.
Qed.

(** C33. The heartbeat: if the accesses of a turn together take less than half the
    counter's range, then whenever [start] or the handler returns - also when it
    was held up until its target had passed - the kick's interrupt is pending
    within 50 ms; the handler pends the time driver's interrupt; and both return
    once a turn writes its alarm within the interval. *)
Theorem watchdog_kicks (turns : list KickDelays) (t : Timer0) (Hp : Forall prompt turns) :
  (forall t', watchdog_start turns t = Some t' -> ti_intr (advance KICK_INTERVAL_US t') = true)
  /\ (forall t', on_interrupt turns t = Some t' ->
       ti_driver_pended t' = true /\ ti_intr (advance KICK_INTERVAL_US t') = true)
  /\ (Exists (fun d => kd_write d < KICK_INTERVAL_US) turns ->
       is_Some (watchdog_start turns t) /\ is_Some (on_interrupt turns t)).
Proof.
  split_and!.
  - intros t' E. by eapply arm_kick_pending.
  - intros t' E. unfold on_interrupt in E. apply option.bind_Some in E as (t1 & E & E'). apply (inj Some) in E' as <-.
    split; [done|]. apply arm_kick_pending in E; [|done]. by rewrite advance_pend.
  - intros He. split; [by apply arm_kick_returns|]. unfold on_interrupt.
    destruct (arm_kick_returns turns (t <| ti_intr := false |>) Hp He) as [t1 ->]. rewrite bind_Some. by eexists.
Qed.

(** ** Witnesses *)

Definition example_edges : list (Turn Edges) :=
  [Build_Turn ∅ 100; Build_Turn {[(2, 5)]} 100; Build_Turn ∅ 51].

Lemma busy_wait_exact_witness :
  busy_wait (fst (BusyEdgeSpinTick_new 20 Hz8000 ∅)) example_edges ∅ (2 ^ 32 - 30)
    = wait_until (H := busy_latch 20) (2 ^ 32 + 220) example_edges ∅ (2 ^ 32 - 30)
  /\ is_Some (busy_wait (fst (BusyEdgeSpinTick_new 20 Hz8000 ∅)) example_edges ∅ (2 ^ 32 - 30)).
Proof.
  destruct (busy_wait_exact 20 Hz8000 ∅) as (_ & _ & H).
  destruct (H example_edges ∅ (2 ^ 32 - 30)) as (E1 & E2 & _).
  - repeat constructor; vm_compute; congruence.
  - split; [apply E1|apply E2; by vm_compute].
Defined.

Lemma pwm_wait_exact_witness :
  exists intr', pwm_wait (fst (PwmWrapSpinTick_new 3 Hz8000 (Build_PwmBlock 0 0 8 15)))
                  [Build_Turn 4 10] 9 77 = Some (true, intr', 77).
Proof.
  destruct (pwm_wait_exact 3 Hz8000 (Build_PwmBlock 0 0 8 15)) as (_ & _ & _ & H & _); [lia|].
  destruct (H (Build_Turn 4 10) [] 9 77) as (intr' & E & _); [done|]. by exists intr'.
Defined.

(** The first turn's alarm is written too late, the second's in time. *)
Definition example_turns : list KickDelays := [Build_KickDelays 50000 3 1; Build_KickDelays 2 1 1].
Definition example_timer : Timer0 := Build_Timer0 (2 ^ 32 - 10) 0 false true false false.

Lemma watchdog_kicks_witness :
  exists t', on_interrupt example_turns example_timer = Some t'
    /\ ti_driver_pended t' = true /\ ti_intr (advance KICK_INTERVAL_US t') = true.
Proof.
  destruct (watchdog_kicks example_turns example_timer) as (_ & H1 & H2).
  - repeat constructor; vm_compute; congruence.
  - destruct H2 as [_ [t' E]]; [apply Exists_cons; right; by constructor|]. exists t'. split; [done|by apply H1].
Defined.

