(* ===== verification/StreamTask.v ===== *)
(** * UDP sample streamer (firmware/support/src/comms/mod.rs, udp.rs)

    The stream session shared by the control server and the streamer, and the
    task that drains the record ring into packets.  The ring is the queue
    interface of [Channels]; [dropped] is the counter read when a packet is
    built, and [host] what the control server does while a packet is being
    sent, the only point of a flush where it can run. *)

From S2P Require Import Prelude Float32 Proto StreamPacket History Channels.

Definition MAX_PACKET : Z := 1472.
Definition FLUSH_MS : Z := 5.

(** [Ipv4Address] and UDP port. *)
Definition Endpoint : Type := Z * Z.

Record StreamState := {
  str_target : option Endpoint;
  str_enabled : bool;
  str_sources : list Z;            (* Vec<u8, MAX_SOURCES> *)
  str_decimation : Z;              (* u16 *)
  str_count : Z;                   (* u32 *)
  str_generation : Z;              (* u32 *)
  str_control_connected : bool
}.

(** The initial contents of [STREAM]. *)
Definition STREAM : StreamState := {|
  str_target := None; str_enabled := false; str_sources := []; str_decimation := 1;
  str_count := 0; str_generation := 0; str_control_connected := false |}.

(** [None]: the index panic of [r.values[src]]. *)
Definition record_value (r : StreamRecord) (src : Z) : option float :=
  if src <? rec_n r then index (rec_values r) src else Some f0.

(** The locals of [stream_task] that live across flushes. *)
Record Streamer := {
  sm_seq : Z;                      (* u32 *)
  sm_remaining : Z;                (* u32 *)
  sm_generation : Z;               (* u32 *)
  sm_suppressed : bool;
  sm_packet : list Z               (* [u8; MAX_PACKET] *)
}.

Definition Streamer_new : Streamer := {|
  sm_seq := 0; sm_remaining := 0; sm_generation := 0; sm_suppressed := false;
  sm_packet := replicate (Z.to_nat MAX_PACKET) 0 |}.

(** The loop over [sources.iter().enumerate()] for the record at [base]. *)
Definition write_row (packet : list Z) (base : Z) (sources : list Z) (r : StreamRecord)
    : option (list Z) :=
  for_each (fun x packet =>
    value ← record_value r (snd x);
    blit packet (base + 4 * Z.of_nat (fst x)) (f32_to_le_bytes value)) (imap pair sources) packet.

Section task.
Context {Q : Type} `{SpscQueue Q StreamRecord}.
Variable dropped : Z -> Z.
Variable host : StreamState -> StreamState.

(** What a flush took from the session when it started. *)
Record Snapshot := {
  sn_sources : list Z; sn_decimation : Z; sn_count : Z; sn_endpoint : Endpoint;
  sn_rec_size : Z; sn_max_records : Z }.

(** The inner loop, from the current queue, packet, [n], [first_index] and
    [remaining]; a step is one dequeue.  [None] is a panic or an exhausted
    [fuel], which [fill_spec] excludes. *)
Fixpoint fill (fuel : nat) (sn : Snapshot) (q : Q) (packet : list Z) (n first remaining : Z)
    : option (Q * list Z * Z * Z * Z) :=
  if negb (n <? sn_max_records sn) then Some (q, packet, n, first, remaining) else
  match fuel with
  | O => None
  | S fuel =>
      match q_dequeue q with
      | None => Some (q, packet, n, first, remaining)
      | Some (r, q) =>
          if negb (rec_index r mod sn_decimation sn =? 0) then fill fuel sn q packet n first remaining
          else
            let first := if n =? 0 then rec_index r else first in
            let base := STREAM_HEADER_LEN + n * sn_rec_size sn in
            packet ← write_row packet base (sn_sources sn) r;
            let n := n + 1 in
            if sn_count sn =? 0 then fill fuel sn q packet n first remaining
            else if remaining =? 0 then None (* [remaining -= 1] underflows *)
            else
              let remaining := remaining - 1 in
              if remaining =? 0 then Some (q, packet, n, first, remaining)
              else fill fuel sn q packet n first remaining
      end
  end.

(** ['flush: loop]; the datagrams sent are collected. *)
Fixpoint flush_loop (fuel : nat) (sn : Snapshot) (s : StreamState) (m : Streamer) (q : Q)
    (sent : list (Endpoint * list Z)) : option (StreamState * Streamer * Q * list (Endpoint * list Z)) :=
  match fuel with
  | O => None
  | S fuel =>
      '(q, packet, n, first, remaining) ←
        fill (S (length (q_contents q))) sn q (sm_packet m) 0 0 (sm_remaining m);
      let m := m <| sm_packet := packet |> <| sm_remaining := remaining |> in
      if n =? 0 then Some (s, m, q, sent)
      else
        packet ← StreamHeader_encode
          (mkStreamHeader (wrap 8 (len (sn_sources sn))) (sm_seq m) first (dropped (sm_seq m))
             (wrap 16 (sn_decimation sn)) (wrap 16 n)) packet;
        datagram ← slice packet 0 (STREAM_HEADER_LEN + n * sn_rec_size sn);
        let m := m <| sm_packet := packet |> <| sm_seq := wrapping_add 32 (sm_seq m) 1 |> in
        let sent := sent ++ [(sn_endpoint sn, datagram)] in
        let s := host s in
        if negb (sn_count sn =? 0) && (remaining =? 0)
        then Some (s <| str_enabled := false |>, m, q, sent)
        else if n <? sn_max_records sn then Some (s, m, q, sent)
        else flush_loop fuel sn s m q sent
  end.

(** [while records.dequeue().is_some() {}]. *)
Fixpoint drain (fuel : nat) (q : Q) : option Q :=
  match q_dequeue q with
  | None => Some q
  | Some (_, q) => match fuel with O => None | S fuel => drain fuel q end
  end.

(** One period of [stream_task]'s loop, after [ticker.next()]. *)
Definition stream_flush (s : StreamState) (m : Streamer) (q : Q)
    : option (StreamState * Streamer * Q * list (Endpoint * list Z)) :=
  let decimation := Z.max (str_decimation s) 1 in
  let m := if negb (str_generation s =? sm_generation m)
           then m <| sm_generation := str_generation s |> <| sm_seq := 0 |>
                  <| sm_remaining := str_count s |>
           else m in
  let m := m <| sm_suppressed := str_enabled s && negb (str_control_connected s) |> in
  match str_target s, str_enabled s && str_control_connected s with
  | Some endpoint, true =>
      let rec_size := 4 * len (str_sources s) in
      if rec_size =? 0 then None (* division by zero *)
      else
        let max_records := Z.min ((MAX_PACKET - STREAM_HEADER_LEN) / rec_size) (umax 16) in
        let sn := {| sn_sources := str_sources s; sn_decimation := decimation;
                     sn_count := str_count s; sn_endpoint := endpoint; sn_rec_size := rec_size;
                     sn_max_records := max_records |} in
        flush_loop (S (length (q_contents q))) sn s m q []
  | _, _ => q ← drain (length (q_contents q)) q; Some (s, m, q, [])
  end.

(** Successive flushes, each on the ring as it is then. *)
Fixpoint stream_flushes (s : StreamState) (m : Streamer) (rings : list Q)
    : option (StreamState * Streamer * list (Endpoint * list Z)) :=
  match rings with
  | [] => Some (s, m, [])
  | q :: rings =>
      '(s, m, _, sent) ← stream_flush s m q;
      '(s, m, later) ← stream_flushes s m rings;
      Some (s, m, sent ++ later)
  end.
End task.

(** ** Specification *)

(** A record of the ring: its values cover [rec_n]; its index is a [u32]. *)
Record record_ok (r : StreamRecord) : Prop := {
  ro_index : fits 32 (rec_index r);
  ro_values : rec_n r <= len (rec_values r)
}.

Definition row_value (r : StreamRecord) (src : Z) : float :=
  default f0 (record_value r src).

(** The bytes of a record in a packet. *)
Definition row_bytes (sources : list Z) (r : StreamRecord) : list Z :=
  sources ≫= (fun src => f32_to_le_bytes (row_value r src)).

(** The packet that carries [chunk]. *)
Definition datagram_of (dropped : Z -> Z) (sources : list Z) (decimation seq : Z)
    (chunk : list StreamRecord) : list Z :=
  stream_header_bytes (mkStreamHeader (len sources) seq (default 0 (rec_index <$> head chunk))
    (dropped seq) decimation (len chunk)) ++ (chunk ≫= row_bytes sources).

(** The records a session keeps, and how many of them it sends. *)
Definition kept (decimation : Z) (l : list StreamRecord) : list StreamRecord :=
  filter (fun r => rec_index r mod decimation = 0) l.
Definition deliver (count remaining : Z) (l : list StreamRecord) : list StreamRecord :=
  if count =? 0 then l else take (Z.to_nat remaining) l.

Lemma len_f32_le_bytes v : len (f32_to_le_bytes v) = 4.
Proof. apply len_le_bytes. Qed.

Lemma len_row_bytes sources r : len (row_bytes sources r) = 4 * len sources.
Proof.
  unfold row_bytes. induction sources as [|s l IH]; [done|].
  rewrite bind_cons, len_app, IH, len_f32_le_bytes, len_cons. lia.
Qed.

Lemma len_rows_bytes sources l : len (l ≫= row_bytes sources) = len l * (4 * len sources).
Proof.
  induction l as [|r l IH]; [done|]. rewrite bind_cons, len_app, IH, len_row_bytes, len_cons. lia.
Qed.

Lemma record_value_Some r src :
  record_ok r -> 0 <= src -> record_value r src = Some (row_value r src).
Proof.
  intros [_ Hv] Hs. unfold row_value, record_value. destruct (Z.ltb_spec src (rec_n r)); [|done].
  destruct (index_is_Some (rec_values r) src) as [v ->]; [lia|done].
Qed.

Lemma write_row_from k base sources r pre rest :
  record_ok r -> Forall (Z.le 0) sources -> base + 4 * Z.of_nat k = len pre ->
  4 * len sources <= len rest ->
  for_each (fun x packet =>
    value ← record_value r (snd x);
    blit packet (base + 4 * Z.of_nat (fst x)) (f32_to_le_bytes value))
    (imap (fun i src => ((k + i)%nat, src)) sources) (pre ++ rest)
  = Some (pre ++ row_bytes sources r ++ drop (4 * length sources) rest).
Proof.
  intros Hr. revert k pre rest. induction sources as [|src sources IH]; intros k pre rest Hs Hb Hl.
  { cbn. by rewrite drop_0. }
  apply Forall_cons in Hs as [H0 Hs]. rewrite imap_cons. cbn [for_each].
  rewrite len_cons in Hl. cbn [fst snd]. rewrite record_value_Some by done. rewrite bind_Some.
  rewrite Nat.add_0_r. pose proof (len_f32_le_bytes (row_value r src)) as L4.
  rewrite blit_cursor by (rewrite ?L4; pose proof (len_nonneg sources); lia).
  rewrite bind_Some.
  rewrite (imap_ext _ (fun i src => ((S k + i)%nat, src)))
    by (intros; unfold compose; f_equal; lia).
  assert (N4 : length (f32_to_le_bytes (row_value r src)) = 4%nat) by (unfold len in L4; lia).
  rewrite IH; [|done|rewrite len_app, L4; lia|rewrite len_drop_nat; lia].
  unfold row_bytes. rewrite bind_cons, <-!app_assoc. do 4 f_equal.
  rewrite drop_drop. f_equal. cbn [length]. lia.
Qed.

Lemma write_row_spec base sources r pre rest :
  record_ok r -> Forall (Z.le 0) sources -> base = len pre -> 4 * len sources <= len rest ->
  write_row (pre ++ rest) base sources r
  = Some (pre ++ row_bytes sources r ++ drop (4 * length sources) rest).
Proof.
  intros Hr Hs Hb Hl. unfold write_row.
  rewrite (imap_ext _ (fun i src => ((0 + i)%nat, src))) by done.
  apply write_row_from; [done|done|lia|done].
Qed.

Section task_lemmas.
Context {Q : Type} `{HQ : SpscQueue Q StreamRecord, !SpscLaws Q StreamRecord}.
Variable dropped : Z -> Z.

(** A snapshot of a well-formed session. *)
Record snapshot_ok (sn : Snapshot) : Prop := {
  sk_sources : 0 < len (sn_sources sn) <= 24;
  sk_bytes : Forall (Z.le 0) (sn_sources sn);
  sk_decimation : 1 <= sn_decimation sn < 2 ^ 16;
  sk_count : 0 <= sn_count sn;
  sk_rec_size : sn_rec_size sn = 4 * len (sn_sources sn);
  sk_max : sn_max_records sn = (MAX_PACKET - STREAM_HEADER_LEN) / sn_rec_size sn
}.

Lemma snapshot_max sn : snapshot_ok sn -> 1 <= sn_max_records sn <= 363.
Proof.
  intros [Hs _ _ _ Hr Hm]. rewrite Hm, Hr. change (MAX_PACKET - STREAM_HEADER_LEN) with 1452.
  split; [apply Z.div_le_lower_bound|apply Z.div_le_upper_bound]; lia.
Qed.

Lemma snapshot_room sn n :
  snapshot_ok sn -> 0 <= n <= sn_max_records sn ->
  0 <= n * sn_rec_size sn <= MAX_PACKET - STREAM_HEADER_LEN.
Proof.
  intros [Hs _ _ _ Hr Hm] Hn. rewrite Hr in Hm |- *. change (MAX_PACKET - STREAM_HEADER_LEN) with 1452 in *.
  pose proof (Z.mul_div_le 1452 (4 * len (sn_sources sn)) ltac:(lia)). nia.
Qed.

(** What [fill] does from a packet [hdr ++ body ++ _] that holds [n] records:
    it consumes [l1] of the ring and appends its kept records. *)
Definition filled (sn : Snapshot) (hdr body : list Z) (n first remaining : Z)
    (l : list StreamRecord) (result : option (Q * list Z * Z * Z * Z)) : Prop :=
  exists l1 l2 q' rest' remaining',
    let chunk := kept (sn_decimation sn) l1 in
    let packet := hdr ++ (body ++ (chunk ≫= row_bytes (sn_sources sn))) ++ rest' in
    result = Some (q', packet, n + len chunk,
               (if n =? 0 then default first (rec_index <$> head chunk) else first), remaining')
    /\ l = l1 ++ l2 /\ q_contents q' = l2 /\ n + len chunk <= sn_max_records sn
    /\ len packet = MAX_PACKET
    /\ remaining' = (if sn_count sn =? 0 then remaining else remaining - len chunk)
    /\ (sn_count sn <> 0 -> 0 <= remaining')
    /\ (n + len chunk = sn_max_records sn \/ l2 = [] \/ (sn_count sn <> 0 /\ remaining' = 0)).

Lemma filled_stop sn hdr body rest n first remaining q :
  len (hdr ++ body ++ rest) = MAX_PACKET -> n <= sn_max_records sn ->
  (sn_count sn <> 0 -> 0 < remaining) ->
  n = sn_max_records sn \/ q_contents q = [] ->
  filled sn hdr body n first remaining (q_contents q) (Some (q, hdr ++ body ++ rest, n, first, remaining)).
Proof.
  intros Hlen Hn Hrem Hend. exists [], (q_contents q), q, rest, remaining.
  cbn [kept filter list_filter mbind list_bind].
  rewrite app_nil_r. change (len []) with 0. rewrite Z.add_0_r, Z.sub_0_r.
  split; [by destruct (n =? 0)|]. split; [done|]. split; [done|]. split; [lia|].
  split; [done|]. split; [by destruct (_ =? 0)|]. split; [intros; lia|].
  destruct Hend; [by left|by right; left].
Qed.

Lemma kept_True d r l : rec_index r mod d = 0 -> kept d (r :: l) = r :: kept d l.
Proof. intros. unfold kept. by rewrite filter_cons_True. Qed.

(** One more record, then the rest of the loop. *)
Lemma filled_step sn hdr body n first remaining remaining1 r l result :
  rec_index r mod sn_decimation sn = 0 -> 0 <= n ->
  (if sn_count sn =? 0 then remaining1 = remaining else remaining1 = remaining - 1) ->
  filled sn hdr (body ++ row_bytes (sn_sources sn) r) (n + 1)
    (if n =? 0 then rec_index r else first) remaining1 l result ->
  filled sn hdr body n first remaining (r :: l) result.
Proof.
  intros Hk Hn Hr2 (l1 & l2 & q' & rest' & rem' & -> & -> & Hq' & Hmax & Hl' & Hrem' & H0 & Hend).
  exists (r :: l1), l2, q', rest', rem'. cbv zeta. rewrite kept_True, bind_cons, len_cons by done.
  rewrite <-(app_assoc body (row_bytes (sn_sources sn) r)
    (kept (sn_decimation sn) l1 ≫= row_bytes (sn_sources sn))) in *.
  replace (n + (1 + len (kept (sn_decimation sn) l1)))
    with (n + 1 + len (kept (sn_decimation sn) l1)) by lia.
  split; [|split; [done|split; [done|split; [done|split; [done|]]]]].
  - rewrite (proj2 (Z.eqb_neq (n + 1) 0)) by lia.
    cbn [head fmap option_fmap option_map default]. by destruct (n =? 0).
  - split; [destruct (Z.eqb_spec (sn_count sn) 0); lia|]. done.
Qed.

(** The write of one record into a packet with room for it. *)
Lemma fill_write sn hdr body rest n r :
  snapshot_ok sn -> record_ok r -> 0 <= n < sn_max_records sn ->
  len hdr = STREAM_HEADER_LEN -> len (hdr ++ body ++ rest) = MAX_PACKET ->
  len body = n * sn_rec_size sn ->
  exists rest1, write_row (hdr ++ body ++ rest) (STREAM_HEADER_LEN + n * sn_rec_size sn)
      (sn_sources sn) r
    = Some (hdr ++ (body ++ row_bytes (sn_sources sn) r) ++ rest1)
  /\ len (hdr ++ (body ++ row_bytes (sn_sources sn) r) ++ rest1) = MAX_PACKET
  /\ len (body ++ row_bytes (sn_sources sn) r) = (n + 1) * sn_rec_size sn.
Proof.
  intros Hsn Hr Hn Hh Hlen Hb. pose proof (snapshot_room sn (n + 1) Hsn ltac:(lia)) as Hroom.
  assert (Er : sn_rec_size sn = 4 * len (sn_sources sn)) by by destruct Hsn.
  rewrite !len_app, Hh, Hb in Hlen.
  assert (Lrest : 4 * len (sn_sources sn) <= len rest) by (rewrite Er in *; lia).
  exists (drop (4 * length (sn_sources sn)) rest). rewrite (app_assoc hdr).
  rewrite write_row_spec; [|done|by destruct Hsn|by rewrite len_app, Hh, Hb|done].
  split; [by rewrite !app_assoc|]. rewrite !len_app, len_row_bytes, len_drop_nat, Hh, Hb, Er in *.
  split; unfold len in *; lia.
Qed.

Lemma fill_spec sn fuel q hdr body rest n first remaining :
  snapshot_ok sn -> (length (q_contents q) < fuel)%nat -> Forall record_ok (q_contents q) ->
  len hdr = STREAM_HEADER_LEN -> len (hdr ++ body ++ rest) = MAX_PACKET ->
  0 <= n <= sn_max_records sn -> len body = n * sn_rec_size sn ->
  (sn_count sn <> 0 -> 0 < remaining) ->
  filled sn hdr body n first remaining (q_contents q)
    (fill fuel sn q (hdr ++ body ++ rest) n first remaining).
Proof.
  intros Hsn. revert q body rest n first remaining.
  induction fuel as [|fuel IH]; intros q body rest n first remaining Hf Hok Hh Hlen Hn Hb Hrem; [lia|].
  cbn [fill]. destruct (Z.ltb_spec n (sn_max_records sn)) as [Hlt|Hge]; cbn [negb];
    [|apply filled_stop; (done || lia || (left; lia))].
  destruct (q_contents q) as [|r l] eqn:Hl.
  { rewrite q_dequeue_none by done. rewrite <-Hl. apply filled_stop; (done || lia || by right). }
  destruct (q_dequeue_some q r l Hl) as (q1 & -> & Hq1 & _).
  apply Forall_cons in Hok as [Hr Hok]. cbn in Hf. rewrite <-Hq1 in Hf, Hok |- *.
  destruct (Z.eqb_spec (rec_index r mod sn_decimation sn) 0) as [Hk|Hk]; cbn [negb].
  - destruct (fill_write sn hdr body rest n r Hsn Hr ltac:(lia) Hh Hlen Hb)
      as (rest1 & -> & Hlen1 & Hb1). rewrite bind_Some. destruct (Z.eqb_spec (sn_count sn) 0) as [Hc|Hc].
    + eapply filled_step; [done|lia|by rewrite (proj2 (Z.eqb_eq _ _) Hc)|].
      apply IH; (done || lia).
    + specialize (Hrem Hc). rewrite (proj2 (Z.eqb_neq remaining 0)) by lia.
      apply (filled_step _ _ _ _ _ _ (remaining - 1)); [done|lia|by rewrite (proj2 (Z.eqb_neq _ _) Hc)|].
      destruct (Z.eqb_spec (remaining - 1) 0) as [Hz|Hz]; [|apply IH; (done || lia)].
      exists [], (q_contents q1), q1, rest1, (remaining - 1). cbn [kept filter list_filter mbind list_bind].
      change (len []) with 0. rewrite app_nil_r, Z.add_0_r, Z.sub_0_r, Hz.
      rewrite (proj2 (Z.eqb_neq (n + 1) 0)), (proj2 (Z.eqb_neq (sn_count sn) 0)) by lia.
      split_and!; try done; [lia|]. right; right. done.
  - destruct (IH q1 body rest n first remaining ltac:(lia) Hok Hh Hlen Hn Hb Hrem)
      as (l1 & l2 & q' & rest' & rem' & E & Hl12 & Hrest).
    exists (r :: l1), l2, q', rest', rem'. cbv zeta.
    assert (kept (sn_decimation sn) (r :: l1) = kept (sn_decimation sn) l1) as ->
      by (unfold kept; by rewrite filter_cons_False).
    split; [exact E|]. split; [by rewrite Hl12|done].
Qed.

(** The datagrams that carry [chunks], numbered from [seq]. *)
Definition datagrams (sn : Snapshot) (seq : Z) (chunks : list (list StreamRecord))
    : list (Endpoint * list Z) :=
  imap (fun i chunk => (sn_endpoint sn,
          datagram_of dropped (sn_sources sn) (sn_decimation sn) (wrap 32 (seq + Z.of_nat i)) chunk))
    chunks.

Lemma datagrams_cons sn seq chunk chunks :
  fits 32 seq ->
  datagrams sn seq (chunk :: chunks)
  = (sn_endpoint sn, datagram_of dropped (sn_sources sn) (sn_decimation sn) seq chunk)
    :: datagrams sn (wrapping_add 32 seq 1) chunks.
Proof.
  intros Hs. unfold datagrams. rewrite imap_cons. f_equal.
  - by rewrite Z.add_0_r, wrap_id.
  - apply imap_ext. intros i c _. unfold compose, wrapping_add. do 2 f_equal.
    rewrite wrap_add_l. f_equal. lia.
Qed.

(** The end of a packet: header, datagram. *)
Lemma packet_complete sn seq hdr chunk rest :
  snapshot_ok sn -> len hdr = STREAM_HEADER_LEN -> len chunk <= sn_max_records sn ->
  let packet := hdr ++ (chunk ≫= row_bytes (sn_sources sn)) ++ rest in
  len packet = MAX_PACKET ->
  exists packet', StreamHeader_encode
      (mkStreamHeader (wrap 8 (len (sn_sources sn))) seq (default 0 (rec_index <$> head chunk))
         (dropped seq) (wrap 16 (sn_decimation sn)) (wrap 16 (len chunk))) packet = Some packet'
    /\ len packet' = MAX_PACKET
    /\ slice packet' 0 (STREAM_HEADER_LEN + len chunk * sn_rec_size sn)
       = Some (datagram_of dropped (sn_sources sn) (sn_decimation sn) seq chunk).
Proof.
  intros Hsn Hh Hc packet Hlen.
  pose proof (snapshot_max sn Hsn) as Hm.
  destruct Hsn as [Hs _ Hd _ Hr _]. pose proof (len_nonneg chunk) as Hc0.
  rewrite !wrap_id by (unfold fits; lia).
  rewrite StreamHeader_encode_exact by (rewrite Hlen; done). eexists. split; [done|].
  set (h := mkStreamHeader _ _ _ _ _ _).
  assert (Ed : drop 20 packet = (chunk ≫= row_bytes (sn_sources sn)) ++ rest).
  { subst packet. apply drop_app_length'. unfold STREAM_HEADER_LEN, len in Hh. lia. }
  rewrite Ed. split.
  - rewrite len_app. change (len (stream_header_bytes h)) with 20.
    subst packet. rewrite len_app, Hh in Hlen. exact Hlen.
  - unfold datagram_of. fold h. rewrite app_assoc. apply (slice_app []); [done|].
    rewrite len_app, len_rows_bytes, Hr. done.
Qed.

(** What the flush loop does with the ring [l]: it consumes [l1], sends its kept
    records in full packets, and stops when the ring is empty or the session's
    last record is sent. *)
Definition flushed (sn : Snapshot) (s : StreamState) (m : Streamer) (l : list StreamRecord)
    (sent : list (Endpoint * list Z))
    (result : option (StreamState * Streamer * Q * list (Endpoint * list Z))) : Prop :=
  exists chunks l1 l2 q' m' (finished : bool),
    result = Some (if finished then s <| str_enabled := false |> else s, m', q',
                   sent ++ datagrams sn (sm_seq m) chunks)
    /\ l = l1 ++ l2 /\ q_contents q' = l2
    /\ concat chunks = kept (sn_decimation sn) l1
    /\ Forall (fun chunk => 0 < len chunk <= sn_max_records sn) chunks
    /\ len (sm_packet m') = MAX_PACKET /\ sm_generation m' = sm_generation m
    /\ sm_seq m' = wrap 32 (sm_seq m + len chunks)
    /\ sm_remaining m' = (if sn_count sn =? 0 then sm_remaining m
                          else sm_remaining m - len (kept (sn_decimation sn) l1))
    /\ (if finished then sn_count sn <> 0 /\ sm_remaining m' = 0
        else l2 = [] /\ (sn_count sn <> 0 -> 0 < sm_remaining m')).

(** One packet sent, then what follows from the state it leaves. *)
Lemma flushed_step sn s m m1 chunk l1 l sent result :
  chunk = kept (sn_decimation sn) l1 -> 0 < len chunk <= sn_max_records sn ->
  fits 32 (sm_seq m) -> sm_seq m1 = wrapping_add 32 (sm_seq m) 1 ->
  sm_generation m1 = sm_generation m ->
  sm_remaining m1 = (if sn_count sn =? 0 then sm_remaining m else sm_remaining m - len chunk) ->
  flushed sn s m1 l
    (sent ++ [(sn_endpoint sn,
               datagram_of dropped (sn_sources sn) (sn_decimation sn) (sm_seq m) chunk)]) result ->
  flushed sn s m (l1 ++ l) sent result.
Proof.
  intros Hc Hlen Hseq Hs1 Hg1 Hr1
    (chunks & k1 & k2 & q' & m' & fin & -> & -> & Hq' & Hcat & Hall & Hp & Hg & Hs & Hr & Hfin).
  exists (chunk :: chunks), (l1 ++ k1), k2, q', m', fin.
  split; [by rewrite datagrams_cons, <-app_assoc, Hs1 by done|].
  split; [by rewrite app_assoc|]. split; [done|].
  split; [cbn [concat]; rewrite Hcat, Hc; unfold kept; by rewrite filter_app|].
  split; [by constructor|]. split; [done|]. split; [congruence|].
  split; [rewrite Hs, Hs1; unfold wrapping_add; rewrite wrap_add_l, len_cons; f_equal; lia|].
  split; [|done]. unfold kept in *. rewrite filter_app, len_app, Hr, Hr1, <-Hc.
  destruct (_ =? 0); lia.
Qed.

Lemma flushed_nil sn s m q sent :
  fits 32 (sm_seq m) -> len (sm_packet m) = MAX_PACKET ->
  q_contents q = [] -> (sn_count sn <> 0 -> 0 < sm_remaining m) ->
  flushed sn s m [] sent (Some (s, m, q, sent)).
Proof.
  intros Hseq Hp Hq Hrem. exists [], [], [], q, m, false. cbn [datagrams imap concat].
  rewrite app_nil_r. do 4 (split; [done|]). split; [constructor|].
  split; [done|]. split; [done|]. change (len []) with 0.
  rewrite Z.add_0_r, wrap_id by done. split; [done|]. change (len (kept _ [])) with 0.
  split; [destruct (_ =? 0); lia|done].
Qed.

(** The ring is drained without a record for the packet. *)
Lemma flushed_dropped sn s m m1 l1 q1 sent :
  fits 32 (sm_seq m) -> len (sm_packet m1) = MAX_PACKET -> sm_generation m1 = sm_generation m ->
  sm_seq m1 = sm_seq m -> sm_remaining m1 = sm_remaining m ->
  q_contents q1 = [] -> kept (sn_decimation sn) l1 = [] -> (sn_count sn <> 0 -> 0 < sm_remaining m) ->
  flushed sn s m l1 sent (Some (s, m1, q1, sent)).
Proof.
  intros Hseq Hp Hg Hs Hr Hq Hk Hrem. exists [], l1, [], q1, m1, false.
  split; [by rewrite app_nil_r|]. split; [by rewrite app_nil_r|]. split; [done|]. rewrite Hk.
  split; [done|]. split; [constructor|]. split; [done|]. split; [done|].
  change (len []) with 0. rewrite Z.add_0_r, wrap_id by done. split; [done|].
  split; [destruct (_ =? 0); lia|]. split; [done|]. by rewrite Hr.
Qed.

(** The number asked for has been sent. *)
Lemma flushed_complete sn s m q sent :
  fits 32 (sm_seq m) -> len (sm_packet m) = MAX_PACKET -> sn_count sn <> 0 -> sm_remaining m = 0 ->
  flushed sn s m (q_contents q) sent (Some (s <| str_enabled := false |>, m, q, sent)).
Proof.
  intros Hseq Hp Hc Hr. exists [], [], (q_contents q), q, m, true. cbn [datagrams imap concat].
  rewrite app_nil_r. do 4 (split; [done|]). split; [constructor|]. split; [done|]. split; [done|].
  change (len []) with 0. rewrite Z.add_0_r, wrap_id by done. split; [done|].
  change (len (kept _ [])) with 0. split; [destruct (_ =? 0); lia|done].
Qed.

Lemma flush_loop_spec fuel sn (s : StreamState) (m : Streamer) (q : Q) sent :
  snapshot_ok sn -> (length (q_contents q) < fuel)%nat -> Forall record_ok (q_contents q) ->
  len (sm_packet m) = MAX_PACKET -> fits 32 (sm_seq m) ->
  (sn_count sn <> 0 -> 0 < sm_remaining m) ->
  flushed sn s m (q_contents q) sent (flush_loop dropped (fun s => s) fuel sn s m q sent).
Proof.
  intros Hsn. revert m q sent. induction fuel as [|fuel IH]; intros m q sent Hf Hok Hlen Hseq Hrem; [lia|].
  cbn [flush_loop]. pose proof (snapshot_max sn Hsn) as Hm.
  assert (Lh : len (take 20 (sm_packet m)) = STREAM_HEADER_LEN).
  { unfold len in *. rewrite length_take. unfold MAX_PACKET in Hlen. unfold STREAM_HEADER_LEN. lia. }
  destruct (fill_spec sn (S (length (q_contents q))) q (take 20 (sm_packet m)) []
    (drop 20 (sm_packet m)) 0 0 (sm_remaining m)) as
    (l1 & l2 & q1 & rest & rem1 & E & El & Hq1 & Hmax & Hlen1 & Erem & H0 & Hend);
    try done; try lia.
  { cbn [app]. by rewrite take_drop. }
  cbn [app] in E, Hlen1. rewrite take_drop in E. rewrite E, bind_Some. clear E.
  set (chunk := kept (sn_decimation sn) l1) in *. rewrite Z.add_0_l in *. cbv zeta.
  change (0 =? 0) with true. cbv iota. rewrite El.
  pose proof (len_nonneg chunk) as Hc0. destruct (Z.eqb_spec (len chunk) 0) as [Hz|Hz].
  - (* the ring is drained *)
    assert (Hend' : l2 = [] /\ rem1 = sm_remaining m).
    { destruct (Z.eqb_spec (sn_count sn) 0); [|specialize (Hrem ltac:(done))];
        destruct Hend as [?|[?|[? ?]]]; (lia || (split; (done || lia))). }
    destruct Hend' as [-> ->]. rewrite app_nil_r. apply len_zero in Hz.
    by apply flushed_dropped.
  - destruct (packet_complete sn (sm_seq m) _ chunk rest Hsn Lh Hmax Hlen1) as (packet' & Ep & Lp & Es).
    change (sm_seq (_ <| sm_remaining := _ |>)) with (sm_seq m).
    rewrite Ep, bind_Some, Es, bind_Some. clear Ep Es.
    set (m1 := _ <| sm_seq := _ |>). set (sent1 := sent ++ _).
    assert (Hr1 : sm_remaining m1 = rem1) by done. assert (Hp1 : sm_packet m1 = packet') by done.
    assert (Hs1 : sm_seq m1 = wrapping_add 32 (sm_seq m) 1) by done.
    assert (Hf1 : fits 32 (sm_seq m1)) by (rewrite Hs1; by apply wrap_fits).
    assert (Hok2 : Forall record_ok l2) by (rewrite El in Hok; by apply Forall_app in Hok as [_ ?]).
    eapply (flushed_step sn s m m1 chunk l1); try done; [lia|].
    destruct (Z.eqb_spec (sn_count sn) 0) as [Hc|Hc]; cbn [negb andb].
    + destruct (Z.ltb_spec (len chunk) (sn_max_records sn)) as [Hlt|Hge].
      * destruct Hend as [?|[->|[? _]]]; [lia| |done]. apply flushed_nil; (done || congruence).
      * rewrite <-Hq1. rewrite <-Hq1 in Hok2. apply IH; (done || congruence || idtac).
        rewrite El, length_app, <-Hq1 in Hf.
        assert (0 < length l1)%nat by (destruct l1; [done|cbn; lia]). lia.
    + destruct (Z.eqb_spec rem1 0) as [Hz1|Hz1].
      * rewrite <-Hq1. apply flushed_complete; (done || congruence).
      * specialize (H0 Hc). destruct (Z.ltb_spec (len chunk) (sn_max_records sn)) as [Hlt|Hge].
        -- destruct Hend as [?|[->|[_ ?]]]; [lia| |lia]. apply flushed_nil; (done || congruence || lia).
        -- rewrite <-Hq1. rewrite <-Hq1 in Hok2. apply IH; (done || congruence || (intros; lia) || idtac).
           rewrite El, length_app, <-Hq1 in Hf.
           assert (0 < length l1)%nat by (destruct l1; [done|cbn; lia]). lia.
Qed.

(** A running session. *)
Record session_ok (s : StreamState) (endpoint : Endpoint) : Prop := {
  se_active : str_enabled s = true /\ str_control_connected s = true;
  se_target : str_target s = Some endpoint;
  se_sources : 0 < len (str_sources s) <= 24 /\ Forall (Z.le 0) (str_sources s);
  se_decimation : 1 <= str_decimation s < 2 ^ 16;
  se_count : 0 <= str_count s
}.

Definition snapshot_of (s : StreamState) (endpoint : Endpoint) : Snapshot := {|
  sn_sources := str_sources s; sn_decimation := str_decimation s; sn_count := str_count s;
  sn_endpoint := endpoint; sn_rec_size := 4 * len (str_sources s);
  sn_max_records := (MAX_PACKET - STREAM_HEADER_LEN) / (4 * len (str_sources s)) |}.

(** The streamer after it noticed a new [StreamStart]. *)
Definition armed (s : StreamState) (m : Streamer) : Streamer :=
  if negb (str_generation s =? sm_generation m)
  then m <| sm_generation := str_generation s |> <| sm_seq := 0 |> <| sm_remaining := str_count s |>
  else m.

Lemma snapshot_of_ok s endpoint : session_ok s endpoint -> snapshot_ok (snapshot_of s endpoint).
Proof. intros [_ _ [H1 H2] H3 H4]. by split. Qed.

Lemma stream_flush_active s m q endpoint :
  session_ok s endpoint -> Forall record_ok (q_contents q) -> len (sm_packet m) = MAX_PACKET ->
  fits 32 (sm_seq (armed s m)) -> (str_count s <> 0 -> 0 < sm_remaining (armed s m)) ->
  flushed (snapshot_of s endpoint) s ((armed s m) <| sm_suppressed := false |>) (q_contents q) []
    (stream_flush dropped (fun s => s) s m q).
Proof.
  intros Hs Hq Hp Hseq Hrem. pose proof (snapshot_of_ok s endpoint Hs) as Hsn.
  pose proof (snapshot_max _ Hsn) as Hm. destruct Hs as [[He Hc] Ht [Hsrc _] Hd _].
  unfold stream_flush. cbv zeta. fold (armed s m). rewrite He, Hc, Ht. cbn [andb negb].
  rewrite (proj2 (Z.eqb_neq _ _)) by lia. rewrite (Z.max_l (str_decimation s)) by lia.
  rewrite Z.min_l by (cbn in Hm; unfold umax; lia).
  apply (flush_loop_spec _ (snapshot_of s endpoint)); try done; [lia|].
  unfold armed in *. by destruct (negb _).
Qed.

Lemma ring_drain_spec fuel q :
  (length (q_contents q) <= fuel)%nat -> exists q', drain fuel q = Some q' /\ q_contents q' = [].
Proof.
  revert q. induction fuel as [|fuel IH]; intros q Hf; cbn [drain];
    destruct (q_contents q) as [|r l] eqn:Hl.
  - rewrite q_dequeue_none by done. by exists q.
  - cbn in Hf. lia.
  - rewrite q_dequeue_none by done. by exists q.
  - destruct (q_dequeue_some q r l Hl) as (q1 & -> & Hq1 & _). apply IH. rewrite Hq1. cbn in Hf. lia.
Qed.

(** A stopped session sends nothing and empties the ring. *)
Lemma stream_flush_idle host s m q :
  str_enabled s = false ->
  exists m' q', stream_flush dropped host s m q = Some (s, m', q', []) /\ q_contents q' = [].
Proof.
  intros He. unfold stream_flush. cbv zeta. rewrite He. cbn [andb].
  destruct (ring_drain_spec (length (q_contents q)) q) as (q' & E & Hq'); [lia|].
  destruct (str_target s); rewrite E; by eexists _, q'.
Qed.

Lemma stream_flushes_idle s m rings :
  str_enabled s = false ->
  exists m', stream_flushes dropped (fun s => s) s m rings = Some (s, m', []).
Proof.
  intros He. revert m. induction rings as [|q rings IH]; intros m; [by eexists|].
  cbn [stream_flushes]. destruct (stream_flush_idle (fun s => s) s m q He) as (m1 & q' & -> & _).
  rewrite bind_Some. destruct (IH m1) as [m' ->]. by eexists.
Qed.

Lemma datagrams_app sn seq c1 c2 :
  datagrams sn seq (c1 ++ c2) = datagrams sn seq c1 ++ datagrams sn (wrap 32 (seq + len c1)) c2.
Proof.
  unfold datagrams. rewrite imap_app. f_equal. apply imap_ext. intros i c _. unfold compose.
  do 2 f_equal. rewrite wrap_add_l. f_equal. unfold len. lia.
Qed.

Lemma deliver_app count remaining l1 l2 :
  (count <> 0 -> len l1 <= remaining) ->
  deliver count remaining (l1 ++ l2) = l1 ++ deliver count (remaining - len l1) l2.
Proof.
  intros H. unfold deliver. destruct (Z.eqb_spec count 0) as [|Hc]; [done|]. specialize (H Hc).
  rewrite take_app_ge by (unfold len in H; lia). do 2 f_equal. unfold len. lia.
Qed.

(** Once noticed, a start is not noticed again. *)
Lemma armed_kept s m m1 : sm_generation m1 = sm_generation (armed s m) -> armed s m1 = m1.
Proof.
  intros Hg. unfold armed. rewrite Hg. unfold armed. destruct (Z.eqb_spec (str_generation s) (sm_generation m))
    as [Eg|]; cbn [negb]; [by rewrite Eg, Z.eqb_refl|].
  change (sm_generation (_ <| sm_remaining := _ |>)) with (str_generation s). by rewrite Z.eqb_refl.
Qed.

(** A session over any number of flushes. *)
Lemma stream_flushes_spec s m endpoint (rings : list Q) :
  session_ok s endpoint -> Forall (fun q => Forall record_ok (q_contents q)) rings ->
  len (sm_packet m) = MAX_PACKET ->
  fits 32 (sm_seq (armed s m)) -> (str_count s <> 0 -> 0 < sm_remaining (armed s m)) ->
  let all := kept (str_decimation s) (concat (q_contents <$> rings)) in
  exists s' m' chunks,
    stream_flushes dropped (fun s => s) s m rings
      = Some (s', m', datagrams (snapshot_of s endpoint) (sm_seq (armed s m)) chunks)
    /\ concat chunks = deliver (str_count s) (sm_remaining (armed s m)) all
    /\ Forall (fun chunk => 0 < len chunk <= sn_max_records (snapshot_of s endpoint)) chunks
    /\ str_enabled s' = (str_count s =? 0) || (len all <? sm_remaining (armed s m)).
Proof.
  intros Hs. pose proof Hs as [[He _] _ _ _ _]. revert m.
  induction rings as [|q rings IH]; intros m Hr Hp Hseq Hrem; cbv zeta.
  { exists s, m, []. split; [done|]. cbn. unfold deliver. rewrite take_nil. split; [by destruct (_ =? 0)|].
    split; [constructor|]. rewrite He. destruct (Z.eqb_spec (str_count s) 0) as [|Hc]; [done|].
    symmetry. apply orb_true_iff. right. apply Z.ltb_lt. change (len []) with 0. by apply Hrem. }
  apply Forall_cons in Hr as [Hq Hr]. cbn [stream_flushes].
  destruct (stream_flush_active s m q endpoint Hs Hq Hp Hseq Hrem) as
    (chunks & l1 & l2 & q' & m1 & fin & -> & El & Hq' & Hcat & Hall & Hp1 & Hg1 & Hs1 & Hr1 & Hfin).
  rewrite bind_Some. cbn [fmap list_fmap concat]. rewrite El.
  change (sm_generation (_ <| sm_suppressed := _ |>)) with (sm_generation (armed s m)) in Hg1.
  change (sm_seq (_ <| sm_suppressed := _ |>)) with (sm_seq (armed s m)) in *.
  change (sm_remaining (_ <| sm_suppressed := _ |>)) with (sm_remaining (armed s m)) in *.
  cbn [snapshot_of sn_decimation sn_count] in *.
  assert (Ek : forall x, kept (str_decimation s) ((l1 ++ l2) ++ x)
    = concat chunks ++ kept (str_decimation s) (l2 ++ x)).
  { intros x. unfold kept in *. by rewrite <-app_assoc, filter_app, Hcat. }
  rewrite Ek. assert (Lk : len (kept (str_decimation s) l1) = len (concat chunks)) by by rewrite Hcat.
  rewrite Lk in *. destruct fin.
  - destruct Hfin as [Hc Hz].
    destruct (stream_flushes_idle (s <| str_enabled := false |>) m1 rings) as (m' & ->); [done|].
    rewrite bind_Some. rewrite (proj2 (Z.eqb_neq _ _)) in Hr1 by done.
    eexists _, m', chunks. split; [by rewrite app_nil_r|]. split; [|split; [done|]].
    + rewrite deliver_app by lia. unfold deliver. rewrite (proj2 (Z.eqb_neq _ _)) by done.
      replace (sm_remaining (armed s m) - len (concat chunks)) with 0 by lia. by rewrite app_nil_r.
    + rewrite (proj2 (Z.eqb_neq _ _)) by done. cbn [orb str_enabled set const]. symmetry.
      apply Z.ltb_ge. rewrite len_app. pose proof (len_nonneg (kept (str_decimation s)
        (l2 ++ concat (q_contents <$> rings)))). lia.
  - destruct Hfin as [-> Hpos]. cbn [app].
    pose proof (armed_kept s m m1 Hg1) as Ea.
    destruct (IH m1) as (s' & m' & later & E & Hl & Hall' & Hen); try done.
    { rewrite Ea, Hs1. by apply wrap_fits. }
    { by rewrite Ea. }
    rewrite Ea, Hs1 in E. rewrite E, bind_Some. rewrite Ea, Hr1 in Hl, Hen.
    exists s', m', (chunks ++ later). split; [by rewrite datagrams_app|].
    split; [|split; [by apply Forall_app|]].
    + rewrite concat_app, Hl. rewrite deliver_app.
      * f_equal. unfold deliver. by destruct (Z.eqb_spec (str_count s) 0).
      * intros Hc. specialize (Hpos Hc). rewrite (proj2 (Z.eqb_neq _ _)) in Hr1 by done. lia.
    + rewrite Hen, len_app. destruct (Z.eqb_spec (str_count s) 0); cbn [orb]; [done|].
      apply eq_bool_prop_intro. rewrite !Is_true_true, !Z.ltb_lt. lia.
Qed.
End task_lemmas.

Lemma rows_bind {A} (f : A -> list Z) w (l : list A) :
  (forall x, len (f x) = Z.of_nat w) -> rows w (length l) (l ≫= f) = f <$> l.
Proof.
  intros Hw. induction l as [|x l IH]; [done|]. cbn [length rows]. rewrite bind_cons, fmap_cons.
  assert (Hx : length (f x) = w) by (specialize (Hw x); unfold len in Hw; lia).
  rewrite take_app_length', drop_app_length' by done. by rewrite IH.
Qed.

Lemma imap_const_snd {A B} (f : nat -> Z) (g : A -> B) (l : list A) :
  (imap (fun i x => (f i, g x)) l).*2 = g <$> l.
Proof.
  revert f. induction l as [|x l IH]; intros f; [done|]. rewrite imap_cons, !fmap_cons.
  f_equal. apply IH.
Qed.

(** A datagram decodes to a packet with exactly the rows of its records. *)
Lemma datagram_decodes dropped s endpoint seq chunk t :
  session_ok s endpoint -> (forall i, fits 32 (dropped i)) -> fits 32 seq ->
  0 < len chunk <= sn_max_records (snapshot_of s endpoint) -> Forall record_ok chunk ->
  exists p, Packet_decode (datagram_of dropped (str_sources s) (str_decimation s) seq chunk) t = Ok p
    /\ sh_seq (pk_header p) = seq
    /\ Some (sh_first_index (pk_header p)) = rec_index <$> head chunk
    /\ sh_decimation (pk_header p) = str_decimation s
    /\ (packet_records p).*2 = row_bytes (str_sources s) <$> chunk
    /\ len (pk_wire p) <= MAX_PACKET.
Proof.
  intros Hs Hdr Hseq Hc Hok. pose proof (snapshot_of_ok s endpoint Hs) as Hsn.
  pose proof (snapshot_max _ Hsn) as Hm.
  pose proof (snapshot_room _ (len chunk) Hsn ltac:(lia)) as Hroom.
  destruct Hs as [_ _ [Hsrc _] Hd _]. cbn [snapshot_of sn_rec_size] in Hroom.
  destruct chunk as [|r chunk]; [unfold len in Hc; cbn in Hc; lia|].
  set (h := mkStreamHeader (len (str_sources s)) seq (rec_index r) (dropped seq)
    (str_decimation s) (len (r :: chunk))).
  assert (Hwf : sh_wf h).
  { apply Forall_cons in Hok as [[Hi _] _].
    split; cbn; try done; unfold fits; lia. }
  set (body := (r :: chunk) ≫= row_bytes (str_sources s)).
  assert (Lb : len body = len (r :: chunk) * (4 * len (str_sources s))) by apply len_rows_bytes.
  assert (Ed : datagram_of dropped (str_sources s) (str_decimation s) seq (r :: chunk)
    = stream_header_bytes h ++ body) by done.
  assert (Lw : len (stream_header_bytes h ++ body) = 20 + len body) by (by rewrite len_app).
  rewrite Ed. unfold Packet_decode. rewrite StreamHeader_decode_bytes by done. cbn [map_err].
  rewrite bind_Ok. cbn [h sh_n_sources sh_n_records].
  rewrite (proj2 (Z.eqb_neq (len (str_sources s)) 0)), (proj2 (Z.eqb_neq (len (r :: chunk)) 0)) by lia.
  cbn [orb]. rewrite Lw, Lb. rewrite (proj2 (Z.eqb_eq _ _)) by (unfold STREAM_HEADER_LEN; lia).
  cbn [negb]. eexists. split; [done|]. cbn [pk_header pk_wire].
  split; [done|]. split; [done|]. split; [done|]. split.
  - unfold packet_records. cbn [pk_header pk_wire sh_n_sources sh_n_records].
    rewrite (imap_const_snd _ (fun x => x)), list_fmap_id.
    change (drop 20 (stream_header_bytes h ++ body)) with body. subst body.
    subst h. cbn [sh_n_sources sh_n_records].
    replace (Z.to_nat (len (r :: chunk))) with (length (r :: chunk)) by (unfold len; lia).
    apply rows_bind. intros x. rewrite len_row_bytes.
    unfold len. lia.
  - rewrite Lw, Lb. unfold MAX_PACKET, STREAM_HEADER_LEN in *. lia.
Qed.

Lemma kept_ok d l : Forall record_ok l -> Forall record_ok (kept d l).
Proof.
  intros Hl. apply Forall_forall. intros r [_ Hr]%list_elem_of_filter.
  by apply (proj1 (Forall_forall _ _) Hl).
Qed.

(** ** Properties *)

(** C12. A streaming session delivers exactly what was configured.  From a new
    [StreamStart], over any number of flushes and any contents of the record
    ring at each, the streamer never panics and sends one sequence of
    datagrams, numbered from zero, none over the MTU budget, each of which the
    host decodes to the rows of its records; put together they are the
    decimated records of the ring, in order, without loss or repetition: all of
    them when the session is continuous, and the first [count] of them when it
    is finite, after which the session is disabled. *)
Theorem stream_session_exact {Q : Type} `{SpscQueue Q StreamRecord, !SpscLaws Q StreamRecord}
    (dropped : Z -> Z) (s : StreamState) (m : Streamer) (endpoint : Endpoint) (rings : list Q) (t : Z)
    (Hs : session_ok s endpoint) (Hnew : str_generation s <> sm_generation m)
    (Hm : len (sm_packet m) = MAX_PACKET) (Hd : forall i, fits 32 (dropped i))
    (Hr : Forall (fun q => Forall record_ok (q_contents q)) rings) :
  let all := kept (str_decimation s) (concat (q_contents <$> rings)) in
  exists s' m' chunks,
    stream_flushes dropped (fun s => s) s m rings
      = Some (s', m', imap (fun i chunk =>
          (endpoint, datagram_of dropped (str_sources s) (str_decimation s) (wrap 32 (Z.of_nat i)) chunk))
          chunks)
    /\ concat chunks = (if str_count s =? 0 then all else take (Z.to_nat (str_count s)) all)
    /\ Forall (fun chunk => forall seq, fits 32 seq ->
         exists p, Packet_decode (datagram_of dropped (str_sources s) (str_decimation s) seq chunk) t = Ok p
           /\ sh_seq (pk_header p) = seq
           /\ Some (sh_first_index (pk_header p)) = rec_index <$> head chunk
           /\ sh_decimation (pk_header p) = str_decimation s
           /\ (packet_records p).*2 = row_bytes (str_sources s) <$> chunk
           /\ len (pk_wire p) <= MAX_PACKET) chunks
    /\ (str_enabled s' = false <-> str_count s <> 0 /\ str_count s <= len all).
Proof.
  intros all. assert (Ea : armed s m = m <| sm_generation := str_generation s |> <| sm_seq := 0 |>
    <| sm_remaining := str_count s |>) by (unfold armed; by rewrite (proj2 (Z.eqb_neq _ _) Hnew)).
  pose proof Hs as [_ _ _ _ Hcount].
  destruct (stream_flushes_spec dropped s m endpoint rings Hs Hr Hm) as
    (s' & m' & chunks & E & Hcat & Hall & Hen).
  { by rewrite Ea. }
  { rewrite Ea. cbn. lia. }
  rewrite Ea in E, Hcat, Hen. cbn [sm_seq sm_remaining set const] in E, Hcat, Hen.
  fold all in Hcat, Hen. exists s', m', chunks. split; [exact E|]. split; [exact Hcat|]. split.
  - assert (Hok : Forall record_ok (concat chunks)).
    { rewrite Hcat. assert (Hk : Forall record_ok all).
      { apply kept_ok, Forall_concat, Forall_fmap. eapply Forall_impl; [exact Hr|done]. }
      unfold deliver. destruct (_ =? 0); [done|by apply Forall_take]. }
    apply Forall_concat in Hok. apply Forall_forall. intros chunk Hin seq Hseq.
    eapply datagram_decodes; try done.
    + by apply (proj1 (Forall_forall _ _) Hall).
    + by apply (proj1 (Forall_forall _ _) Hok).
  - rewrite Hen, orb_false_iff, Z.eqb_neq, Z.ltb_ge. done.
Qed.

(** A finite session of three records, every second sample of two sources. *)
Definition demo_session : StreamState := {|
  str_target := Some (7, 5000); str_enabled := true; str_sources := [0; 2]; str_decimation := 2;
  str_count := 3; str_generation := 1; str_control_connected := true |}.

Definition demo_record (i : Z) : StreamRecord :=
  {| rec_index := i; rec_n := 3; rec_values := [f32_of_Z i; f0; f1] |}.

Definition demo_ring (l : list Z) : ListQueue StreamRecord :=
  {| lq_items := demo_record <$> l; lq_capacity := 256 |}.

Lemma stream_session_exact_witness :
  exists s' m' chunks,
    stream_flushes (fun _ => 0) (fun s => s) demo_session Streamer_new
        [demo_ring [10; 11; 12]; demo_ring [13; 14; 15; 16; 17]]
      = Some (s', m', imap (fun i chunk => ((7, 5000), datagram_of (fun _ => 0) (str_sources demo_session) (str_decimation demo_session)
          (wrap 32 (Z.of_nat i)) chunk)) chunks)
    /\ concat chunks = demo_record <$> [10; 12; 14]
    /\ str_enabled s' = false.
Proof.
  destruct (stream_session_exact (fun _ => 0) demo_session Streamer_new (7, 5000)
    [demo_ring [10; 11; 12]; demo_ring [13; 14; 15; 16; 17]] 0) as
    (s' & m' & chunks & E & Hc & _ & Hen).
  - split; [done|done|split; [done|by repeat constructor]|done|done].
  - done.
  - done.
  - done.
  - assert (Hr : forall i, fits 32 i -> record_ok (demo_record i)) by by split.
    assert (Hl : forall l, Forall (fits 32) l -> Forall record_ok (demo_record <$> l))
      by (intros l Hl; apply Forall_fmap; eapply Forall_impl; [exact Hl|exact Hr]).
    apply Forall_cons; split; [apply Hl; by repeat constructor|].
    apply Forall_cons; split; [apply Hl; by repeat constructor|by apply Forall_nil].
  - exists s', m', chunks. split; [exact E|]. split; [by rewrite Hc; vm_compute|].
    apply (proj2 Hen). split; [done|]. by vm_compute.
Defined.
