(* ===== verification/Shared.v ===== *)
(** * Atomic state shared between the two cores

    [helic-rt/src/shared.rs].  Every atomic word is a [Z]; an operation is one
    atomic access unless said otherwise.  [World] is all the memory that the
    support core and the real-time core share. *)

From S2P Require Import Prelude Float32 Harmonics Table TableBuffer.

Definition REBOOT_IDLE : Z := 0.
Definition REBOOT_REQUESTED : Z := 1.
Definition REBOOT_QUIESCED : Z := 2.

Record Live := { lv_ticks : Z; lv_loop_time_last_us : Z; lv_active_table_len : Z }.

Definition Live_new : Live :=
  {| lv_ticks := 0; lv_loop_time_last_us := 0; lv_active_table_len := 0 |}.

Record Diagnostics := {
  dg_loop_time_max_us : Z; dg_clock_jitter_us : Z; dg_overruns : Z; dg_tick_timeouts : Z;
  dg_records_dropped : Z; dg_command_backlog_max : Z; dg_wake_phase_min_us : Z;
  dg_wake_phase_max_us : Z; dg_t_measure_max_us : Z; dg_t_actuate_max_us : Z;
  dg_t_rest_max_us : Z; dg_safety_clamp_ticks : Z; dg_safety_quiet_ticks : Z }.

Definition Diagnostics_new : Diagnostics := {|
  dg_loop_time_max_us := 0; dg_clock_jitter_us := 0; dg_overruns := 0; dg_tick_timeouts := 0;
  dg_records_dropped := 0; dg_command_backlog_max := 0; dg_wake_phase_min_us := umax 32;
  dg_wake_phase_max_us := 0; dg_t_measure_max_us := 0; dg_t_actuate_max_us := 0;
  dg_t_rest_max_us := 0; dg_safety_clamp_ticks := 0; dg_safety_quiet_ticks := 0 |}.

(** One store per field; the stores are not atomic together, but nothing
    reads two of them as a pair. *)
Definition Diagnostics_reset (d : Diagnostics) : Diagnostics :=
  d <| dg_loop_time_max_us := 0 |> <| dg_clock_jitter_us := 0 |> <| dg_overruns := 0 |>
    <| dg_tick_timeouts := 0 |> <| dg_records_dropped := 0 |> <| dg_command_backlog_max := 0 |>
    <| dg_wake_phase_min_us := umax 32 |> <| dg_wake_phase_max_us := 0 |>
    <| dg_t_measure_max_us := 0 |> <| dg_t_actuate_max_us := 0 |> <| dg_t_rest_max_us := 0 |>
    <| dg_safety_clamp_ticks := 0 |> <| dg_safety_quiet_ticks := 0 |>.

(** [fetch_add(1)] and [fetch_max] on [AtomicU32]. *)
Definition fetch_inc (v : Z) : Z := wrapping_add 32 v 1.
Definition fetch_max (v x : Z) : Z := Z.max v x.
Definition fetch_min (v x : Z) : Z := Z.min v x.

Record SafetyInputs := { si_armed : bool; si_tripped : bool }.

Record Safety := { sf_armed : Z; sf_tripped : Z }.
Definition Safety_new : Safety := {| sf_armed := 0; sf_tripped := 0 |}.

Definition Safety_load_inputs (s : Safety) : SafetyInputs :=
  {| si_armed := negb (sf_armed s =? 0); si_tripped := negb (sf_tripped s =? 0) |}.
Definition Safety_latch_trip (s : Safety) : Safety := s <| sf_tripped := 1 |>.
(** Two stores, the trip cleared first. *)
Definition Safety_arm (s : Safety) : Safety := s <| sf_tripped := 0 |> <| sf_armed := 1 |>.
Definition Safety_disarm (s : Safety) : Safety := s <| sf_armed := 0 |>.

Definition Safety_flags (s : Safety) (d : Diagnostics) : Z :=
  let inputs := Safety_load_inputs s in
  let clamped := negb (dg_safety_clamp_ticks d =? 0) in
  let quieted := negb (dg_safety_quiet_ticks d =? 0) in
  Z.lor (Z.lor (Z.lor (Z.b2z (si_armed inputs)) (Z.shiftl (Z.b2z (si_tripped inputs)) 1))
               (Z.shiftl (Z.b2z clamped) 2))
        (Z.shiftl (Z.b2z quieted) 3).

(** The reboot handshake is one word. *)
Definition RebootShared_request (state : Z) : Z :=
  if state =? REBOOT_IDLE then REBOOT_REQUESTED else state.
Definition RebootShared_is_requested (state : Z) : bool := REBOOT_REQUESTED <=? state.
Definition RebootShared_mark_quiesced (state : Z) : Z := REBOOT_QUIESCED.
Definition RebootShared_is_quiesced (state : Z) : bool := state =? REBOOT_QUIESCED.

Record RtShared := {
  rs_live : Live; rs_diagnostics : Diagnostics; rs_safety : Safety; rs_reboot : Z }.

Definition RtShared_new : RtShared := {|
  rs_live := Live_new; rs_diagnostics := Diagnostics_new; rs_safety := Safety_new;
  rs_reboot := REBOOT_IDLE |}.

(** The shared memory: the atomics, the three double buffers, and the
    experiment's telemetry words ([ExtraParam]). *)
Record World := {
  w_shared : RtShared;
  w_target : DoubleBuffer FourierCoeffs;
  w_forcing : DoubleBuffer FourierCoeffs;
  w_table : DoubleBuffer WaveTable;
  w_extra : list Z }.

(** ** The arming protocol, one store at a time *)

Inductive safety_event :=
  | ArmClearTrip   (* core 0, [arm]: the first store *)
  | ArmStore       (* core 0, [arm]: the second store *)
  | Disarm         (* core 0 *)
  | LatchTrip.     (* core 1 *)

#[export] Instance safety_event_eq_dec : EqDecision safety_event.
Proof. solve_decision. Defined.

Definition safety_apply (s : Safety) (e : safety_event) : Safety :=
  match e with
  | ArmClearTrip => s <| sf_tripped := 0 |>
  | ArmStore => s <| sf_armed := 1 |>
  | Disarm => Safety_disarm s
  | LatchTrip => Safety_latch_trip s
  end.

Definition safety_run (s : Safety) (l : list safety_event) : Safety := foldl safety_apply s l.

(** The last of core 0's arm and disarm stores; the last clear or latch. *)
Definition last_armed (d : bool) (l : list safety_event) : bool :=
  foldl (fun b e => match e with ArmStore => true | Disarm => false | _ => b end) d l.
Definition last_tripped (d : bool) (l : list safety_event) : bool :=
  foldl (fun b e => match e with ArmClearTrip => false | LatchTrip => true | _ => b end) d l.

Lemma safety_run_inputs s l :
  Safety_load_inputs (safety_run s l)
  = {| si_armed := last_armed (si_armed (Safety_load_inputs s)) l;
       si_tripped := last_tripped (si_tripped (Safety_load_inputs s)) l |}.
Proof.
  unfold safety_run, last_armed, last_tripped. revert s.
  induction l as [|e l IH]; intros s; [done|]. cbn [foldl]. rewrite IH. by destruct e.
Qed.

(** ** Properties *)

(** C34. Arming is core 0's alone: in any interleaving of the single stores of
    arming, disarming and trip latching, the output is armed exactly when core
    0's last word was to arm, however core 1 latches; a trip latched after the
    last clear survives everything but a new arming; and a disarm or latch
    that follows everything else leaves the output not enabled. *)
Theorem safety_stores_commute (s : Safety) (l : list safety_event) :
  let inputs := Safety_load_inputs (safety_run s l) in
  si_armed inputs
    = last_armed (si_armed (Safety_load_inputs s)) (filter (fun e => e <> LatchTrip) l)
  /\ si_tripped inputs = last_tripped (si_tripped (Safety_load_inputs s)) l
  /\ (forall l1 l2, l = l1 ++ LatchTrip :: l2 -> ArmClearTrip ∉ l2 -> si_tripped inputs = true)
  /\ (forall l1 l2, l = l1 ++ Disarm :: l2 -> ArmStore ∉ l2 -> si_armed inputs = false).
Proof.
  intros inputs. unfold inputs. rewrite safety_run_inputs. cbn [si_armed si_tripped].
  split_and!; [|done| |].
  - generalize (si_armed (Safety_load_inputs s)). induction l as [|e l IH]; intros b; [done|].
    rewrite filter_cons. destruct e; cbn; apply IH.
  - intros l1 l2 -> Hl2. unfold last_tripped. rewrite foldl_app. cbn [foldl].
    induction l2 as [|e l2 IH]; [done|]. cbn [foldl].
    destruct e; try (apply IH; intros H; apply Hl2; by right). destruct Hl2. by left.
  - intros l1 l2 -> Hl2. unfold last_armed. rewrite foldl_app. cbn [foldl].
    induction l2 as [|e l2 IH]; [done|]. cbn [foldl].
    destruct e; try (apply IH; intros H; apply Hl2; by right). destruct Hl2. by left.
Qed.
