(* ===== verification/Laser.v ===== *)
(** * Laser receiver (firmware/integrations/optoncdt/src/laser.rs)

    The task that configures an optoNCDT sensor and publishes its distances.
    The UART is its environment: what [write_all] and each [read] of one byte
    give, and for the measurement loop what every buffered [read] gives.  The
    task runs on an executor that does not preempt it, so that the other tasks
    of core 0 can change the shared words only where it waits: at a read. *)

From stdpp Require Import strings.
From S2P Require Import Prelude Float32 Text Optoncdt Shared.

#[export] Set Default Goal Selector "!".
Open Scope Z_scope.

(** ** Commands *)

Definition command (s : string) : list Z := str_bytes s ++ [10].

Definition OUTPUT_NONE : list Z := command "OUTPUT NONE".
Definition GET_USER_LEVEL : list Z := command "GETUSERLEVEL".
Definition NO_OUTPUT_REDUCTION : list Z := command "OUTREDUCEDEVICE NONE".
Definition DISTANCE_ONLY : list Z := command "OUTADD_RS422 NONE".
Definition OUTPUT_RS422 : list Z := command "OUTPUT RS422".
Definition REQUIRED_BAUD : Z := 921600.
Definition SYNC_FRAMES : Z := 8.
Definition SUPPORTED_BAUDS : list Z :=
  [921600; 1000000; 691200; 460800; 256000; 230400; 128000; 115200; 56000; 19200; 9600].

(** The diagnostics of a reply: how many bytes, and the last four. *)
Record ReplyTrace := { tr_bytes_received : Z; tr_trailing : list Z }.

Definition ReplyTrace_default : ReplyTrace := {| tr_bytes_received := 0; tr_trailing := [0; 0; 0; 0] |}.

Definition ReplyTrace_push (t : ReplyTrace) (byte : Z) : ReplyTrace :=
  {| tr_bytes_received := saturating_add 32 (tr_bytes_received t) 1;
     tr_trailing := drop 1 (tr_trailing t) ++ [byte] |}.

(** What one command meets: whether it is written, then the bytes read, [None]
    for a receive error, until nothing more comes before the timeout; and what
    the buffered reads after its reply give, [None] for a receive error, until
    the line is quiet for 2 ms. *)
Record Exchange := { ex_written : bool; ex_reads : list (option Z); ex_tail : list (option (list Z)) }.

(** [Ok (Ok reply)], [Ok (Err _)] and [Err _] of the timeout. *)
Inductive Waited := WaitedReply (reply : CommandReply) | WaitedError | WaitedTimeout.

Fixpoint wait_loop (parser : CommandReplyParser) (trace : ReplyTrace) (reads : list (option Z)) : Waited * ReplyTrace :=
  match reads with
  | [] => (WaitedTimeout, trace)
  | None :: _ => (WaitedError, trace)
  | Some byte :: reads =>
      let trace := ReplyTrace_push trace byte in
      let '(parser, reply) := CommandReplyParser_push parser byte in
      match reply with
      | Some reply => (WaitedReply reply, trace)
      | None => wait_loop parser trace reads
      end
  end.

Definition wait_for_reply (reads : list (option Z)) : Waited * ReplyTrace :=
  wait_loop CommandReplyParser_new ReplyTrace_default reads.

(** What the task does to the UART. *)
Inductive UartEvent := SetBaud (baud : Z) | Wrote (bytes : list Z) | Discarded.

(** The next exchange; when the list is over nothing is received. *)
Definition next_exchange (exchanges : list Exchange) : Exchange * list Exchange :=
  match exchanges with
  | [] => ({| ex_written := true; ex_reads := []; ex_tail := [] |}, [])
  | x :: exchanges => (x, exchanges)
  end.

Fixpoint stop_attempts (n : nat) (exchanges : list Exchange) (events : list UartEvent)
    : list Exchange * list UartEvent * bool :=
  match n with
  | O => (exchanges, events, false)
  | S n =>
      let '(x, exchanges) := next_exchange exchanges in
      if negb (ex_written x) then stop_attempts n exchanges events
      else
        let events := events ++ [Wrote OUTPUT_NONE] in
        match (wait_for_reply (ex_reads x)).1 with
        | WaitedReply _ => (exchanges, events, true)
        | WaitedError | WaitedTimeout => stop_attempts n exchanges events
        end
  end.

Fixpoint probe_bauds (bauds : list Z) (exchanges : list Exchange) (events : list UartEvent)
    : list Exchange * list UartEvent * option Z :=
  match bauds with
  | [] => (exchanges, events, None)
  | baudrate :: bauds =>
      let events := events ++ [SetBaud baudrate] in
      let '(x, exchanges) := next_exchange exchanges in
      if negb (ex_written x) then probe_bauds bauds exchanges events
      else
        let events := events ++ [Wrote GET_USER_LEVEL] in
        match (wait_for_reply (ex_reads x)).1 with
        | WaitedReply _ => (exchanges, events, Some baudrate)
        | WaitedError | WaitedTimeout => probe_bauds bauds exchanges events
        end
  end.

Definition detect_baudrate (exchanges : list Exchange) (events : list UartEvent)
    : list Exchange * list UartEvent * option Z :=
  let '(exchanges, events, stopped) := stop_attempts 3 exchanges (events ++ [SetBaud REQUIRED_BAUD]) in
  if stopped : bool then (exchanges, events, Some REQUIRED_BAUD)
  else probe_bauds SUPPORTED_BAUDS exchanges events.

(** Whatever a read gives is dropped; a time-out ends the loop. *)
Fixpoint drain_stopped_stream (tail : list (option (list Z))) (events : list UartEvent) : list UartEvent :=
  match tail with
  | [] => events
  | _ :: tail => drain_stopped_stream tail (events ++ [Discarded])
  end.

Fixpoint configure_loop (commands : list (string * list Z)) (exchanges : list Exchange) (events : list UartEvent)
    : list Exchange * list UartEvent * bool :=
  match commands with
  | [] => (exchanges, events, true)
  | (name, c) :: commands =>
      let '(x, exchanges) := next_exchange exchanges in
      if negb (ex_written x) then (exchanges, events, false)
      else
        let events := events ++ [Wrote c] in
        match (wait_for_reply (ex_reads x)).1 with
        | WaitedReply ReplyOk =>
            let events := if bool_decide (name = "OUTPUT NONE"%string) then drain_stopped_stream (ex_tail x) events else events in
            configure_loop commands exchanges events
        | WaitedReply (ReplyError _) | WaitedError | WaitedTimeout => (exchanges, events, false)
        end
  end.

Definition configure_commands (measrate_command : list Z) : list (string * list Z) := [
  ("OUTPUT NONE", OUTPUT_NONE);
  ("MEASRATE", measrate_command);
  ("OUTREDUCEDEVICE NONE", NO_OUTPUT_REDUCTION);
  ("OUTADD_RS422 NONE", DISTANCE_ONLY);
  ("OUTPUT RS422", OUTPUT_RS422)]%string.

Definition configure (measrate_command : list Z) (exchanges : list Exchange) (events : list UartEvent)
    : list Exchange * list UartEvent * bool :=
  configure_loop (configure_commands measrate_command) exchanges events.

(** The loop of [configured_laser_run], for [n] turns; whether it has ended. *)
Fixpoint configured_loop (n : nat) (measrate_command : list Z) (exchanges : list Exchange) (events : list UartEvent)
    : list Exchange * list UartEvent * bool :=
  match n with
  | O => (exchanges, events, false)
  | S n =>
      let '(exchanges, events, detected) := detect_baudrate exchanges events in
      match detected with
      | None => configured_loop n measrate_command exchanges events
      | Some baudrate =>
          if negb (baudrate =? REQUIRED_BAUD) then configured_loop n measrate_command exchanges events
          else
            let '(exchanges, events, configured) := configure measrate_command exchanges events in
            if configured : bool then (exchanges, events, true)
            else configured_loop n measrate_command exchanges events
      end
  end.

(** ** Measurements *)

Record LaserCounters := {
  lc_frames_received : Z;
  lc_uart_errors : Z;
  lc_parse_errors : Z;
  lc_invalid_frames : Z;
  lc_unexpected_values : Z;
  lc_sync_errors : Z
}.

(** The words the task shares with the rig and the parameter store; [range_mm]
    and [destination] hold the bits of an [f32]. *)
Record LaserWords := { lw_range_mm : Z; lw_destination : Z; lw_counters : LaserCounters }.

Definition with_counters (w : LaserWords) (f : LaserCounters -> LaserCounters) : LaserWords :=
  w <| lw_counters := f (lw_counters w) |>.

Definition inc_frames (c : LaserCounters) := c <| lc_frames_received := fetch_inc (lc_frames_received c) |>.
Definition inc_uart (c : LaserCounters) := c <| lc_uart_errors := fetch_inc (lc_uart_errors c) |>.
Definition inc_parse (c : LaserCounters) := c <| lc_parse_errors := fetch_inc (lc_parse_errors c) |>.
Definition inc_invalid (c : LaserCounters) := c <| lc_invalid_frames := fetch_inc (lc_invalid_frames c) |>.
Definition inc_unexpected (c : LaserCounters) := c <| lc_unexpected_values := fetch_inc (lc_unexpected_values c) |>.
Definition inc_sync (c : LaserCounters) := c <| lc_sync_errors := fetch_inc (lc_sync_errors c) |>.

(** The locals of [laser_run]; [first_distance_logged] only selects what is
    logged. *)
Record LaserTask := { lt_parser : Parser; lt_synchronised : bool; lt_clean_frames : Z }.

Definition LaserTask_new : LaserTask :=
  {| lt_parser := Parser_new; lt_synchronised := false; lt_clean_frames := 0 |}.

(** An error of kind [inc], before or after synchronisation. *)
Definition laser_error (inc : LaserCounters -> LaserCounters) (t : LaserTask) (w : LaserWords) : LaserTask * LaserWords :=
  if lt_synchronised t then (t, with_counters w inc)
  else (t <| lt_clean_frames := 0 |>, with_counters w inc_sync).

Definition laser_value (value : RawValue) (t : LaserTask) (w : LaserWords) : LaserTask * LaserWords :=
  if negb (rv_first value) then laser_error inc_unexpected t w
  else
    let t := if negb (lt_synchronised t) then
               let t := t <| lt_clean_frames := saturating_add 8 (lt_clean_frames t) 1 |> in
               if lt_clean_frames t =? SYNC_FRAMES then t <| lt_synchronised := true |> else t
             else t in
    let w := if lt_synchronised t then with_counters w inc_frames else w in
    let w := match DistanceScale_convert (f32_of_bits (lw_range_mm w)) (rv_value value) with
             | InRange mm => w <| lw_destination := f32_to_bits mm |>
             | BelowRange | AboveRange | SensorError _ =>
                 if lt_synchronised t then with_counters w inc_invalid else w
             end in
    (t, w).

Definition laser_byte '((t, w) : LaserTask * LaserWords) (byte : Z) : LaserTask * LaserWords :=
  let '(parser, event) := Parser_push_event (lt_parser t) byte in
  let t := t <| lt_parser := parser |> in
  match event with
  | Pending => (t, w)
  | Resynchronised => laser_error inc_parse t w
  | Value value => laser_value value t w
  end.

(** A read of the UART: the bytes received, or an error.  [others] is what the
    other tasks did to the shared words while it was awaited. *)
Inductive LaserRead :=
  | ReadBytes (others : LaserWords -> LaserWords) (bytes : list Z)
  | ReadError (others : LaserWords -> LaserWords).

Definition laser_read '((t, w) : LaserTask * LaserWords) (r : LaserRead) : LaserTask * LaserWords :=
  match r with
  | ReadError others =>
      let '(t, w) := laser_error inc_uart t (others w) in
      (t <| lt_parser := Parser_new |>, w)
  | ReadBytes others bytes => fold_left laser_byte bytes (t, others w)
  end.

Definition laser_run (w : LaserWords) (reads : list LaserRead) : LaserTask * LaserWords :=
  fold_left laser_read reads (LaserTask_new, w).

(** ** What a run of reads says *)

(** The line's signals: receive errors, out-of-sequence bytes, values. *)
Inductive Signal := SigUart | SigResync | SigValue (v : RawValue).

Fixpoint byte_signals (p : Parser) (bytes : list Z) : Parser * list Signal :=
  match bytes with
  | [] => (p, [])
  | b :: bytes =>
      let '(p, event) := Parser_push_event p b in
      let '(p, rest) := byte_signals p bytes in
      (p, match event with Pending => rest | Resynchronised => SigResync :: rest | Value v => SigValue v :: rest end)
  end.

Fixpoint signals (p : Parser) (reads : list LaserRead) : Parser * list Signal :=
  match reads with
  | [] => (p, [])
  | ReadError _ :: reads => let '(p, rest) := signals Parser_new reads in (p, SigUart :: rest)
  | ReadBytes _ bytes :: reads =>
      let '(p, first) := byte_signals p bytes in
      let '(p, rest) := signals p reads in (p, first ++ rest)
  end.

(** The first value of a measurement block. *)
Definition clean (s : Signal) : bool := match s with SigValue v => rv_first v | _ => false end.

(** The distance a signal publishes. *)
Definition published (range : float) (s : Signal) : option float :=
  match s with
  | SigValue v => if rv_first v then match DistanceScale_convert range (rv_value v) with InRange mm => Some mm | _ => None end
                  else None
  | _ => None
  end.

Definition count (f : Signal -> bool) (l : list Signal) : Z := len (List.filter f l).

Definition is_uart (s : Signal) : bool := match s with SigUart => true | _ => false end.
Definition is_resync (s : Signal) : bool := match s with SigResync => true | _ => false end.
Definition is_unexpected (s : Signal) : bool := match s with SigValue v => negb (rv_first v) | _ => false end.
Definition is_invalid (range : float) (s : Signal) : bool :=
  clean s && negb (bool_decide (is_Some (published range s))).

(** Eight measurement blocks in a row, and no earlier. *)
Definition synchronises (before : list Signal) (s : Signal) : Prop :=
  (exists pre run, before ++ [s] = pre ++ run /\ len run = SYNC_FRAMES /\ Forall (fun s => clean s = true) run)
  /\ ~ exists pre run post, before = pre ++ run ++ post /\ len run = SYNC_FRAMES /\ Forall (fun s => clean s = true) run.

Definition add_counts (c : LaserCounters) (frames uart parse invalid unexpected sync : Z) : LaserCounters := {|
  lc_frames_received := wrapping_add 32 (lc_frames_received c) frames;
  lc_uart_errors := wrapping_add 32 (lc_uart_errors c) uart;
  lc_parse_errors := wrapping_add 32 (lc_parse_errors c) parse;
  lc_invalid_frames := wrapping_add 32 (lc_invalid_frames c) invalid;
  lc_unexpected_values := wrapping_add 32 (lc_unexpected_values c) unexpected;
  lc_sync_errors := wrapping_add 32 (lc_sync_errors c) sync |}.

Definition counters_fit (c : LaserCounters) : Prop :=
  fits 32 (lc_frames_received c) /\ fits 32 (lc_uart_errors c) /\ fits 32 (lc_parse_errors c)
  /\ fits 32 (lc_invalid_frames c) /\ fits 32 (lc_unexpected_values c) /\ fits 32 (lc_sync_errors c).

Definition undisturbed (r : LaserRead) : Prop :=
  match r with ReadBytes others _ | ReadError others => forall w, others w = w end.

(** ** Lemmas *)

Definition laser_signal '((t, w) : LaserTask * LaserWords) (s : Signal) : LaserTask * LaserWords :=
  match s with
  | SigUart => laser_error inc_uart t w
  | SigResync => laser_error inc_parse t w
  | SigValue v => laser_value v t w
  end.

Definition set_parser (p : Parser) '((t, w) : LaserTask * LaserWords) : LaserTask * LaserWords :=
  (t <| lt_parser := p |>, w).

Lemma set_parser_twice p q st : set_parser p (set_parser q st) = set_parser p st.
Proof. by destruct st. Qed.

Lemma laser_error_parser inc p t w : laser_error inc (t <| lt_parser := p |>) w = set_parser p (laser_error inc t w).
Proof. unfold laser_error. cbn. by destruct (lt_synchronised t). Qed.

Lemma laser_value_parser v p t w : laser_value v (t <| lt_parser := p |>) w = set_parser p (laser_value v t w).
Proof.
  unfold laser_value. destruct (rv_first v); cbn [negb]; [|apply laser_error_parser].
  destruct t as [q [] n]; cbn; [done|]. by destruct (_ =? _).
Qed.

Lemma laser_signal_parser p st s : laser_signal (set_parser p st) s = set_parser p (laser_signal st s).
Proof. destruct st as [t w], s; [apply laser_error_parser..|apply laser_value_parser]. Qed.

Lemma laser_signals_parser p st l : fold_left laser_signal l (set_parser p st) = set_parser p (fold_left laser_signal l st).
Proof. revert st. induction l as [|s l IH]; intros st; [done|]. cbn [fold_left]. by rewrite laser_signal_parser, IH. Qed.

Lemma laser_byte_signals p st bytes :
  fold_left laser_byte bytes (set_parser p st)
  = let '(p', l) := byte_signals p bytes in set_parser p' (fold_left laser_signal l st).
Proof.
  revert p st. induction bytes as [|b bytes IH]; intros p [t w]; [done|]. cbn [fold_left byte_signals set_parser laser_byte].
  cbn [lt_parser set const]. destruct (Parser_push_event p b) as [p1 event]. specialize (IH p1).
  destruct (byte_signals p1 bytes) as [p2 l]. destruct event as [|v|].
  - by rewrite <-(IH (t, w)).
  - cbn [fold_left]. change (laser_signal (t, w) (SigValue v)) with (laser_value v t w). rewrite <-IH. f_equal.
    by rewrite <-laser_value_parser.
  - cbn [fold_left]. change (laser_signal (t, w) SigResync) with (laser_error inc_parse t w). rewrite <-IH. f_equal.
    by rewrite <-laser_error_parser.
Qed.

Lemma laser_run_signals p st reads :
  Forall undisturbed reads ->
  fold_left laser_read reads (set_parser p st)
  = let '(p', l) := signals p reads in set_parser p' (fold_left laser_signal l st).
Proof.
  intros Hr. revert p st. induction Hr as [|r reads Hr _ IH]; intros p [t w]; [done|]. cbn [fold_left signals].
  destruct r as [others bytes|others]; cbn [laser_read set_parser] in *; rewrite Hr.
  - change (t <| lt_parser := p |>, w) with (set_parser p (t, w)). rewrite laser_byte_signals.
    destruct (byte_signals p bytes) as [p1 l1]. rewrite IH. destruct (signals p1 reads) as [p2 l2]. by rewrite fold_left_app.
  - rewrite laser_error_parser. specialize (IH Parser_new (laser_error inc_uart t w)).
    destruct (signals Parser_new reads) as [p2 l2]. cbn [fold_left laser_signal]. rewrite <-IH.
    by destruct (laser_error inc_uart t w).
Qed.

(** The measurement blocks at the end of a run. *)
Fixpoint lead (l : list Signal) : Z :=
  match l with
  | [] => 0
  | s :: l => if clean s then 1 + lead l else 0
  end.
Definition trail (l : list Signal) : Z := lead (rev l).

Definition all_clean (run : list Signal) : Prop := Forall (fun s => clean s = true) run.
Definition has_run (l : list Signal) : Prop :=
  exists pre run post, l = pre ++ run ++ post /\ len run = SYNC_FRAMES /\ all_clean run.

Lemma trail_snoc l s : trail (l ++ [s]) = if clean s then 1 + trail l else 0.
Proof. unfold trail. by rewrite rev_unit. Qed.

Lemma trail_run pre run : all_clean run -> len run <= trail (pre ++ run).
Proof.
  induction run as [|s run IH] using rev_ind; intros Hr.
  - rewrite app_nil_r. unfold trail. induction (rev pre) as [|s l IH]; cbn [lead]; [done|].
    rewrite len_nil in *. destruct (clean s); lia.
  - apply Forall_app in Hr as [Hr Hs]. apply Forall_cons in Hs as [Hs _].
    rewrite app_assoc, trail_snoc, Hs, len_app, len_cons, len_nil. specialize (IH Hr). lia.
Qed.

Lemma trail_split l : exists pre run, l = pre ++ run /\ len run = trail l /\ all_clean run.
Proof.
  induction l as [|s l IH] using rev_ind; [exists [], []; split; [done|split; [done|constructor]]|]. rewrite trail_snoc. destruct (clean s) eqn:E.
  - destruct IH as (pre & run & Hl & Hn & Hc). exists pre, (run ++ [s]). rewrite Hl at 1. rewrite <-app_assoc.
    split; [done|]. rewrite len_app, len_cons, len_nil. split; [lia|]. apply Forall_app. by split; [|constructor].
  - exists (l ++ [s]), []. rewrite app_nil_r. split; [done|]. split; [done|constructor].
Qed.

Lemma has_run_snoc l s : has_run (l ++ [s]) -> has_run l \/ SYNC_FRAMES <= trail (l ++ [s]).
Proof.
  intros (pre & run & post & Hl & Hn & Hc). destruct post as [|x post _] using rev_ind.
  - right. rewrite app_nil_r in Hl. rewrite Hl, <-Hn. by apply trail_run.
  - left. rewrite !app_assoc in Hl. apply app_inj_tail in Hl as [-> _]. exists pre, run, post. by rewrite <-app_assoc.
Qed.

Lemma count_snoc f l s : count f (l ++ [s]) = count f l + (if f s then 1 else 0).
Proof.
  unfold count. rewrite List.filter_app, len_app. cbn [List.filter]. by destruct (f s).
Qed.

Lemma wrapping_add_0 a : fits 32 a -> wrapping_add 32 a 0 = a.
Proof. intros Ha. unfold wrapping_add. rewrite Z.add_0_r. by apply wrap_id. Qed.

Lemma fetch_inc_add a n : fetch_inc (wrapping_add 32 a n) = wrapping_add 32 a (n + 1).
Proof. unfold fetch_inc, wrapping_add. rewrite wrap_add_l. f_equal. lia. Qed.

Lemma inc_frames_add c a b d e f g : inc_frames (add_counts c a b d e f g) = add_counts c (a + 1) b d e f g.
Proof. unfold inc_frames, add_counts. cbn. by rewrite fetch_inc_add. Qed.

Lemma inc_invalid_add c a b d e f g : inc_invalid (add_counts c a b d e f g) = add_counts c a b d (e + 1) f g.
Proof. unfold inc_invalid, add_counts. cbn. by rewrite fetch_inc_add. Qed.

(** The state after the signals [l], from fresh locals and the words [w]. *)
Record accounts (w : LaserWords) (l : list Signal) (t : LaserTask) (w' : LaserWords) : Prop := {
  ac_range : lw_range_mm w' = lw_range_mm w;
  ac_destination : lw_destination w'
    = default (lw_destination w) (f32_to_bits <$> last (omap (published (f32_of_bits (lw_range_mm w))) l));
  ac_state :
    (lt_synchronised t = false /\ ~ has_run l /\ lt_clean_frames t = trail l /\ trail l < SYNC_FRAMES
     /\ lw_counters w' = add_counts (lw_counters w) 0 0 0 0 0 (count (fun s => negb (clean s)) l))
    \/ (exists before s after, l = before ++ s :: after /\ synchronises before s /\ lt_synchronised t = true
        /\ lw_counters w' = add_counts (lw_counters w) (1 + count clean after) (count is_uart after)
             (count is_resync after) (count (is_invalid (f32_of_bits (lw_range_mm w))) (s :: after))
             (count is_unexpected after) (count (fun s => negb (clean s)) before)) }.

Lemma accounts_start w : counters_fit (lw_counters w) -> accounts w [] LaserTask_new w.
Proof.
  intros (H1 & H2 & H3 & H4 & H5 & H6). split; [done..|]. left. split; [done|]. split.
  { intros (pre & run & post & Hl & Hn & _). destruct pre; [|done]. destruct run; [by rewrite len_nil in Hn|done]. }
  split; [done|]. split; [done|]. unfold add_counts. change (count _ []) with 0. rewrite !wrapping_add_0 by done.
  by destruct (lw_counters w).
Qed.

Lemma last_omap_snoc {A B} (f : A -> option B) l x :
  last (omap f (l ++ [x])) = match f x with Some y => Some y | None => last (omap f l) end.
Proof. rewrite omap_app. cbn [omap list_omap]. destruct (f x) as [y|]; [by rewrite last_snoc|by rewrite app_nil_r]. Qed.

Lemma counts_snoc l s range :
  count clean (l ++ [s]) = count clean l + (if clean s then 1 else 0)
  /\ count is_uart (l ++ [s]) = count is_uart l + (if is_uart s then 1 else 0)
  /\ count is_resync (l ++ [s]) = count is_resync l + (if is_resync s then 1 else 0)
  /\ count is_unexpected (l ++ [s]) = count is_unexpected l + (if is_unexpected s then 1 else 0)
  /\ (forall x, count (is_invalid range) (x :: l ++ [s]) = count (is_invalid range) (x :: l) + (if is_invalid range s then 1 else 0)).
Proof. rewrite !count_snoc. split_and!; try done. intros x. apply (count_snoc _ (x :: l)). Qed.

(** An error, not synchronised and synchronised. *)
Lemma accounts_error w l t w' s inc :
  accounts w l t w' -> clean s = false -> published (f32_of_bits (lw_range_mm w)) s = None ->
  (forall c a b d e f g, inc (add_counts c a b d e f g)
     = add_counts c a (b + if is_uart s then 1 else 0) (d + if is_resync s then 1 else 0) e
         (f + if is_unexpected s then 1 else 0) g) ->
  let '(t', w2) := laser_error inc t w' in accounts w (l ++ [s]) t' w2.
Proof.
  intros [Hr Hd Hs] Hc Hp Hinc. unfold laser_error.
  destruct Hs as [(Ht & Hn & Hk & Hlt & Hcs)|(before & s0 & after & -> & Hsy & Ht & Hcs)]; rewrite Ht.
  - split; cbn; [done|by rewrite last_omap_snoc, Hp|]. left. split; [done|].
    rewrite trail_snoc, Hc. split.
    { intros H. apply has_run_snoc in H as [|H]; [done|]. by rewrite trail_snoc, Hc in H. }
    split; [done|]. split; [done|]. rewrite count_snoc, Hc, Hcs. unfold inc_sync, add_counts. cbn. by rewrite fetch_inc_add.
  - split; cbn; [done|by rewrite last_omap_snoc, Hp|]. right. exists before, s0, (after ++ [s]).
    split; [by rewrite <-app_assoc|]. split; [done|]. split; [done|].
    destruct (counts_snoc after s (f32_of_bits (lw_range_mm w))) as (-> & -> & -> & -> & ->).
    assert (Hi : is_invalid (f32_of_bits (lw_range_mm w)) s = false) by (unfold is_invalid; by rewrite Hc).
    rewrite Hcs, Hinc, Hc, Hi. by rewrite !Z.add_0_r.
Qed.

Lemma published_spec range v :
  rv_first v = true ->
  match DistanceScale_convert range (rv_value v) with
  | InRange mm => published range (SigValue v) = Some mm
  | _ => published range (SigValue v) = None
  end /\ is_invalid range (SigValue v)
       = match DistanceScale_convert range (rv_value v) with InRange _ => false | _ => true end.
Proof.
  intros Hf. unfold is_invalid, published, clean. rewrite Hf. by destruct (DistanceScale_convert range (rv_value v)).
Qed.

(** The last part of [laser_value]. *)
Lemma publish_spec w w1 v (c : LaserCounters -> LaserCounters) :
  rv_first v = true -> lw_range_mm w1 = lw_range_mm w ->
  let range := f32_of_bits (lw_range_mm w) in
  let w2 := match DistanceScale_convert (f32_of_bits (lw_range_mm w1)) (rv_value v) with
            | InRange mm => w1 <| lw_destination := f32_to_bits mm |>
            | BelowRange | AboveRange | SensorError _ => with_counters w1 c
            end in
  lw_range_mm w2 = lw_range_mm w
  /\ (forall l, lw_destination w1 = default (lw_destination w) (f32_to_bits <$> last (omap (published range) l)) ->
        lw_destination w2 = default (lw_destination w) (f32_to_bits <$> last (omap (published range) (l ++ [SigValue v]))))
  /\ lw_counters w2 = if is_invalid range (SigValue v) then c (lw_counters w1) else lw_counters w1.
Proof.
  intros Hf Hr range. rewrite Hr. destruct (published_spec range v Hf) as [Hp Hi]. cbn zeta. fold range.
  rewrite Hi. setoid_rewrite last_omap_snoc.
  destruct (DistanceScale_convert range (rv_value v)); rewrite Hp; cbn; by split_and!.
Qed.

Lemma synchronises_snoc l v :
  rv_first v = true -> ~ has_run l -> 1 + trail l = SYNC_FRAMES -> synchronises l (SigValue v).
Proof.
  intros Hf Hn Ht. split; [|exact Hn]. destruct (trail_split (l ++ [SigValue v])) as (pre & run & Hl & Hlen & Hc).
  exists pre, run. split; [exact Hl|]. split; [|exact Hc]. rewrite Hlen, trail_snoc. cbn [clean]. by rewrite Hf.
Qed.

Lemma accounts_value w l t w' v :
  accounts w l t w' -> rv_first v = true ->
  let '(t', w2) := laser_value v t w' in accounts w (l ++ [SigValue v]) t' w2.
Proof.
  intros [Hr Hd Hs] Hf. unfold laser_value. rewrite Hf. cbn [negb].
  assert (Hc : clean (SigValue v) = true) by done.
  destruct Hs as [(Ht & Hn & Hk & Hlt & Hcs)|(before & s0 & after & -> & Hsy & Ht & Hcs)].
  - rewrite Ht. cbn [negb]. unfold SYNC_FRAMES in *.
    assert (0 <= trail l) by (destruct (trail_split l) as (? & run & _ & <- & _); apply len_nonneg).
    assert (Hsat : saturating_add 8 (lt_clean_frames t) 1 = 1 + trail l).
    { unfold saturating_add, umax. rewrite Hk. lia. }
    cbn [lt_clean_frames set const]. rewrite Hsat. destruct (Z.eqb_spec (1 + trail l) 8) as [E|E]; cbn [lt_synchronised set const].
    + destruct (publish_spec w (with_counters w' inc_frames) v inc_invalid Hf Hr) as (R1 & R2 & R3).
      split; [exact R1|by apply R2|]. right. exists l, (SigValue v), [].
      split; [done|]. split; [by apply synchronises_snoc|]. split; [done|]. etransitivity; [exact R3|].
      cbn [lw_counters with_counters set const]. rewrite Hcs.
      assert (Hone : forall f s, count f [s] = if f s then 1 else 0) by (intros f s; unfold count; cbn; by destruct (f s)).
      rewrite Hone.
      destruct (is_invalid _ _); by rewrite inc_frames_add, ?inc_invalid_add.
    + rewrite Ht. destruct (publish_spec w w' v (fun c => c) Hf Hr) as (R1 & R2 & R3).
      match goal with |- accounts _ _ _ ?w2 => assert (Hw : w2 =
        match DistanceScale_convert (f32_of_bits (lw_range_mm w')) (rv_value v) with
        | InRange mm => w' <| lw_destination := f32_to_bits mm |>
        | _ => with_counters w' (fun c => c) end) end.
      { destruct (DistanceScale_convert _ _); [done|by destruct w'..]. }
      rewrite Hw. split; [exact R1|by apply R2|]. left. split; [done|].
      rewrite trail_snoc, Hc. split.
      { intros H'. apply has_run_snoc in H' as [|H']; [done|]. rewrite trail_snoc, Hc in H'. unfold SYNC_FRAMES in H'. lia. }
      split; [done|]. split; [unfold SYNC_FRAMES; lia|]. etransitivity; [exact R3|]. rewrite count_snoc, Hc, Hcs. cbn [negb]. rewrite Z.add_0_r.
      by destruct (is_invalid _ _).
  - rewrite Ht. cbn [negb]. rewrite Ht.
    destruct (publish_spec w (with_counters w' inc_frames) v inc_invalid Hf Hr) as (R1 & R2 & R3).
    split; [exact R1|by apply R2|]. right. exists before, s0, (after ++ [SigValue v]).
    split; [by rewrite <-app_assoc|]. split; [done|]. split; [done|].
    destruct (counts_snoc after (SigValue v) (f32_of_bits (lw_range_mm w))) as (-> & -> & -> & -> & ->).
    etransitivity; [exact R3|]. cbn [lw_counters with_counters set const]. rewrite Hcs, Hc.
    cbn [is_uart is_resync is_unexpected]. rewrite Hf. cbn [negb]. rewrite !Z.add_0_r.
    destruct (is_invalid _ (SigValue v)); rewrite inc_frames_add, ?inc_invalid_add; f_equal; lia.
Qed.

Lemma accounts_signal w l t w' s :
  accounts w l t w' -> let '(t', w2) := laser_signal (t, w') s in accounts w (l ++ [s]) t' w2.
Proof.
  intros Ha. destruct s as [| |v]; cbn [laser_signal].
  - apply accounts_error; [done..|]. intros. unfold inc_uart, add_counts. cbn. by rewrite fetch_inc_add, !Z.add_0_r.
  - apply accounts_error; [done..|]. intros. unfold inc_parse, add_counts. cbn. by rewrite fetch_inc_add, !Z.add_0_r.
  - destruct (rv_first v) eqn:E; [by apply accounts_value|]. unfold laser_value. rewrite E. cbn [negb].
    apply accounts_error; [done|by cbn; rewrite E|by cbn; rewrite E|]. intros. unfold inc_unexpected, add_counts. cbn.
    by rewrite E, fetch_inc_add, !Z.add_0_r.
Qed.

Lemma accounts_signals w l : counters_fit (lw_counters w) ->
  let '(t, w') := fold_left laser_signal l (LaserTask_new, w) in accounts w l t w'.
Proof.
  intros Hc. induction l as [|s l IH] using rev_ind; [by apply accounts_start|].
  rewrite fold_left_app. cbn [fold_left]. destruct (fold_left _ l _) as [t w']. by apply accounts_signal.
Qed.

(** *** Configuration *)

Definition accepted (x : Exchange) : Prop := ex_written x = true /\ (wait_for_reply (ex_reads x)).1 = WaitedReply ReplyOk.

Lemma next_accepted xs : accepted (next_exchange xs).1 -> xs = (next_exchange xs).1 :: (next_exchange xs).2.
Proof. destruct xs as [|x xs]; [by intros [_ ?]|done]. Qed.

Lemma next_suffix xs : (next_exchange xs).2 `suffix_of` xs.
Proof. destruct xs as [|x xs]; [done|]. by exists [x]. Qed.

Lemma drain_stopped_spec tail events : drain_stopped_stream tail events = events ++ replicate (length tail) Discarded.
Proof.
  revert events. induction tail as [|r tail IH]; intros events; cbn [drain_stopped_stream]; [by rewrite app_nil_r|].
  by rewrite IH, <-app_assoc.
Qed.

(** What accepted commands leave on the line. *)
Definition script (commands : list (string * list Z)) (used : list Exchange) : list UartEvent :=
  concat (zip_with (fun '(name, c) x =>
    Wrote c :: if bool_decide (name = "OUTPUT NONE"%string) then replicate (length (ex_tail x)) Discarded else [])
    commands used).

Lemma configure_loop_spec commands xs events xs' events' b :
  configure_loop commands xs events = (xs', events', b) ->
  xs' `suffix_of` xs
  /\ (b = true -> exists used, xs = used ++ xs' /\ length used = length commands /\ Forall accepted used
       /\ events' = events ++ script commands used).
Proof.
  revert xs events. induction commands as [|[name c] commands IH]; intros xs events; cbn [configure_loop].
  - intros [= <- <- <-]. split; [done|]. intros _. exists []. rewrite app_nil_r. by split_and!.
  - pose proof (next_accepted xs) as Hn. pose proof (next_suffix xs) as Hs.
    destruct (next_exchange xs) as [x rest]. cbn [fst snd] in Hn, Hs.
    destruct (ex_written x) eqn:Ew; cbn [negb]; [|by intros [= <- <- <-]].
    destruct (wait_for_reply (ex_reads x)).1 as [[|code]| |] eqn:Er; [|by intros [= <- <- <-]..].
    intros H. destruct (IH _ _ H) as [Hs2 Hb]. split; [by etransitivity|].
    intros Ht. destruct (Hb Ht) as (used & -> & Hlen & Hall & ->).
    rewrite Hn by done. exists (x :: used). split; [done|]. split; [cbn; lia|]. split; [by constructor|].
    unfold script. cbn [zip_with concat]. by case_bool_decide; rewrite ?drain_stopped_spec, <-!app_assoc.
Qed.

(** The baud rate in force. *)
Definition current_baud (events : list UartEvent) : option Z :=
  last (omap (fun e => match e with SetBaud b => Some b | _ => None end) events).

Lemma current_baud_snoc events e :
  current_baud (events ++ [e]) = match e with SetBaud b => Some b | _ => current_baud events end.
Proof. unfold current_baud. rewrite last_omap_snoc. by destruct e. Qed.

Lemma stop_attempts_spec n xs events xs' events' b :
  stop_attempts n xs events = (xs', events', b) -> xs' `suffix_of` xs /\ current_baud events' = current_baud events.
Proof.
  revert xs events. induction n as [|n IH]; intros xs events; cbn [stop_attempts]; [by intros [= <- <- <-]|].
  pose proof (next_suffix xs) as Hn. destruct (next_exchange xs) as [x rest]. cbn [snd] in Hn.
  assert (Hrec : forall events2, current_baud events2 = current_baud events ->
    stop_attempts n rest events2 = (xs', events', b) -> xs' `suffix_of` xs /\ current_baud events' = current_baud events).
  { intros events2 He H. destruct (IH _ _ H) as [Hs ->]. split; [by etransitivity|done]. }
  destruct (negb _); [by apply Hrec|].
  destruct (wait_for_reply (ex_reads x)).1; [|apply Hrec, current_baud_snoc..].
  intros [= <- <- <-]. split; [done|apply current_baud_snoc].
Qed.

Lemma probe_bauds_spec bauds xs events xs' events' detected :
  probe_bauds bauds xs events = (xs', events', detected) ->
  xs' `suffix_of` xs /\ forall baud, detected = Some baud -> current_baud events' = Some baud.
Proof.
  revert xs events. induction bauds as [|b bauds IH]; intros xs events; cbn [probe_bauds]; [by intros [= <- <- <-]|].
  pose proof (next_suffix xs) as Hn. destruct (next_exchange xs) as [x rest]. cbn [snd] in Hn.
  assert (Hrec : forall events2, probe_bauds bauds rest events2 = (xs', events', detected) ->
    xs' `suffix_of` xs /\ forall baud, detected = Some baud -> current_baud events' = Some baud).
  { intros events2 H. destruct (IH _ _ H) as [Hs Hb]. split; [by etransitivity|done]. }
  destruct (negb _); [apply Hrec|].
  destruct (wait_for_reply (ex_reads x)).1; [|apply Hrec..].
  intros [= <- <- <-]. split; [done|]. intros baud [= <-]. by rewrite !current_baud_snoc.
Qed.

Lemma detect_baudrate_spec xs events xs' events' detected :
  detect_baudrate xs events = (xs', events', detected) ->
  xs' `suffix_of` xs /\ forall baud, detected = Some baud -> current_baud events' = Some baud.
Proof.
  unfold detect_baudrate. destruct (stop_attempts 3 xs _) as [[xs1 events1] stopped] eqn:E.
  apply stop_attempts_spec in E as [Hs E]. rewrite current_baud_snoc in E. destruct stopped.
  - intros [= <- <- <-]. split; [done|]. by intros baud [= <-].
  - intros H. apply probe_bauds_spec in H as [Hs2 Hb]. split; [by etransitivity|done].
Qed.

(** ** Properties *)

(** C39. The measurement task accounts for every signal of the line, whatever comes:
    until eight measurement blocks have come in a row only [sync_errors]
    counts, one for each error; from the eighth on every block, receive error,
    malformed sequence, unexpected value and reading that is not a distance is
    counted under its name (modulo 2^32) and [sync_errors] stays; and what is
    published is always the last distance in range, or what was there before. *)
Theorem laser_accounts (w : LaserWords) (reads : list LaserRead)
    (Hc : counters_fit (lw_counters w)) (Hu : Forall undisturbed reads) :
  let l := (signals Parser_new reads).2 in
  let range := f32_of_bits (lw_range_mm w) in
  let '(t, w') := laser_run w reads in
  lw_destination w' = default (lw_destination w) (f32_to_bits <$> last (omap (published range) l))
  /\ ((lt_synchronised t = false /\ ~ has_run l
       /\ lw_counters w' = add_counts (lw_counters w) 0 0 0 0 0 (count (fun s => negb (clean s)) l))
      \/ exists before s after, l = before ++ s :: after /\ synchronises before s /\ lt_synchronised t = true
         /\ lw_counters w' = add_counts (lw_counters w) (1 + count clean after) (count is_uart after)
              (count is_resync after) (count (is_invalid range) (s :: after)) (count is_unexpected after)
              (count (fun s => negb (clean s)) before)).
Proof.
  intros l range. pose proof (laser_run_signals Parser_new (LaserTask_new, w) reads Hu) as Hr.
  pose proof (accounts_signals w l Hc) as Ha. unfold laser_run. change (LaserTask_new, w) with (set_parser Parser_new (LaserTask_new, w)) at 1.
  rewrite Hr. unfold l in *. destruct (signals Parser_new reads) as [p l']. cbn [snd] in *.
  destruct (fold_left laser_signal l' (LaserTask_new, w)) as [t w']. cbn [set_parser].
  destruct Ha as [_ Hd Hs]. split; [exact Hd|]. destruct Hs as [(H1 & H2 & _ & _ & H3)|Hs]; [by left|by right].
Qed.

(** When the configuration loop ends, the sensor was found at the required baud
    rate, and the five commands, sent in order at that rate and last of all,
    were each answered by a prompt without an error; after the first, which
    stops the old stream, everything that was still in flight has been read and
    dropped before the second is sent. *)
Theorem laser_configured (n : nat) (measrate : list Z) (xs xs' : list Exchange) (events events' : list UartEvent)
    (Hr : configured_loop n measrate xs events = (xs', events', true)) :
  exists before stop used,
    events' = before ++ [Wrote OUTPUT_NONE] ++ replicate (length (ex_tail stop)) Discarded
              ++ (Wrote <$> [measrate; NO_OUTPUT_REDUCTION; DISTANCE_ONLY; OUTPUT_RS422])
    /\ current_baud before = Some REQUIRED_BAUD
    /\ length used = 4%nat /\ stop :: used ++ xs' `suffix_of` xs /\ Forall accepted (stop :: used).
Proof.
  revert xs events Hr. induction n as [|n IH]; intros xs events; cbn [configured_loop]; [done|].
  destruct (detect_baudrate xs events) as [[xs1 events1] detected] eqn:Ed.
  apply detect_baudrate_spec in Ed as [Hs1 Hb].
  match goal with |- _ -> ?G => assert (Hrec : forall xs2 events2,
    xs2 `suffix_of` xs -> configured_loop n measrate xs2 events2 = (xs', events', true) -> G) end.
  { intros xs2 events2 Hs2 H. destruct (IH _ _ H) as (before & stop & used & H1 & H2 & H3 & H4 & H5).
    exists before, stop, used. split_and!; [exact H1|exact H2|exact H3|by etransitivity|exact H5]. }
  destruct detected as [baud|]; [|by apply (Hrec xs1 events1)]. destruct (Z.eqb_spec baud REQUIRED_BAUD) as [->|]; [|by apply (Hrec xs1 events1)].
  cbn [negb]. destruct (configure measrate xs1 events1) as [[xs2 events2] configured] eqn:Ec.
  apply configure_loop_spec in Ec as [Hs2 Hok]. destruct configured.
  - intros [= <- <-]. destruct (Hok eq_refl) as ([|stop used] & -> & Hlen & Hall & ->); [done|].
    destruct used as [|x1 [|x2 [|x3 [|x4 [|? ?]]]]]; try done.
    exists events1, stop, [x1; x2; x3; x4]. split; [|split; [by apply Hb|by split_and!]].
    unfold script. cbn -[replicate]. by rewrite app_nil_r.
  - intros H. eapply Hrec; [|exact H]. by etransitivity.
Qed.

(** ** Examples *)

(** A sensor that answers every command with [ok] and its prompt; two reads
    of the old stream follow the reply to each. *)
Definition obliging : list Exchange :=
  replicate 6 {| ex_written := true; ex_reads := Some <$> (str_bytes "ok" ++ [13; 10; 45; 62]);
                 ex_tail := [Some [66; 130]; None] |}.

Lemma laser_configured_witness :
  exists before, (configured_loop 1 (command "MEASRATE 8") obliging []).1.2
    = before ++ [Wrote OUTPUT_NONE; Discarded; Discarded]
      ++ (Wrote <$> [command "MEASRATE 8"; NO_OUTPUT_REDUCTION; DISTANCE_ONLY; OUTPUT_RS422])
    /\ current_baud before = Some REQUIRED_BAUD.
Proof.
  assert (H : configured_loop 1 (command "MEASRATE 8") obliging []
    = ([], (configured_loop 1 (command "MEASRATE 8") obliging []).1.2, true)) by by vm_compute.
  destruct (laser_configured 1 (command "MEASRATE 8") obliging [] [] _ H) as (before & stop & used & He & Hb & _ & Hs & _).
  assert (ex_tail stop = [Some [66; 130]; None]) as Et.
  { destruct Hs as [pre Hs]. assert (Hin : stop ∈ obliging) by (rewrite Hs; apply elem_of_app; right; left).
    unfold obliging in Hin. by apply elem_of_replicate in Hin as [-> _]. }
  rewrite Et in He. exists before. by split.
Defined.

Definition sample_words : LaserWords := {|
  lw_range_mm := f32_to_bits (f32_of_Z 50); lw_destination := 0;
  lw_counters := {| lc_frames_received := 0; lc_uart_errors := 0; lc_parse_errors := 0; lc_invalid_frames := 0;
                    lc_unexpected_values := 0; lc_sync_errors := umax 32 |} |}.

(** Two stray bytes, nine blocks, a receive error, an out-of-range block. *)
Definition sample_reads : list LaserRead :=
  [ReadBytes (fun w => w) ([66; 130] ++ concat (replicate 9 (value_bytes {| rv_value := 32765; rv_first := true |})));
   ReadError (fun w => w);
   ReadBytes (fun w => w) (value_bytes {| rv_value := 100; rv_first := true |})].

Lemma laser_accounts_witness :
  let '(t, w') := laser_run sample_words sample_reads in
  lt_synchronised t = true
  /\ lw_counters w' = {| lc_frames_received := 3; lc_uart_errors := 1; lc_parse_errors := 0; lc_invalid_frames := 1;
                         lc_unexpected_values := 0; lc_sync_errors := 1 |}
  /\ lw_destination w' = default 0 (f32_to_bits <$> last (omap (published (f32_of_bits (f32_to_bits (f32_of_Z 50)))) (signals Parser_new sample_reads).2)).
Proof.
  pose proof (laser_accounts sample_words sample_reads ltac:(by vm_compute) ltac:(by repeat constructor)) as H.
  assert (E : let '(t, w') := laser_run sample_words sample_reads in
    lt_synchronised t = true /\ lw_counters w' = {| lc_frames_received := 3; lc_uart_errors := 1; lc_parse_errors := 0;
      lc_invalid_frames := 1; lc_unexpected_values := 0; lc_sync_errors := 1 |}) by (vm_compute; split; reflexivity).
  destruct (laser_run sample_words sample_reads) as [t w']. destruct H as [Hd _], E as [E1 E2].
  split; [exact E1|]. split; [exact E2|]. exact Hd.
Defined.
