(* ===== verification/Rig.v ===== *)
(** * Rigs, programmes and the output-safety decision

    [helic-rt/src/rig.rs], the [Program] trait of [program.rs], and
    [safety.rs].  A trait is a type class: what an experiment supplies is an
    argument of everything that uses it. *)

From stdpp Require Import strings.
From S2P Require Import Prelude Float32 Harmonics Proto Text ParamPayload Frame Channels Shared.

#[export] Set Default Goal Selector "!".
Open Scope Z_scope.

(** ** The traits *)

Class Rig (R : Type) := {
  INPUTS : list (string * string);
  ACTUATORS : list (string * string);
  SAFETY_GATED : bool;
  rig_init : R -> R;
  (** Fills the slice of input values. *)
  measure : R -> list float -> R * list float;
  actuate : R -> list float -> R;
  prepare_reboot : R -> Z -> R * bool;
  clamp_output : R -> Z -> float -> float;
  safe_output : R -> Z -> float;
  output_fault : R -> list float -> R * bool;
  tick_start : R -> R;
  tick_end : R -> R;
  tick_phase_us : R -> option Z;
  param_names : list string;
  param_defaults : list float;
  normalise_param : Z -> float -> option float;
  set_param : R -> Z -> float -> R }.

Record StepCtx := { ctx_lut : SinLut; ctx_sample_rate : SampleRate }.

(** [None] is a panic. *)
Class Program (P : Type) := {
  OUTPUTS : Z;
  INPUTS_REQUIRED : Z;
  DOMAINS : list Z;
  program_apply : World -> P -> Z -> Z -> Payload -> option (World * P);
  program_step : World -> P -> list float -> bool -> StepCtx -> list float ->
    option (World * P * list float);
  write_signals : P -> list float -> option (list float);
  signal_count : Z;
  signal : Z -> option (string * string);
  program_fault : P -> bool }.

(** The signals of a programme, as a list. *)
Class ProgramSignals (P : Type) `{Program P} (signals : list (string * string)) := {
  signal_count_ok : signal_count (P := P) = len signals;
  signal_ok i : 0 <= i -> signal (P := P) i = index signals i }.

(** ** Stream sources *)

Definition COMMAND_EPOCH_SOURCE : string * string := ("cmd_epoch", "count")%string.

Section sources.
Context (R P : Type) `{Rig R, Program P}.

Definition source_count : Z :=
  len (INPUTS (R := R)) + signal_count (P := P) + len (ACTUATORS (R := R)) + 1.

(** [checked_sub]. *)
Definition checked_sub (a b : Z) : option Z := if b <=? a then Some (a - b) else None.

Definition source (i : Z) : option (string * string) :=
  match index (INPUTS (R := R)) i with
  | Some s => Some s
  | None =>
      let i := i - len (INPUTS (R := R)) in
      match signal (P := P) i with
      | Some s => Some s
      | None =>
          i ← checked_sub i (signal_count (P := P));
          match index (ACTUATORS (R := R)) i with
          | Some s => Some s
          | None =>
              i ← checked_sub i (len (ACTUATORS (R := R)));
              if i =? 0 then Some COMMAND_EPOCH_SOURCE else None
          end
      end
  end.

Definition DISCOVERY_HEADROOM : Z := MAX_PAYLOAD * 3 / 4.

(** The start-up assertions: [Panic] when one fails. *)
Definition validate_sources : outcome Empty_set unit :=
  _ ← assert_that (source_count <=? MAX_SOURCES);
  _ ← assert_that (INPUTS_REQUIRED (P := P) <=? len (INPUTS (R := R)));
  _ ← assert_that (OUTPUTS (P := P) =? len (ACTUATORS (R := R)));
  _ ← assert_that (OUTPUTS (P := P) <=? MAX_ACTUATORS);
  encoded_len ← for_each (fun i encoded_len =>
    '(name, unit) ← or_panic (source i);
    _ ← assert_that ((str_len name <=? MAX_NAME_LEN) && (str_len unit <=? MAX_UNIT_LEN)
                     && str_is_ascii name && str_is_ascii unit);
    _ ← for_each (fun j _ =>
          other ← or_panic (source j);
          assert_that (negb (String.eqb name (fst other)))) (seqZ 0 i) ();
    Ok (encoded_len + str_len name + str_len unit + 2)) (seqZ 0 source_count) 0;
  assert_that (encoded_len <=? DISCOVERY_HEADROOM).

End sources.

(** ** The safety decision *)

Record SafetyOutcome := { so_newly_tripped : bool; so_quieted : bool; so_clamped : bool }.
Definition SafetyOutcome_default : SafetyOutcome :=
  {| so_newly_tripped := false; so_quieted := false; so_clamped := false |}.

Section decide.
Context {R : Type} `{Rig R}.

(** The loop over the zipped slices, from actuator [i]. *)
Fixpoint clamp_outputs (rig : R) (i : Z) (commanded applied : list float)
    : list float * bool :=
  match commanded, applied with
  | c :: commanded, _ :: applied =>
      let a := clamp_output rig i c in
      let '(rest, clamped) := clamp_outputs rig (i + 1) commanded applied in
      (a :: rest, fne a c || clamped)
  | _, _ => (applied, false)
  end.

Definition safety_decide (rig : R) (inputs : SafetyInputs) (fault : bool)
    (commanded applied : list float) : option (list float * SafetyOutcome) :=
  if negb (SAFETY_GATED (R := R)) then
    if len applied =? len commanded then Some (commanded, SafetyOutcome_default) else None
  else
    let newly_tripped := fault || existsb (fun v => negb (is_finite v)) commanded in
    if newly_tripped || si_tripped inputs || negb (si_armed inputs) then
      Some (imap (fun i _ => safe_output rig (Z.of_nat i)) applied,
            {| so_newly_tripped := newly_tripped; so_quieted := true; so_clamped := false |})
    else
      let '(applied, clamped) := clamp_outputs rig 0 commanded applied in
      Some (applied, {| so_newly_tripped := false; so_quieted := false; so_clamped := clamped |}).

(** ** Lemmas *)

Definition safe_outputs (rig : R) (n : nat) : list float :=
  (fun i => safe_output rig (Z.of_nat i)) <$> seq 0 n.

Definition clamped_outputs (rig : R) (commanded : list float) : list float :=
  imap (fun i c => clamp_output rig (Z.of_nat i) c) commanded.

Lemma imap_safe rig l : imap (fun i (_ : float) => safe_output rig (Z.of_nat i)) l
  = safe_outputs rig (length l).
Proof.
  unfold safe_outputs.
  apply list_eq. intros i. rewrite list_lookup_imap, list_lookup_fmap.
  destruct (decide (i < length l)%nat) as [Hi|Hi].
  - destruct (lookup_lt_is_Some_2 l i Hi) as [x Hx].
    by rewrite Hx, lookup_seq_lt.
  - rewrite !lookup_ge_None_2; [done| |lia]. rewrite length_seq. lia.
Qed.

Lemma clamp_outputs_spec rig i commanded applied :
  length commanded = length applied ->
  clamp_outputs rig i commanded applied
  = (imap (fun j c => clamp_output rig (i + Z.of_nat j) c) commanded,
     existsb (fun jc => fne (clamp_output rig (i + Z.of_nat jc.1) jc.2) jc.2)
       (imap pair commanded)).
Proof.
  revert i applied. induction commanded as [|c commanded IH]; intros i [|a applied] Hl; try done.
  cbn [clamp_outputs]. rewrite IH by (cbn in Hl; lia). rewrite !imap_cons. cbn [existsb fst snd].
  rewrite Z.add_0_r. f_equal.
  - f_equal. apply imap_ext. intros j x _. cbn. f_equal. lia.
  - f_equal. generalize 0%nat as k.
    assert (Hg : forall k, existsb (fun jc => fne (clamp_output rig (i + 1 + Z.of_nat jc.1) jc.2) jc.2)
        (imap (fun j => pair (k + j)%nat) commanded)
      = existsb (fun jc => fne (clamp_output rig (i + Z.of_nat jc.1) jc.2) jc.2)
        (imap (fun j => pair (S (k + j))%nat) commanded)).
    { clear. induction commanded as [|c l IH]; intros k; [done|].
      rewrite !imap_cons. cbn [existsb fst snd]. f_equal; [do 2 f_equal; lia|].
      etransitivity; [|etransitivity; [exact (IH (S k))|]]; f_equal; apply imap_ext;
        intros j x _; cbn; f_equal; lia. }
    intros _. exact (Hg 0%nat).
Qed.
End decide.

(** ** Properties *)

(** C11. The decision, on every branch, for a gated rig: the complete actuator
    vector is the clamped command exactly when the output is armed, not
    tripped, fault-free and every command is finite; in every other case it is
    the complete vector of safe values, and a trip is requested exactly for a
    fault or a non-finite command, whatever the snapshot said. *)
Theorem safety_decide_spec {R : Type} `{Rig R} (rig : R) (inputs : SafetyInputs) (fault : bool)
    (commanded applied : list float) (Hg : SAFETY_GATED (R := R) = true)
    (Hl : length applied = length commanded) :
  let bad := fault || existsb (fun v => negb (is_finite v)) commanded in
  let enabled := negb bad && si_armed inputs && negb (si_tripped inputs) in
  exists applied' o, safety_decide rig inputs fault commanded applied = Some (applied', o)
    /\ applied' = (if enabled then clamped_outputs rig commanded
                   else safe_outputs rig (length commanded))
    /\ so_newly_tripped o = bad /\ so_quieted o = negb enabled
    /\ (so_clamped o = true <-> enabled = true /\
        exists i c, commanded !! i = Some c /\ fne (clamp_output rig (Z.of_nat i) c) c = true).
Proof.
  intros bad enabled. unfold safety_decide. rewrite Hg. cbn [negb]. fold bad.
  destruct (bad || si_tripped inputs || negb (si_armed inputs)) eqn:E.
  - assert (He : enabled = false).
    { unfold enabled. by destruct bad, (si_tripped inputs), (si_armed inputs). }
    rewrite He, imap_safe, Hl. eexists _, _. split; [done|]. cbn. split_and!; try done.
    split; [done|]. by intros [? _].
  - assert (He : enabled = true /\ bad = false).
    { unfold enabled. by destruct bad, (si_tripped inputs), (si_armed inputs). }
    destruct He as [-> ->]. rewrite clamp_outputs_spec by done.
    eexists _, _. split; [done|]. cbn. split_and!; try done.
    rewrite existsb_exists. split.
    + intros ([j c] & Hin & Hne). split; [done|]. exists j, c. split; [|done].
      apply list_elem_of_In, elem_of_lookup_imap in Hin as (j' & c' & Heq & Hj).
      by simplify_eq.
    + intros [_ (j & c & Hj & Hne)]. exists (j, c). split; [|done].
      apply list_elem_of_In, elem_of_lookup_imap. eauto.
Qed.

Lemma source_index {R P : Type} `{Rig R, Program P} (signals : list (string * string))
    `{!ProgramSignals P signals} (i : Z) : 0 <= i ->
  source R P i = index (INPUTS (R := R) ++ signals ++ ACTUATORS (R := R)
                        ++ [COMMAND_EPOCH_SOURCE]) i.
Proof.
  intros Hi.
  assert (Ha : forall (l1 l2 : list (string * string)) j, 0 <= j ->
    index (l1 ++ l2) j = match index l1 j with Some x => Some x | None => index l2 (j - len l1) end).
  { intros l1 l2 j Hj. unfold index, len. rewrite (proj2 (Z.leb_le 0 j)) by done.
    rewrite lookup_app. destruct (l1 !! Z.to_nat j) eqn:E; [done|].
    apply lookup_ge_None_1 in E. rewrite (proj2 (Z.leb_le _ _)) by lia. f_equal. lia. }
  assert (Hlt : forall (l : list (string * string)) j, index l j = None -> 0 <= j -> len l <= j).
  { intros l j E Hj. destruct (Z.le_gt_cases (len l) j); [done|].
    destruct (index_is_Some l j) as [x Hx]; [lia|]. congruence. }
  unfold source, checked_sub. rewrite Ha by done.
    destruct (index INPUTS i) eqn:E1; [done|]. apply Hlt in E1; [|done].
    rewrite signal_ok, Ha by lia.
    destruct (index signals (i - len INPUTS)) eqn:E2; [done|]. apply Hlt in E2; [|lia].
    rewrite signal_count_ok, (proj2 (Z.leb_le _ _)), Ha by lia. cbn [mbind option_bind].
    destruct (index ACTUATORS (i - len INPUTS - len signals)) eqn:E3; [done|].
    apply Hlt in E3; [|lia]. rewrite (proj2 (Z.leb_le _ _)) by lia. cbn [mbind option_bind].
    unfold index. rewrite (proj2 (Z.leb_le _ _)) by lia.
    destruct (Z.eqb_spec (i - len INPUTS - len signals - len ACTUATORS) 0) as [-> | Hne]; [done|].
    destruct (Z.to_nat (i - len INPUTS - len signals - len ACTUATORS)) eqn:En; [lia|done].
Qed.

Lemma source_is_Some {R P : Type} `{Rig R, Program P} (signals : list (string * string))
    `{!ProgramSignals P signals} (i : Z) : 0 <= i ->
  is_Some (source R P i) <-> i < source_count R P.
Proof.
  intros Hi. rewrite (source_index signals) by done. unfold source_count. rewrite signal_count_ok.
  set (l := _ ++ _). assert (Hl : len l = len (INPUTS (R := R)) + len signals
    + len (ACTUATORS (R := R)) + 1) by (unfold l; rewrite !len_app, len_cons, len_nil; lia).
  rewrite <-Hl. split.
  - intros [x Hx]. apply index_Some in Hx as [_ Hx]. apply lookup_lt_Some in Hx.
    unfold len. lia.
  - intros. by apply index_is_Some.
Qed.

(** The discovery walk concatenates the rig's inputs, the programme's signals,
    the actuators and the command epoch, in that order and without gaps, and
    has exactly [source_count] entries. *)
Theorem source_walk {R P : Type} `{Rig R, Program P} (signals : list (string * string))
    `{!ProgramSignals P signals} (i : Z) (Hi : 0 <= i) :
  source R P i = index (INPUTS (R := R) ++ signals ++ ACTUATORS (R := R)
                        ++ [COMMAND_EPOCH_SOURCE]) i
  /\ (is_Some (source R P i) <-> i < source_count R P).
Proof.
  split; [by apply source_index|by apply (source_is_Some signals)].
Qed.

(** ** Examples *)

(** Two gated actuators of limits 1 and 2, safe at 10 and 11. *)
Inductive VectorRig := vector_rig.

#[export] Instance VectorRig_rig : Rig VectorRig := {|
  INPUTS := []; ACTUATORS := [("left", "V"); ("right", "V")]%string; SAFETY_GATED := true;
  rig_init r := r; measure r l := (r, l); actuate r _ := r; prepare_reboot r _ := (r, true);
  clamp_output r i x := fmax (fneg (f32_of_Z (i + 1))) (fmin x (f32_of_Z (i + 1)));
  safe_output r i := f32_of_Z (10 + i); output_fault r _ := (r, false);
  tick_start r := r; tick_end r := r; tick_phase_us r := None;
  param_names := []; param_defaults := []; normalise_param _ _ := None; set_param r _ _ := r |}.

Lemma safety_decide_spec_witness :
  exists applied o,
    safety_decide vector_rig {| si_armed := true; si_tripped := false |} false
      [f32_of_Z 3; fneg (f32_of_Z 3)] [f0; f0] = Some (applied, o)
    /\ applied = [f1; fneg (f32_of_Z 2)] /\ so_quieted o = false /\ so_clamped o = true.
Proof.
  destruct (@safety_decide_spec VectorRig VectorRig_rig vector_rig {| si_armed := true; si_tripped := false |} false
    [f32_of_Z 3; fneg (f32_of_Z 3)] [f0; f0] eq_refl eq_refl) as (applied & o & E & Ha & _ & Hq & Hc).
  exists applied, o. split; [exact E|]. split; [rewrite Ha; vm_compute; reflexivity|].
  split; [rewrite Hq; vm_compute; reflexivity|].
  apply Hc. split; [vm_compute; reflexivity|]. exists 0%nat, (f32_of_Z 3).
  split; vm_compute; reflexivity.
Defined.

Inductive PhaseProgram := phase_program.

#[export] Instance PhaseProgram_program : Program PhaseProgram := {|
  OUTPUTS := 2; INPUTS_REQUIRED := 0; DOMAINS := [1];
  program_apply w p _ _ _ := Some (w, p);
  program_step w p _ _ _ outputs := Some (w, p, outputs);
  write_signals p out := Some out;
  signal_count := 1; signal i := index [("phase", "turn")]%string i;
  program_fault p := false |}.

#[export] Instance PhaseProgram_signals : ProgramSignals PhaseProgram [("phase", "turn")]%string.
Proof. by split. Defined.

Lemma source_walk_witness :
  source VectorRig PhaseProgram 3 = Some ("cmd_epoch", "count")%string
  /\ source VectorRig PhaseProgram 4 = None
  /\ validate_sources VectorRig PhaseProgram = Ok ().
Proof.
  split; [|split].
  - rewrite (proj1 (source_walk (R := VectorRig) (P := PhaseProgram) [("phase", "turn")]%string 3
      ltac:(done))). reflexivity.
  - reflexivity.
  - vm_compute. reflexivity.
Defined.
