(* ===== verification/Program.v ===== *)
(** * Controls and the standard programme

    [helic-rt/src/control.rs] and [program.rs]: the control policies and the
    composition of harmonic generator, waveform table and controller that runs
    between measurement and actuation. *)

From stdpp Require Import strings.
From S2P Require Import Prelude Float32 Phase Harmonics Pid Table TableBuffer Channels Shared Rig.

(** ** [StandardControl] *)

Record StandardControlInputs := {
  in_measured : list float; in_reference : float; in_reference_mean : float;
  in_forcing : float; in_table : float; in_frame : HarmonicFrame; in_current_increment : Z }.

Record ControlStep := { cs_output : float; cs_next_increment : option Z }.

Class StandardControl (C : Type) := {
  control_inputs_required : Z;
  REFERENCE_UNIT : string;
  TELEMETRY : list (string * string);
  control_step : C -> StandardControlInputs -> StepCtx -> option (C * ControlStep);
  control_apply : C -> Z -> Payload -> C;
  control_reset : C -> C;
  set_output_enabled : C -> bool -> C;
  control_telemetry : C -> list float -> list float;
  control_fault : C -> bool;
  scalar_param_names : list string;
  scalar_param_value : C -> Z -> option float;
  normalise_scalar_param : Z -> float -> Z -> option float }.

(** [PassThrough]: the defaults of the trait, and the sum of the signals. *)
Inductive PassThrough := pass_through.

Definition PassThrough_step (c : PassThrough) (i : StandardControlInputs) (_ : StepCtx)
    : option (PassThrough * ControlStep) :=
  Some (c, {| cs_output := fadd (fadd (in_reference i) (in_forcing i)) (in_table i);
              cs_next_increment := None |}).

Definition default_normalise_scalar (names : list string) (id : Z) (value : float) (_ : Z)
    : option float :=
  match index names id with
  | Some _ => if is_finite value then Some value else None
  | None => None
  end.

#[export] Instance PassThrough_control : StandardControl PassThrough := {|
  control_inputs_required := 0; REFERENCE_UNIT := "V"; TELEMETRY := [];
  control_step := PassThrough_step; control_apply c _ _ := c; control_reset c := c;
  set_output_enabled c _ := c; control_telemetry _ out := out; control_fault _ := false;
  scalar_param_names := []; scalar_param_value _ _ := None;
  normalise_scalar_param := default_normalise_scalar [] |}.

(** [PidController<FEEDBACK>]. *)
Record PidController := { pd_pid : Pid; pd_error : float; pd_output_enabled : bool }.

Definition PidController_new (pid : Pid) : PidController :=
  {| pd_pid := pid; pd_error := S754_nan; pd_output_enabled := false |}.

Section pid_controller.
Variable FEEDBACK : Z.

Definition PidController_step (c : PidController) (i : StandardControlInputs) (ctx : StepCtx)
    : option (PidController * ControlStep) :=
  if negb (pd_output_enabled c)
  then Some (c, {| cs_output := f0; cs_next_increment := None |})
  else
    m ← index (in_measured i) FEEDBACK;
    let error := fsub (in_reference i) m in
    '(pid, u) ← Pid_update (pd_pid c) error (SampleRate_dt (ctx_sample_rate ctx));
    Some (c <| pd_error := error |> <| pd_pid := pid |>,
          {| cs_output := fadd (fadd u (in_forcing i)) (in_table i);
             cs_next_increment := None |}).

Definition PidController_apply (c : PidController) (id : Z) (payload : Payload) : PidController :=
  match payload with
  | PF32 v =>
      let cfg := pid_config (pd_pid c) in
      let cfg :=
        if id =? 0 then cfg <| pc_kp := v |>
        else if id =? 1 then cfg <| pc_ki := v |>
        else if id =? 2 then cfg <| pc_kd := v |>
        else if id =? 3 then cfg <| pc_tau_d := v |>
        else cfg in
      c <| pd_pid := (pd_pid c) <| pid_config := cfg |> |>
  | _ => c
  end.

Definition PidController_reset (c : PidController) : PidController :=
  c <| pd_pid := Pid_reset (pd_pid c) |> <| pd_error := S754_nan |>.

Definition PidController_telemetry (c : PidController) (out : list float) : list float :=
  match out with [] => [] | _ :: out => pd_error c :: out end.

Definition PidController_names : list string :=
  ["ctrl_kp"; "ctrl_ki"; "ctrl_kd"; "ctrl_tau_d"]%string.

Definition PidController_value (c : PidController) (id : Z) : option float :=
  let cfg := pid_config (pd_pid c) in
  if id =? 0 then Some (pc_kp cfg) else if id =? 1 then Some (pc_ki cfg)
  else if id =? 2 then Some (pc_kd cfg) else if id =? 3 then Some (pc_tau_d cfg) else None.

Definition PidController_normalise (id : Z) (value : float) (_ : Z) : option float :=
  if negb (is_finite value) then None
  else if (0 <=? id) && (id <=? 2) then Some value
  else if (id =? 3) && fge value f0 then Some value
  else None.

#[export] Instance PidController_control : StandardControl PidController := {|
  control_inputs_required := FEEDBACK + 1; REFERENCE_UNIT := "V";
  TELEMETRY := [("error", "V")]%string;
  control_step := PidController_step; control_apply := PidController_apply;
  control_reset := PidController_reset;
  set_output_enabled c b := c <| pd_output_enabled := b |>;
  control_telemetry := PidController_telemetry; control_fault _ := false;
  scalar_param_names := PidController_names; scalar_param_value := PidController_value;
  normalise_scalar_param := PidController_normalise |}.
End pid_controller.

(** ** [StandardProgram] *)

(** The active endpoints are the cached bank numbers: the buffers themselves
    and the shared atomics are in the [World]. *)
Record StandardProgram (C : Type) := {
  st_controller : C; st_generator : HarmonicGenerator; st_nominal_increment : Z;
  st_frequency_overridden : bool; st_target_coeffs : Active; st_forcing_coeffs : Active;
  st_table_player : TablePlayer; st_active_table : Active; st_target : float;
  st_forcing : float; st_table : float; st_phase_turns : float; st_output_enabled : bool }.
Arguments Build_StandardProgram {C}.
Arguments st_controller {C}.
Arguments st_generator {C}.
Arguments st_nominal_increment {C}.
Arguments st_frequency_overridden {C}.
Arguments st_target_coeffs {C}.
Arguments st_forcing_coeffs {C}.
Arguments st_table_player {C}.
Arguments st_active_table {C}.
Arguments st_target {C}.
Arguments st_forcing {C}.
Arguments st_table {C}.
Arguments st_phase_turns {C}.
Arguments st_output_enabled {C}.

Section standard.
Context {C : Type} `{StandardControl C}.
Variable Hn : nat. (* the harmonic count [H] *)
Implicit Types p : StandardProgram C.

Definition StandardProgram_new (controller : C) (target forcing table : Active)
    : option (StandardProgram C) :=
  if Z.of_nat Hn <=? MAX_HARMONICS then Some {|
    st_controller := controller; st_generator := HarmonicGenerator_new Hn;
    st_nominal_increment := 0; st_frequency_overridden := false;
    st_target_coeffs := target; st_forcing_coeffs := forcing;
    st_table_player := TablePlayer_new; st_active_table := table;
    st_target := f0; st_forcing := f0; st_table := f0; st_phase_turns := f0;
    st_output_enabled := false |} else None.

Definition STANDARD_SIGNALS : list (string * string) :=
  [("target", REFERENCE_UNIT (C := C)); ("forcing", "V"); ("table", "V"); ("phase", "turn")]%string.

Definition apply_generator (w : World) p (id : Z) (payload : Payload)
    : World * StandardProgram C :=
  match payload with
  | PU32 increment =>
      if id =? command_id.generator.SET_INCREMENT then
        let p := p <| st_nominal_increment := increment |> in
        (w, if negb (st_frequency_overridden p)
            then p <| st_generator := HarmonicGenerator_set_increment (st_generator p) increment |>
            else p)
      else (w, p)
  | PBuffer token =>
      if id =? command_id.generator.SET_TARGET then
        let '(b, a) := Active_activate (w_target w) (st_target_coeffs p) token in
        (w <| w_target := b |>, p <| st_target_coeffs := a |>)
      else if id =? command_id.generator.SET_FORCING then
        let '(b, a) := Active_activate (w_forcing w) (st_forcing_coeffs p) token in
        (w <| w_forcing := b |>, p <| st_forcing_coeffs := a |>)
      else (w, p)
  | _ => (w, p)
  end.

Definition set_player p (t : TablePlayer) : StandardProgram C := p <| st_table_player := t |>.

Definition apply_table (w : World) p (id : Z) (payload : Payload)
    : option (World * StandardProgram C) :=
  let t := st_table_player p in
  match payload with
  | PU32 v =>
      Some (w,
        if id =? command_id.table.SET_INCREMENT then set_player p (TablePlayer_set_increment t v)
        else if id =? command_id.table.SET_INTERPOLATION then
          match TableInterpolation_from_u32 v with
          | Some i => set_player p (TablePlayer_set_interpolation t i)
          | None => p
          end
        else if id =? command_id.table.SET_MODE then
          match TableMode_from_u32 v with
          | Some m => set_player p (TablePlayer_set_mode t m)
          | None => p
          end
        else if id =? command_id.table.SET_MULTIPLIER then
          set_player p (TablePlayer_set_multiplier t v)
        else if id =? command_id.table.SET_PHASE then
          set_player p (TablePlayer_set_phase_offset t v)
        else p)
  | PF32 v =>
      Some (w, if id =? command_id.table.SET_GAIN then set_player p (TablePlayer_set_gain t v) else p)
  | PUnit =>
      Some (w, if id =? command_id.table.TRIGGER then set_player p (TablePlayer_trigger t) else p)
  | PBuffer token =>
      if id =? command_id.table.ACTIVATE then
        let '(b, a) := Active_activate (w_table w) (st_active_table p) token in
        active ← Active_get b a;
        let shared := w_shared w in
        Some (w <| w_table := b |>
                <| w_shared := shared <| rs_live :=
                     (rs_live shared) <| lv_active_table_len := wt_len active |> |> |>,
              p <| st_active_table := a |>)
      else Some (w, p)
  end.

Definition StandardProgram_apply (w : World) p (domain id : Z) (payload : Payload)
    : option (World * StandardProgram C) :=
  if domain =? DOMAIN_GENERATOR then Some (apply_generator w p id payload)
  else if domain =? DOMAIN_TABLE then apply_table w p id payload
  else if domain =? DOMAIN_CONTROLLER then
    Some (w, p <| st_controller := control_apply (st_controller p) id payload |>)
  else Some (w, p).

(** The signals of one tick: generator, projections, table. *)
Definition step_signals (w : World) p (ctx : StepCtx) : option (StandardProgram C * FourierCoeffs) :=
  g ← HarmonicGenerator_step (st_generator p) Hn (ctx_lut ctx);
  let frame := hg_frame g in
  target_coeffs ← Active_get (w_target w) (st_target_coeffs p);
  target ← HarmonicFrame_project frame Hn target_coeffs;
  forcing_coeffs ← Active_get (w_forcing w) (st_forcing_coeffs p);
  forcing ← HarmonicFrame_project frame Hn forcing_coeffs;
  active ← Active_get (w_table w) (st_active_table p);
  '(player, table) ← TablePlayer_step (st_table_player p) active (hf_phase frame)
                       (hf_period_start frame);
  Some (p <| st_generator := g |> <| st_target := target |> <| st_forcing := forcing |>
          <| st_table_player := player |> <| st_table := table |>
          <| st_phase_turns := HarmonicFrame_phase_turns frame |>, target_coeffs).

(** Enabling resets the controller; the flag is passed on. *)
Definition step_enable p (output_enabled : bool) : StandardProgram C :=
  let c := if output_enabled && negb (st_output_enabled p)
           then control_reset (st_controller p) else st_controller p in
  p <| st_controller := set_output_enabled c output_enabled |>
    <| st_output_enabled := output_enabled |>.

(** The increment of the next tick: the controller's while enabled. *)
Definition step_finish p (output_enabled : bool) (c : C) (cs : ControlStep)
    : StandardProgram C :=
  let next := if output_enabled
              then default (st_nominal_increment p) (cs_next_increment cs)
              else st_nominal_increment p in
  p <| st_controller := c |>
    <| st_frequency_overridden :=
         output_enabled && bool_decide (is_Some (cs_next_increment cs)) |>
    <| st_generator := HarmonicGenerator_set_increment (st_generator p) next |>.

Definition StandardProgram_step (w : World) p (inputs : list float) (output_enabled : bool)
    (ctx : StepCtx) (outputs : list float)
    : option (World * StandardProgram C * list float) :=
  let current_increment := HarmonicGenerator_increment (st_generator p) in
  '(p, target_coeffs) ← step_signals w p ctx;
  let p := step_enable p output_enabled in
  '(c, cs) ← control_step (st_controller p)
     {| in_measured := inputs; in_reference := st_target p;
        in_reference_mean := fc_mean target_coeffs; in_forcing := st_forcing p;
        in_table := st_table p; in_frame := hg_frame (st_generator p);
        in_current_increment := current_increment |} ctx;
  let p := step_finish p output_enabled c cs in
  outputs ← put outputs 0 (if output_enabled then cs_output cs else f0);
  Some (w, p, outputs).

Definition StandardProgram_write_signals p (out : list float) : option (list float) :=
  let telemetry := len (TELEMETRY (C := C)) in
  head ← slice out 0 telemetry;
  out ← blit out 0 (control_telemetry (st_controller p) head);
  out ← put out telemetry (st_target p);
  out ← put out (telemetry + 1) (st_forcing p);
  out ← put out (telemetry + 2) (st_table p);
  put out (telemetry + 3) (st_phase_turns p).

Definition StandardProgram_signal_count : Z :=
  len (TELEMETRY (C := C)) + len STANDARD_SIGNALS.

Definition StandardProgram_signal (i : Z) : option (string * string) :=
  match index (TELEMETRY (C := C)) i with
  | Some s => Some s
  | None => i ← checked_sub i (len (TELEMETRY (C := C))); index STANDARD_SIGNALS i
  end.

#[export] Instance StandardProgram_program : Program (StandardProgram C) := {|
  OUTPUTS := 1;
  INPUTS_REQUIRED := control_inputs_required (C := C);
  DOMAINS := [DOMAIN_GENERATOR; DOMAIN_TABLE; DOMAIN_CONTROLLER];
  program_apply := StandardProgram_apply;
  program_step := StandardProgram_step;
  write_signals := StandardProgram_write_signals;
  signal_count := StandardProgram_signal_count;
  signal := StandardProgram_signal;
  program_fault p := control_fault (st_controller p) |}.
End standard.

(** ** Invariants *)

(** What the standard programme relies on from a control policy: in a state
    [ok], a step on enough inputs returns, and nothing leaves [ok]. *)
Class ControlLaws (C : Type) `{StandardControl C} (ok : C -> Prop) := {
  control_step_ok c i ctx :
    ok c -> control_inputs_required (C := C) <= len (in_measured i) ->
    exists c' cs, control_step c i ctx = Some (c', cs) /\ ok c';
  control_apply_ok c id payload : ok c -> ok (control_apply c id payload);
  control_reset_ok c : ok c -> ok (control_reset c);
  set_output_enabled_ok c b : ok c -> ok (set_output_enabled c b);
  control_telemetry_len c out : len (control_telemetry c out) = len out }.

#[export] Instance PassThrough_laws : ControlLaws PassThrough (fun _ => True).
Proof. split; try done. intros. by eexists _, _. Qed.

#[export] Instance PidController_laws (FEEDBACK : Z) :
  ControlLaws PidController (H := PidController_control FEEDBACK)
    (fun c => 0 <= FEEDBACK /\ limits_ok (pid_config (pd_pid c))).
Proof.
  split; cbn [control_step control_apply control_reset set_output_enabled control_telemetry
              control_inputs_required PidController_control].
  - intros c i ctx [Hf Hc] Hl. unfold PidController_step.
    destruct (pd_output_enabled c); cbn [negb]; [|by eexists _, _].
    destruct (index_is_Some (in_measured i) FEEDBACK) as [m ->]; [lia|]. rewrite bind_Some.
    destruct (Pid_update_spec (pd_pid c) (fsub (in_reference i) m)
      (SampleRate_dt (ctx_sample_rate ctx)) Hc) as (p' & u & -> & Hp & _).
    rewrite bind_Some. eexists _, _. split; [reflexivity|]. split; [done|].
    unfold limits_ok in *. cbn. by rewrite Hp.
  - intros c id [] Hc; try done. unfold PidController_apply. cbn.
    repeat match goal with |- context [if ?b then _ else _] => destruct b end; done.
  - done.
  - done.
  - by intros c [|x out].
Qed.

(** A double buffer and its active endpoint: two banks that satisfy [Q]. *)
Definition endpoint_ok {T} (Q : T -> Prop) (b : DoubleBuffer T) (a : Active) : Prop :=
  (exists x y, db_banks b = [x; y] /\ Q x /\ Q y)
  /\ (ac_current a = 0 \/ ac_current a = 1) /\ 0 <= db_pending b <= 2.

Lemma endpoint_get {T} (Q : T -> Prop) b a :
  endpoint_ok Q b a -> exists x, Active_get b a = Some x /\ Q x.
Proof.
  unfold Active_get. intros ((x & y & -> & Hx & Hy) & [-> | ->] & _); eauto.
Qed.

Lemma endpoint_activate {T} (Q : T -> Prop) b a t :
  endpoint_ok Q b a ->
  endpoint_ok Q (Active_activate b a t).1 (Active_activate b a t).2.
Proof.
  unfold Active_activate, NO_PENDING. intros Hok. pose proof Hok as (Hb & Ha & Hp).
  destruct (negb _); [done|].
  destruct ((db_pending b =? 0) || _) eqn:E; [done|]. bool_facts.
  unfold endpoint_ok. cbn. split_and!; try done; lia.
Qed.

Definition player_ok (t : TablePlayer) : Prop := phase_wf (tp_phase t).

Lemma player_theta_ok t m s : player_ok t -> player_ok (player_theta t m s).1.
Proof.
  unfold player_ok. intros Ht. unfold player_theta.
  pose proof (phase_step_wf _ Ht) as Ht'.
  destruct (PhaseAccumulator_step (tp_phase t)) as [a [th w]]. cbn [fst] in Ht'.
  repeat case_match; done.
Qed.

Lemma TablePlayer_step_ok t tab m s :
  player_ok t -> table_wf tab ->
  exists t' y, TablePlayer_step t tab m s = Some (t', y) /\ player_ok t'.
Proof.
  intros Ht Htab. destruct (Z.lt_ge_cases (wt_len tab) 2) as [Hn|Hn].
  - unfold TablePlayer_step. rewrite (proj2 (Z.ltb_lt _ _)) by done. by eexists _, _.
  - rewrite TablePlayer_step_theta by done. pose proof (player_theta_ok t m s Ht) as Ht'.
    destruct (player_theta t m s) as [t' th]. by eexists _, _.
Qed.

Section invariant.
Context {C : Type} `{StandardControl C} {ok : C -> Prop} `{!ControlLaws C ok}.
Variable Hn : nat.
Implicit Types p : StandardProgram C.

Definition program_ok (w : World) p : Prop :=
  generator_wf Hn (st_generator p) /\ fits 32 (st_nominal_increment p)
  /\ endpoint_ok (coeffs_wf Hn) (w_target w) (st_target_coeffs p)
  /\ endpoint_ok (coeffs_wf Hn) (w_forcing w) (st_forcing_coeffs p)
  /\ endpoint_ok table_wf (w_table w) (st_active_table p)
  /\ player_ok (st_table_player p) /\ ok (st_controller p).

(** Command payloads are 32-bit words. *)
Definition payload_ok (payload : Payload) : Prop :=
  match payload with PU32 v => fits 32 v | _ => True end.

Lemma generator_set_increment_ok g inc :
  generator_wf Hn g -> fits 32 inc -> generator_wf Hn (HarmonicGenerator_set_increment g inc).
Proof. by intros [[? _] ?] ?. Qed.

Lemma apply_generator_ok w p id payload :
  program_ok w p -> payload_ok payload ->
  program_ok (apply_generator w p id payload).1 (apply_generator w p id payload).2.
Proof.
  intros Hok Hp. pose proof Hok as (Hg & Hi & Ht & Hf & Htab & Hpl & Hc).
  unfold apply_generator. destruct payload as [|v|v|token]; try done.
  - destruct (id =? _); [|done]. cbn [payload_ok] in Hp.
    destruct (negb _); unfold program_ok; cbn; split_and!; try done.
    by apply generator_set_increment_ok.
  - destruct (id =? command_id.generator.SET_TARGET); [|destruct (id =? _); [|done]].
    + pose proof (endpoint_activate _ _ _ token Ht) as Ht'.
      destruct (Active_activate (w_target w) (st_target_coeffs p) token). unfold program_ok.
      by split_and!.
    + pose proof (endpoint_activate _ _ _ token Hf) as Hf'.
      destruct (Active_activate (w_forcing w) (st_forcing_coeffs p) token). unfold program_ok.
      by split_and!.
Qed.

Lemma set_player_ok w p t : program_ok w p -> player_ok t -> program_ok w (set_player p t).
Proof. intros (Hg & Hi & Ht & Hf & Htab & Hpl & Hc) Hp. unfold program_ok. by split_and!. Qed.

Lemma apply_table_ok w p id payload :
  program_ok w p -> payload_ok payload ->
  exists w' p', apply_table w p id payload = Some (w', p') /\ program_ok w' p'.
Proof.
  intros Hok Hp. unfold apply_table.
  assert (Hpl : player_ok (st_table_player p)) by apply Hok.
  destruct payload as [|v|v|token]; cbn [payload_ok] in Hp.
  - eexists _, _. split; [done|]. destruct (id =? _); [|done]. apply set_player_ok; [done|].
    unfold TablePlayer_trigger, player_ok in *. destruct (tp_mode _); try done.
    split; [by cbn|apply Hpl].
  - eexists _, _. split; [done|]. destruct (id =? _); [|done]. by apply set_player_ok.
  - eexists _, _. split; [done|].
    repeat match goal with |- context [if ?b then _ else _] => destruct b end; try done;
      try case_match; try done; apply set_player_ok; try done.
    split; [apply Hpl|done].
  - destruct (id =? _); [|by eexists _, _].
    destruct Hok as (Hg & Hi & Ht & Hf & Htab & _ & Hc).
    pose proof (endpoint_activate _ _ _ token Htab) as Htab'.
    destruct (Active_activate (w_table w) (st_active_table p) token) as [b a].
    cbn [fst snd] in Htab'.
    destruct (endpoint_get _ _ _ Htab') as (t & -> & _).
    rewrite bind_Some. eexists _, _. split; [reflexivity|]. unfold program_ok. by split_and!.
Qed.

Lemma StandardProgram_apply_ok w p domain id payload :
  program_ok w p -> payload_ok payload ->
  exists w' p', StandardProgram_apply w p domain id payload = Some (w', p') /\ program_ok w' p'.
Proof.
  intros Hok Hp. unfold StandardProgram_apply.
  destruct (domain =? DOMAIN_GENERATOR).
  { pose proof (apply_generator_ok w p id payload Hok Hp) as Hok'.
    destruct (apply_generator w p id payload) as [w' p']. by eexists _, _. }
  destruct (domain =? DOMAIN_TABLE); [by apply apply_table_ok|].
  destruct (domain =? DOMAIN_CONTROLLER); eexists _, _; (split; [reflexivity|]); [|done].
  destruct Hok as (Hg & Hi & Ht & Hf & Htab & Hpl & Hc). unfold program_ok. split_and!; try done.
  by apply control_apply_ok.
Qed.

Lemma step_signals_spec w p ctx :
  program_ok w p -> lut_wf (ctx_lut ctx) ->
  exists p' tc fc t, step_signals Hn w p ctx = Some (p', tc) /\ program_ok w p'
    /\ st_nominal_increment p' = st_nominal_increment p
    /\ st_output_enabled p' = st_output_enabled p /\ st_controller p' = st_controller p
    /\ Active_get (w_target w) (st_target_coeffs p) = Some tc
    /\ Active_get (w_forcing w) (st_forcing_coeffs p) = Some fc
    /\ Active_get (w_table w) (st_active_table p) = Some t
    /\ HarmonicGenerator_step (st_generator p) Hn (ctx_lut ctx) = Some (st_generator p')
    /\ FourierCoeffs_evaluate tc Hn (ctx_lut ctx) (hf_phase (hg_frame (st_generator p')))
       = Some (st_target p')
    /\ FourierCoeffs_evaluate fc Hn (ctx_lut ctx) (hf_phase (hg_frame (st_generator p')))
       = Some (st_forcing p')
    /\ TablePlayer_step (st_table_player p) t (hf_phase (hg_frame (st_generator p')))
         (hf_period_start (hg_frame (st_generator p'))) = Some (st_table_player p', st_table p').
Proof.
  intros (Hg & Hi & Ht & Hf & Htab & Hpl & Hc) Hl. unfold step_signals.
  destruct (HarmonicGenerator_step_spec Hn _ _ Hl Hg) as (g & Eg & Hg' & _ & Hb).
  destruct (endpoint_get _ _ _ Ht) as (tc & Et & Htc).
  destruct (endpoint_get _ _ _ Hf) as (fc & Ef & Hfc).
  destruct (endpoint_get _ _ _ Htab) as (t & Etab & Htt).
  destruct (FourierCoeffs_evaluate_Some tc Hn _ (hf_phase (hg_frame g)) Hl Htc) as [v Ev].
  destruct (FourierCoeffs_evaluate_Some fc Hn _ (hf_phase (hg_frame g)) Hl Hfc) as [u Eu].
  destruct (TablePlayer_step_ok (st_table_player p) t (hf_phase (hg_frame g))
    (hf_period_start (hg_frame g)) Hpl Htt) as (t' & y & Ey & Ht').
  rewrite Eg, bind_Some, Et, bind_Some, (project_eq_evaluate Hn _ _ tc Hb), Ev, bind_Some, Ef,
    bind_Some, (project_eq_evaluate Hn _ _ fc Hb), Eu, bind_Some, Etab, bind_Some, Ey, bind_Some.
  eexists _, tc, fc, t. split; [reflexivity|]. unfold program_ok. cbn. split_and!; done.
Qed.

(** What the controller of a step is given, in the state the signals left. *)
Definition controller_at p1 (enabled_before enabled : bool) : C :=
  set_output_enabled (if enabled && negb enabled_before
                      then control_reset (st_controller p1) else st_controller p1) enabled.
Definition inputs_at p1 (inputs : list float) (tc : FourierCoeffs) (increment : Z)
    : StandardControlInputs :=
  {| in_measured := inputs; in_reference := st_target p1; in_reference_mean := fc_mean tc;
     in_forcing := st_forcing p1; in_table := st_table p1;
     in_frame := hg_frame (st_generator p1); in_current_increment := increment |}.

Lemma step_control_Some w p p1 tc inputs enabled ctx outputs :
  step_signals Hn w p ctx = Some (p1, tc) -> program_ok w p1 ->
  st_output_enabled p1 = st_output_enabled p ->
  control_inputs_required (C := C) <= len inputs -> 1 <= len outputs ->
  (forall c i cs c', control_step c i ctx = Some (c', cs) ->
     match cs_next_increment cs with Some n => fits 32 n | None => True end) ->
  exists c cs outputs',
    control_step (controller_at p1 (st_output_enabled p) enabled)
      (inputs_at p1 inputs tc (HarmonicGenerator_increment (st_generator p))) ctx = Some (c, cs)
    /\ StandardProgram_step Hn w p inputs enabled ctx outputs
       = Some (w, step_finish (step_enable p1 enabled) enabled c cs, outputs')
    /\ program_ok w (step_finish (step_enable p1 enabled) enabled c cs)
    /\ len outputs' = len outputs
    /\ index outputs' 0 = Some (if enabled then cs_output cs else f0).
Proof.
  intros Es (Hg & Hin & H1 & H2 & H3 & H4 & H5) Hen Hi Ho Hnext.
  assert (Hc0 : ok (controller_at p1 (st_output_enabled p) enabled)).
  { apply set_output_enabled_ok. destruct (enabled && _); [by apply control_reset_ok|done]. }
  destruct (control_step_ok _ (inputs_at p1 inputs tc
    (HarmonicGenerator_increment (st_generator p))) ctx Hc0 Hi) as (c & cs & Ec & Hc).
  destruct (put_spec outputs 0 (if enabled then cs_output cs else f0)) as (out & Eo & Lo & Io); [lia|].
  exists c, cs, out. split; [done|]. split.
  - unfold StandardProgram_step. rewrite Es, bind_Some.
    unfold controller_at, inputs_at in Ec. rewrite <-Hen in Ec. cbn [step_enable st_controller
      st_target st_forcing st_table st_generator set const] in Ec |- *.
    rewrite Ec, bind_Some, Eo. done.
  - split; [|split; [done|by rewrite Io]].
    unfold program_ok. cbn. split_and!; try done.
    apply generator_set_increment_ok; [done|]. specialize (Hnext _ _ _ _ Ec).
    destruct enabled; [|done]. by destruct (cs_next_increment cs).
Qed.

Lemma StandardProgram_step_Some w p inputs enabled ctx outputs :
  program_ok w p -> lut_wf (ctx_lut ctx) ->
  control_inputs_required (C := C) <= len inputs -> 1 <= len outputs ->
  (forall c i cs c', control_step c i ctx = Some (c', cs) ->
     match cs_next_increment cs with Some n => fits 32 n | None => True end) ->
  exists p' outputs', StandardProgram_step Hn w p inputs enabled ctx outputs
      = Some (w, p', outputs') /\ program_ok w p' /\ len outputs' = len outputs.
Proof.
  intros Hok Hl Hi Ho Hnext.
  destruct (step_signals_spec w p ctx Hok Hl) as (p1 & tc & fc & t & Es & Hok1 & _ & Hen & _).
  destruct (step_control_Some w p p1 tc inputs enabled ctx outputs Es Hok1 Hen Hi Ho Hnext)
    as (c & cs & out & _ & E & Hok' & Lo & _). eauto.
Qed.

Lemma write_signals_Some p out :
  len out = StandardProgram_signal_count (C := C) ->
  exists out', StandardProgram_write_signals p out = Some out' /\ len out' = len out.
Proof.
  unfold StandardProgram_signal_count, StandardProgram_write_signals. intros Hl.
  change (len STANDARD_SIGNALS) with 4 in Hl. set (t := len TELEMETRY) in *.
  assert (Ht : 0 <= t) by apply len_nonneg.
  rewrite slice_ok by lia. rewrite bind_Some. rewrite Z.sub_0_r, drop_0.
  set (tel := control_telemetry _ _).
  assert (Htel : len tel = t) by (unfold tel; rewrite control_telemetry_len; apply len_take; lia).
  unfold blit at 1. rewrite !(proj2 (Z.leb_le _ _)) by lia. cbn [andb]. rewrite bind_Some.
  match goal with |- context [put ?o t _] => assert (Ho : len o = len out) end.
  { rewrite Htel, !len_app, Htel. change (take (Z.to_nat 0) out) with (@nil float).
    rewrite len_drop by lia. rewrite len_nil. lia. }
  match goal with |- context [put ?o t ?v] =>
    destruct (put_spec o t v) as (o1 & -> & L1 & _); [lia|] end. rewrite bind_Some.
  do 2 (match goal with |- context [put ?o ?i ?v] =>
    let o' := fresh "o" in destruct (put_spec o i v) as (o' & -> & ? & _); [lia|] end;
    rewrite bind_Some).
  match goal with |- context [put ?o ?i ?v] =>
    destruct (put_spec o i v) as (o4 & -> & L4 & _); [lia|] end.
  exists o4. split; [done|lia].
Qed.
End invariant.

(** ** Properties *)

(** The sample [y] a player gives of table [table] at a master phase, and its next
    state: nothing is played from a table shorter than two points or when the
    mode gives no phase, else the gain times the table at that phase. *)
Definition plays (table : WaveTable) (t t' : TablePlayer) (master : Z) (start : bool) (y : float)
    : Prop :=
  if wt_len table <? 2 then t' = t /\ y = f0
  else
    t' = (player_theta t master start).1
    /\ match (player_theta t master start).2 with
       | None => y = f0
       | Some theta => exists v,
           WaveTable_evaluate_with table theta (tp_interpolation t) = Some v /\ y = fmul (tp_gain t) v
       end.

Lemma player_theta_settings t master start :
  tp_interpolation (player_theta t master start).1 = tp_interpolation t
  /\ tp_gain (player_theta t master start).1 = tp_gain t.
Proof.
  unfold player_theta. destruct (tp_mode t), (tp_one_shot t), start; cbn; try done;
    try destruct (PhaseAccumulator_step (tp_phase t)) as [a [th []]]; cbn; try done;
    by destruct (_ <=? _).
Qed.

Lemma TablePlayer_step_plays t table master start t' y :
  TablePlayer_step t table master start = Some (t', y) -> plays table t t' master start y.
Proof.
  unfold TablePlayer_step, plays. destruct (wt_len table <? 2); [by intros [= <- <-]|].
  destruct (player_theta_settings t master start) as [<- <-].
  destruct (player_theta t master start) as [t1 [theta|]]; cbn; [|by intros [= <- <-]].
  destruct (WaveTable_evaluate_with _ _ _) as [v|]; [|done]. intros [= <- <-]. eauto.
Qed.

(** C26. One step of the standard programme, for any control policy that keeps its
    laws: it never panics and keeps every invariant; the master phase advances by
    one step of the accumulator; the reference and forcing are the active
    coefficient sets evaluated at the new master phase; the table sample is what
    the player gives of the active table bank at that phase (zero when it is not
    playing); a rising edge of the enable resets the
    controller before it runs; a disabled output is zero; and the increment of
    the next tick is the controller's only while enabled, else the nominal. *)
Theorem standard_step_spec {C : Type} `{StandardControl C} (ok : C -> Prop) `{!ControlLaws C ok}
    (Hn : nat) (w : World) (p : StandardProgram C) (inputs outputs : list float)
    (enabled : bool) (ctx : StepCtx)
    (Hok : program_ok (ok := ok) Hn w p) (Hl : lut_wf (ctx_lut ctx))
    (Hi : control_inputs_required (C := C) <= len inputs) (Ho : 1 <= len outputs)
    (Hnext : forall c i cs c', control_step c i ctx = Some (c', cs) ->
       match cs_next_increment cs with Some n => fits 32 n | None => True end) :
  exists p' outputs' tc fc table c cs,
    StandardProgram_step Hn w p inputs enabled ctx outputs = Some (w, p', outputs')
    /\ program_ok (ok := ok) Hn w p'
    /\ (hf_phase (hg_frame (st_generator p')), hf_period_start (hg_frame (st_generator p')))
       = (PhaseAccumulator_step (hg_phase (st_generator p))).2
    /\ Active_get (w_target w) (st_target_coeffs p) = Some tc
    /\ Active_get (w_forcing w) (st_forcing_coeffs p) = Some fc
    /\ FourierCoeffs_evaluate tc Hn (ctx_lut ctx) (hf_phase (hg_frame (st_generator p')))
       = Some (st_target p')
    /\ FourierCoeffs_evaluate fc Hn (ctx_lut ctx) (hf_phase (hg_frame (st_generator p')))
       = Some (st_forcing p')
    /\ index (db_banks (w_table w)) (ac_current (st_active_table p)) = Some table
    /\ plays table (st_table_player p) (st_table_player p')
         (hf_phase (hg_frame (st_generator p'))) (hf_period_start (hg_frame (st_generator p')))
         (st_table p')
    /\ control_step
         (set_output_enabled (if enabled && negb (st_output_enabled p)
                              then control_reset (st_controller p) else st_controller p) enabled)
         {| in_measured := inputs; in_reference := st_target p'; in_reference_mean := fc_mean tc;
            in_forcing := st_forcing p'; in_table := st_table p';
            in_frame := hg_frame (st_generator p');
            in_current_increment := HarmonicGenerator_increment (st_generator p) |} ctx
       = Some (c, cs)
    /\ st_controller p' = c
    /\ index outputs' 0 = Some (if enabled then cs_output cs else f0)
    /\ HarmonicGenerator_increment (st_generator p')
       = (if enabled then default (st_nominal_increment p) (cs_next_increment cs)
          else st_nominal_increment p)
    /\ (st_frequency_overridden p' = true <-> enabled = true /\ is_Some (cs_next_increment cs)).
Proof.
  destruct (step_signals_spec (ok := ok) Hn w p ctx Hok Hl) as
    (p1 & tc & fc & t & Es & Hok1 & Hnom & Hen & Hcon & Etc & Efc & Etab & Eg & Ev & Eu & Ey).
  apply TablePlayer_step_plays in Ey.
  destruct (HarmonicGenerator_step_spec Hn _ _ Hl (proj1 Hok)) as (g & Eg' & _ & Hph & _).
  assert (g = st_generator p1) as -> by congruence.
  destruct (step_control_Some (ok := ok) Hn w p p1 tc inputs enabled ctx outputs Es Hok1 Hen Hi Ho
    Hnext) as (c & cs & out & Ec & E & Hok' & _ & Io).
  unfold controller_at, inputs_at in Ec. rewrite Hcon in Ec.
  exists (step_finish (step_enable p1 enabled) enabled c cs), out, tc, fc, t, c, cs.
  split; [exact E|]. split; [exact Hok'|]. cbn -[index plays PhaseAccumulator_step]. rewrite Hnom. rewrite <-Hph.
  split_and!; try done.
  destruct enabled; cbn [andb]; [|by split; [|intros [? _]]].
  split; [intros ?; bool_facts; done|]. intros [_ ?]. by apply bool_decide_eq_true.
Qed.

(** C35. Whatever commands arrive, in whatever order and however malformed, and
    whatever is measured, the standard programme never panics: its invariant
    holds after every command and every step. *)
Theorem standard_program_never_panics {C : Type} `{StandardControl C} (ok : C -> Prop)
    `{!ControlLaws C ok} (Hn : nat) (w : World) (p : StandardProgram C)
    (commands : list RtCommand)
    (Hok : program_ok (ok := ok) Hn w p) (Hp : Forall (fun c => payload_ok (cmd_payload c)) commands) :
  exists w' p', for_each (fun c '(w, p) =>
      StandardProgram_apply w p (cmd_domain c) (cmd_id c) (cmd_payload c)) commands (w, p)
    = Some (w', p') /\ program_ok (ok := ok) Hn w' p'.
Proof.
  revert w p Hok. induction Hp as [|c commands Hc _ IH]; intros w p Hok.
  - by exists w, p.
  - cbn [for_each]. destruct (StandardProgram_apply_ok (ok := ok) Hn w p (cmd_domain c) (cmd_id c)
      (cmd_payload c) Hok Hc) as (w' & p' & -> & Hok').
    rewrite bind_Some. by apply IH.
Qed.

(** ** Examples *)

Definition demo_coeffs (mean : float) : FourierCoeffs :=
  {| fc_mean := mean; fc_a := [f0]; fc_b := [f0] |}.

Definition demo_world : World := {|
  w_shared := RtShared_new;
  w_target := DoubleBuffer_from_banks 100 (demo_coeffs f1) (demo_coeffs f0);
  w_forcing := DoubleBuffer_from_banks 200 (demo_coeffs f2) (demo_coeffs f0);
  w_table := DoubleBuffer_from_banks 300 ramp ramp;
  w_extra := replicate 16 0 |}.

Definition demo_program : StandardProgram PassThrough := {|
  st_controller := pass_through; st_generator := HarmonicGenerator_new 1;
  st_nominal_increment := 0; st_frequency_overridden := false;
  st_target_coeffs := {| ac_current := 0 |}; st_forcing_coeffs := {| ac_current := 0 |};
  st_table_player := TablePlayer_new; st_active_table := {| ac_current := 0 |};
  st_target := f0; st_forcing := f0; st_table := f0; st_phase_turns := f0;
  st_output_enabled := false |}.

Definition demo_ctx : StepCtx := {| ctx_lut := test_lut; ctx_sample_rate := Hz8000 |}.

Lemma demo_endpoint_ok {T} (Q : T -> Prop) identity x y :
  Q x -> Q y -> endpoint_ok Q (DoubleBuffer_from_banks identity x y) {| ac_current := 0 |}.
Proof. intros. split; [by exists x, y|]. split; [by left|]. cbn. unfold NO_PENDING. lia. Defined.

Lemma demo_ok : program_ok (ok := fun _ : PassThrough => True) 1 demo_world demo_program.
Proof.
  unfold program_ok. split.
  { split; [split; cbn; unfold fits; lia|done]. }
  split; [cbn; unfold fits; lia|].
  split; [by apply demo_endpoint_ok|]. split; [by apply demo_endpoint_ok|].
  split; [apply demo_endpoint_ok; apply ramp_wf|].
  split; [|exact I]. split; cbn; unfold fits; lia.
Defined.

Lemma standard_step_spec_witness :
  exists p' outputs', StandardProgram_step 1 demo_world demo_program [] true demo_ctx [f0]
      = Some (demo_world, p', outputs')
    /\ program_ok (ok := fun _ : PassThrough => True) 1 demo_world p'
    /\ HarmonicGenerator_increment (st_generator p') = 0.
Proof.
  destruct (@standard_step_spec PassThrough PassThrough_control (fun _ => True) PassThrough_laws 1 demo_world demo_program [] [f0]
    true demo_ctx demo_ok eq_refl ltac:(by vm_compute) ltac:(by vm_compute))
    as (p' & outputs' & tc & fc & t & c & cs & E & Hok & _ & _ & _ & _ & _ & _ & _ & Ec & _ & _ & Hinc & _).
  - intros c i cs c' Hs. cbn in Hs. unfold PassThrough_step in Hs.
    apply (inj Some), pair_equal_spec in Hs as [_ <-]. exact I.
  - exists p', outputs'. split; [exact E|]. split; [exact Hok|].
    rewrite Hinc. cbn in Ec. unfold PassThrough_step in Ec.
    apply (inj Some), pair_equal_spec in Ec as [_ <-]. reflexivity.
Defined.

Lemma standard_program_never_panics_witness :
  exists w' p', for_each (fun c '(w, p) =>
      StandardProgram_apply w p (cmd_domain c) (cmd_id c) (cmd_payload c))
      [{| cmd_domain := 1; cmd_id := 0; cmd_payload := PU32 5 |};
       {| cmd_domain := 2; cmd_id := 0; cmd_payload := PBuffer {| ct_owner := 300; ct_bank := 1 |} |};
       {| cmd_domain := 7; cmd_id := 9; cmd_payload := PUnit |}] (demo_world, demo_program)
    = Some (w', p') /\ program_ok (ok := fun _ : PassThrough => True) 1 w' p'.
Proof.
  apply (@standard_program_never_panics PassThrough PassThrough_control (fun _ => True) PassThrough_laws 1 demo_world demo_program).
  - exact demo_ok.
  - repeat constructor; cbn; unfold fits; lia.
Defined.
