(* ===== verification/RtLoop.v ===== *)
(** * The real-time loop

    [firmware/rt/src/rt_loop.rs]: one sample tick (commands, measurement,
    programme step, safety gate, actuation, record), the hot loop around it and
    the reboot handshake.  The microsecond timer is an input of each tick; what
    core 0 does to the shared memory between the tick's safety snapshot and the
    rest of the tick is a function [host]. *)

From stdpp Require Import strings.
From S2P Require Import Prelude Float32 Phase Harmonics Table TableBuffer Channels Shared Rig Program.

Definition COMMAND_EPOCH_MASK : Z := Z.shiftl 1 24 - 1.

(** The six reads of the timer in a tick. *)
Record TickClock := {
  ck_t0 : Z; ck_m0 : Z; ck_m1 : Z; ck_a0 : Z; ck_a1 : Z; ck_end : Z }.

Section rt_loop.
Context {R P CQ RQ : Type} `{Rig R, Program P, SpscQueue CQ RtCommand, SpscQueue RQ StreamRecord}.

Record RtLoopState := {
  rl_rig : R; rl_program : P; rl_sample_rate : SampleRate; rl_commands : CQ; rl_records : RQ;
  rl_ctx : StepCtx; rl_command_epoch : Z; rl_index : Z; rl_last_tick : option Z;
  rl_n_inputs : Z; rl_n_program_signals : Z; rl_n_actuators : Z; rl_n_sources : Z }.

Definition with_diagnostics (w : World) (f : Diagnostics -> Diagnostics) : World :=
  let s := w_shared w in w <| w_shared := s <| rs_diagnostics := f (rs_diagnostics s) |> |>.
Definition with_live (w : World) (f : Live -> Live) : World :=
  let s := w_shared w in w <| w_shared := s <| rs_live := f (rs_live s) |> |>.

(** [safety_gate]: the rig, the shared memory and the applied vector. *)
Definition safety_gate (rig : R) (w : World) (inputs_snapshot : SafetyInputs)
    (inputs : list float) (program_fault : bool) (commanded applied : list float)
    : option (R * World * list float) :=
  let '(rig, rig_fault) := output_fault rig inputs in
  let fault := rig_fault || program_fault in
  '(applied, outcome) ← safety_decide rig inputs_snapshot fault commanded applied;
  let w := if so_newly_tripped outcome
           then w <| w_shared := (w_shared w)
                  <| rs_safety := Safety_latch_trip (rs_safety (w_shared w)) |> |> else w in
  let w := if so_quieted outcome
           then with_diagnostics w (fun d =>
                  d <| dg_safety_quiet_ticks := fetch_inc (dg_safety_quiet_ticks d) |>) else w in
  let w := if so_clamped outcome
           then with_diagnostics w (fun d =>
                  d <| dg_safety_clamp_ticks := fetch_inc (dg_safety_clamp_ticks d) |>) else w in
  Some (rig, w, applied).

(** One command at the sample boundary. *)
Definition apply_command (w : World) (rig : R) (p : P) (c : RtCommand) : option (World * R * P) :=
  if cmd_domain c =? DOMAIN_RIG then
    match cmd_payload c with
    | PF32 v => Some (w, set_param rig (cmd_id c) v, p)
    | _ => Some (w, rig, p)
    end
  else
    '(w, p) ← program_apply w p (cmd_domain c) (cmd_id c) (cmd_payload c);
    Some (w, rig, p).

(** [for _ in 0..COMMANDS_PER_TICK], with the number applied. *)
Fixpoint drain_commands (n : nat) (w : World) (rig : R) (p : P) (q : CQ) (applied : Z)
    : option (World * R * P * CQ * Z) :=
  match n with
  | O => Some (w, rig, p, q, applied)
  | S n =>
      match q_dequeue q with
      | None => Some (w, rig, p, q, applied)
      | Some (c, q) =>
          '(w, rig, p) ← apply_command w rig p c;
          drain_commands n w rig p q (applied + 1)
      end
  end.

(** Wake-phase and clock-spacing diagnostics of the start of a tick. *)
Definition tick_diagnostics (w : World) (st : RtLoopState) (rig : R) (t0 : Z) : World :=
  let w := match tick_phase_us rig with
           | Some phase => with_diagnostics w (fun d =>
               d <| dg_wake_phase_max_us := fetch_max (dg_wake_phase_max_us d) phase |>
                 <| dg_wake_phase_min_us := fetch_min (dg_wake_phase_min_us d) phase |>)
           | None => w
           end in
  match rl_last_tick st with
  | Some last =>
      let spacing := wrapping_sub 32 t0 last in
      let nominal := wrap 32 (SampleRate_period_us (rl_sample_rate st)) in
      if nominal <? spacing
      then with_diagnostics w (fun d =>
             d <| dg_clock_jitter_us := fetch_max (dg_clock_jitter_us d) (spacing - nominal) |>)
      else w
  | None => w
  end.

(** Timing diagnostics of the end of a tick. *)
Definition tick_timing (w : World) (st : RtLoopState) (ck : TickClock) : World :=
  let measure_us := wrapping_sub 32 (ck_m1 ck) (ck_m0 ck) in
  let actuate_us := wrapping_sub 32 (ck_a1 ck) (ck_a0 ck) in
  let elapsed := wrapping_sub 32 (ck_end ck) (ck_t0 ck) in
  let rest := saturating_sub (saturating_sub elapsed measure_us) actuate_us in
  let w := with_diagnostics w (fun d =>
    d <| dg_t_measure_max_us := fetch_max (dg_t_measure_max_us d) measure_us |>
      <| dg_t_actuate_max_us := fetch_max (dg_t_actuate_max_us d) actuate_us |>
      <| dg_t_rest_max_us := fetch_max (dg_t_rest_max_us d) rest |>
      <| dg_loop_time_max_us := fetch_max (dg_loop_time_max_us d) elapsed |>) in
  let w := with_live w (fun l => l <| lv_loop_time_last_us := elapsed |>) in
  let w := if wrap 32 (SampleRate_period_us (rl_sample_rate st)) <? elapsed
           then with_diagnostics w (fun d => d <| dg_overruns := fetch_inc (dg_overruns d) |>)
           else w in
  with_live w (fun l => l <| lv_ticks := fetch_inc (lv_ticks l) |>).

(** The output vector of a tick and the state that chose it. *)
Definition tick_outputs (w : World) (rig : R) (p : P) (st : RtLoopState) (values : list float)
    (snapshot : SafetyInputs) (host : World -> World)
    : option (World * R * P * list float) :=
  let output_enabled := negb (SAFETY_GATED (R := R))
                        || (si_armed snapshot && negb (si_tripped snapshot)) in
  let w := host w in
  inputs ← slice values 0 (rl_n_inputs st);
  commanded ← slice (replicate (Z.to_nat MAX_ACTUATORS) f0) 0 (rl_n_actuators st);
  '(w, p, commanded) ← program_step w p inputs output_enabled (rl_ctx st) commanded;
  applied ← slice (replicate (Z.to_nat MAX_ACTUATORS) f0) 0 (rl_n_actuators st);
  '(rig, w, applied) ←
    (if SAFETY_GATED (R := R)
     then safety_gate rig w snapshot inputs (program_fault p) commanded applied
     else applied ← copy_from_slice applied commanded; Some (rig, w, applied));
  Some (w, actuate rig applied, p, applied).

(** The values of the tick's record. *)
Definition record_values (st : RtLoopState) (p : P) (values applied : list float) (epoch : Z)
    : option (list float) :=
  let generated := rl_n_inputs st + rl_n_program_signals st in
  signals ← slice values (rl_n_inputs st) generated;
  signals ← write_signals p signals;
  values ← blit values (rl_n_inputs st) signals;
  values ← blit values generated applied;
  put values (generated + rl_n_actuators st) (f32_of_Z epoch).

(** The tick, with the vector it actuated. *)
Definition run_rt_tick (w : World) (st : RtLoopState) (ck : TickClock) (host : World -> World)
    : option (World * RtLoopState * list float) :=
  let rig := tick_start (rl_rig st) in
  let w := tick_diagnostics w st rig (ck_t0 ck) in
  '(w, rig, p, commands, commands_applied) ←
    drain_commands COMMANDS_PER_TICK w rig (rl_program st) (rl_commands st) 0;
  let '(w, epoch) :=
    if negb (commands_applied =? 0) then
      let backlog := wrap 32 (commands_applied + q_len commands) in
      (with_diagnostics w (fun d =>
         d <| dg_command_backlog_max := fetch_max (dg_command_backlog_max d) backlog |>),
       Z.land (wrapping_add 32 (rl_command_epoch st) (wrap 32 commands_applied)) COMMAND_EPOCH_MASK)
    else (w, rl_command_epoch st) in
  let values := replicate (Z.to_nat MAX_SOURCES) f0 in
  inputs ← slice values 0 (rl_n_inputs st);
  let '(rig, inputs) := measure rig inputs in
  values ← blit values 0 inputs;
  let snapshot := Safety_load_inputs (rs_safety (w_shared w)) in
  '(w, rig, p, applied) ← tick_outputs w rig p st values snapshot host;
  values ← record_values st p values applied epoch;
  let record := {| rec_index := rl_index st; rec_n := wrap 8 (rl_n_sources st);
                   rec_values := values |} in
  let '(w, records) :=
    match q_enqueue (rl_records st) record with
    | Some q => (w, q)
    | None => (with_diagnostics w (fun d =>
                 d <| dg_records_dropped := fetch_inc (dg_records_dropped d) |>), rl_records st)
    end in
  let rig := tick_end rig in
  let w := tick_timing w st ck in
  Some (w, {| rl_rig := rig; rl_program := p; rl_sample_rate := rl_sample_rate st;
              rl_commands := commands; rl_records := records; rl_ctx := rl_ctx st;
              rl_command_epoch := epoch; rl_index := wrapping_add 32 (rl_index st) 1;
              rl_last_tick := Some (ck_t0 ck); rl_n_inputs := rl_n_inputs st;
              rl_n_program_signals := rl_n_program_signals st;
              rl_n_actuators := rl_n_actuators st; rl_n_sources := rl_n_sources st |}, applied).

(** [run_rt_loop] up to the hot loop: the assertions and the initial state. *)
Definition run_rt_loop (rig : R) (program : P) (sample_rate : SampleRate) (lut : SinLut)
    (commands : CQ) (records : RQ) : option RtLoopState :=
  let n_inputs := len (INPUTS (R := R)) in
  let n_program_signals := signal_count (P := P) in
  let n_actuators := len (ACTUATORS (R := R)) in
  let n_sources := source_count R P in
  if (n_sources <=? MAX_SOURCES) && (OUTPUTS (P := P) =? n_actuators)
     && (n_actuators <=? MAX_ACTUATORS) && (INPUTS_REQUIRED (P := P) <=? n_inputs)
  then Some {|
    rl_rig := rig_init rig; rl_program := program; rl_sample_rate := sample_rate;
    rl_commands := commands; rl_records := records;
    rl_ctx := {| ctx_lut := lut; ctx_sample_rate := sample_rate |};
    rl_command_epoch := 0; rl_index := 0; rl_last_tick := None; rl_n_inputs := n_inputs;
    rl_n_program_signals := n_program_signals; rl_n_actuators := n_actuators;
    rl_n_sources := n_sources |}
  else None.

(** The hot loop is running with its reboot step, or spins after quiescing. *)
Inductive HotLoop :=
  | Hot (w : World) (st : RtLoopState) (reboot_step : Z)
  | Spinning (w : World).

(** What one iteration did to the outputs. *)
Inductive HotEvent := Actuated (outputs : list float) | Quiescing (done : bool) | Spun.

(** One iteration: [tick_ok] is the tick source's answer. *)
Definition hot_step (s : HotLoop) (tick_ok : bool) (ck : TickClock) (host : World -> World)
    : option (HotLoop * HotEvent) :=
  match s with
  | Spinning w => Some (Spinning (host w), Spun)
  | Hot w st reboot_step =>
      let w := if tick_ok then w
               else with_diagnostics w (fun d =>
                      d <| dg_tick_timeouts := fetch_inc (dg_tick_timeouts d) |>) in
      if RebootShared_is_requested (rs_reboot (w_shared w)) then
        let '(rig, finished) := prepare_reboot (rl_rig st) reboot_step in
        if (finished : bool)
        then
          let s := w_shared w in
          Some (Spinning (w <| w_shared := s
                  <| rs_reboot := RebootShared_mark_quiesced (rs_reboot s) |> |>), Quiescing true)
        else Some (Hot (host w) (st <| rl_rig := rig |>) (saturating_add 8 reboot_step 1),
                   Quiescing false)
      else
        '(w, st, applied) ← run_rt_tick w st ck host;
        Some (Hot w st reboot_step, Actuated applied)
  end.
End rt_loop.

Arguments RtLoopState : clear implicits.
Arguments HotLoop : clear implicits.

(** ** Laws *)

(** A rig fills the slice it is given. *)
Class RigLaws (R : Type) `{Rig R} := {
  measure_len (r : R) l : len (measure r l).2 = len l }.

(** What the loop relies on from a programme: a condition [I] on the shared
    memory and the programme under which commands and steps return, kept by
    both and by changes of the atomics. *)
Class ProgramLaws (P : Type) `{Program P} (I : World -> P -> Prop) (ctx_ok : StepCtx -> Prop) := {
  apply_ok w p d id payload : I w p -> payload_ok payload ->
    exists w' p', program_apply w p d id payload = Some (w', p') /\ I w' p';
  step_ok w p inputs enabled ctx outputs : I w p -> ctx_ok ctx ->
    INPUTS_REQUIRED (P := P) <= len inputs -> 0 < len outputs -> len outputs = OUTPUTS (P := P) ->
    exists w' p' outputs', program_step w p inputs enabled ctx outputs = Some (w', p', outputs')
      /\ I w' p' /\ len outputs' = len outputs;
  write_ok w p out : I w p -> len out = signal_count (P := P) ->
    exists out', write_signals p out = Some out' /\ len out' = len out;
  signal_count_nonneg : 0 <= signal_count (P := P);
  outputs_positive : 0 < OUTPUTS (P := P);
  shared_ok w p s : I w p -> I (w <| w_shared := s |>) p }.

(** The increment a control policy asks for is a 32-bit word. *)
Definition increments_fit (C : Type) `{StandardControl C} : Prop :=
  forall c i cs c' ctx, control_step c i ctx = Some (c', cs) ->
    match cs_next_increment cs with Some n => fits 32 n | None => True end.

(** The standard programme with any lawful control policy is lawful. *)
#[export] Instance StandardProgram_laws {C} `{HC : StandardControl C} (ok : C -> Prop)
    `{!ControlLaws C ok} (Hn : nat) (Hnext : increments_fit C) :
  ProgramLaws (StandardProgram C) (H := StandardProgram_program Hn)
    (program_ok (ok := ok) Hn) (fun ctx => lut_wf (ctx_lut ctx)).
Proof.
  split; cbn [program_apply program_step write_signals signal_count OUTPUTS INPUTS_REQUIRED
              StandardProgram_program].
  - intros. by apply (StandardProgram_apply_ok (ok := ok)).
  - intros w p inputs enabled ctx outputs Hok Hl Hi Hpos Ho.
    destruct (StandardProgram_step_Some (ok := ok) Hn w p inputs enabled ctx outputs Hok Hl Hi)
      as (p' & out & E & Hok' & Lo); [lia|intros; by eapply Hnext|].
    by exists w, p', out.
  - intros w p out _ Hl. by apply (write_signals_Some (ok := ok)).
  - unfold StandardProgram_signal_count. pose proof (len_nonneg (TELEMETRY (C := C))).
    change (len STANDARD_SIGNALS) with 4. lia.
  - lia.
  - done.
Qed.

(** ** Lemmas *)

Lemma with_diagnostics_safety w f :
  rs_safety (w_shared (with_diagnostics w f)) = rs_safety (w_shared w).
Proof. done. Qed.
Lemma with_live_safety w f :
  rs_safety (w_shared (with_live w f)) = rs_safety (w_shared w).
Proof. done. Qed.

Section lemmas.
Context {R P CQ RQ : Type} `{HR : Rig R, HP : Program P, HCQ : SpscQueue CQ RtCommand,
  HRQ : SpscQueue RQ StreamRecord}.
Context {I : World -> P -> Prop} {ctx_ok : StepCtx -> Prop}.
Context `{!RigLaws R, !ProgramLaws P I ctx_ok, !SpscLaws CQ RtCommand, !SpscLaws RQ StreamRecord}.
Abbreviation State := (RtLoopState R P CQ RQ).

Definition with_kept w f p : I w p -> I (with_diagnostics w f) p := shared_ok w p _.
Definition live_kept w f p : I w p -> I (with_live w f) p := shared_ok w p _.

(** What the loop's start-up assertions establish, and what its environment
    guarantees. *)
Record loop_ok (w : World) (st : State) : Prop := {
  lo_program : I w (rl_program st);
  lo_ctx : ctx_ok (rl_ctx st);
  lo_inputs : rl_n_inputs st = len (INPUTS (R := R));
  lo_signals : rl_n_program_signals st = signal_count (P := P);
  lo_actuators : rl_n_actuators st = len (ACTUATORS (R := R));
  lo_sources : source_count R P <= MAX_SOURCES;
  lo_outputs : OUTPUTS (P := P) = len (ACTUATORS (R := R));
  lo_max_actuators : len (ACTUATORS (R := R)) <= MAX_ACTUATORS;
  lo_required : INPUTS_REQUIRED (P := P) <= len (INPUTS (R := R));
  lo_epoch : fits 24 (rl_command_epoch st);
  lo_commands : Forall (fun c => payload_ok (cmd_payload c)) (q_contents (rl_commands st)) }.

(** Core 0 keeps the programme's invariant. *)
Definition host_ok (host : World -> World) : Prop := forall w p, I w p -> I (host w) p.

Definition apply_one (c : RtCommand) '((w, rig, p) : World * R * P) : option (World * R * P) :=
  apply_command w rig p c.

Lemma apply_command_ok w (rig : R) p c :
  I w p -> payload_ok (cmd_payload c) ->
  exists w' rig' p', apply_command w rig p c = Some (w', rig', p') /\ I w' p'.
Proof.
  intros Hi Hp. unfold apply_command. destruct (_ =? DOMAIN_RIG).
  - destruct (cmd_payload c); by eexists _, _, _.
  - destruct (apply_ok w p (cmd_domain c) (cmd_id c) (cmd_payload c) Hi Hp) as (w' & p' & -> & Hi').
    rewrite bind_Some. by eexists _, _, _.
Qed.

Lemma drain_spec n w (rig : R) p q a :
  I w p -> Forall (fun c => payload_ok (cmd_payload c)) (q_contents q) ->
  exists w' rig' p' q',
    for_each apply_one (take n (q_contents q)) (w, rig, p) = Some (w', rig', p')
    /\ drain_commands n w rig p q a = Some (w', rig', p', q', a + Z.min (Z.of_nat n) (q_len q))
    /\ q_contents q' = drop n (q_contents q) /\ I w' p'.
Proof.
  unfold q_len. revert w rig p q a. induction n as [|n IH]; intros w rig p q a Hi Hq.
  { exists w, rig, p, q. rewrite Z.min_l, Z.add_0_r by apply len_nonneg. by rewrite drop_0. }
  cbn [drain_commands]. destruct (q_contents q) as [|c l] eqn:Eq.
  - rewrite q_dequeue_none by done. exists w, rig, p, q. rewrite (len_nil (A := RtCommand)), Z.min_r, Z.add_0_r by lia.
    by rewrite Eq.
  - destruct (q_dequeue_some q c l Eq) as (q1 & -> & <- & _).
    destruct (apply_command_ok w rig p c Hi) as (w1 & rig1 & p1 & E1 & Hi1); [by inversion Hq|].
    destruct (IH w1 rig1 p1 q1 (a + 1) Hi1) as (w' & rig' & p' & q' & Ef & Ed & Eq' & Hi');
      [by inversion Hq|].
    exists w', rig', p', q'. cbn [take for_each drop]. change (apply_one c (w, rig, p)) with (apply_command w rig p c). rewrite E1, bind_Some.
    split; [exact Ef|]. split; [|done]. rewrite bind_Some, Ed.
    rewrite len_cons. do 2 f_equal. lia.
Qed.

(** The vector a gated tick applies: the clamped command, or the safe vector. *)
Definition gated (snapshot : SafetyInputs) (bad : bool) (rig : R) (commanded : list float)
    : list float :=
  if negb bad && si_armed snapshot && negb (si_tripped snapshot)
  then clamped_outputs rig commanded else safe_outputs rig (length commanded).

Lemma safety_gate_spec (rig : R) w snapshot inputs program_fault commanded applied p :
  SAFETY_GATED (R := R) = true -> length applied = length commanded -> I w p ->
  let '(rig', rig_fault) := output_fault rig inputs in
  let bad := (rig_fault || program_fault) || existsb (fun v => negb (is_finite v)) commanded in
  exists w', safety_gate rig w snapshot inputs program_fault commanded applied
      = Some (rig', w', gated snapshot bad rig' commanded)
    /\ I w' p
    /\ rs_safety (w_shared w') = (if bad then Safety_latch_trip (rs_safety (w_shared w))
                                  else rs_safety (w_shared w)).
Proof.
  intros Hg Hl Hi. unfold safety_gate.
  destruct (output_fault rig inputs) as [rig' rig_fault] eqn:Ef.
  unfold safety_decide. rewrite Hg. cbn [negb].
  set (bad := (rig_fault || program_fault) || existsb _ commanded). unfold gated.
  destruct (bad || si_tripped snapshot || negb (si_armed snapshot)) eqn:E.
  - rewrite bind_Some, imap_safe, Hl. cbn [so_newly_tripped so_quieted so_clamped].
    replace (negb bad && _ && _) with false
      by (by destruct bad, (si_tripped snapshot), (si_armed snapshot)).
    eexists. split; [reflexivity|]. destruct bad; split; try done; by repeat first [apply with_kept | apply shared_ok].
  - replace (negb bad && _ && _) with true
      by (by destruct bad, (si_tripped snapshot), (si_armed snapshot)).
    assert (bad = false) as -> by (by destruct bad).
    rewrite clamp_outputs_spec by done. rewrite bind_Some.
    cbn [so_newly_tripped so_quieted so_clamped]. eexists. split; [reflexivity|].
    destruct (existsb _ _); split; try done. by apply with_kept.
Qed.

Lemma length_clamped rig (l : list float) : length (clamped_outputs rig l) = length l.
Proof. apply length_imap. Qed.

Lemma length_safe (rig : R) n : length (safe_outputs rig n) = n.
Proof. unfold safe_outputs. by rewrite length_fmap, length_seq. Qed.

Lemma length_gated s b rig l : length (gated s b rig l) = length l.
Proof. unfold gated. destruct (_ && _); [apply length_clamped|apply length_safe]. Qed.

(** The output stage of a tick, in full. *)
Lemma tick_outputs_spec w0 w (rig : R) p (st : State) values snapshot host :
  loop_ok w0 st -> I w p -> host_ok host -> rl_n_inputs st <= len values ->
  let enabled := negb (SAFETY_GATED (R := R)) || (si_armed snapshot && negb (si_tripped snapshot)) in
  exists inputs w1 p1 commanded,
    slice values 0 (rl_n_inputs st) = Some inputs
    /\ program_step (host w) p inputs enabled (rl_ctx st)
         (replicate (Z.to_nat (rl_n_actuators st)) f0) = Some (w1, p1, commanded)
    /\ len commanded = rl_n_actuators st /\ I w1 p1
    /\ if SAFETY_GATED (R := R) then
         let '(rig1, rig_fault) := output_fault rig inputs in
         let bad := (rig_fault || program_fault p1)
                    || existsb (fun v => negb (is_finite v)) commanded in
         let applied := gated snapshot bad rig1 commanded in
         exists w2, tick_outputs w rig p st values snapshot host
             = Some (w2, actuate rig1 applied, p1, applied) /\ I w2 p1
           /\ rs_safety (w_shared w2) = (if bad then Safety_latch_trip (rs_safety (w_shared w1))
                                         else rs_safety (w_shared w1))
       else tick_outputs w rig p st values snapshot host
            = Some (w1, actuate rig commanded, p1, commanded).
Proof.
  intros Hok Hi Hh Hl enabled. destruct Hok as [_ Hctx Hin _ Hact _ Hout Hmax Hreq _ _].
  pose proof (len_nonneg (INPUTS (R := R))). pose proof (len_nonneg (ACTUATORS (R := R))).
  pose proof (outputs_positive (P := P)).
  assert (Hs : forall n : Z, 0 <= n <= MAX_ACTUATORS ->
    slice (replicate (Z.to_nat MAX_ACTUATORS) f0) 0 n = Some (replicate (Z.to_nat n) f0)).
  { intros n Hn. rewrite slice_ok by (unfold len; rewrite ?length_replicate; lia).
    rewrite Z.sub_0_r, drop_0, take_replicate. do 2 f_equal. lia. }
  assert (Hr : len (replicate (Z.to_nat (rl_n_actuators st)) f0) = rl_n_actuators st)
    by (unfold len; rewrite length_replicate; lia).
  set (inputs := take (Z.to_nat (rl_n_inputs st - 0)) (drop (Z.to_nat 0) values)).
  assert (Li : len inputs = rl_n_inputs st).
  { unfold inputs. rewrite Z.sub_0_r, drop_0. apply len_take. lia. }
  destruct (step_ok (host w) p inputs enabled (rl_ctx st)
    (replicate (Z.to_nat (rl_n_actuators st)) f0) (Hh w p Hi) Hctx) as
    (w1 & p1 & commanded & E & Hi1 & Lc); [by rewrite Li, Hin|rewrite Hr; lia|rewrite Hr; lia|].
  exists inputs, w1, p1, commanded. split; [apply slice_ok; lia|]. split; [done|].
  split; [lia|]. split; [done|].
  unfold tick_outputs. rewrite (slice_ok values 0 (rl_n_inputs st)) by lia. rewrite bind_Some. fold inputs. fold enabled.
  rewrite Hs by lia. rewrite bind_Some, E, bind_Some, bind_Some.
  destruct (SAFETY_GATED (R := R)) eqn:Hg.
  - pose proof (safety_gate_spec rig w1 snapshot inputs (program_fault p1) commanded
      (replicate (Z.to_nat (rl_n_actuators st)) f0) p1 Hg) as Hgate.
    destruct (output_fault rig inputs) as [rig1 rig_fault].
    destruct Hgate as (w2 & -> & Hi2 & Hs2); [unfold len in *; lia|done|].
    rewrite bind_Some. by exists w2.
  - unfold copy_from_slice. rewrite Hr, Lc, Hr, Z.eqb_refl, !bind_Some. done.
Qed.

Lemma tick_outputs_ok w (rig : R) p (st : State) values snapshot host :
  (exists w0, loop_ok w0 st) -> I w p -> host_ok host -> rl_n_inputs st <= len values ->
  exists w' rig' p' applied, tick_outputs w rig p st values snapshot host
      = Some (w', rig', p', applied) /\ I w' p' /\ len applied = rl_n_actuators st.
Proof.
  intros [w0 Hok] Hi Hh Hl.
  destruct (tick_outputs_spec w0 w rig p st values snapshot host Hok Hi Hh Hl) as
    (inputs & w1 & p1 & commanded & _ & _ & Lc & Hi1 & Ho).
  destruct (SAFETY_GATED (R := R)).
  - destruct (output_fault rig inputs) as [rig1 rig_fault].
    destruct Ho as (w2 & E & Hi2 & _). eexists _, _, _, _. split; [exact E|]. split; [done|].
    unfold len. rewrite length_gated. exact Lc.
  - eexists _, _, _, _. split; [exact Ho|]. by split.
Qed.

(** The record's values: inputs, signals, applied outputs and command epoch,
    then zeros. *)
Definition record_of (st : State) (inputs signals applied : list float) (epoch : Z) : list float :=
  inputs ++ signals ++ applied ++ f32_of_Z epoch ::
    replicate (Z.to_nat (MAX_SOURCES - source_count R P)) f0.

Lemma record_values_spec w0 w (st : State) p inputs applied epoch :
  loop_ok w0 st -> I w p -> len inputs = rl_n_inputs st -> len applied = rl_n_actuators st ->
  exists slots signals, write_signals p slots = Some signals
    /\ len signals = rl_n_program_signals st
    /\ record_values st p (inputs ++ replicate (Z.to_nat (MAX_SOURCES - rl_n_inputs st)) f0)
         applied epoch
       = Some (record_of st inputs signals applied epoch).
Proof.
  intros Hok Hi Li La. destruct Hok as [_ _ Hin Hsig Hact Hsrc _ _ _ _ _].
  pose proof (signal_count_nonneg (P := P)) as Hs0. unfold source_count in Hsrc.
  pose proof (len_nonneg inputs). pose proof (len_nonneg applied).
  set (zeros := replicate (Z.to_nat (MAX_SOURCES - rl_n_inputs st)) f0).
  assert (Lz : len zeros = MAX_SOURCES - rl_n_inputs st)
    by (unfold zeros, len; rewrite length_replicate; lia).
  unfold record_values.
  rewrite (slice_ok (inputs ++ zeros)) by (rewrite ?len_app; lia). rewrite bind_Some.
  match goal with |- context [write_signals p ?s] => set (slots := s) end.
  assert (Ls : len slots = signal_count (P := P)).
  { eapply eq_trans; [apply (slice_length (inputs ++ zeros) (rl_n_inputs st)
      (rl_n_inputs st + rl_n_program_signals st))|lia].
    apply slice_ok; rewrite ?len_app; lia. }
  destruct (write_ok w p slots Hi Ls) as (signals & E & Lsig).
  exists slots, signals. split; [done|]. split; [lia|]. rewrite E, bind_Some.
  rewrite blit_cursor by lia. rewrite bind_Some.
  rewrite blit_cursor; [|rewrite len_app; lia|rewrite len_drop_nat; unfold len in *; lia].
  rewrite bind_Some.
  rewrite put_cursor; [|rewrite !len_app; lia|rewrite !len_drop_nat; unfold len in *; lia].
  f_equal. unfold record_of. rewrite <-!app_assoc. cbn [app]. do 4 f_equal.
  unfold zeros. rewrite !drop_replicate. f_equal. unfold source_count, len in *. lia.
Qed.

(** The whole tick. *)
Definition next_epoch (epoch n : Z) : Z := wrap 24 (epoch + n).

Lemma epoch_mask epoch n :
  Z.land (wrapping_add 32 epoch n) COMMAND_EPOCH_MASK = next_epoch epoch n.
Proof.
  unfold COMMAND_EPOCH_MASK, next_epoch, wrapping_add, wrap.
  replace (Z.shiftl 1 24 - 1) with (Z.ones 24) by done. rewrite Z.land_ones by lia.
  apply Z.mod_mod_divide. by exists (2 ^ 8).
Qed.

Lemma tick_diagnostics_ok w (st : State) rig t0 p : I w p -> I (tick_diagnostics w st rig t0) p.
Proof.
  intros Hi. unfold tick_diagnostics. repeat case_match; repeat apply with_kept; done.
Qed.

Lemma tick_timing_ok w (st : State) ck p : I w p -> I (tick_timing w st ck) p.
Proof.
  intros Hi. unfold tick_timing. cbv zeta. apply live_kept.
  destruct (_ <? _); repeat first [apply with_kept|apply live_kept]; done.
Qed.

Lemma tick_timing_safety w (st : State) ck :
  rs_safety (w_shared (tick_timing w st ck)) = rs_safety (w_shared w).
Proof. unfold tick_timing. cbv zeta. destruct (_ <? _); done. Qed.

(** The values of a tick start with the inputs; the rest of the buffer is zero. *)
Lemma input_buffer (st : State) inputs :
  rl_n_inputs st <= MAX_SOURCES -> len inputs = rl_n_inputs st ->
  slice (replicate (Z.to_nat MAX_SOURCES) f0) 0 (rl_n_inputs st) = Some (replicate (Z.to_nat (rl_n_inputs st)) f0)
  /\ blit (replicate (Z.to_nat MAX_SOURCES) f0) 0 inputs
     = Some (inputs ++ replicate (Z.to_nat (MAX_SOURCES - rl_n_inputs st)) f0).
Proof.
  intros Hmax Li. pose proof (len_nonneg inputs). split.
  - rewrite slice_ok by (unfold len in *; rewrite ?length_replicate; lia).
    rewrite Z.sub_0_r, drop_0, take_replicate. do 2 f_equal. lia.
  - rewrite (blit_cursor [] (replicate (Z.to_nat MAX_SOURCES) f0))
      by (unfold len in *; rewrite ?length_replicate; cbn; lia).
    cbn [app]. rewrite drop_replicate. do 3 f_equal. unfold len in Li. lia.
Qed.

Lemma run_rt_tick_spec w (st : State) ck host :
  loop_ok w st -> host_ok host ->
  exists w1 rig1 p1 q1 rig2 inputs w2,
    for_each apply_one (take COMMANDS_PER_TICK (q_contents (rl_commands st)))
      (tick_diagnostics w st (tick_start (rl_rig st)) (ck_t0 ck), tick_start (rl_rig st), rl_program st)
      = Some (w1, rig1, p1)
    /\ q_contents q1 = drop COMMANDS_PER_TICK (q_contents (rl_commands st))
    /\ measure rig1 (replicate (Z.to_nat (rl_n_inputs st)) f0) = (rig2, inputs)
    /\ len inputs = rl_n_inputs st
    /\ I w1 p1 /\ I w2 p1 /\ rs_safety (w_shared w2) = rs_safety (w_shared w1)
    /\ let values := inputs ++ replicate (Z.to_nat (MAX_SOURCES - rl_n_inputs st)) f0 in
       let n := Z.min (Z.of_nat COMMANDS_PER_TICK) (q_len (rl_commands st)) in
       let epoch := next_epoch (rl_command_epoch st) n in
       forall w3 rig3 p3 applied,
         tick_outputs w2 rig2 p1 st values (Safety_load_inputs (rs_safety (w_shared w1))) host
           = Some (w3, rig3, p3, applied) ->
         I w3 p3 -> len applied = rl_n_actuators st ->
         exists w' st' slots signals,
           run_rt_tick w st ck host = Some (w', st', applied)
           /\ loop_ok w' st' /\ rl_commands st' = q1 /\ rl_rig st' = tick_end rig3
           /\ rl_program st' = p3 /\ rl_command_epoch st' = epoch
           /\ rl_index st' = wrapping_add 32 (rl_index st) 1
           /\ rl_last_tick st' = Some (ck_t0 ck)
           /\ rs_safety (w_shared w') = rs_safety (w_shared w3)
           /\ write_signals p3 slots = Some signals
           /\ rl_records st' = default (rl_records st) (q_enqueue (rl_records st)
                {| rec_index := rl_index st; rec_n := wrap 8 (rl_n_sources st);
                   rec_values := record_of st inputs signals applied epoch |}).
Proof.
  intros Hok Hh. pose proof Hok as [Hi Hctx Hin Hsig Hact Hsrc Hout Hmax Hreq Hepoch Hcmd].
  destruct (drain_spec COMMANDS_PER_TICK
    (tick_diagnostics w st (tick_start (rl_rig st)) (ck_t0 ck)) (tick_start (rl_rig st))
    (rl_program st) (rl_commands st) 0 ltac:(by apply tick_diagnostics_ok) Hcmd)
    as (w1 & rig1 & p1 & q1 & Ef & Ed & Eq & Hi1).
  destruct (measure rig1 (replicate (Z.to_nat (rl_n_inputs st)) f0)) as [rig2 inputs] eqn:Em.
  assert (Li : len inputs = rl_n_inputs st).
  { pose proof (measure_len rig1 (replicate (Z.to_nat (rl_n_inputs st)) f0)) as Hm.
    rewrite Em in Hm. cbn [snd] in Hm. rewrite Hm. unfold len in *. rewrite length_replicate. lia. }
  set (n := Z.min (Z.of_nat COMMANDS_PER_TICK) (q_len (rl_commands st))) in *.
  set (w2 := if n =? 0 then w1 else with_diagnostics w1 (fun d => d <| dg_command_backlog_max :=
    fetch_max (dg_command_backlog_max d) (wrap 32 (n + q_len q1)) |>)).
  exists w1, rig1, p1, q1, rig2, inputs, w2.
  split; [exact Ef|]. split; [exact Eq|]. split; [done|]. split; [exact Li|]. split; [exact Hi1|].
  split; [unfold w2; destruct (n =? 0); [done|by apply with_kept]|].
  split; [unfold w2; by destruct (n =? 0)|].
  intros values n' epoch w3 rig3 p3 applied Eo Hi3 La.
  destruct (record_values_spec w w3 st p3 inputs applied epoch Hok Hi3 Li La)
    as (slots & signals & Ew & Ls & Er).
  set (record := {| rec_index := rl_index st; rec_n := wrap 8 (rl_n_sources st);
                    rec_values := record_of st inputs signals applied epoch |}).
  pose proof (len_nonneg (INPUTS (R := R))) as Hn0.
  pose proof (len_nonneg (ACTUATORS (R := R))) as Ha0.
  pose proof (signal_count_nonneg (P := P)) as Hs0.
  unfold source_count in Hsrc.
  destruct (input_buffer st inputs ltac:(unfold len in *; lia) Li) as [E0 E1].
  fold values in E1.
  assert (E2 : (if negb (n =? 0) then
      (with_diagnostics w1 (fun d => d <| dg_command_backlog_max :=
         fetch_max (dg_command_backlog_max d) (wrap 32 (n + q_len q1)) |>),
       Z.land (wrapping_add 32 (rl_command_epoch st) (wrap 32 n)) COMMAND_EPOCH_MASK)
      else (w1, rl_command_epoch st)) = (w2, epoch)).
  { unfold w2, epoch, n'. fold n. destruct (Z.eqb_spec n 0) as [-> |]; cbn [negb].
    { unfold next_epoch. by rewrite Z.add_0_r, (wrap_id 24). }
    rewrite epoch_mask, (wrap_id 32 n); [done|]. unfold n, q_len, fits, COMMANDS_PER_TICK.
    pose proof (len_nonneg (q_contents (rl_commands st))). lia. }
  rewrite Z.add_0_l in Ed.
  unfold run_rt_tick. cbv zeta. rewrite Ed, bind_Some, E2, E0, bind_Some, Em, E1, bind_Some.
  replace (rs_safety (w_shared w2)) with (rs_safety (w_shared w1))
    by (unfold w2; by destruct (n =? 0)).
  fold values in Er. rewrite Eo, bind_Some, Er, bind_Some. fold record.
  destruct (q_enqueue (rl_records st) record) as [q|] eqn:Eq2;
    (eexists _, _, slots, signals; split; [reflexivity|]; split;
     [|cbn -[tick_timing with_diagnostics wrapping_add]; rewrite ?tick_timing_safety; fold record; rewrite Eq2; by split_and!]).
  - split; cbn -[tick_timing with_diagnostics]; rewrite ?Eq; try done; [by apply tick_timing_ok|apply wrap_fits; lia|by apply Forall_drop].
  - split; cbn -[tick_timing with_diagnostics]; rewrite ?Eq; try done; [by apply tick_timing_ok, with_kept|apply wrap_fits; lia|by apply Forall_drop].
Qed.

(** What a caller that does not look inside needs of a tick. *)
Lemma run_rt_tick_returns w (st : State) ck host :
  loop_ok w st -> host_ok host ->
  exists w' st' applied,
    run_rt_tick w st ck host = Some (w', st', applied) /\ loop_ok w' st'
    /\ len applied = rl_n_actuators st /\ rl_index st' = wrapping_add 32 (rl_index st) 1.
Proof.
  intros Hok Hh.
  destruct (run_rt_tick_spec w st ck host Hok Hh) as
    (w1 & rig1 & p1 & q1 & rig2 & inputs & w2 & _ & _ & _ & Li & _ & Hi2 & _ & Ht).
  set (zeros := replicate (Z.to_nat (MAX_SOURCES - rl_n_inputs st)) f0) in Ht.
  destruct (tick_outputs_ok w2 rig2 p1 st (inputs ++ zeros) (Safety_load_inputs (rs_safety (w_shared w1))) host
    (ex_intro _ w Hok) Hi2 Hh) as (w3 & rig3 & p3 & applied & Eo & Hi3 & La);
    [rewrite len_app; pose proof (len_nonneg zeros); lia|].
  destruct (Ht w3 rig3 p3 applied Eo Hi3 La) as
    (w' & st' & slots & signals & E & Hok' & _ & _ & _ & _ & Ei & _).
  by exists w', st', applied.
Qed.

(** [run_rt_loop]'s assertions establish the invariant. *)
Lemma run_rt_loop_ok w (rig : R) p rate lut (commands : CQ) (records : RQ) st :
  I w p -> ctx_ok {| ctx_lut := lut; ctx_sample_rate := rate |} ->
  Forall (fun c => payload_ok (cmd_payload c)) (q_contents commands) ->
  run_rt_loop rig p rate lut commands records = Some st -> loop_ok w st.
Proof.
  intros Hi Hc Hq. unfold run_rt_loop. destruct (_ && _) eqn:E; [|done].
  intros E2. apply (inj Some) in E2 as <-. bool_facts. by split.
Qed.

(** Iterations of the hot loop, with what each did. *)
Fixpoint hot_run (s : HotLoop R P CQ RQ) (env : list (bool * TickClock * (World -> World)))
    : option (HotLoop R P CQ RQ * list HotEvent) :=
  match env with
  | [] => Some (s, [])
  | (tick_ok, ck, host) :: env =>
      '(s, e) ← hot_step s tick_ok ck host;
      '(s, es) ← hot_run s env;
      Some (s, e :: es)
  end.

(** The reboot steps of a rig: how many of the next [n] calls are needed. *)
Fixpoint reboot_calls (rig : R) (step : Z) (n : nat) : option nat :=
  match n with
  | O => None
  | S n => let '(rig, finished) := prepare_reboot rig step in
           if finished : bool then Some 1%nat
           else S <$> reboot_calls rig (saturating_add 8 step 1) n
  end.

Definition keeps_request (host : World -> World) : Prop :=
  forall w, RebootShared_is_requested (rs_reboot (w_shared w)) = true ->
    RebootShared_is_requested (rs_reboot (w_shared (host w))) = true.

(** Core 0 writes the reboot word only by requesting. *)
Definition only_requests (host : World -> World) : Prop :=
  forall w, rs_reboot (w_shared (host w)) = rs_reboot (w_shared w)
    \/ rs_reboot (w_shared (host w)) = RebootShared_request (rs_reboot (w_shared w)).

(** A request changes nothing once the reboot is requested. *)
Lemma only_requests_same host w :
  only_requests host -> RebootShared_is_requested (rs_reboot (w_shared w)) = true ->
  rs_reboot (w_shared (host w)) = rs_reboot (w_shared w).
Proof.
  intros Hh Hr. destruct (Hh w) as [? | ->]; [done|]. unfold RebootShared_request.
  destruct (Z.eqb_spec (rs_reboot (w_shared w)) REBOOT_IDLE) as [E|]; [|done].
  by rewrite E in Hr.
Qed.

Lemma spinning_run w env :
  exists w', hot_run (Spinning w) env = Some (Spinning w', replicate (length env) Spun)
    /\ (Forall (fun e => only_requests e.2) env ->
        RebootShared_is_requested (rs_reboot (w_shared w)) = true ->
        rs_reboot (w_shared w') = rs_reboot (w_shared w)).
Proof.
  revert w. induction env as [|[[tick_ok ck] host] env IH]; intros w; [by exists w|].
  cbn [hot_run hot_step]. rewrite bind_Some. destruct (IH (host w)) as (w' & -> & Hw).
  rewrite bind_Some. exists w'. split; [done|]. intros [Hh He]%Forall_cons Hr. cbn [snd] in Hh.
  pose proof (only_requests_same host w Hh Hr) as Hsame. by rewrite Hw, Hsame by (done || by rewrite Hsame).
Qed.
End lemmas.

(** ** Properties *)

(** C9. One sample tick, for any lawful rig, programme and queues, whatever core 0
    does in the middle of it: the tick returns and keeps the loop's invariant;
    exactly the first two queued commands are applied, in order, before the
    measurement, and the rest stay queued; the command epoch counts the applied
    commands modulo 2^24 and the index wraps at 2^32; and the record, handed
    over unless its queue is full, carries in discovery order the measured
    inputs, the programme's signals, the vector that was really actuated and
    the new epoch. *)
Theorem tick_spec {R P CQ RQ : Type} `{Rig R, Program P, SpscQueue CQ RtCommand,
    SpscQueue RQ StreamRecord} (I : World -> P -> Prop) (ctx_ok : StepCtx -> Prop)
    `{!RigLaws R, !ProgramLaws P I ctx_ok, !SpscLaws CQ RtCommand, !SpscLaws RQ StreamRecord}
    (w : World) (st : RtLoopState R P CQ RQ) (ck : TickClock) (host : World -> World)
    (Hok : loop_ok (I := I) (ctx_ok := ctx_ok) w st) (Hh : host_ok (I := I) host) :
  exists w1 rig1 p1 w' st' applied signals,
    let commands := q_contents (rl_commands st) in
    let inputs := (measure rig1 (replicate (Z.to_nat (rl_n_inputs st)) f0)).2 in
    let record := {| rec_index := rl_index st; rec_n := wrap 8 (rl_n_sources st);
          rec_values := record_of st inputs signals applied (rl_command_epoch st') |} in
    run_rt_tick w st ck host = Some (w', st', applied)
    /\ loop_ok (I := I) (ctx_ok := ctx_ok) w' st'
    /\ for_each apply_one (take 2 commands)
         (tick_diagnostics w st (tick_start (rl_rig st)) (ck_t0 ck), tick_start (rl_rig st),
          rl_program st) = Some (w1, rig1, p1)
    /\ q_contents (rl_commands st') = drop 2 commands
    /\ rl_command_epoch st' = wrap 24 (rl_command_epoch st + Z.min 2 (len commands))
    /\ rl_index st' = wrap 32 (rl_index st + 1)
    /\ len applied = len (ACTUATORS (R := R))
    /\ (exists slots, write_signals (rl_program st') slots = Some signals)
    /\ q_contents (rl_records st')
       = q_contents (rl_records st)
         ++ (if len (q_contents (rl_records st)) <? q_capacity (rl_records st)
             then [record] else []).
Proof.
  destruct (run_rt_tick_spec w st ck host Hok Hh) as
    (w1 & rig1 & p1 & q1 & rig2 & inputs & w2 & Ef & Eq & Em & Li & Hi1 & Hi2 & _ & Ht).
  destruct (tick_outputs_ok w2 rig2 p1 st (inputs ++ replicate (Z.to_nat (MAX_SOURCES - rl_n_inputs st)) f0)
    (Safety_load_inputs (rs_safety (w_shared w1))) host (ex_intro _ w Hok) Hi2 Hh)
    as (w3 & rig3 & p3 & applied & Eo & Hi3 & La); [rewrite len_app; pose proof (len_nonneg
      (replicate (Z.to_nat (MAX_SOURCES - rl_n_inputs st)) f0)); lia|].
  destruct (Ht w3 rig3 p3 applied Eo Hi3 La) as
    (w' & st' & slots & signals & E & Hok' & <- & _ & <- & Ee & Ei & _ & _ & Ew & Er).
  exists w1, rig1, p1, w', st', applied, signals. rewrite Em. cbn [snd].
  split; [exact E|]. split; [exact Hok'|]. split; [exact Ef|]. split; [exact Eq|].
  split; [exact Ee|]. split; [exact Ei|]. split; [by rewrite La; apply Hok|].
  split; [by exists slots|]. rewrite Er, Ee.
  set (record := {| rec_index := _ |}).
  destruct (Z.ltb_spec (len (q_contents (rl_records st))) (q_capacity (rl_records st))) as [Hl|Hl].
  - by destruct (q_enqueue_ok (rl_records st) record Hl) as (q' & -> & Eq' & _).
  - rewrite q_enqueue_full by done. by rewrite app_nil_r.
Qed.

(** C7. The output of a gated rig: the snapshot of the arming words is taken once,
    after the measurement.  The actuated vector is the clamped command exactly
    when that snapshot is armed and not tripped, neither the rig nor the
    programme reports a fault and every command is finite; in every other case
    it is the rig's complete safe vector, whatever core 0 does meanwhile; a
    fault or a non-finite command leaves the trip latched for the ticks that
    follow; and the programme was told whether its output would be used. *)
Theorem tick_output_gated {R P CQ RQ : Type} `{Rig R, Program P, SpscQueue CQ RtCommand,
    SpscQueue RQ StreamRecord} (I : World -> P -> Prop) (ctx_ok : StepCtx -> Prop)
    `{!RigLaws R, !ProgramLaws P I ctx_ok, !SpscLaws CQ RtCommand, !SpscLaws RQ StreamRecord}
    (w : World) (st : RtLoopState R P CQ RQ) (ck : TickClock) (host : World -> World)
    (Hok : loop_ok (I := I) (ctx_ok := ctx_ok) w st) (Hh : host_ok (I := I) host)
    (Hg : SAFETY_GATED (R := R) = true) :
  exists w1 rig1 p1 w' st' applied w2 w3 commanded,
    let inputs := (measure rig1 (replicate (Z.to_nat (rl_n_inputs st)) f0)).2 in
    let '(rig3, rig_fault) :=
      output_fault (measure rig1 (replicate (Z.to_nat (rl_n_inputs st)) f0)).1 inputs in
    let snapshot := Safety_load_inputs (rs_safety (w_shared w1)) in
    let allowed := si_armed snapshot && negb (si_tripped snapshot) in
    let bad := rig_fault || program_fault (rl_program st')
               || existsb (fun v => negb (is_finite v)) commanded in
    for_each apply_one (take 2 (q_contents (rl_commands st)))
      (tick_diagnostics w st (tick_start (rl_rig st)) (ck_t0 ck), tick_start (rl_rig st),
       rl_program st) = Some (w1, rig1, p1)
    /\ run_rt_tick w st ck host = Some (w', st', applied)
    /\ program_step (host w2) p1 inputs allowed (rl_ctx st)
         (replicate (Z.to_nat (rl_n_actuators st)) f0) = Some (w3, rl_program st', commanded)
    /\ applied = (if allowed && negb bad then clamped_outputs rig3 commanded
                  else safe_outputs rig3 (length (ACTUATORS (R := R))))
    /\ rl_rig st' = tick_end (actuate rig3 applied)
    /\ (bad = true -> si_tripped (Safety_load_inputs (rs_safety (w_shared w'))) = true).
Proof.
  destruct (run_rt_tick_spec w st ck host Hok Hh) as
    (w1 & rig1 & p1 & q1 & rig2 & inputs & w2 & Ef & Eq & Em & Li & Hi1 & Hi2 & _ & Ht).
  set (zeros := replicate (Z.to_nat (MAX_SOURCES - rl_n_inputs st)) f0) in Ht.
  set (snapshot := Safety_load_inputs (rs_safety (w_shared w1))) in Ht.
  destruct (tick_outputs_spec w w2 rig2 p1 st (inputs ++ zeros) snapshot host Hok Hi2 Hh) as
    (inputs' & w3 & p3 & commanded & Es & Ep & Lc & Hi3 & Ho);
    [rewrite len_app; pose proof (len_nonneg zeros); lia|].
  assert (Ei : slice (inputs ++ zeros) 0 (rl_n_inputs st) = Some inputs)
    by (apply (slice_app [] inputs zeros); rewrite (len_nil (A := float)); lia).
  rewrite Ei in Es.
  apply (inj Some) in Es as <-. rewrite Hg in Ho, Ep. cbn [negb orb] in Ep.
  destruct (output_fault rig2 inputs) as [rig3 rig_fault] eqn:Efault.
  destruct Ho as (w4 & Eo & Hi4 & Hs4).
  destruct (Ht _ _ _ _ Eo Hi4) as
    (w' & st' & slots & signals & E & _ & _ & Er & <- & _ & _ & _ & Hs & _);
    [unfold len; by rewrite length_gated|].
  exists w1, rig1, p1, w', st', (gated snapshot (rig_fault || program_fault (rl_program st')
    || existsb (fun v => negb (is_finite v)) commanded) rig3 commanded), w2, w3, commanded.
  rewrite Em. cbn [fst snd]. rewrite Efault. fold snapshot.
  split; [exact Ef|]. split; [exact E|]. split; [exact Ep|]. split; [|split; [exact Er|]].
  - unfold gated. assert (La : length commanded = length (ACTUATORS (R := R))).
    { destruct Hok. unfold len in *. lia. }
    rewrite La. by destruct (_ || _), (si_armed snapshot), (si_tripped snapshot).
  - intros Hb. rewrite Hs, Hs4, Hb. done.
Qed.

Lemma reboot_calls_pos {R : Type} `{Rig R} (rig : R) step n k : reboot_calls rig step n = Some k -> (0 < k)%nat.
Proof.
  destruct n as [|n]; [done|]. cbn [reboot_calls]. destruct (prepare_reboot _ _) as [? []]; [intros [= <-]; lia|].
  destruct (reboot_calls _ _ n); [|done]. intros [= <-]. lia.
Qed.

(** C37. The reboot handshake: from the iteration that sees the request on, no tick
    runs and nothing is actuated; the rig's reboot steps are called with
    consecutive (saturating) step numbers until one reports that it is
    finished, and from then on the loop only spins.  The shared reboot word is
    the requested one after every run that has not reached that call, and
    [REBOOT_QUIESCED] after every run that has: it is published then and not
    before, and stays. *)
Theorem reboot_quiesces {R P CQ RQ : Type} `{Rig R, Program P, SpscQueue CQ RtCommand,
    SpscQueue RQ StreamRecord} (w : World) (st : RtLoopState R P CQ RQ) (step : Z)
    (env : list (bool * TickClock * (World -> World)))
    (Hs : fits 8 step)
    (Hr : rs_reboot (w_shared w) = REBOOT_REQUESTED)
    (Hk : Forall (fun e => only_requests e.2) env) :
  exists s events, hot_run (Hot w st step) env = Some (s, events)
    /\ match reboot_calls (rl_rig st) step (length env) with
       | Some k => (exists w', s = Spinning w' /\ rs_reboot (w_shared w') = REBOOT_QUIESCED)
           /\ events = replicate (k - 1) (Quiescing false)
                       ++ Quiescing true :: replicate (length env - k) Spun
       | None => (exists w' rig', s = Hot w' (st <| rl_rig := rig' |>)
                                       (Z.min (umax 8) (step + len env))
                      /\ rs_reboot (w_shared w') = REBOOT_REQUESTED)
           /\ events = replicate (length env) (Quiescing false)
       end.
Proof.
  revert w st step Hs Hr. induction Hk as [|[[tick_ok ck] host] env Hh He IH]; intros w st step Hs Hr.
  - exists (Hot w st step), []. split; [done|]. cbn. split; [|done].
    exists w, (rl_rig st). unfold fits, umax in *. rewrite (len_nil (A := bool * TickClock * (World -> World))), Z.min_r by lia.
    rewrite Z.add_0_r. split; [by destruct st|done].
  - cbn [hot_run length reboot_calls]. cbn [snd] in Hh.
    set (w1 := if tick_ok then w else with_diagnostics w (fun d =>
                      d <| dg_tick_timeouts := fetch_inc (dg_tick_timeouts d) |>)).
    assert (Hr1 : rs_reboot (w_shared w1) = REBOOT_REQUESTED) by (unfold w1; by destruct tick_ok).
    assert (Hr2 : RebootShared_is_requested (rs_reboot (w_shared w1)) = true) by by rewrite Hr1.
    assert (Eh : hot_step (Hot w st step) tick_ok ck host
      = let '(rig, finished) := prepare_reboot (rl_rig st) step in
        if (finished : bool)
        then Some (Spinning (w1 <| w_shared := (w_shared w1)
                  <| rs_reboot := RebootShared_mark_quiesced (rs_reboot (w_shared w1)) |> |>),
                  Quiescing true)
        else Some (Hot (host w1) (st <| rl_rig := rig |>) (saturating_add 8 step 1),
                   Quiescing false)).
    { unfold hot_step. fold w1. by rewrite Hr2. }
    rewrite Eh. destruct (prepare_reboot (rl_rig st) step) as [rig finished]. destruct finished.
    + rewrite bind_Some. destruct (spinning_run (R := R) (P := P) (CQ := CQ) (RQ := RQ)
        (w1 <| w_shared := (w_shared w1)
           <| rs_reboot := RebootShared_mark_quiesced (rs_reboot (w_shared w1)) |> |>) env)
        as (w' & E & Hq).
      rewrite E, bind_Some. eexists _, _. split; [reflexivity|].
      split; [exists w'; split; [done|by rewrite Hq]|].
      cbn. by rewrite Nat.sub_0_r.
    + rewrite bind_Some.
      destruct (IH (host w1) (st <| rl_rig := rig |>) (saturating_add 8 step 1)) as (s & es & E & Hm).
      { unfold saturating_add, fits, umax in *. lia. }
      { by rewrite only_requests_same. }
      rewrite E, bind_Some. exists s, (Quiescing false :: es). split; [reflexivity|].
      cbn [rl_rig set const] in Hm. change (rl_rig (st <| rl_rig := rig |>)) with rig in Hm.
      destruct (reboot_calls rig (saturating_add 8 step 1) (length env)) as [k|] eqn:Ek;
        cbn [fmap option_fmap option_map].
      * destruct Hm as [Hw ->]. split; [exact Hw|].
        pose proof (reboot_calls_pos _ _ _ _ Ek).
        replace (S k - 1)%nat with (S (k - 1)) by lia. done.
      * destruct Hm as [(w' & rig' & -> & Hw) ->]. split; [|done].
        exists w', rig'. split; [|exact Hw]. rewrite len_cons. cbn. f_equal.
        unfold saturating_add, fits, umax in *. pose proof (len_nonneg env). lia.
Qed.

(** ** Examples *)

#[export] Instance VectorRig_laws : RigLaws VectorRig.
Proof. by split. Defined.

#[export] Instance PhaseProgram_laws : ProgramLaws PhaseProgram (fun _ _ => True) (fun _ => True).
Proof.
  split; cbn [program_apply program_step write_signals signal_count OUTPUTS PhaseProgram_program].
  - intros. by eexists _, _.
  - intros. by eexists _, _, _.
  - intros. by eexists.
  - lia.
  - lia.
  - done.
Defined.

Definition demo_command : RtCommand :=
  {| cmd_domain := DOMAIN_GENERATOR; cmd_id := 0; cmd_payload := PU32 5 |}.

Definition demo_state : RtLoopState VectorRig PhaseProgram (ListQueue RtCommand)
    (ListQueue StreamRecord) := {|
  rl_rig := vector_rig; rl_program := phase_program; rl_sample_rate := Hz8000;
  rl_commands := {| lq_items := [demo_command; demo_command; demo_command]; lq_capacity := 31 |};
  rl_records := {| lq_items := []; lq_capacity := 255 |};
  rl_ctx := demo_ctx; rl_command_epoch := 2 ^ 24 - 1; rl_index := 2 ^ 32 - 1;
  rl_last_tick := None; rl_n_inputs := 0; rl_n_program_signals := 1; rl_n_actuators := 2;
  rl_n_sources := 4 |}.

Definition demo_clock : TickClock :=
  {| ck_t0 := 10; ck_m0 := 11; ck_m1 := 20; ck_a0 := 30; ck_a1 := 40; ck_end := 41 |}.

Lemma demo_loop_ok w : loop_ok (I := fun _ _ => True) (ctx_ok := fun _ => True) w demo_state.
Proof.
  split; [exact I|exact I|reflexivity|reflexivity|reflexivity|by vm_compute|reflexivity
         |by vm_compute|by vm_compute| |].
  - split; [by vm_compute|reflexivity].
  - repeat (apply Forall_cons; split; [split; [by vm_compute|reflexivity]|]). apply Forall_nil, I.
Defined.

Lemma tick_spec_witness :
  exists w' st' applied, run_rt_tick demo_world demo_state demo_clock (fun w => w)
      = Some (w', st', applied)
    /\ rl_command_epoch st' = 1 /\ rl_index st' = 0 /\ len applied = 2
    /\ q_contents (rl_commands st') = [demo_command].
Proof.
  destruct (@tick_spec VectorRig PhaseProgram _ _ VectorRig_rig PhaseProgram_program _ _
    (fun _ _ => True) (fun _ => True) VectorRig_laws PhaseProgram_laws list_queue_laws list_queue_laws
    demo_world demo_state demo_clock (fun w => w) (demo_loop_ok _) ltac:(done))
    as (w1 & rig1 & p1 & w' & st' & applied & signals & E & _ & _ & Ec & Ee & Ei & La & _).
  exists w', st', applied. split; [exact E|]. split; [rewrite Ee; vm_compute; reflexivity|].
  split; [rewrite Ei; vm_compute; reflexivity|]. split; [exact La|exact Ec].
Defined.

(** A host that arms the outputs in the middle of the tick changes nothing. *)
Definition arming_host (w : World) : World :=
  w <| w_shared := (w_shared w) <| rs_safety := Safety_arm (rs_safety (w_shared w)) |> |>.

Lemma tick_output_gated_witness :
  exists w' st', run_rt_tick demo_world demo_state demo_clock arming_host
      = Some (w', st', [f32_of_Z 10; f32_of_Z 11]).
Proof.
  destruct (@tick_output_gated VectorRig PhaseProgram _ _ VectorRig_rig PhaseProgram_program _ _
    (fun _ _ => True) (fun _ => True) VectorRig_laws PhaseProgram_laws list_queue_laws list_queue_laws
    demo_world demo_state demo_clock arming_host (demo_loop_ok _) ltac:(done) eq_refl)
    as (w1 & rig1 & p1 & w' & st' & applied & w2 & w3 & commanded & Ef & E & _ & Ha & _).
  exists w', st'. rewrite E. do 2 f_equal.
  assert (Hw : w1 = tick_diagnostics demo_world demo_state vector_rig 10).
  { vm_compute in Ef. vm_compute. congruence. }
  rewrite Ha, Hw. vm_compute. reflexivity.
Defined.

Definition with_reboot_requested (w : World) : World :=
  w <| w_shared := (w_shared w) <| rs_reboot := RebootShared_request (rs_reboot (w_shared w)) |> |>.

Lemma reboot_quiesces_witness :
  exists w', hot_run (Hot (with_reboot_requested demo_world) demo_state 0)
      [(true, demo_clock, fun w => w); (true, demo_clock, with_reboot_requested)]
    = Some (Spinning w', [Quiescing true; Spun])
    /\ RebootShared_is_quiesced (rs_reboot (w_shared w')) = true.
Proof.
  destruct (@reboot_quiesces VectorRig PhaseProgram _ _ VectorRig_rig PhaseProgram_program _ _
    (with_reboot_requested demo_world) demo_state 0
    [(true, demo_clock, fun w => w); (true, demo_clock, with_reboot_requested)])
    as (s & events & E & (w' & -> & Hq) & He).
  - unfold fits. lia.
  - reflexivity.
  - apply Forall_cons; split; [intros w; by left|]. apply Forall_singleton. intros w; by right.
  - exists w'. rewrite E, He, Hq. split; reflexivity.
Defined.
