(* ===== verification/Params.v ===== *)
(** * The transactional parameter store

    [helic-rt/src/params.rs]: component-owned parameter groups behind one
    discoverable index space, and the store that turns a staged update into at
    most one command to the real-time core.  A group is a type class; the
    store is proved against its laws, and [Groups] discharges them.

    A call that can fail gives back the memory, the store and its outcome, for
    an error may leave changes behind. *)

From stdpp Require Import strings.
From S2P Require Import Prelude Float32 Harmonics Proto Text ParamPayload Frame Table TableBuffer.
From S2P Require Import Channels Shared Rig Program.

Definition coeff_count (H : nat) : Z := wrap 16 (1 + 2 * Z.of_nat H).
Definition MAX_GROUPS : Z := 8.
Definition MAX_CTRL_PARAMS : Z := 17.
Definition MAX_RIG_PARAMS : Z := 16.
Definition MAX_EXTRA_PARAMS : Z := 16.

Inductive ParamKind := Scalar | Array (count : Z) | Blob (maximum : Z).

Record ParamDef := {
  def_name : string; def_ty : ParamType; def_count : Z; def_writable : bool;
  def_kind : ParamKind }.

Definition scalar_or_array (count : Z) : ParamKind := if count =? 1 then Scalar else Array count.

Definition ParamDef_read_only (name : string) (ty : ParamType) (count : Z) : ParamDef :=
  {| def_name := name; def_ty := ty; def_count := count; def_writable := false;
     def_kind := scalar_or_array count |}.

Definition ParamDef_writable (name : string) (ty : ParamType) (count : Z) : ParamDef :=
  {| def_name := name; def_ty := ty; def_count := count; def_writable := true;
     def_kind := scalar_or_array count |}.

Definition ParamDef_blob (name : string) (ty : ParamType) (count maximum : Z) : ParamDef :=
  {| def_name := name; def_ty := ty; def_count := count; def_writable := true;
     def_kind := Blob maximum |}.

(** The atomic word of an [ExtraParam] is a position of [w_extra]. *)
Record ExtraParam := {
  ex_name : string; ex_ty : ParamType; ex_value : nat; ex_reset_on_diag : bool }.

Definition ExtraParam_f32 (name : string) (value : nat) : ExtraParam :=
  {| ex_name := name; ex_ty := F32; ex_value := value; ex_reset_on_diag := false |}.
Definition ExtraParam_u32 (name : string) (value : nat) : ExtraParam :=
  {| ex_name := name; ex_ty := U32; ex_value := value; ex_reset_on_diag := false |}.
Definition ExtraParam_u32_event (name : string) (value : nat) : ExtraParam :=
  {| ex_name := name; ex_ty := U32; ex_value := value; ex_reset_on_diag := true |}.

Definition ExtraParam_def (e : ExtraParam) : ParamDef :=
  ParamDef_read_only (ex_name e) (ex_ty e) 1.
Definition ExtraParam_get (w : World) (e : ExtraParam) (out : list Z) : option (list Z) :=
  v ← w_extra w !! ex_value e;
  copy_from_slice out (le32 v).
Definition ExtraParam_reset_diagnostic (w : World) (e : ExtraParam) : World :=
  if ex_reset_on_diag e then w <| w_extra := <[ex_value e := 0]> (w_extra w) |> else w.

Inductive ParamAction := NoAction | Reboot | ResetDiagnostics.

#[export] Instance ParamAction_eq_dec : EqDecision ParamAction.
Proof. solve_decision. Defined.

Inductive Staged := StagedLocal (a : ParamAction) | StagedRt (p : Payload).

Inductive CommandTarget := Core0 | TargetRig | TargetProgram (domain : Z).

#[export] Instance CommandTarget_eq_dec : EqDecision CommandTarget.
Proof. solve_decision. Defined.

(** The trait.  [accept] can panic (an index out of a shadow array). *)
Class ParamGroup (G : Type) := {
  target : G -> CommandTarget;
  params : G -> list ParamDef;
  group_get : World -> G -> Z -> list Z -> outcome ErrorCode (list Z * Z);
  group_stage : World -> G -> Z -> list Z -> World * G * outcome ErrorCode Staged;
  group_accept : World -> G -> Z -> option (World * G);
  group_reject : World -> G -> Z -> option Payload -> World * G;
  group_reset_diagnostics : World -> G -> World * G;
  group_set_block : World -> G -> Z -> Z -> list Z -> World * G * outcome ErrorCode unit;
  group_stage_commit : World -> G -> Z -> Z -> World * G * outcome ErrorCode Staged }.

(** The defaults of the last two. *)
Definition no_set_block {G} (w : World) (g : G) (_ _ : Z) (_ : list Z)
    : World * G * outcome ErrorCode unit := (w, g, Err UnknownType).
Definition no_stage_commit {G} (w : World) (g : G) (_ _ : Z)
    : World * G * outcome ErrorCode Staged := (w, g, Err UnknownType).

Record GroupEntry (G : Type) := { ge_group : G; ge_target : CommandTarget }.
Arguments Build_GroupEntry {G}.
Arguments ge_group {G}.
Arguments ge_target {G}.

Record ParamStore (G CQ : Type) := {
  ps_commands : CQ; ps_sample_rate : SampleRate; ps_entries : list (GroupEntry G);
  ps_validated : bool }.
Arguments Build_ParamStore {G CQ}.
Arguments ps_commands {G CQ}.
Arguments ps_sample_rate {G CQ}.
Arguments ps_entries {G CQ}.
Arguments ps_validated {G CQ}.

Definition assert (b : bool) : option unit := if b then Some () else None.

Section store.
Context {G CQ : Type} `{ParamGroup G, SpscQueue CQ RtCommand}.
Implicit Types s : ParamStore G CQ.

Definition ParamStore_new (commands : CQ) (rate : SampleRate) : ParamStore G CQ :=
  {| ps_commands := commands; ps_sample_rate := rate; ps_entries := [];
     ps_validated := false |}.

(** [push]: [None] is a failed assertion. *)
Definition ParamStore_push s (group : G) : option (ParamStore G CQ) :=
  _ ← assert (negb (ps_validated s));
  _ ← assert (len (ps_entries s) <? MAX_GROUPS);
  Some (s <| ps_entries := ps_entries s ++ [{| ge_group := group; ge_target := target group |}] |>).

Fixpoint locate_from (entries : list (GroupEntry G)) (group : nat) (base i : Z)
    : option (nat * Z) :=
  match entries with
  | [] => None
  | entry :: entries =>
      let count := len (params (ge_group entry)) in
      if i <? base + count then Some (group, wrap 16 (i - base))
      else locate_from entries (S group) (base + count) i
  end.
Definition locate s (i : Z) : option (nat * Z) := locate_from (ps_entries s) 0 0 i.

Definition total_count s : Z :=
  foldr (fun entry n => len (params (ge_group entry)) + n) 0 (ps_entries s).

(** Indexing [entries[group]] panics out of range; after [locate] it is not. *)
Definition def_unchecked s (i : Z) : option ParamDef :=
  '(group, id) ← locate s i;
  entry ← ps_entries s !! group;
  index (params (ge_group entry)) id.

Definition ParamStore_count s : option Z := _ ← assert (ps_validated s); Some (total_count s).
Definition ParamStore_def s (i : Z) : option (option ParamDef) :=
  _ ← assert (ps_validated s); Some (def_unchecked s i).

(** The checks of one definition against the ones before it. *)
Definition validate_def s (i : Z) : option unit :=
  def ← def_unchecked s i;
  _ ← assert (str_is_ascii (def_name def) && (str_len (def_name def) <=? MAX_PARAM_NAME_LEN));
  _ ← assert (str_len (def_name def) + 5 <=? MAX_PAYLOAD - 4);
  _ ← assert (match def_kind def with Blob maximum => maximum <=? umax 16 | _ => true end);
  for_each (fun j _ =>
    previous ← def_unchecked s j;
    assert (negb (String.eqb (def_name def) (def_name previous)))) (seqZ 0 i) ().

Definition targets_domain (domain : Z) (entry : GroupEntry G) : bool :=
  bool_decide (ge_target entry = TargetProgram domain).

Definition validate_domain s (before : list Z) (domain : Z) : option unit :=
  _ ← assert (negb (domain =? DOMAIN_RIG));
  _ ← for_each (fun previous _ => assert (negb (domain =? previous))) before ();
  assert (len (filter (fun entry => targets_domain domain entry = true) (ps_entries s)) =? 1).

Definition validate_target (program_domains : list Z) (entry : GroupEntry G) : option unit :=
  match ge_target entry with
  | TargetProgram domain => assert (existsb (Z.eqb domain) program_domains)
  | _ => Some ()
  end.

Definition ParamStore_validate s (program_domains : list Z) : option (ParamStore G CQ) :=
  _ ← assert (negb (ps_validated s));
  _ ← assert (total_count s <=? umax 16);
  _ ← for_each (fun i _ => validate_def s i) (seqZ 0 (total_count s)) ();
  _ ← for_each (fun idx _ => validate_domain s (take (fst idx) program_domains) (snd idx))
        (imap pair program_domains) ();
  _ ← for_each (fun entry _ => validate_target program_domains entry) (ps_entries s) ();
  _ ← assert (len (filter (fun entry => ge_target entry = TargetRig) (ps_entries s)) <=? 1);
  Some (s <| ps_validated := true |>).

Definition ParamStore_get (w : World) s (i : Z) (out : list Z) : outcome ErrorCode (list Z * Z) :=
  _ ← assert_that (ps_validated s);
  '(group, id) ← ok_or (locate s i) BadIndex;
  entry ← or_panic (ps_entries s !! group);
  group_get w (ge_group entry) id out.

(** [self.entries[group].group] after a call on it. *)
Definition set_group s (group : nat) (g : G) : ParamStore G CQ :=
  s <| ps_entries ::= alter (fun entry => {| ge_group := g; ge_target := ge_target entry |}) group |>.

Definition reset_entries (w : World) (entries : list (GroupEntry G))
    : World * list (GroupEntry G) :=
  fold_left (fun '(w, done) entry =>
    let '(w, g) := group_reset_diagnostics w (ge_group entry) in
    (w, done ++ [{| ge_group := g; ge_target := ge_target entry |}])) entries (w, []).

Definition finish_staged (w : World) s (group : nat) (id : Z) (staged : Staged)
    : World * ParamStore G CQ * outcome ErrorCode ParamAction :=
  match ps_entries s !! group with
  | None => (w, s, Panic)
  | Some entry =>
      match staged with
      | StagedLocal action =>
          match group_accept w (ge_group entry) id with
          | None => (w, s, Panic)
          | Some (w, g) =>
              let s := set_group s group g in
              if decide (action = ResetDiagnostics) then
                let '(w, entries) := reset_entries w (ps_entries s) in
                (w, s <| ps_entries := entries |>, Ok NoAction)
              else (w, s, Ok action)
          end
      | StagedRt payload =>
          let rejected w returned e :=
            let '(w, g) := group_reject w (ge_group entry) id (Some returned) in
            (w, set_group s group g, Err e) in
          let send domain :=
            let command := {| cmd_domain := domain; cmd_id := id; cmd_payload := payload |} in
            match q_enqueue (ps_commands s) command with
            | Some q =>
                match group_accept w (ge_group entry) id with
                | None => (w, s, Panic)
                | Some (w, g) => (w, (set_group s group g) <| ps_commands := q |>, Ok NoAction)
                end
            | None => rejected w payload Busy
            end in
          match ge_target entry with
          | TargetRig => send DOMAIN_RIG
          | TargetProgram domain => send domain
          | Core0 => rejected w payload BadIndex
          end
      end
  end.

(** The call on group [group] that stages, then [finish_staged]. *)
Definition stage_and_finish (w : World) s (group : nat) (id : Z)
    (call : World -> G -> World * G * outcome ErrorCode Staged)
    : World * ParamStore G CQ * outcome ErrorCode ParamAction :=
  match ps_entries s !! group with
  | None => (w, s, Panic)
  | Some entry =>
      let '(w, g, r) := call w (ge_group entry) in
      and_then (w, set_group s group g, r)
        (fun '(w, s) staged => finish_staged w s group id staged)
  end.

Definition ParamStore_set (w : World) s (i : Z) (data : list Z)
    : World * ParamStore G CQ * outcome ErrorCode ParamAction :=
  if negb (ps_validated s) then (w, s, Panic)
  else
    match locate s i with
    | None => (w, s, Err BadIndex)
    | Some (group, id) =>
        match def_unchecked s i with
        | None => (w, s, Err BadIndex)
        | Some def =>
            if negb (def_writable def) then (w, s, Err ReadOnly)
            else if negb (len data =? ParamType_size (def_ty def) * def_count def)
            then (w, s, Err BadLength)
            else stage_and_finish w s group id (fun w g => group_stage w g id data)
        end
    end.

Definition ParamStore_set_block (w : World) s (i offset : Z) (data : list Z)
    : World * ParamStore G CQ * outcome ErrorCode unit :=
  if negb (ps_validated s) then (w, s, Panic)
  else
    match locate s i with
    | None => (w, s, Err BadIndex)
    | Some (group, id) =>
        match ps_entries s !! group with
        | None => (w, s, Panic)
        | Some entry =>
            let '(w, g, r) := group_set_block w (ge_group entry) id offset data in
            (w, set_group s group g, r)
        end
    end.

Definition ParamStore_commit (w : World) s (i n : Z)
    : World * ParamStore G CQ * outcome ErrorCode unit :=
  if negb (ps_validated s) then (w, s, Panic)
  else
    match locate s i with
    | None => (w, s, Err BadIndex)
    | Some (group, id) =>
        and_then (stage_and_finish w s group id (fun w g => group_stage_commit w g id n))
          (fun '(w, s) _ => (w, s, Ok ()))
    end.
End store.

(** ** What the host can observe of the memory *)

(** Everything but the contents of the staging bank. *)
Definition db_visible {T} (b b' : DoubleBuffer T) : Prop :=
  db_active b = db_active b' /\ db_pending b = db_pending b' /\ db_identity b = db_identity b'
  /\ index (db_banks b) (db_active b) = index (db_banks b') (db_active b').

Record visible (w w' : World) : Prop := {
  vis_shared : w_shared w = w_shared w';
  vis_extra : w_extra w = w_extra w';
  vis_target : db_visible (w_target w) (w_target w');
  vis_forcing : db_visible (w_forcing w) (w_forcing w');
  vis_table : db_visible (w_table w) (w_table w') }.

#[export] Instance db_visible_equivalence {T} : Equivalence (@db_visible T).
Proof.
  unfold db_visible. split.
  - done.
  - intros b b' (-> & -> & -> & ->). done.
  - intros b1 b2 b3 (-> & -> & -> & ->). done.
Qed.

#[export] Instance visible_equivalence : Equivalence visible.
Proof.
  split.
  - intros w. by split.
  - intros w w' []. by split.
  - intros w1 w2 w3 [] []. split; (by etransitivity) || congruence.
Qed.

(** ** The laws of a group *)

Definition same_shape {G} `{ParamGroup G} (g g' : G) : Prop :=
  params g' = params g /\ target g' = target g.

Section laws.
Context {G : Type} `{ParamGroup G}.
Variable world_ok : World -> Prop.
Variable idle : G -> Prop.

(** The result of a staging call: an error leaves nothing behind; a staged
    update can be accepted, and a real-time one rejected without a trace. *)
Definition staged_ok (w : World) (g : G) (id : Z)
    (result : World * G * outcome ErrorCode Staged) : Prop :=
  let '(w', g', r) := result in
  same_shape g g' /\
  match r with
  | Panic => False
  | Err _ => visible w w' /\ world_ok w' /\ g' = g
  | Ok staged =>
      (exists w2 g2, group_accept w' g' id = Some (w2, g2)
         /\ world_ok w2 /\ idle g2 /\ same_shape g g2)
      /\ match staged with
         | StagedLocal _ => True
         | StagedRt p =>
             payload_ok p
             /\ visible w (group_reject w' g' id (Some p)).1
             /\ world_ok (group_reject w' g' id (Some p)).1
             /\ (group_reject w' g' id (Some p)).2 = g
         end
  end.

Class ParamGroupLaws := {
  law_stage w g id data : world_ok w -> idle g -> 0 <= id < len (params g) -> bytes_ok data ->
    staged_ok w g id (group_stage w g id data);
  law_stage_commit w g id n : world_ok w -> idle g -> 0 <= id < len (params g) ->
    staged_ok w g id (group_stage_commit w g id n);
  (** An upload is invisible until it is committed. *)
  law_set_block w g id offset data : world_ok w -> idle g -> bytes_ok data -> 0 <= offset ->
    let '(w', g', r) := group_set_block w g id offset data in
    r <> Panic /\ world_ok w' /\ visible w w' /\ g' = g;
  law_reset w g : world_ok w -> idle g ->
    let '(w', g') := group_reset_diagnostics w g in
    world_ok w' /\ idle g' /\ same_shape g g';
  law_get w w' g id out : visible w w' -> group_get w g id out = group_get w' g id out;
  law_read w g id out : world_ok w -> idle g -> fills out (group_get w g id out) }.
End laws.

Arguments ParamGroupLaws G {_} world_ok idle.

(** ** Lemmas *)

Section lemmas.
Context {G CQ : Type} `{HG : ParamGroup G, HQ : SpscQueue CQ RtCommand}.
Context {world_ok : World -> Prop} {idle : G -> Prop}.
Context `{!ParamGroupLaws G world_ok idle, !SpscLaws CQ RtCommand}.
Implicit Types s : ParamStore G CQ.

Record store_ok s : Prop := {
  so_validated : ps_validated s = true;
  so_total : total_count s <= umax 16;
  so_entries : Forall (fun entry => idle (ge_group entry)
                                    /\ ge_target entry = target (ge_group entry)) (ps_entries s) }.

Lemma total_count_app (l1 l2 : list (GroupEntry G)) :
  foldr (fun entry n => len (params (ge_group entry)) + n) 0 (l1 ++ l2)
  = foldr (fun entry n => len (params (ge_group entry)) + n) 0 l1
    + foldr (fun entry n => len (params (ge_group entry)) + n) 0 l2.
Proof. induction l1 as [|e l1 IH]; cbn; [done|]. rewrite IH. lia. Qed.

(** An index is located exactly below the total count, at the group and offset
    that it denotes. *)
Lemma locate_from_spec (entries : list (GroupEntry G)) group base i :
  base <= i -> foldr (fun entry n => len (params (ge_group entry)) + n) 0 entries <= umax 16 ->
  match locate_from entries group base i with
  | Some (k, id) =>
      exists entry before after, entries = before ++ entry :: after
        /\ k = (group + length before)%nat /\ 0 <= id < len (params (ge_group entry))
        /\ i = base + foldr (fun entry n => len (params (ge_group entry)) + n) 0 before + id
  | None => base + foldr (fun entry n => len (params (ge_group entry)) + n) 0 entries <= i
  end.
Proof.
  revert group base. induction entries as [|entry entries IH]; intros group base Hi Ht; cbn in *; [lia|].
  assert (Hp : 0 <= foldr (fun entry n => len (params (ge_group entry)) + n) 0 entries).
  { clear. induction entries as [|e l IH]; cbn; [done|]. pose proof (len_nonneg (params (ge_group e))). lia. }
  pose proof (len_nonneg (params (ge_group entry))).
  destruct (Z.ltb_spec i (base + len (params (ge_group entry)))) as [Hl|Hl].
  - exists entry, [], entries. rewrite wrap_id by (unfold fits, umax in *; lia).
    cbn. split_and!; (done || lia).
  - assert (Ht' : foldr (fun entry n => len (params (ge_group entry)) + n) 0 entries <= umax 16) by lia.
    specialize (IH (S group) (base + len (params (ge_group entry))) Hl Ht').
    destruct (locate_from entries (S group) (base + len (params (ge_group entry))) i) as [[k id]|].
    + destruct IH as (e & before & after & -> & -> & Hid & Heq).
      exists e, (entry :: before), after. cbn. split_and!; (done || lia).
    + lia.
Qed.

(** Parameter [i] of the registry is the definition [id] of [entry]: the groups'
    definitions are numbered in the order of the entries. *)
Definition owns s (i : Z) (entry : GroupEntry G) (id : Z) : Prop :=
  exists before after, ps_entries s = before ++ entry :: after
    /\ 0 <= id < len (params (ge_group entry))
    /\ i = foldr (fun entry n => len (params (ge_group entry)) + n) 0 before + id.

Lemma locate_owns s i k id :
  0 <= i -> total_count s <= umax 16 -> locate s i = Some (k, id) ->
  exists entry, ps_entries s !! k = Some entry /\ owns s i entry id.
Proof.
  intros Hi Ht El. pose proof (locate_from_spec (ps_entries s) 0 0 i Hi Ht) as Hs.
  unfold locate in El. rewrite El in Hs. destruct Hs as (entry & before & after & He & -> & Hid & ->).
  exists entry. split; [rewrite He; by apply list_lookup_middle|]. by exists before, after.
Qed.

Lemma locate_spec s i :
  0 <= i -> total_count s <= umax 16 ->
  match locate s i with
  | Some (k, id) => i < total_count s
      /\ exists entry, ps_entries s !! k = Some entry /\ 0 <= id < len (params (ge_group entry))
  | None => total_count s <= i
  end.
Proof.
  intros Hi Ht. pose proof (locate_from_spec (ps_entries s) 0 0 i Hi Ht) as Hs.
  unfold locate, total_count in *. destruct (locate_from _ _ _ _) as [[k id]|]; [|exact Hs].
  destruct Hs as (entry & before & after & He & -> & Hid & ->). split.
  - rewrite He, total_count_app. cbn.
    assert (0 <= foldr (fun entry n => len (params (ge_group entry)) + n) 0 after).
    { clear. induction after as [|e l IH]; cbn; [done|]. pose proof (len_nonneg (params (ge_group e))). lia. }
    lia.
  - exists entry. split; [|done]. rewrite He. by apply list_lookup_middle.
Qed.

Lemma def_unchecked_Some s i :
  0 <= i < total_count s -> total_count s <= umax 16 -> is_Some (def_unchecked s i).
Proof.
  intros Hi Ht. pose proof (locate_spec s i ltac:(lia) Ht) as Hs. unfold def_unchecked.
  destruct (locate s i) as [[k id]|]; [|lia]. rewrite bind_Some. destruct Hs as (_ & entry & -> & Hid).
  rewrite bind_Some. by apply index_is_Some.
Qed.

Lemma set_group_entries s k entry g :
  ps_entries s !! k = Some entry ->
  ps_entries (set_group s k g)
  = <[k := {| ge_group := g; ge_target := ge_target entry |}]> (ps_entries s).
Proof.
  intros Hk. unfold set_group. cbn. apply list_eq. intros j.
  destruct (decide (j = k)) as [-> | Hne].
  - rewrite list_lookup_alter_eq, Hk. cbn. symmetry. apply list_lookup_insert_eq.
    by eapply lookup_lt_Some.
  - by rewrite list_lookup_alter_ne, list_lookup_insert_ne by done.
Qed.

Lemma total_count_insert s k entry g :
  ps_entries s !! k = Some entry -> same_shape (ge_group entry) g ->
  total_count (set_group s k g) = total_count s.
Proof.
  intros Hk [Hp _]. unfold total_count. rewrite (set_group_entries s k entry g Hk).
  revert k Hk. induction (ps_entries s) as [|e l IH]; intros [|k] Hk; cbn in *; try done.
  - apply (inj Some) in Hk as ->. cbn. by rewrite Hp.
  - by rewrite IH.
Qed.

Lemma set_group_ok s k entry g :
  store_ok s -> ps_entries s !! k = Some entry -> same_shape (ge_group entry) g -> idle g ->
  store_ok (set_group s k g).
Proof.
  intros [Hv Ht He] Hk Hsh Hid. split.
  - exact Hv.
  - by rewrite (total_count_insert s k entry).
  - rewrite (set_group_entries s k entry g Hk). apply Forall_insert; [done|]. cbn.
    split; [done|]. destruct Hsh as [_ ->]. by apply (Forall_lookup_1 _ _ _ _ He Hk).
Qed.

Lemma set_group_same s k entry :
  ps_entries s !! k = Some entry -> set_group s k (ge_group entry) = s.
Proof.
  intros Hk. destruct s as [q r l v]. unfold set_group, set. cbn in *. f_equal.
  apply list_eq. intros j. destruct (decide (j = k)) as [-> | Hne].
  - rewrite list_lookup_alter_eq, Hk. by destruct entry.
  - by rewrite list_lookup_alter_ne.
Qed.

Lemma set_group_twice s k g g' : set_group (set_group s k g) k g' = set_group s k g'.
Proof.
  destruct s as [q r l v]. unfold set_group, set. cbn. f_equal. apply list_eq. intros j.
  destruct (decide (j = k)) as [-> | Hne].
  - rewrite !list_lookup_alter_eq. by destruct (l !! k).
  - by rewrite !list_lookup_alter_ne.
Qed.

Definition entry_ok (entry : GroupEntry G) : Prop :=
  idle (ge_group entry) /\ ge_target entry = target (ge_group entry).

Lemma reset_entries_ok w (entries : list (GroupEntry G)) :
  world_ok w -> Forall entry_ok entries ->
  exists w' entries', reset_entries w entries = (w', entries') /\ world_ok w'
    /\ Forall entry_ok entries'
    /\ foldr (fun entry n => len (params (ge_group entry)) + n) 0 entries'
       = foldr (fun entry n => len (params (ge_group entry)) + n) 0 entries.
Proof.
  unfold reset_entries. intros Hw He.
  assert (Hg : forall done_ w, world_ok w -> Forall entry_ok done_ -> exists w' entries',
    fold_left (fun '(w, done) entry =>
      let '(w, g) := group_reset_diagnostics w (ge_group entry) in
      (w, done ++ [{| ge_group := g; ge_target := ge_target entry |}])) entries (w, done_)
      = (w', entries') /\ world_ok w' /\ Forall entry_ok entries'
    /\ foldr (fun entry n => len (params (ge_group entry)) + n) 0 entries'
       = foldr (fun entry n => len (params (ge_group entry)) + n) 0 (done_ ++ entries)).
  2:{ by apply (Hg [] w). }
  clear w Hw. induction He as [|e l [He Ht] _ IH]; intros done_ w Hw Hd.
  - exists w, done_. by rewrite app_nil_r.
  - cbn [fold_left]. pose proof (law_reset world_ok idle w (ge_group e) Hw He) as Hr.
    destruct (group_reset_diagnostics w (ge_group e)) as [w1 g1].
    destruct Hr as (Hw1 & Hi1 & Hp & Ht1).
    destruct (IH (done_ ++ [{| ge_group := g1; ge_target := ge_target e |}]) w1 Hw1)
      as (w' & entries' & E & Hw' & He' & Hn).
    { apply Forall_app. split; [done|]. apply Forall_singleton. split; [done|]. cbn. by rewrite Ht1. }
    exists w', entries'. split; [exact E|]. split; [done|]. split; [done|].
    rewrite Hn, <-app_assoc, !total_count_app. cbn. rewrite Hp. lia.
Qed.

Definition target_domain (t : CommandTarget) : option Z :=
  match t with Core0 => None | TargetRig => Some DOMAIN_RIG | TargetProgram d => Some d end.

(** The outcome of an update of group [k]: an error changes nothing; a success
    queues at most one command, for that group. *)
Definition transaction {A} (w : World) s (k : nat) (id : Z)
    (result : World * ParamStore G CQ * outcome ErrorCode A) : Prop :=
  let '(w', s', r) := result in
  store_ok s' /\ world_ok w' /\
  match r with
  | Panic => False
  | Err _ => visible w w' /\ s' = s
  | Ok _ =>
      q_contents (ps_commands s') = q_contents (ps_commands s)
      \/ exists c entry, q_contents (ps_commands s') = q_contents (ps_commands s) ++ [c]
           /\ ps_entries s !! k = Some entry /\ cmd_id c = id /\ payload_ok (cmd_payload c)
           /\ target_domain (ge_target entry) = Some (cmd_domain c)
  end.

Lemma with_commands_ok s q : store_ok s -> store_ok (s <| ps_commands := q |>).
Proof. by intros []. Qed.

Lemma finish_send_ok w w1 s k entry id g1 p domain :
  store_ok s -> ps_entries s !! k = Some entry ->
  same_shape (ge_group entry) g1 ->
  target_domain (ge_target entry) = Some domain ->
  (exists w2 g2, group_accept w1 g1 id = Some (w2, g2)
     /\ world_ok w2 /\ idle g2 /\ same_shape (ge_group entry) g2) ->
  payload_ok p -> visible w (group_reject w1 g1 id (Some p)).1 ->
  world_ok (group_reject w1 g1 id (Some p)).1 ->
  (group_reject w1 g1 id (Some p)).2 = ge_group entry ->
  transaction (A := ParamAction) w s k id
    (let s1 := set_group s k g1 in
     let command := {| cmd_domain := domain; cmd_id := id; cmd_payload := p |} in
     match q_enqueue (ps_commands s1) command with
     | Some q =>
         match group_accept w1 g1 id with
         | None => (w1, s1, Panic)
         | Some (w, g) => (w, (set_group s1 k g) <| ps_commands := q |>, Ok NoAction)
         end
     | None => let '(w, g) := group_reject w1 g1 id (Some p) in (w, set_group s1 k g, Err Busy)
     end).
Proof.
  intros Hs Hk Hsh Ht (w2 & g2 & Ea & Hw2 & Hi2 & Hsh2) Hp Hv Hwr Hg. cbv zeta.
  change (ps_commands (set_group s k g1)) with (ps_commands s).
  set (c := {| cmd_domain := domain; cmd_id := id; cmd_payload := p |}).
  destruct (Z.lt_ge_cases (len (q_contents (ps_commands s))) (q_capacity (ps_commands s))) as [Hl|Hl].
  - destruct (q_enqueue_ok (ps_commands s) c Hl) as (q & -> & Hq & _). rewrite Ea, set_group_twice.
    split; [by apply with_commands_ok, (set_group_ok s k entry)|]. split; [done|]. right.
    exists c, entry. by split_and!.
  - rewrite q_enqueue_full by done.
    destruct (group_reject w1 g1 id (Some p)) as [wr gr]. cbn [fst snd] in *. subst gr.
    rewrite set_group_twice, set_group_same by done. by split_and!.
Qed.

Lemma stage_and_finish_spec w s k entry id call :
  store_ok s -> world_ok w -> ps_entries s !! k = Some entry -> idle (ge_group entry) ->
  staged_ok world_ok idle w (ge_group entry) id (call w (ge_group entry)) ->
  transaction w s k id (stage_and_finish w s k id call).
Proof.
  intros Hs Hw Hk Hid Hst. unfold stage_and_finish. rewrite Hk.
  destruct (call w (ge_group entry)) as [[w1 g1] r]. destruct Hst as [Hsh Hr].
  destruct r as [staged|e|]; cbn [and_then]; [|destruct Hr as (Hv & Hw1 & ->);
    rewrite set_group_same by done; by split_and!|done].
  destruct Hr as [Hacc Hrt]. pose proof Hacc as (w2 & g2 & Ea & Hw2 & Hi2 & Hsh2).
  unfold finish_staged. rewrite (set_group_entries s k entry g1 Hk).
  rewrite list_lookup_insert_eq by (by eapply lookup_lt_Some). cbn [ge_group ge_target].
  destruct staged as [action|p].
  - rewrite Ea. cbv zeta. rewrite set_group_twice.
    assert (Hs2 : store_ok (set_group s k g2)) by by apply (set_group_ok s k entry).
    destruct (decide (action = ResetDiagnostics)) as [-> | Ha].
    + destruct (reset_entries_ok w2 (ps_entries (set_group s k g2)) Hw2 (so_entries _ Hs2))
        as (w' & entries' & E & Hw' & He' & Hn).
      rewrite E. split; [|split; [done|by left]].
      destruct Hs2 as [Hv2 Ht2 _]. split; [exact Hv2| |exact He'].
      unfold total_count in *. cbn. rewrite Hn. exact Ht2.
    + split; [done|]. split; [done|by left].
  - destruct Hrt as (Hp & Hv & Hwr & Hg).
    destruct (ge_target entry) as [| |domain] eqn:Ht.
    + destruct (group_reject w1 g1 id (Some p)) as [wr gr]. cbn [fst snd] in *. subst gr.
      rewrite set_group_twice, set_group_same by done. by split_and!.
    + apply (finish_send_ok w w1 s k entry id g1 p DOMAIN_RIG); try done. by rewrite Ht.
    + apply (finish_send_ok w w1 s k entry id g1 p domain); try done. by rewrite Ht.
Qed.

(** The host's operations on the store. *)
Inductive store_op :=
  | OpSet (i : Z) (data : list Z)
  | OpBlock (i offset : Z) (data : list Z)
  | OpCommit (i n : Z).

Definition op_ok (op : store_op) : Prop :=
  match op with
  | OpSet i data => 0 <= i /\ bytes_ok data
  | OpBlock i offset data => 0 <= i /\ 0 <= offset /\ bytes_ok data
  | OpCommit i n => 0 <= i
  end.

Definition op_index (op : store_op) : Z :=
  match op with OpSet i _ | OpBlock i _ _ | OpCommit i _ => i end.

Definition store_apply (w : World) s (op : store_op)
    : World * ParamStore G CQ * outcome ErrorCode unit :=
  match op with
  | OpSet i data => and_then (ParamStore_set w s i data) (fun '(w, s) _ => (w, s, Ok ()))
  | OpBlock i offset data => ParamStore_set_block w s i offset data
  | OpCommit i n => ParamStore_commit w s i n
  end.

Lemma transaction_unit {A} w s k id (r : World * ParamStore G CQ * outcome ErrorCode A) :
  transaction w s k id r ->
  transaction w s k id (and_then r (fun '(w, s) _ => (w, s, Ok ()))).
Proof. destruct r as [[w' s'] [a|e|]]; done. Qed.

Lemma transaction_err {A} w s k id e :
  store_ok s -> world_ok w -> transaction (A := A) w s k id (w, s, Err e).
Proof. intros. by split_and!. Qed.

Lemma store_apply_spec w s op :
  op_ok op -> store_ok s -> world_ok w ->
  match locate s (op_index op) with
  | Some (k, id) => transaction w s k id (store_apply w s op)
  | None => store_apply w s op = (w, s, Err BadIndex)
  end.
Proof.
  intros Hop Hs Hw. pose proof Hs as [Hv Ht He].
  destruct op as [i data|i offset data|i n]; cbn [store_apply op_index];
    [destruct Hop as [Hi Hd] | destruct Hop as (Hi & Ho & Hd) | rename Hop into Hi];
    pose proof (locate_spec s i Hi Ht) as Hl;
    unfold ParamStore_set, ParamStore_set_block, ParamStore_commit; rewrite Hv; cbn [negb];
    (destruct (locate s i) as [[k id]|] eqn:El;
      [destruct Hl as (_ & entry & Hk & Hid)
      |done]);
    pose proof (Forall_lookup_1 _ _ _ _ He Hk) as [Hidle _].
  - apply transaction_unit.
    destruct (def_unchecked s i) as [def|]; [|by apply transaction_err].
    destruct (negb _); [by apply transaction_err|]. destruct (negb _); [by apply transaction_err|].
    apply stage_and_finish_spec with entry; try done. by apply law_stage.
  - rewrite Hk. pose proof (law_set_block world_ok idle w (ge_group entry) id offset data Hw Hidle Hd Ho)
      as Hb. destruct (group_set_block w (ge_group entry) id offset data) as [[w' g'] r].
    destruct Hb as (Hr & Hw' & Hvis & ->). rewrite set_group_same by done.
    split; [done|]. split; [done|]. destruct r as [[]| |]; [by left|done|done].
  - apply transaction_unit. apply stage_and_finish_spec with entry; try done.
    by apply law_stage_commit.
Qed.

Lemma store_apply_transaction w s op :
  op_ok op -> store_ok s -> world_ok w ->
  exists k id, transaction w s k id (store_apply w s op).
Proof.
  intros Hop Hs Hw. pose proof (store_apply_spec w s op Hop Hs Hw) as Ha.
  destruct (locate s (op_index op)) as [[k id]|]; [by exists k, id|].
  rewrite Ha. exists 0%nat, 0. by apply transaction_err.
Qed.

Lemma op_ok_index op : op_ok op -> 0 <= op_index op.
Proof. destruct op; cbn; tauto. Qed.

Lemma get_visible w w' s i out :
  visible w w' -> ParamStore_get w' s i out = ParamStore_get w s i out.
Proof.
  intros Hv. unfold ParamStore_get.
  destruct (assert_that (ps_validated s)) as [[]| |]; [|done|done]. rewrite !bind_Ok.
  destruct (locate s i) as [[k id]|]; [|done]. cbn [ok_or]. rewrite !bind_Ok.
  destruct (ps_entries s !! k) as [entry|]; [|done]. cbn [or_panic]. rewrite !bind_Ok.
  symmetry. by apply (law_get world_ok idle).
Qed.

(** ** Validation *)

Lemma assert_bind {A} (b : bool) (f : unit -> option A) (x : A) :
  (u ← assert b; f u) = Some x -> b = true /\ f () = Some x.
Proof. by destruct b. Qed.

Lemma for_each_unit {A} (f : A -> option unit) (l : list A) :
  for_each (fun x _ => f x) l () = Some () -> Forall (fun x => f x = Some ()) l.
Proof.
  induction l as [|x l IH]; intros E; [constructor|]. cbn [for_each] in E.
  destruct (f x) as [[]|] eqn:Ex; [|done]. constructor; [done|]. by apply IH.
Qed.

Lemma total_count_nonneg s : 0 <= total_count s.
Proof.
  unfold total_count. induction (ps_entries s) as [|e l IH]; cbn; [done|].
  pose proof (len_nonneg (params (ge_group e))). lia.
Qed.

Lemma validate_def_spec s i :
  validate_def s i = Some () ->
  exists def, def_unchecked s i = Some def /\ name_ok (def_name def) = true
    /\ forall j d, 0 <= j < i -> def_unchecked s j = Some d -> def_name d <> def_name def.
Proof.
  unfold validate_def. destruct (def_unchecked s i) as [def|] eqn:E; [|done]. rewrite bind_Some.
  intros Hv. apply assert_bind in Hv as [Hn Hv]. apply assert_bind in Hv as [_ Hv].
  apply assert_bind in Hv as [_ Hv]. exists def. split; [done|]. split.
  { unfold name_ok. by rewrite andb_comm. }
  apply for_each_unit in Hv. intros j d Hj Ed Heq.
  assert (Hin : j ∈ seqZ 0 i) by (apply elem_of_seqZ; lia).
  pose proof (proj1 (Forall_forall _ _) Hv j Hin) as Hx. cbn beta in Hx.
  rewrite Ed, bind_Some, Heq, String.eqb_refl in Hx. done.
Qed.

(** Exactly one element, and at one position only, has the property. *)
Definition one_entry {A} (P : A -> Prop) (l : list A) : Prop :=
  exists k x, l !! k = Some x /\ P x /\ forall k' x', l !! k' = Some x' -> P x' -> k' = k.

Lemma one_entry_iff {A} (P Q : A -> Prop) (l : list A) :
  (forall x, P x <-> Q x) -> one_entry P l -> one_entry Q l.
Proof.
  intros Hpq (k & x & Hk & Hx & Hu). exists k, x. split; [done|]. split; [by apply Hpq|].
  intros k' x' Hk' Hx'. apply (Hu k' x' Hk'). by apply Hpq.
Qed.

Lemma filter_none {A} (P : A -> Prop) `{forall x, Decision (P x)} (l : list A) :
  filter P l = [] -> forall k x, l !! k = Some x -> ~ P x.
Proof.
  intros Hf k x Hk Hx. assert (Hin : x ∈ filter P l).
  { apply list_elem_of_filter. split; [done|]. by eapply list_elem_of_lookup_2. }
  rewrite Hf in Hin. by apply not_elem_of_nil in Hin.
Qed.

Lemma filter_length_one {A} (P : A -> Prop) `{forall x, Decision (P x)} (l : list A) :
  len (filter P l) = 1 -> one_entry P l.
Proof.
  induction l as [|x l IH]; intros Hl; [done|]. destruct (decide (P x)) as [Hx|Hx].
  - rewrite filter_cons_True in Hl by done. rewrite len_cons in Hl.
    assert (Hf : filter P l = []) by (apply len_zero; lia).
    exists 0%nat, x. split; [done|]. split; [done|]. intros [|k] y Hk Hy; [done|].
    by destruct (filter_none P l Hf k y Hk).
  - rewrite filter_cons_False in Hl by done. destruct (IH Hl) as (k & y & Hk & Hy & Hu).
    exists (S k), y. split; [done|]. split; [done|]. intros [|k'] z Hk' Hz.
    + cbn in Hk'. by simplify_eq.
    + f_equal. by apply (Hu k' z).
Qed.

Lemma filter_length_at_most_one {A} (P : A -> Prop) `{forall x, Decision (P x)} (l : list A) :
  len (filter P l) <= 1 ->
  forall k k' x x', l !! k = Some x -> l !! k' = Some x' -> P x -> P x' -> k = k'.
Proof.
  intros Hl k k' x x' Hk Hk' Hx Hx'.
  assert (Hc : len (filter P l) = 0 \/ len (filter P l) = 1) by (pose proof (len_nonneg (filter P l)); lia).
  destruct Hc as [Hz|Ho]; [by destruct (filter_none P l (len_zero _ Hz) k x Hk)|].
  destruct (filter_length_one P l Ho) as (m & y & _ & _ & Hu).
  rewrite (Hu k x), (Hu k' x'); done.
Qed.

Lemma validate_domain_spec s before domain :
  validate_domain s before domain = Some () ->
  domain <> DOMAIN_RIG /\ (domain ∉ before)
  /\ one_entry (fun entry => (ge_target entry = TargetProgram domain)) (ps_entries s).
Proof.
  unfold validate_domain. intros Hv. apply assert_bind in Hv as [Hd Hv].
  destruct (for_each _ before ()) as [[]|] eqn:Eb; [|done]. rewrite bind_Some in Hv.
  apply for_each_unit in Eb. bool_facts. split; [done|]. split.
  - intros Hin. pose proof (proj1 (Forall_forall _ _) Eb _ Hin) as Hx. cbn beta in Hx.
    by rewrite Z.eqb_refl in Hx.
  - unfold assert in Hv. destruct (Z.eqb_spec (len (filter (fun entry =>
      targets_domain domain entry = true) (ps_entries s))) 1) as [Hl|]; [|done].
    apply filter_length_one in Hl. revert Hl. apply one_entry_iff.
    intros entry. apply bool_decide_eq_true.
Qed.
End lemmas.

Arguments store_ok {G CQ HG} idle s.
Arguments store_op : clear implicits.

(** ** Properties *)

(** C2. Every host operation on a validated store is a transaction, for any groups
    that keep their laws: it never panics and keeps the store and the shared
    buffers well formed; when it returns an error (a bad index, length or value,
    a read-only parameter, a busy staging bank, a full command queue) the
    command queue is as it was and every parameter reads back exactly as
    before; and when it succeeds it has queued at most one command, which is
    well formed, is addressed to the domain of the group that owns the operation's
    parameter, and carries that parameter's number within the group. *)
Theorem store_ops_transactional {G CQ : Type} `{ParamGroup G, SpscQueue CQ RtCommand}
    (world_ok : World -> Prop) (idle : G -> Prop)
    `{!ParamGroupLaws G world_ok idle, !SpscLaws CQ RtCommand}
    (w : World) (s : ParamStore G CQ) (op : store_op)
    (Hop : op_ok op) (Hs : store_ok idle s) (Hw : world_ok w) :
  let '(w', s', r) := store_apply w s op in
  r <> Panic /\ store_ok idle s' /\ world_ok w'
  /\ (forall e, r = Err e ->
        q_contents (ps_commands s') = q_contents (ps_commands s)
        /\ forall i out, ParamStore_get w' s' i out = ParamStore_get w s i out)
  /\ (r = Ok () -> exists sent,
        q_contents (ps_commands s') = q_contents (ps_commands s) ++ sent
        /\ (length sent <= 1)%nat
        /\ Forall (fun c => payload_ok (cmd_payload c)
                            /\ exists entry, owns s (op_index op) entry (cmd_id c)
                                 /\ target_domain (ge_target entry) = Some (cmd_domain c)) sent).
Proof.
  pose proof (store_apply_spec (world_ok := world_ok) (idle := idle) w s op Hop Hs Hw) as Ha.
  destruct (locate s (op_index op)) as [[k id]|] eqn:El; [|rewrite Ha; by split_and!].
  assert (Htot : total_count s <= umax 16) by by destruct Hs.
  destruct (locate_owns s _ k id (op_ok_index op Hop) Htot El) as (owner & Ho & Hown).
  destruct (store_apply w s op) as [[w' s'] r]. destruct Ha as (Hs' & Hw' & Hr).
  split; [by destruct r|]. split; [done|]. split; [done|]. split.
  - intros e ->. destruct Hr as [Hv ->]. split; [done|]. intros i out.
    by apply (get_visible (world_ok := world_ok) (idle := idle)).
  - intros ->. destruct Hr as [Hq|(c & entry & Hq & Hk & Hid & Hp & Ht)].
    + exists []. rewrite app_nil_r. split_and!; [done|cbn; lia|constructor].
    + exists [c]. split_and!; [done|cbn; lia|]. apply Forall_singleton. split; [done|].
      exists entry. assert (owner = entry) as <- by congruence. by subst id.
Qed.

(** What the discovery protocol sees of a store. *)
Definition store_definition {G CQ} `{ParamGroup G} (s : ParamStore G CQ) (i : Z)
    : option Definition_ :=
  def ← def_unchecked s i;
  Some (def_name def, def_ty def, def_count def, def_writable def).

(** What the checks of [validate] establish. *)
Lemma ParamStore_validate_inv {G CQ : Type} `{ParamGroup G} (s s' : ParamStore G CQ) domains :
  ParamStore_validate s domains = Some s' ->
  s' = s <| ps_validated := true |> /\ total_count s <= umax 16
  /\ (forall i, 0 <= i < total_count s -> validate_def s i = Some ())
  /\ (forall i d, domains !! i = Some d -> validate_domain s (take i domains) d = Some ())
  /\ Forall (fun entry => validate_target domains entry = Some ()) (ps_entries s)
  /\ len (filter (fun entry => ge_target entry = TargetRig) (ps_entries s)) <= 1.
Proof.
  intros Hv. unfold ParamStore_validate in Hv.
  apply assert_bind in Hv as [_ Hv]. apply assert_bind in Hv as [Hc Hv].
  destruct (for_each (fun i _ => validate_def s i) _ ()) as [[]|] eqn:Ed; [|done].
  rewrite bind_Some in Hv. apply for_each_unit in Ed.
  destruct (for_each _ (imap pair domains) ()) as [[]|] eqn:Em; [|done].
  rewrite bind_Some in Hv.
  apply (for_each_unit (fun idx => validate_domain s (take (fst idx) domains) (snd idx))) in Em.
  destruct (for_each _ (ps_entries s) ()) as [[]|] eqn:Et; [|done].
  rewrite bind_Some in Hv. apply for_each_unit in Et.
  apply assert_bind in Hv as [Hr Hv]. apply (inj Some) in Hv as <-.
  bool_facts. split; [done|]. split; [lia|]. split; [|split; [|split; [done|lia]]].
  - intros i Hi. apply (proj1 (Forall_forall _ _) Ed). apply elem_of_seqZ. lia.
  - intros i d Hi. apply (proj1 (Forall_forall _ _) Em (i, d)). apply elem_of_lookup_imap. eauto.
Qed.

(** C32. A store that passed validation is a faithful registry: its indices fit the
    protocol's 16 bits, every one of them names a definition that discovery can
    encode, no two parameters share a name, every programme domain is addressed by
    exactly one group, none of them being the rig's, every group of a programme
    addresses one of those domains, and at most one group addresses the rig. *)
Theorem validated_store_is_registry {G CQ : Type} `{ParamGroup G} (s s' : ParamStore G CQ)
    (domains : list Z) (Hv : ParamStore_validate s domains = Some s') :
  fits 16 (total_count s) /\ registry_ok (store_definition s') (total_count s')
  /\ (forall i j d d', 0 <= i < total_count s' -> 0 <= j < total_count s' ->
        def_unchecked s' i = Some d -> def_unchecked s' j = Some d' ->
        def_name d = def_name d' -> i = j)
  /\ NoDup domains
  /\ Forall (fun domain => domain <> DOMAIN_RIG
               /\ exists k entry, ps_entries s' !! k = Some entry
                    /\ ge_target entry = TargetProgram domain
                    /\ forall k' entry', ps_entries s' !! k' = Some entry' ->
                         ge_target entry' = TargetProgram domain -> k' = k) domains
  /\ Forall (fun entry => forall domain, ge_target entry = TargetProgram domain ->
               domain ∈ domains) (ps_entries s')
  /\ (forall k k' entry entry', ps_entries s' !! k = Some entry -> ps_entries s' !! k' = Some entry' ->
        ge_target entry = TargetRig -> ge_target entry' = TargetRig -> k = k')
  /\ ps_validated s' = true.
Proof.
  apply ParamStore_validate_inv in Hv as (-> & Hc & Hdef & Hdom & Et & Hrig).
  change (total_count (s <| ps_validated := true |>)) with (total_count s).
  change (def_unchecked (s <| ps_validated := true |>)) with (def_unchecked s).
  change (ps_entries (s <| ps_validated := true |>)) with (ps_entries s).
  pose proof (total_count_nonneg s) as H0.
  assert (Hlt : forall i j d d', 0 <= i < j -> j < total_count s ->
    def_unchecked s i = Some d -> def_unchecked s j = Some d' -> def_name d <> def_name d').
  { intros i j d d' Hi Hj Ei Ej. destruct (validate_def_spec s j) as (def & E & _ & Hne);
      [apply Hdef; lia|]. assert (d' = def) as -> by congruence. by apply (Hne i). }
  split; [unfold fits, umax in *; lia|]. split.
  { intros i Hi. destruct (validate_def_spec s i (Hdef i Hi)) as (def & E & Hn & _).
    exists (def_name def), (def_ty def), (def_count def), (def_writable def).
    split; [|done]. unfold store_definition.
    change (def_unchecked (s <| ps_validated := true |>)) with (def_unchecked s). by rewrite E. }
  split.
  { intros i j d d' Hi Hj Ei Ej Hn. destruct (Z.lt_trichotomy i j) as [Hl|[Hl|Hl]]; [|done|].
    - by destruct (Hlt i j d d' ltac:(lia) ltac:(lia) Ei Ej).
    - by destruct (Hlt j i d' d ltac:(lia) ltac:(lia) Ej Ei). }
  split.
  { apply NoDup_alt. intros i j d Hi Hj. destruct (lt_eq_lt_dec i j) as [[Hl| ->]|Hl]; [|done|].
    - destruct (validate_domain_spec s _ _ (Hdom j d Hj)) as (_ & Hni & _). destruct Hni.
      apply list_elem_of_lookup. exists i. by rewrite lookup_take_lt.
    - destruct (validate_domain_spec s _ _ (Hdom i d Hi)) as (_ & Hni & _). destruct Hni.
      apply list_elem_of_lookup. exists j. by rewrite lookup_take_lt. }
  split; [|split; [|split; [|done]]].
  3:{ exact (filter_length_at_most_one (fun entry => ge_target entry = TargetRig) _ Hrig). }
  - apply Forall_lookup. intros i d Hi.
    destruct (validate_domain_spec s _ _ (Hdom i d Hi)) as (Hr & _ & He). done.
  - apply Forall_forall. intros entry Hin domain Ht. pose proof (proj1 (Forall_forall _ _) Et _ Hin) as Hx.
    cbn beta in Hx. unfold validate_target in Hx. rewrite Ht in Hx. unfold assert in Hx.
    destruct (existsb _ _) eqn:Ex; [|done]. apply existsb_exists in Ex as (d & Hd & Heq).
    bool_facts. subst. by apply list_elem_of_In.
Qed.
