(* ===== verification/Groups.v ===== *)
(** * The parameter groups

    [helic-rt/src/params/groups.rs]: the six groups of the platform and the
    standard programme as instances of the group interface; [GroupLaws] proves
    that each keeps the laws the store relies on.  The shared atomics, the
    double buffers and the telemetry words a group refers to are in the
    [World]; a [dyn ParamGroup] is a nested sum of the groups. *)

From stdpp Require Import strings.
From S2P Require Import Prelude Float32 Phase Harmonics Proto Text ParamPayload Frame Table.
From S2P Require Import TableBuffer Channels Shared Rig Program RtLoop Params.

(** ** Helpers *)

(** The size of the value, when [out] can hold it. *)
Definition checked_output (defs : list ParamDef) (id : Z) (out : list Z) : outcome ErrorCode Z :=
  def ← ok_or (index defs id) BadIndex;
  let size := ParamType_size (def_ty def) * def_count def in
  if len out <? size then Err BadLength else Ok size.

(** Fill [out[..size]]; a value of another length panics. *)
Definition write_out (out : list Z) (size : Z) (bytes : list Z) : outcome ErrorCode (list Z * Z) :=
  _ ← assert_that (len bytes =? size);
  out ← or_panic (blit out 0 bytes);
  Ok (out, size).

Definition read_f32 (data : list Z) : outcome ErrorCode float :=
  if len data =? 4 then Ok (f32_of_le_bytes data) else Err BadLength.
Definition read_u32 (data : list Z) : outcome ErrorCode Z :=
  if len data =? 4 then Ok (of_le_bytes data) else Err BadLength.

(** [write_string]: the bytes, padded with zeros, of a slice of length [size]. *)
Definition write_string (size : Z) (value : string) : list Z :=
  (fun i => default 0 (str_bytes value !! i)) <$> seq 0 (Z.to_nat size).

Definition map_buffer_error (error : BufferError) : ErrorCode :=
  match error with BufferBusy => Busy end.

(** A call on a staging endpoint, with [map_err(map_buffer_error)?]. *)
Definition buffer_call {T A} (b : DoubleBuffer T) (r : outcome BufferError (DoubleBuffer T * A))
    : DoubleBuffer T * outcome ErrorCode A :=
  match r with
  | Ok (b', a) => (b', Ok a)
  | Err e => (b, Err (map_buffer_error e))
  | Panic => (b, Panic)
  end.

(** [lo..hi] as a half-open interval of floats. *)
Definition contains (lo hi x : float) : bool := fle lo x && flt x hi.

Definition nyquist (rate : SampleRate) : float := fdiv (SampleRate_hz rate) f2.

Section coefficients.
Variable Hn : nat. (* the harmonic count [H] *)

(** The value at position [index] of the serialized vector. *)
Definition coeff_value (data : list Z) (i : Z) : option float :=
  f32_of_le_bytes <$> slice data (4 * i) (4 * i + 4).

Definition serialize_coeffs (c : FourierCoeffs) (out : list Z) : option (list Z) :=
  out ← blit out 0 (f32_to_le_bytes (fc_mean c));
  for_each (fun k out =>
    a ← index (fc_a c) k;
    out ← blit out (4 + 4 * k) (f32_to_le_bytes a);
    let offset := 4 + 4 * (Z.of_nat Hn + k) in
    b ← index (fc_b c) k;
    blit out offset (f32_to_le_bytes b)) (seqZ 0 (Z.of_nat Hn)) out.

Definition deserialize_coeffs (data : list Z) : outcome ErrorCode FourierCoeffs :=
  if negb (len data =? (1 + 2 * Z.of_nat Hn) * 4) then Err BadLength
  else
    mean ← or_panic (coeff_value data 0);
    c ← or_panic (for_each (fun k c =>
          va ← coeff_value data (1 + k);
          a ← put (fc_a c) k va;
          vb ← coeff_value data (1 + Z.of_nat Hn + k);
          b ← put (fc_b c) k vb;
          Some {| fc_mean := fc_mean c; fc_a := a; fc_b := b |}) (seqZ 0 (Z.of_nat Hn))
        {| fc_mean := mean; fc_a := fc_a (FourierCoeffs_zero Hn);
           fc_b := fc_b (FourierCoeffs_zero Hn) |});
    if is_finite (fc_mean c) && forallb is_finite (fc_a c) && forallb is_finite (fc_b c)
    then Ok c else Err BadValue.
End coefficients.

(** ** [PlatformGroup] *)

Definition PLATFORM_PARAMS : list ParamDef := [
  ParamDef_read_only "firmware" Char 16;
  ParamDef_read_only "experiment" Char 16;
  ParamDef_read_only "sample_freq" F32 1;
  ParamDef_read_only "ticks" U32 1;
  ParamDef_read_only "loop_time_last" U32 1;
  ParamDef_read_only "loop_time_max" U32 1;
  ParamDef_read_only "clock_jitter" U32 1;
  ParamDef_read_only "overruns" U32 1;
  ParamDef_read_only "tick_timeouts" U32 1;
  ParamDef_read_only "records_dropped" U32 1;
  ParamDef_read_only "wake_phase_min" U32 1;
  ParamDef_read_only "wake_phase_max" U32 1;
  ParamDef_read_only "t_measure_max" U32 1;
  ParamDef_read_only "t_actuate_max" U32 1;
  ParamDef_read_only "t_rest_max" U32 1;
  ParamDef_writable "diag_reset" U32 1;
  ParamDef_read_only "cmd_backlog_max" U32 1;
  ParamDef_writable "arm" U32 1;
  ParamDef_read_only "safety" U32 1;
  ParamDef_writable "mcu_reboot" U32 1;
  ParamDef_read_only "table_len" U16 1]%string.

Definition PLATFORM_DIAG_RESET : Z := 15.
Definition PLATFORM_ARM : Z := 17.
Definition PLATFORM_MCU_REBOOT : Z := 19.
Definition PLATFORM_TABLE_LEN : Z := 20.

Inductive PlatformPending := PlatformNone | PlatformArm (armed : bool).

Record PlatformGroup := {
  pf_sample_rate : SampleRate; pf_firmware_version : string; pf_experiment : string;
  pf_pending : PlatformPending }.

Definition PlatformGroup_new (rate : SampleRate) (firmware_version experiment : string)
    : PlatformGroup :=
  {| pf_sample_rate := rate; pf_firmware_version := firmware_version;
     pf_experiment := experiment; pf_pending := PlatformNone |}.

(** The bytes of parameter [id], by the [match]. *)
Definition platform_value (w : World) (g : PlatformGroup) (id size : Z) : option (list Z) :=
  let shared := w_shared w in
  let live := rs_live shared in
  let d := rs_diagnostics shared in
  if id =? 0 then Some (write_string size (pf_firmware_version g))
  else if id =? 1 then Some (write_string size (pf_experiment g))
  else if id =? 2 then Some (le32 (f32_to_bits (SampleRate_hz (pf_sample_rate g))))
  else if id =? 3 then Some (le32 (lv_ticks live))
  else if id =? 4 then Some (le32 (lv_loop_time_last_us live))
  else if id =? 5 then Some (le32 (dg_loop_time_max_us d))
  else if id =? 6 then Some (le32 (dg_clock_jitter_us d))
  else if id =? 7 then Some (le32 (dg_overruns d))
  else if id =? 8 then Some (le32 (dg_tick_timeouts d))
  else if id =? 9 then Some (le32 (dg_records_dropped d))
  else if id =? 10 then Some (le32 (dg_wake_phase_min_us d))
  else if id =? 11 then Some (le32 (dg_wake_phase_max_us d))
  else if id =? 12 then Some (le32 (dg_t_measure_max_us d))
  else if id =? 13 then Some (le32 (dg_t_actuate_max_us d))
  else if id =? 14 then Some (le32 (dg_t_rest_max_us d))
  else if (id =? PLATFORM_DIAG_RESET) || (id =? PLATFORM_MCU_REBOOT) then Some (le32 0)
  else if id =? 16 then Some (le32 (dg_command_backlog_max d))
  else if id =? PLATFORM_ARM
  then Some (le32 (Z.b2z (si_armed (Safety_load_inputs (rs_safety shared)))))
  else if id =? 18 then Some (le32 (Safety_flags (rs_safety shared) d))
  else if id =? PLATFORM_TABLE_LEN then Some (le16 (wrap 16 (lv_active_table_len live)))
  else None.

Definition PlatformGroup_get (w : World) (g : PlatformGroup) (id : Z) (out : list Z)
    : outcome ErrorCode (list Z * Z) :=
  size ← checked_output PLATFORM_PARAMS id out;
  bytes ← ok_or (platform_value w g id size) BadIndex;
  write_out out size bytes.

Definition PlatformGroup_stage (w : World) (g : PlatformGroup) (id : Z) (data : list Z)
    : World * PlatformGroup * outcome ErrorCode Staged :=
  and_then (w, g, read_u32 data) (fun '(w, g) value =>
    if id =? PLATFORM_DIAG_RESET
    then (w, g, Ok (StagedLocal (if value =? 0 then NoAction else ResetDiagnostics)))
    else if id =? PLATFORM_ARM
    then (w, g <| pf_pending := PlatformArm (negb (value =? 0)) |>, Ok (StagedLocal NoAction))
    else if (id =? PLATFORM_MCU_REBOOT) && (value =? MCU_REBOOT_CONFIRMATION)
    then (w, g, Ok (StagedLocal Reboot))
    else if id =? PLATFORM_MCU_REBOOT then (w, g, Err BadValue)
    else (w, g, Err BadIndex)).

Definition with_safety (w : World) (f : Safety -> Safety) : World :=
  let s := w_shared w in w <| w_shared := s <| rs_safety := f (rs_safety s) |> |>.

Definition PlatformGroup_accept (w : World) (g : PlatformGroup) (_ : Z)
    : option (World * PlatformGroup) :=
  let w := match pf_pending g with
           | PlatformNone => w
           | PlatformArm true => with_safety w Safety_arm
           | PlatformArm false => with_safety w Safety_disarm
           end in
  Some (w, g <| pf_pending := PlatformNone |>).

Definition PlatformGroup_reject (w : World) (g : PlatformGroup) (_ : Z) (_ : option Payload)
    : World * PlatformGroup := (w, g <| pf_pending := PlatformNone |>).

Definition PlatformGroup_reset_diagnostics (w : World) (g : PlatformGroup)
    : World * PlatformGroup :=
  let s := w_shared w in
  (w <| w_shared := s <| rs_diagnostics := Diagnostics_reset (rs_diagnostics s) |> |>, g).

#[export] Instance PlatformGroup_group : ParamGroup PlatformGroup := {|
  target _ := Core0; params _ := PLATFORM_PARAMS;
  group_get := PlatformGroup_get; group_stage := PlatformGroup_stage;
  group_accept := PlatformGroup_accept; group_reject := PlatformGroup_reject;
  group_reset_diagnostics := PlatformGroup_reset_diagnostics;
  group_set_block := no_set_block; group_stage_commit := no_stage_commit |}.

(** ** [GeneratorGroup] *)

Section generator.
Variable Hn : nat.
Variable sqrtf : float -> float.

Definition generator_params : list ParamDef := [
  ParamDef_writable "freq" F32 1;
  ParamDef_writable "target_coeffs" F32 (wrap 16 (1 + 2 * Z.of_nat Hn));
  ParamDef_writable "forcing_coeffs" F32 (wrap 16 (1 + 2 * Z.of_nat Hn))]%string.

Inductive GeneratorPending :=
  | GeneratorNone
  | GeneratorFrequency (v : float)
  | GeneratorTarget (c : FourierCoeffs)
  | GeneratorForcing (c : FourierCoeffs).

Record GeneratorGroup := {
  gg_defs : list ParamDef; gg_sample_rate : SampleRate; gg_frequency : float;
  gg_target : FourierCoeffs; gg_forcing : FourierCoeffs; gg_forcing_amplitude_limit : float;
  gg_pending : GeneratorPending }.

Definition GeneratorGroup_new (rate : SampleRate) : option GeneratorGroup :=
  _ ← assert (Z.of_nat Hn <=? MAX_HARMONICS);
  Some {| gg_defs := generator_params; gg_sample_rate := rate; gg_frequency := f0;
          gg_target := FourierCoeffs_zero Hn; gg_forcing := FourierCoeffs_zero Hn;
          gg_forcing_amplitude_limit := f32_MAX; gg_pending := GeneratorNone |}.

Definition set_forcing_amplitude_limit (g : GeneratorGroup) (limit : float)
    : option GeneratorGroup :=
  _ ← assert (is_finite limit && fge limit f0);
  Some (g <| gg_forcing_amplitude_limit := limit |>).

Definition GeneratorGroup_get (w : World) (g : GeneratorGroup) (id : Z) (out : list Z)
    : outcome ErrorCode (list Z * Z) :=
  size ← checked_output (gg_defs g) id out;
  head ← or_panic (slice out 0 size);
  bytes ← (if id =? 0 then or_panic (copy_from_slice head (f32_to_le_bytes (gg_frequency g)))
           else if id =? 1 then or_panic (serialize_coeffs Hn (gg_target g) head)
           else if id =? 2 then or_panic (serialize_coeffs Hn (gg_forcing g) head)
           else Err BadIndex);
  write_out out size bytes.

(** Write the staging bank, then commit it. *)
Definition stage_coeffs (b : DoubleBuffer FourierCoeffs) (c : FourierCoeffs)
    : DoubleBuffer FourierCoeffs * outcome ErrorCode CommitToken :=
  and_then (buffer_call b (Staging_buffer b (fun _ => Some (c, ()))))
    (fun b _ => buffer_call b (Staging_commit b)).

Definition over_limit (g : GeneratorGroup) (id : Z) (c : FourierCoeffs) : outcome ErrorCode unit :=
  if id =? 2 then
    bound ← or_panic (FourierCoeffs_amplitude_bound sqrtf Hn c);
    guard_err (fgt bound (gg_forcing_amplitude_limit g)) BadValue
  else Ok ().

Definition GeneratorGroup_stage (w : World) (g : GeneratorGroup) (id : Z) (data : list Z)
    : World * GeneratorGroup * outcome ErrorCode Staged :=
  if id =? 0 then
    and_then (w, g, read_f32 data) (fun '(w, g) frequency =>
      if negb (contains f0 (nyquist (gg_sample_rate g)) frequency) then (w, g, Err BadValue)
      else (w, g <| gg_pending := GeneratorFrequency frequency |>,
            Ok (StagedRt (PU32 (increment_for (f64_of_f32 frequency)
                  (f64_of_f32 (SampleRate_hz (gg_sample_rate g))))))))
  else if (id =? 1) || (id =? 2) then
    and_then (w, g, deserialize_coeffs Hn data) (fun '(w, g) coefficients =>
    and_then (w, g, over_limit g id coefficients) (fun '(w, g) _ =>
      if id =? 1 then
        let '(b, r) := stage_coeffs (w_target w) coefficients in
        and_then (w <| w_target := b |>, g, r) (fun '(w, g) token =>
          (w, g <| gg_pending := GeneratorTarget coefficients |>, Ok (StagedRt (PBuffer token))))
      else
        let '(b, r) := stage_coeffs (w_forcing w) coefficients in
        and_then (w <| w_forcing := b |>, g, r) (fun '(w, g) token =>
          (w, g <| gg_pending := GeneratorForcing coefficients |>, Ok (StagedRt (PBuffer token))))))
  else (w, g, Err BadIndex).

Definition GeneratorGroup_accept (w : World) (g : GeneratorGroup) (_ : Z)
    : option (World * GeneratorGroup) :=
  let pending := gg_pending g in
  let g := g <| gg_pending := GeneratorNone |> in
  Some (w, match pending with
           | GeneratorNone => g
           | GeneratorFrequency v => g <| gg_frequency := v |>
           | GeneratorTarget c => g <| gg_target := c |>
           | GeneratorForcing c => g <| gg_forcing := c |>
           end).

Definition GeneratorGroup_reject (w : World) (g : GeneratorGroup) (id : Z)
    (returned : option Payload) : World * GeneratorGroup :=
  let w := match returned with
           | Some (PBuffer token) =>
               if id =? 1 then w <| w_target := Staging_cancel (w_target w) token |>
               else if id =? 2 then w <| w_forcing := Staging_cancel (w_forcing w) token |>
               else w
           | _ => w
           end in
  (w, g <| gg_pending := GeneratorNone |>).

#[export] Instance GeneratorGroup_group : ParamGroup GeneratorGroup := {|
  target _ := TargetProgram DOMAIN_GENERATOR; params g := gg_defs g;
  group_get := GeneratorGroup_get; group_stage := GeneratorGroup_stage;
  group_accept := GeneratorGroup_accept; group_reject := GeneratorGroup_reject;
  group_reset_diagnostics w g := (w, g);
  group_set_block := no_set_block; group_stage_commit := no_stage_commit |}.
End generator.

(** ** [TableGroup] *)

(** Whole little-endian words; [as_chunks] leaves the remainder out. *)
Fixpoint f32_words (data : list Z) : list float :=
  match data with
  | a :: b :: c :: d :: data => f32_of_le_bytes [a; b; c; d] :: f32_words data
  | _ => []
  end.

Section table.
Variable N : Z. (* the table capacity [N] *)

Definition table_params : list ParamDef := [
  ParamDef_blob "table" F32 (wrap 16 N) (wrap 32 N);
  ParamDef_writable "table_freq" F32 1;
  ParamDef_writable "table_gain" F32 1;
  ParamDef_writable "table_interp" U32 1;
  ParamDef_writable "table_mode" U32 1;
  ParamDef_writable "table_mult" U32 1;
  ParamDef_writable "table_phase" F32 1;
  ParamDef_writable "table_trigger" U32 1]%string.

Inductive TablePending :=
  | TableNone
  | TableFrequency (v : float)
  | TableGain (v : float)
  | TableInterp (v : Z)
  | TableModeValue (v : Z)
  | TableMultiplier (v : Z)
  | TablePhase (v : float).

Record TableGroup := {
  tg_defs : list ParamDef; tg_sample_rate : SampleRate; tg_frequency : float; tg_gain : float;
  tg_interpolation : Z; tg_mode : Z; tg_multiplier : Z; tg_phase : float;
  tg_pending : TablePending }.

Definition TableGroup_new (rate : SampleRate) : TableGroup := {|
  tg_defs := table_params; tg_sample_rate := rate; tg_frequency := f0; tg_gain := f1;
  tg_interpolation := 1; tg_mode := 0; tg_multiplier := 1; tg_phase := f0;
  tg_pending := TableNone |}.

Definition TableGroup_get (w : World) (g : TableGroup) (id : Z) (out : list Z)
    : outcome ErrorCode (list Z * Z) :=
  size ← checked_output (tg_defs g) id out;
  bytes ← (if id =? 0 then Err BadLength
           else if id =? 1 then Ok (f32_to_le_bytes (tg_frequency g))
           else if id =? 2 then Ok (f32_to_le_bytes (tg_gain g))
           else if id =? 3 then Ok (le32 (tg_interpolation g))
           else if id =? 4 then Ok (le32 (tg_mode g))
           else if id =? 5 then Ok (le32 (tg_multiplier g))
           else if id =? 6 then Ok (f32_to_le_bytes (tg_phase g))
           else if id =? 7 then Ok (le32 0)
           else Err BadIndex);
  write_out out size bytes.

Definition with_table_pending (g : TableGroup) (p : TablePending) : TableGroup :=
  g <| tg_pending := p |>.

(** [phase as f64 * 2^32], as [u32]. *)
Definition phase_offset_of (phase : float) : Z :=
  cast_u32_f64 (dmul (f64_of_f32 phase) (f64_of_Z 4294967296)).

Definition TableGroup_stage (w : World) (g : TableGroup) (id : Z) (data : list Z)
    : World * TableGroup * outcome ErrorCode Staged :=
  if id =? 0 then (w, g, Err BadLength)
  else if id =? 1 then
    and_then (w, g, read_f32 data) (fun '(w, g) frequency =>
      if negb (contains f0 (nyquist (tg_sample_rate g)) frequency) then (w, g, Err BadValue)
      else (w, with_table_pending g (TableFrequency frequency),
            Ok (StagedRt (PU32 (increment_for (f64_of_f32 frequency)
                  (f64_of_f32 (SampleRate_hz (tg_sample_rate g))))))))
  else if id =? 2 then
    and_then (w, g, read_f32 data) (fun '(w, g) gain =>
      if negb (is_finite gain) then (w, g, Err BadValue)
      else (w, with_table_pending g (TableGain gain), Ok (StagedRt (PF32 gain))))
  else if id =? 3 then
    and_then (w, g, read_u32 data) (fun '(w, g) interpolation =>
      match TableInterpolation_from_u32 interpolation with
      | None => (w, g, Err BadValue)
      | Some _ => (w, with_table_pending g (TableInterp interpolation),
                   Ok (StagedRt (PU32 interpolation)))
      end)
  else if id =? 4 then
    and_then (w, g, read_u32 data) (fun '(w, g) mode =>
      match TableMode_from_u32 mode with
      | None => (w, g, Err BadValue)
      | Some _ => (w, with_table_pending g (TableModeValue mode), Ok (StagedRt (PU32 mode)))
      end)
  else if id =? 5 then
    and_then (w, g, read_u32 data) (fun '(w, g) multiplier =>
      if multiplier =? 0 then (w, g, Err BadValue)
      else (w, with_table_pending g (TableMultiplier multiplier),
            Ok (StagedRt (PU32 multiplier))))
  else if id =? 6 then
    and_then (w, g, read_f32 data) (fun '(w, g) phase =>
      if negb (contains f0 f1 phase) then (w, g, Err BadValue)
      else (w, with_table_pending g (TablePhase phase),
            Ok (StagedRt (PU32 (phase_offset_of phase)))))
  else if id =? 7 then
    and_then (w, g, read_u32 data) (fun '(w, g) value =>
      if value =? 0 then (w, g, Ok (StagedLocal NoAction)) else (w, g, Ok (StagedRt PUnit)))
  else (w, g, Err BadIndex).

Definition TableGroup_accept (w : World) (g : TableGroup) (_ : Z) : option (World * TableGroup) :=
  let pending := tg_pending g in
  let g := with_table_pending g TableNone in
  Some (w, match pending with
           | TableNone => g
           | TableFrequency v => g <| tg_frequency := v |>
           | TableGain v => g <| tg_gain := v |>
           | TableInterp v => g <| tg_interpolation := v |>
           | TableModeValue v => g <| tg_mode := v |>
           | TableMultiplier v => g <| tg_multiplier := v |>
           | TablePhase v => g <| tg_phase := v |>
           end).

Definition TableGroup_reject (w : World) (g : TableGroup) (id : Z) (returned : option Payload)
    : World * TableGroup :=
  let w := if id =? 0 then
             match returned with
             | Some (PBuffer token) => w <| w_table := Staging_cancel (w_table w) token |>
             | _ => w
             end
           else w in
  (w, with_table_pending g TableNone).

(** The loop over the words of a block. *)
Definition write_words (t : WaveTable) (offset : Z) (words : list float) : option WaveTable :=
  for_each (fun '(i, value) t =>
    '(t, _) ← WaveTable_write_block t (offset + Z.of_nat i) [value]; Some t)
  (imap pair words) t.

Definition TableGroup_set_block (w : World) (g : TableGroup) (id offset : Z) (data : list Z)
    : World * TableGroup * outcome ErrorCode unit :=
  if negb (id =? 0) then (w, g, Err BadIndex)
  else if negb (len data mod 4 =? 0) then (w, g, Err BadLength)
  else
    let count := len data / 4 in
    if (umax 32 <? offset + count) || (N <? offset + count) then (w, g, Err BadLength)
    else
      let '(b, r) := buffer_call (w_table w) (Staging_buffer (w_table w)
                       (fun t => t ← write_words t offset (f32_words data); Some (t, ()))) in
      (w <| w_table := b |>, g, r).

(** The checks and the length of a committed upload; [false]: a value that is
    not finite. *)
Definition commit_length (n : Z) (t : WaveTable) : option (WaveTable * bool) :=
  prefix ← WaveTable_prefix t n;
  Some (if negb (forallb is_finite prefix) then (t, false) else (fst (WaveTable_set_len t n), true)).

Definition TableGroup_stage_commit (w : World) (g : TableGroup) (id n : Z)
    : World * TableGroup * outcome ErrorCode Staged :=
  if negb (id =? 0) then (w, g, Err BadIndex)
  else if negb ((2 <=? n) && (n <=? N)) then (w, g, Err BadValue)
  else
    let '(b, r) := buffer_call (w_table w) (Staging_buffer (w_table w) (commit_length n)) in
    and_then (w <| w_table := b |>, g, r) (fun '(w, g) finite =>
      if negb finite then (w, g, Err BadValue)
      else
        let '(b, r) := buffer_call (w_table w) (Staging_commit (w_table w)) in
        and_then (w <| w_table := b |>, g, r) (fun '(w, g) token =>
          (w, g, Ok (StagedRt (PBuffer token))))).

#[export] Instance TableGroup_group : ParamGroup TableGroup := {|
  target _ := TargetProgram DOMAIN_TABLE; params g := tg_defs g;
  group_get := TableGroup_get; group_stage := TableGroup_stage;
  group_accept := TableGroup_accept; group_reject := TableGroup_reject;
  group_reset_diagnostics w g := (w, g);
  group_set_block := TableGroup_set_block; group_stage_commit := TableGroup_stage_commit |}.
End table.

(** ** [TelemetryGroup] *)

Record TelemetryGroup := { te_values : list ExtraParam; te_defs : list ParamDef }.

Definition TelemetryGroup_new (values : list ExtraParam) : option TelemetryGroup :=
  _ ← assert (len values <=? MAX_EXTRA_PARAMS);
  Some {| te_values := values; te_defs := ExtraParam_def <$> values |}.

Definition TelemetryGroup_get (w : World) (g : TelemetryGroup) (id : Z) (out : list Z)
    : outcome ErrorCode (list Z * Z) :=
  size ← checked_output (te_defs g) id out;
  value ← ok_or (index (te_values g) id) BadIndex;
  head ← or_panic (slice out 0 size);
  bytes ← or_panic (ExtraParam_get w value head);
  write_out out size bytes.

#[export] Instance TelemetryGroup_group : ParamGroup TelemetryGroup := {|
  target _ := Core0; params g := te_defs g;
  group_get := TelemetryGroup_get; group_stage w g _ _ := (w, g, Err ReadOnly);
  group_accept w g _ := Some (w, g); group_reject w g _ _ := (w, g);
  group_reset_diagnostics w g := (fold_left ExtraParam_reset_diagnostic (te_values g) w, g);
  group_set_block := no_set_block; group_stage_commit := no_stage_commit |}.

(** ** [RigGroup] and [ScalarControlGroup] *)

(** The shadow of a vector of scalar [f32] parameters. *)
Record ScalarGroup := {
  sg_defs : list ParamDef; sg_values : list float; sg_pending : option (Z * float) }.

Definition ScalarGroup_get (w : World) (g : ScalarGroup) (id : Z) (out : list Z)
    : outcome ErrorCode (list Z * Z) :=
  size ← checked_output (sg_defs g) id out;
  value ← ok_or (index (sg_values g) id) BadIndex;
  write_out out size (f32_to_le_bytes value).

(** [normalise]: the rig's or the controller's. *)
Definition ScalarGroup_stage (normalise : Z -> float -> option float) (w : World)
    (g : ScalarGroup) (id : Z) (data : list Z) : World * ScalarGroup * outcome ErrorCode Staged :=
  and_then (w, g, read_f32 data) (fun '(w, g) raw =>
  and_then (w, g, ok_or (normalise id raw) BadValue) (fun '(w, g) value =>
    (w, g <| sg_pending := Some (id, value) |>, Ok (StagedRt (PF32 value))))).

Definition ScalarGroup_accept (w : World) (g : ScalarGroup) (_ : Z)
    : option (World * ScalarGroup) :=
  match sg_pending g with
  | Some (id, value) =>
      values ← put (sg_values g) id value;
      Some (w, g <| sg_pending := None |> <| sg_values := values |>)
  | None => Some (w, g)
  end.

Definition ScalarGroup_reject (w : World) (g : ScalarGroup) (_ : Z) (_ : option Payload)
    : World * ScalarGroup := (w, g <| sg_pending := None |>).

Record RigGroup (R : Type) := { rg_group : ScalarGroup }.
Arguments Build_RigGroup {R}.
Arguments rg_group {R}.

Definition RigGroup_new (R : Type) `{Rig R} : option (RigGroup R) :=
  let names := param_names (R := R) in
  let defaults := param_defaults (R := R) in
  _ ← assert (len names <=? MAX_RIG_PARAMS);
  _ ← assert ((len defaults =? 0) || (len defaults =? len names));
  values ← blit (replicate (Z.to_nat MAX_RIG_PARAMS) f0) 0 defaults;
  Some {| rg_group := {| sg_defs := (fun name => ParamDef_writable name F32 1) <$> names;
                         sg_values := values; sg_pending := None |} |}.

Record ScalarControlGroup (C : Type) := { cg_group : ScalarGroup; cg_input_count : Z }.
Arguments Build_ScalarControlGroup {C}.
Arguments cg_group {C}.
Arguments cg_input_count {C}.

Definition ScalarControlGroup_new {C : Type} `{StandardControl C} (controller : C)
    (input_count : Z) : option (ScalarControlGroup C) :=
  let names := scalar_param_names (C := C) in
  _ ← assert (len names <=? MAX_CTRL_PARAMS);
  values ← for_each (fun i values =>
      v ← scalar_param_value controller i; put values i v) (seqZ 0 (len names))
    (replicate (Z.to_nat MAX_CTRL_PARAMS) f0);
  Some {| cg_group := {| sg_defs := (fun name => ParamDef_writable name F32 1) <$> names;
                         sg_values := values; sg_pending := None |};
          cg_input_count := input_count |}.

(** A call on the wrapped shadow. *)
Definition rewrap {S G A} (wrap : S -> G) (m : World * S * A) : World * G * A :=
  let '(w, g, r) := m in (w, wrap g, r).

#[export] Instance RigGroup_group {R} `{Rig R} : ParamGroup (RigGroup R) := {|
  target _ := TargetRig; params g := sg_defs (rg_group g);
  group_get w g := ScalarGroup_get w (rg_group g);
  group_stage w g id data := rewrap Build_RigGroup
    (ScalarGroup_stage (normalise_param (R := R)) w (rg_group g) id data);
  group_accept w g id := '(w, s) ← ScalarGroup_accept w (rg_group g) id;
                         Some (w, {| rg_group := s |});
  group_reject w g id p := let '(w, s) := ScalarGroup_reject w (rg_group g) id p in
                           (w, {| rg_group := s |});
  group_reset_diagnostics w g := (w, g);
  group_set_block := no_set_block; group_stage_commit := no_stage_commit |}.

#[export] Instance ScalarControlGroup_group {C} `{StandardControl C}
  : ParamGroup (ScalarControlGroup C) := {|
  target _ := TargetProgram DOMAIN_CONTROLLER; params g := sg_defs (cg_group g);
  group_get w g := ScalarGroup_get w (cg_group g);
  group_stage w g id data := rewrap (fun s => {| cg_group := s; cg_input_count := cg_input_count g |})
    (ScalarGroup_stage (fun id v => normalise_scalar_param (C := C) id v (cg_input_count g))
       w (cg_group g) id data);
  group_accept w g id := '(w, s) ← ScalarGroup_accept w (cg_group g) id;
    Some (w, {| cg_group := s; cg_input_count := cg_input_count g |});
  group_reject w g id p := let '(w, s) := ScalarGroup_reject w (cg_group g) id p in
    (w, {| cg_group := s; cg_input_count := cg_input_count g |});
  group_reset_diagnostics w g := (w, g);
  group_set_block := no_set_block; group_stage_commit := no_stage_commit |}.

(** ** [dyn ParamGroup] *)

Definition rewrap2 {S G} (wrap : S -> G) (m : World * S) : World * G :=
  let '(w, g) := m in (w, wrap g).

#[export] Instance sum_group {A B} `{ParamGroup A, ParamGroup B} : ParamGroup (A + B) := {|
  target g := match g with inl g => target g | inr g => target g end;
  params g := match g with inl g => params g | inr g => params g end;
  group_get w g := match g with inl g => group_get w g | inr g => group_get w g end;
  group_stage w g id data :=
    match g with inl g => rewrap inl (group_stage w g id data)
               | inr g => rewrap inr (group_stage w g id data) end;
  group_accept w g id :=
    match g with inl g => rewrap2 inl <$> group_accept w g id
               | inr g => rewrap2 inr <$> group_accept w g id end;
  group_reject w g id p :=
    match g with inl g => rewrap2 inl (group_reject w g id p)
               | inr g => rewrap2 inr (group_reject w g id p) end;
  group_reset_diagnostics w g :=
    match g with inl g => rewrap2 inl (group_reset_diagnostics w g)
               | inr g => rewrap2 inr (group_reset_diagnostics w g) end;
  group_set_block w g id offset data :=
    match g with inl g => rewrap inl (group_set_block w g id offset data)
               | inr g => rewrap inr (group_set_block w g id offset data) end;
  group_stage_commit w g id n :=
    match g with inl g => rewrap inl (group_stage_commit w g id n)
               | inr g => rewrap inr (group_stage_commit w g id n) end |}.
