(* ===== verification/Ticks.v ===== *)
(** * The ring over many ticks

    Runs of the real-time loop (RtLoop.v) between the flushes of core 0: what
    the record ring holds each time the streamer looks at it. *)

From S2P Require Import Prelude Float32 Channels Shared Rig Program RtLoop StreamTask.

#[export] Set Default Goal Selector "!".
Open Scope Z_scope.

(** ** Sample indices *)

(** Records whose indices are [first], [first + step], ... *)
Definition indexed (first step : Z) (l : list StreamRecord) : Prop :=
  forall k r, l !! k = Some r -> rec_index r = first + Z.of_nat k * step.

Lemma indexed_cons first step r l :
  indexed first step (r :: l) <-> rec_index r = first /\ indexed (first + step) step l.
Proof.
  split.
  - intros H. split; [rewrite (H 0%nat r eq_refl); lia|]. intros k r' Hk. rewrite (H (S k) r' Hk). lia.
  - intros [Hr H] [|k] r' Hk; [injection Hk as <-; lia|]. rewrite (H k r' Hk). lia.
Qed.

Lemma indexed_app first step l1 l2 :
  indexed first step (l1 ++ l2) <-> indexed first step l1 /\ indexed (first + len l1 * step) step l2.
Proof.
  revert first. induction l1 as [|r l1 IH]; intros first; cbn [app].
  - change (len []) with 0. rewrite Z.mul_0_l, Z.add_0_r. split; [|by intros []]. intros H. split; [|done]. by intros k r [=].
  - rewrite !indexed_cons, IH, len_cons. replace (first + (1 + len l1) * step) with (first + step + len l1 * step) by lia. tauto.
Qed.

(** ** Runs *)

(** A tick: the commands queued before it, its clocks and what core 0 does meanwhile. *)
Definition TickEnv (CQ : Type) : Type := (CQ -> CQ) * TickClock * (World -> World).

Section runs.
Context {R P CQ RQ : Type} `{HR : Rig R, HP : Program P, HC : SpscQueue CQ RtCommand, HQ : SpscQueue RQ StreamRecord}.

Fixpoint run_ticks (w : World) (st : RtLoopState R P CQ RQ) (env : list (TickEnv CQ))
    : option (World * RtLoopState R P CQ RQ) :=
  match env with
  | [] => Some (w, st)
  | (push, ck, host) :: env =>
      '(w, st, _) ← run_rt_tick w (st <| rl_commands := push (rl_commands st) |>) ck host;
      run_ticks w st env
  end.

(** Periods of the streamer: ticks, then a look at the ring, which core 0 empties. *)
Fixpoint run_periods (w : World) (st : RtLoopState R P CQ RQ) (periods : list (list (TickEnv CQ) * (RQ -> RQ)))
    : option (World * RtLoopState R P CQ RQ * list RQ) :=
  match periods with
  | [] => Some (w, st, [])
  | (env, empty) :: periods =>
      '(w, st) ← run_ticks w st env;
      '(w, st', rings) ← run_periods w (st <| rl_records := empty (rl_records st) |>) periods;
      Some (w, st', rl_records st :: rings)
  end.

Lemma record_values_len (st : RtLoopState R P CQ RQ) p values applied epoch values' :
  record_values st p values applied epoch = Some values' -> len values' = len values.
Proof.
  unfold record_values. intros E. cbv zeta in E. apply option.bind_Some in E as (? & _ & E).
  apply option.bind_Some in E as (? & _ & E). apply option.bind_Some in E as (? & E1%blit_length & E).
  apply option.bind_Some in E as (? & E2%blit_length & E). apply blit_length in E. congruence.
Qed.

(** The parts of a tick that its specification leaves open. *)
Lemma run_rt_tick_record w (st : RtLoopState R P CQ RQ) ck host w' st' applied :
  run_rt_tick w st ck host = Some (w', st', applied) ->
  rl_n_sources st' = rl_n_sources st
  /\ exists values, len values = MAX_SOURCES
       /\ rl_records st' = default (rl_records st) (q_enqueue (rl_records st)
            {| rec_index := rl_index st; rec_n := wrap 8 (rl_n_sources st); rec_values := values |}).
Proof.
  unfold run_rt_tick. intros E. cbv zeta in E.
  apply option.bind_Some in E as ([[[[? ?] ?] ?] ?] & _ & E). destruct (if negb _ then _ else _) as [? ?] in E.
  apply option.bind_Some in E as (? & _ & E). destruct (measure _ _) as [? ?] in E.
  apply option.bind_Some in E as (? & L1%blit_length & E). apply option.bind_Some in E as ([[[? ?] ?] ?] & _ & E).
  apply option.bind_Some in E as (values & L2%record_values_len & E).
  assert (L : len values = MAX_SOURCES) by (rewrite L2, L1; by vm_compute).
  destruct (q_enqueue _ _) as [q|] eqn:Eq in E; injection E as _ <- _; (split; [done|]; exists values; by rewrite Eq).
Qed.
End runs.

(** A record of all sources, with its index a [u32]. *)
Definition full_record (n : Z) (r : StreamRecord) : Prop := record_ok r /\ rec_n r = n.

Section laws.
Context {R P CQ RQ : Type} `{HR : Rig R, HP : Program P, HC : SpscQueue CQ RtCommand, HQ : SpscQueue RQ StreamRecord}.
Context {I : World -> P -> Prop} {ctx_ok : StepCtx -> Prop}.
Context `{!RigLaws R, !ProgramLaws P I ctx_ok, !SpscLaws CQ RtCommand, !SpscLaws RQ StreamRecord}.
Implicit Types st : RtLoopState R P CQ RQ.

(** Core 0 keeps the programme's invariant and queues lawful commands. *)
Definition env_ok (e : TickEnv CQ) : Prop :=
  let '(push, _, host) := e in
  host_ok (I := I) host
  /\ forall q, Forall (fun c => payload_ok (cmd_payload c)) (q_contents q) ->
       Forall (fun c => payload_ok (cmd_payload c)) (q_contents (push q)).

(** The loop between two ticks. *)
Record running (w : World) st : Prop := {
  rn_loop : loop_ok (I := I) (ctx_ok := ctx_ok) w st;
  rn_sources : rl_n_sources st = source_count R P;
  rn_index : fits 32 (rl_index st) }.

(** A tick with room in the ring. *)
Lemma tick_enqueues w st e :
  running w st -> env_ok e -> len (q_contents (rl_records st)) < q_capacity (rl_records st) ->
  let '(push, ck, host) := e in
  exists w' st' applied r,
    run_rt_tick w (st <| rl_commands := push (rl_commands st) |>) ck host = Some (w', st', applied)
    /\ running w' st' /\ rl_index st' = wrapping_add 32 (rl_index st) 1
    /\ q_contents (rl_records st') = q_contents (rl_records st) ++ [r]
    /\ q_capacity (rl_records st') = q_capacity (rl_records st)
    /\ rec_index r = rl_index st /\ full_record (source_count R P) r.
Proof.
  destruct e as [[push ck] host]. intros [Hok Hn Hi] [Hh Hpush] Hroom. set (st0 := st <| rl_commands := _ |>).
  assert (Hok0 : loop_ok (I := I) (ctx_ok := ctx_ok) w st0).
  { destruct Hok. split; try done. by apply Hpush. }
  destruct (run_rt_tick_returns w st0 ck host Hok0 Hh) as (w' & st' & applied & E & Hok' & _ & Ei).
  destruct (run_rt_tick_record _ _ _ _ _ _ _ E) as (Hn' & values & Lv & Er). change (rl_records st0) with (rl_records st) in Er.
  set (r := {| rec_index := _ |}) in Er.
  destruct (q_enqueue_ok (rl_records st) r Hroom) as (q' & Eq & Ec & Ecap). rewrite Eq in Er. cbn [default] in Er. unfold id in Er.
  exists w', st', applied, r. split; [exact E|]. rewrite Er, Ei. split; [|split_and!; try done].
  - split; [done|by rewrite Hn'|]. rewrite Ei. by apply wrap_fits.
  - pose proof (lo_sources _ _ Hok) as Hmax. unfold MAX_SOURCES in *.
    assert (Hw : rec_n r = source_count R P).
    { change (rec_n r) with (wrap 8 (rl_n_sources st)). rewrite Hn. apply wrap_id. unfold source_count in *.
      pose proof (signal_count_nonneg (P := P)). pose proof (len_nonneg (INPUTS (R := R))).
      pose proof (len_nonneg (ACTUATORS (R := R))). unfold fits. lia. }
    split; [|done]. split; [done|]. rewrite Hw. change (rec_values r) with values. lia.
Qed.

(** As many ticks as the ring has room for. *)
Lemma ticks_enqueue w st env :
  running w st -> Forall env_ok env ->
  len (q_contents (rl_records st)) + len env <= q_capacity (rl_records st) -> rl_index st + len env < 2 ^ 32 ->
  exists w' st' records,
    run_ticks w st env = Some (w', st') /\ running w' st' /\ rl_index st' = rl_index st + len env
    /\ q_contents (rl_records st') = q_contents (rl_records st) ++ records
    /\ q_capacity (rl_records st') = q_capacity (rl_records st)
    /\ len records = len env /\ indexed (rl_index st) 1 records /\ Forall (full_record (source_count R P)) records.
Proof.
  revert w st. induction env as [|[[push ck] host] env IH]; intros w st Hst Henv Hroom Hidx.
  { exists w, st, []. change (len []) with 0. rewrite app_nil_r, Z.add_0_r. split_and!; try done. }
  apply Forall_cons in Henv as [He Henv]. rewrite len_cons in *. pose proof (len_nonneg env).
  destruct (tick_enqueues w st (push, ck, host) Hst He ltac:(lia)) as
    (w1 & st1 & applied & r & E1 & Hst1 & Ei & Ec & Ecap & Er & Hr).
  assert (Ei' : rl_index st1 = rl_index st + 1).
  { rewrite Ei. apply wrap_id. destruct Hst as [_ _ [? _]]. unfold fits. lia. }
  destruct (IH w1 st1 Hst1 Henv) as (w2 & st2 & records & E2 & Hst2 & Ei2 & Ec2 & Ecap2 & El & Hix & Hall);
    [rewrite Ec, len_app; change (len [r]) with 1; lia|lia|].
  exists w2, st2, (r :: records). cbn [run_ticks]. rewrite E1, bind_Some, E2. rewrite len_cons, indexed_cons, <-Ei'.
  split_and!; try done; [lia|by rewrite Ec2, Ec, <-app_assoc|congruence|lia|by constructor].
Qed.
End laws.

(** ** Property *)

(** C17. Nothing measured is lost while core 0 keeps up.  The loop runs for any
    number of periods of the streamer, with commands queued and shared words
    changed at any tick, and core 0 empties the ring after each; when no period has
    more ticks than the ring has room for, and the 32-bit index does not wrap,
    every tick returns and keeps the loop's invariant, and what the streamer finds
    each time is one record for each tick of the period, of all sources, in
    order: over all periods the records are numbered consecutively from the
    index the loop started with. *)
Theorem ticks_fill_rings {R P CQ RQ : Type} `{Rig R, Program P, SpscQueue CQ RtCommand, SpscQueue RQ StreamRecord}
    (I : World -> P -> Prop) (ctx_ok : StepCtx -> Prop)
    `{!RigLaws R, !ProgramLaws P I ctx_ok, !SpscLaws CQ RtCommand, !SpscLaws RQ StreamRecord}
    (w : World) (st : RtLoopState R P CQ RQ) (periods : list (list (TickEnv CQ) * (RQ -> RQ)))
    (Hst : running (I := I) (ctx_ok := ctx_ok) w st) (Hring : q_contents (rl_records st) = [])
    (Hperiods : Forall (fun '(env, empty) => Forall (env_ok (I := I)) env /\ len env <= q_capacity (rl_records st)
       /\ forall q, q_contents (empty q) = [] /\ q_capacity (empty q) = q_capacity q) periods)
    (Hindex : rl_index st + len (concat periods.*1) < 2 ^ 32) :
  exists w' st' rings,
    run_periods w st periods = Some (w', st', rings)
    /\ running (I := I) (ctx_ok := ctx_ok) w' st'
    /\ rl_index st' = rl_index st + len (concat periods.*1)
    /\ Forall2 (fun period ring => len (q_contents ring) = len period.1) periods rings
    /\ Forall (fun ring => Forall (full_record (source_count R P)) (q_contents ring)) rings
    /\ indexed (rl_index st) 1 (concat (q_contents <$> rings)).
Proof.
  revert w st Hst Hring Hperiods Hindex. induction periods as [|[env empty] periods IH]; intros w st Hst Hring Hperiods Hindex.
  { exists w, st, []. change (len (concat _)) with 0. rewrite Z.add_0_r. split_and!; try done. }
  apply Forall_cons in Hperiods as [(Henv & Hcap & Hempty) Hperiods].
  change (concat ((env, empty) :: periods).*1) with (env ++ concat periods.*1) in *. rewrite len_app in *.
  pose proof (len_nonneg (concat periods.*1)).
  destruct (ticks_enqueue w st env Hst Henv) as (w1 & st1 & records & E1 & Hst1 & Ei & Ec & Ecap & El & Hix & Hall);
    [rewrite Hring; change (len []) with 0; lia|lia|].
  rewrite Hring in Ec. cbn [app] in Ec. destruct (Hempty (rl_records st1)) as [He1 He2].
  destruct (IH w1 (st1 <| rl_records := empty (rl_records st1) |>)) as (w2 & st2 & rings & E2 & Hst2 & Ei2 & Hlen & Hfull & Hix2).
  - destruct Hst1 as [Hok ? ?]. split; try done. by destruct Hok.
  - exact He1.
  - cbn [rl_records set const]. by rewrite He2, Ecap.
  - cbn [rl_index set const]. lia.
  - exists w2, st2, (rl_records st1 :: rings). cbn [run_periods]. rewrite E1, bind_Some, E2, bind_Some.
    cbn [rl_index set const] in Ei2, Hix2. split_and!; try done.
    + lia.
    + constructor; [|done]. cbn [fst]. by rewrite Ec.
    + constructor; [|done]. by rewrite Ec.
    + cbn [fmap list_fmap concat]. rewrite indexed_app, Ec, El, Z.mul_1_r. split; [done|]. by rewrite <-Ei.
Qed.

(** ** Example: three ticks in two periods, with three commands queued *)

Definition demo_periods : list (list (TickEnv (ListQueue RtCommand)) * (ListQueue StreamRecord -> ListQueue StreamRecord)) :=
  let tick : TickEnv (ListQueue RtCommand) := (fun q => q, demo_clock, fun w => w) in
  let emptied q := {| lq_items := []; lq_capacity := lq_capacity q |} in
  [([tick; tick], emptied); ([tick], emptied)].

Lemma ticks_fill_rings_witness :
  exists w' st' ring1 ring2, run_periods demo_world (demo_state <| rl_index := 7 |>) demo_periods = Some (w', st', [ring1; ring2])
    /\ len (q_contents ring1) = 2 /\ len (q_contents ring2) = 1 /\ rl_index st' = 10.
Proof.
  destruct (@ticks_fill_rings VectorRig PhaseProgram _ _ VectorRig_rig PhaseProgram_program _ _
    (fun _ _ => True) (fun _ => True) VectorRig_laws PhaseProgram_laws list_queue_laws list_queue_laws
    demo_world (demo_state <| rl_index := 7 |>) demo_periods) as (w' & st' & rings & E & _ & Ei & Hlen & _).
  - split; [|reflexivity|by split; vm_compute]. destruct (demo_loop_ok demo_world). by split.
  - reflexivity.
  - repeat (apply Forall_cons; split; [split; [|by split]|]); [by repeat constructor..|by apply Forall_nil].
  - by vm_compute.
  - destruct (Forall2_cons_inv_l _ _ _ _ Hlen) as (ring1 & rings1 & H1 & Hlen1 & ->).
    destruct (Forall2_cons_inv_l _ _ _ _ Hlen1) as (ring2 & rings2 & H2 & Hlen2 & ->).
    apply Forall2_nil_inv_l in Hlen2 as ->. exists w', st', ring1, ring2. split; [exact E|].
    split; [exact H1|]. split; [exact H2|]. rewrite Ei. vm_compute. reflexivity.
Defined.
