(* ===== verification/ControlServer.v ===== *)
(** * TCP control server (firmware/support/src/comms/tcp.rs)

    One connection at a time, framed request and response, all parameter access
    through the store.  The bytes a connection delivers are the list [input];
    what the server writes back is the output.  Of code that is not the
    repository's: [remote] is the address of the peer, [uptime_ms] the clock,
    [rom_reboot] the status the boot ROM returns, and [core1] what the other
    core does to the shared memory while the server waits for its
    quiescence. *)

From stdpp Require Import strings.
From S2P Require Import Prelude Float32 Harmonics Proto Text ParamPayload Crc Frame StreamPacket History.
From S2P Require Import Channels StreamTask Shared Rig Program Params Groups.

(** [as_chunks::<2>().0]. *)
Fixpoint chunks2 (l : list Z) : list (Z * Z) :=
  match l with
  | a :: b :: l => (a, b) :: chunks2 l
  | _ => []
  end.

(** The state a request can change. *)
Record Server (G CQ : Type) := {
  sv_world : World; sv_store : ParamStore G CQ; sv_stream : StreamState }.
Arguments Build_Server {G CQ}.
Arguments sv_world {G CQ}.
Arguments sv_store {G CQ}.
Arguments sv_stream {G CQ}.

Section server.
Context {R P G CQ : Type} `{Rig R, Program P, ParamGroup G, SpscQueue CQ RtCommand}.
Implicit Types sv : Server G CQ.

(** ** The requests on the stream session *)

(** The closure under [STREAM.lock] of [StreamSetup]. *)
Definition stream_setup (s : StreamState) (decimation count : Z) (sources : list Z)
    : StreamState * outcome ErrorCode unit :=
  if str_enabled s then (s, Err Busy)
  else if MAX_SOURCES <? len sources then (s <| str_sources := [] |>, Err BadValue)
  else (s <| str_sources := sources |> <| str_decimation := decimation |> <| str_count := count |>, Ok ()).

(** [StreamSetup]: decimation u16, count u32, n u8, sources u8[n]. *)
Definition handle_stream_setup (s : StreamState) (payload : list Z)
    : StreamState * outcome ErrorCode unit :=
  and_then (s, if len payload <? 7 then Err BadLength else
    decimation ← or_panic (u16_at payload 0);
    count ← or_panic (u32_at payload 2);
    n ← or_panic (index payload 6);
    if (decimation =? 0) || (n =? 0) || (MAX_SOURCES <? n) || negb (len payload =? 7 + n)
    then Err BadValue
    else
      sources ← or_panic (slice payload 7 (7 + n));
      if existsb (fun source => source_count R P <=? source) sources then Err BadValue
      else Ok (decimation, count, sources))
  (fun s '(decimation, count, sources) => stream_setup s decimation count sources).

(** The closure of [StreamStart]. *)
Definition stream_start (s : StreamState) (endpoint : Endpoint) : StreamState * outcome ErrorCode unit :=
  if bool_decide (str_sources s = []) then (s, Err BadValue)
  else (s <| str_target := Some endpoint |> <| str_enabled := true |>
          <| str_generation := wrapping_add 32 (str_generation s) 1 |>, Ok ()).

Definition handle_stream_start (s : StreamState) (remote : option Z) (payload : list Z)
    : StreamState * outcome ErrorCode unit :=
  and_then (s, if negb (len payload =? 2) then Err BadLength else
    port ← or_panic (u16_at payload 0);
    addr ← ok_or remote BadValue;
    Ok (addr, port))
  (fun s endpoint => stream_start s endpoint).

(** ** [handle] *)

(** A read appended to the response at [off]. *)
Definition append_read (resp : list Z) (off : Z)
    (read : list Z -> outcome ErrorCode (list Z * Z)) : outcome ErrorCode (list Z * Z) :=
  rest ← or_panic (slice resp off (len resp));
  '(rest, n) ← read rest;
  resp ← or_panic (blit resp off rest);
  Ok (resp, off + n).

Definition get_params (s : ParamStore G CQ) (payload resp : list Z) : outcome ErrorCode (list Z * Z) :=
  start ← map_err (fun _ => BadLength) (decode_param_page_request payload);
  count ← or_panic (ParamStore_count s);
  if umax 16 <? count then Err BadLength
  else if count <? start then Err BadIndex
  else
    map_err (fun error => match error with InvalidIndex => BadIndex | _ => BadLength end)
      (encode_param_page resp start count (fun index =>
        def ← ParamStore_def s index;
        def ← def;
        Some (def_name def, def_ty def, def_count def, def_writable def))).

Definition get_sources (resp : list Z) : outcome ErrorCode (list Z * Z) :=
  for_each (fun i x =>
    '(name, unit) ← or_panic (source R P i);
    append_read (fst x) (snd x)
      (fun out => map_err (fun _ => BadLength) (encode_source out name unit)))
    (seqZ 0 (source_count R P)) (resp, 0).

Definition get_par (w : World) (s : ParamStore G CQ) (payload resp : list Z)
    : outcome ErrorCode (list Z * Z) :=
  if (len payload =? 0) || negb (len payload mod 2 =? 0) then Err BadLength
  else for_each (fun pair x =>
         append_read (fst x) (snd x) (ParamStore_get w s (of_le_bytes [fst pair; snd pair])))
         (chunks2 payload) (resp, 0).

Definition status (s : ParamStore G CQ) (uptime_ms : Z) (resp : list Z) : outcome ErrorCode (list Z * Z) :=
  resp ← or_panic (put resp 0 VERSION);
  count ← or_panic (ParamStore_count s);
  _ ← assert_that (count <=? umax 16);
  resp ← or_panic (blit resp 1 (le16 count));
  resp ← or_panic (put resp 3 (wrap 8 (source_count R P)));
  resp ← or_panic (blit resp 4 (f32_to_le_bytes (SampleRate_hz (ps_sample_rate s))));
  resp ← or_panic (blit resp 8 (le32 (wrap 32 uptime_ms)));
  Ok (resp, 12).

(** A result that leaves the state alone. *)
Definition pure_reply sv (r : outcome ErrorCode (list Z * Z))
    : Server G CQ * ParamAction * outcome ErrorCode (list Z * Z) := (sv, NoAction, r).

Definition unit_reply sv (action : ParamAction) (resp : list Z) (r : outcome ErrorCode unit)
    : Server G CQ * ParamAction * outcome ErrorCode (list Z * Z) :=
  (sv, action, match r with Ok _ => Ok (resp, 0) | Err e => Err e | Panic => Panic end).

(** [handle]: the state, the action and the response payload with its length. *)
Definition handle (ty : Z) (payload : list Z) (remote : option Z) (uptime_ms : Z) sv (resp : list Z)
    : Server G CQ * ParamAction * outcome ErrorCode (list Z * Z) :=
  let '{| sv_world := w; sv_store := s; sv_stream := stream |} := sv in
  match MsgType_from_u8 ty with
  | None => pure_reply sv (Err UnknownType)
  | Some GetParams => pure_reply sv (get_params s payload resp)
  | Some GetSources => pure_reply sv (get_sources resp)
  | Some GetPar => pure_reply sv (get_par w s payload resp)
  | Some SetPar =>
      if len payload <? 2 then pure_reply sv (Err BadLength) else
      match u16_at payload 0, slice payload 2 (len payload) with
      | Some index, Some data =>
          let '(w, s, r) := ParamStore_set w s index data in
          let sv := {| sv_world := w; sv_store := s; sv_stream := stream |} in
          match r with
          | Ok action => (sv, action, Ok (resp, 0))
          | Err e => (sv, NoAction, Err e)
          | Panic => (sv, NoAction, Panic)
          end
      | _, _ => pure_reply sv Panic
      end
  | Some SetBlock =>
      match decode_set_block payload with
      | Ok (index, offset, data) =>
          let '(w, s, r) := ParamStore_set_block w s index offset data in
          unit_reply {| sv_world := w; sv_store := s; sv_stream := stream |} NoAction resp r
      | Err _ => pure_reply sv (Err BadLength)
      | Panic => pure_reply sv Panic
      end
  | Some Commit =>
      match decode_commit payload with
      | Ok (index, n) =>
          let '(w, s, r) := ParamStore_commit w s index n in
          unit_reply {| sv_world := w; sv_store := s; sv_stream := stream |} NoAction resp r
      | Err _ => pure_reply sv (Err BadLength)
      | Panic => pure_reply sv Panic
      end
  | Some StreamSetup =>
      let '(stream, r) := handle_stream_setup stream payload in
      unit_reply {| sv_world := w; sv_store := s; sv_stream := stream |} NoAction resp r
  | Some StreamStart =>
      let '(stream, r) := handle_stream_start stream remote payload in
      unit_reply {| sv_world := w; sv_store := s; sv_stream := stream |} NoAction resp r
  | Some StreamStop =>
      unit_reply {| sv_world := w; sv_store := s; sv_stream := stream <| str_enabled := false |> |}
        NoAction resp (Ok ())
  | Some Status => pure_reply sv (status s uptime_ms resp)
  | Some MsgError => pure_reply sv (Err UnknownType)
  end.

(** ** [serve] and [control_run] *)

(** What the server's environment does during one request. *)
Record Environment := {
  en_remote : option Z;              (* the peer's address, while connected *)
  en_uptime_ms : Z;
  en_shared : World -> World;        (* core 1 since the previous request *)
  en_streamer : StreamState -> StreamState;  (* the streamer since the previous request *)
  en_core1 : World -> World;         (* the real-time core, while the server waits *)
  en_rom_reboot : Z;                 (* the status of the ROM reboot call *)
  en_written : bool }.               (* whether the response could be written *)

(** The reboot branch: quiet the outputs, hand over to core 1, reset. *)
Definition reboot_sequence (env : Environment) sv (result : outcome ErrorCode (list Z * Z))
    : Server G CQ * outcome ErrorCode (list Z * Z) * bool :=
  let sv := sv <| sv_stream := (sv_stream sv) <| str_enabled := false |> |> in
  let w := with_safety (sv_world sv) Safety_disarm in
  let w := w <| w_shared := (w_shared w) <| rs_reboot := RebootShared_request (rs_reboot (w_shared w)) |> |> in
  let sv := sv <| sv_world := en_core1 env w |> in
  if en_rom_reboot env <? 0 then (sv, Err Busy, false) else (sv, result, true).

(** The response frame: the payload, or the error code and the request type. *)
Definition response_frame (ty seq : Z) (result : outcome ErrorCode (list Z * Z))
    : outcome FrameError (Z * list Z) :=
  let buffer := replicate (Z.to_nat MAX_FRAME) 0 in
  match result with
  | Ok (resp, n) =>
      payload ← or_panic (slice resp 0 n);
      encode buffer ty seq payload
  | Err code => encode buffer (MsgType_u8 MsgError) seq [ErrorCode_u8 code; ty]
  | Panic => Panic
  end.

(** One request of [serve]'s loop after its frame was read: the new state, the
    bytes written and whether a reboot is scheduled; [None] is a panic. *)
Definition serve_frame (env : Environment) sv (resp : list Z) (frame : list Z)
    : option (option (Server G CQ * list Z * list Z * bool)) :=
  match decode frame with
  | Panic => None
  | Err _ => Some None (* bad frame: the connection is dropped *)
  | Ok (ty, seq, payload) =>
      let '(sv, action, result) :=
        handle ty payload (en_remote env) (en_uptime_ms env) sv resp in
      let reboot := match result with Ok _ => bool_decide (action = Reboot) | _ => false end in
      let '(sv, result, scheduled) :=
        if reboot then reboot_sequence env sv result else (sv, result, false) in
      let resp := match result with Ok (resp, _) => resp | _ => resp end in
      match response_frame ty seq result with
      | Ok (n, buffer) =>
          bytes ← slice buffer 0 n;
          Some (Some (sv, resp, bytes, scheduled))
      | _ => None
      end
  end.

(** How a connection ends. *)
Inductive serve_end :=
  | Dropped            (* back to [control_run] *)
  | Rebooting.         (* the task never resumes; the chip resets *)

(** The next frame of the input, or the end of the connection. *)
Definition next_frame (input : list Z) : option (option (list Z * list Z)) :=
  if len input <? HEADER_LEN then Some None
  else
    magic ← slice input 0 2;
    if negb (bool_decide (magic = le16 MAGIC)) then Some None
    else
      n ← u16_at input 4;
      if MAX_PAYLOAD <? n then Some None
      else
        let total := HEADER_LEN + n + TRAILER_LEN in
        if len input <? total then Some None
        else
          frame ← slice input 0 total;
          rest ← slice input total (len input);
          Some (Some (frame, rest)).

(** [serve] on the bytes of a connection; [envs] are the environments of its
    successive requests, and the connection is cut when they run out. *)
Fixpoint serve (envs : list Environment) sv (resp input : list Z)
    : option (Server G CQ * list Z * serve_end) :=
  match envs with
  | [] => Some (sv, [], Dropped)
  | env :: envs =>
      match next_frame input with
      | None => None
      | Some None => Some (sv, [], Dropped)
      | Some (Some (frame, rest)) =>
          let sv := sv <| sv_world := en_shared env (sv_world sv) |>
                       <| sv_stream := en_streamer env (sv_stream sv) |> in
          match serve_frame env sv resp frame with
          | None => None
          | Some None => Some (sv, [], Dropped)
          | Some (Some (sv, resp, bytes, scheduled)) =>
              if negb (en_written env) then Some (sv, [], if scheduled then Rebooting else Dropped)
              else if scheduled then Some (sv, bytes, Rebooting)
              else
                '(sv, output, ending) ← serve envs sv resp rest;
                Some (sv, bytes ++ output, ending)
          end
      end
  end.

(** One turn of [control_run]'s loop, once a client is accepted. *)
Definition control_connection (envs : list Environment) sv (input : list Z)
    : option (Server G CQ * list Z * serve_end) :=
  let sv := sv <| sv_stream := (sv_stream sv) <| str_control_connected := true |> |> in
  '(sv, output, ending) ← serve envs sv (replicate (Z.to_nat MAX_PAYLOAD) 0) input;
  match ending with
  | Rebooting => Some (sv, output, ending)
  | Dropped =>
      let stream := (sv_stream sv) <| str_enabled := false |> <| str_control_connected := false |> in
      Some (sv <| sv_stream := stream |> <| sv_world := with_safety (sv_world sv) Safety_disarm |>,
            output, ending)
  end.
End server.

(** ** Specification *)

(** The stream session the control server maintains: whatever is enabled can be
    streamed ([StreamTask.session_ok]). *)
Record stream_inv (s : StreamState) : Prop := {
  si_enabled : str_enabled s = true -> str_sources s <> [] /\ is_Some (str_target s);
  si_sources : len (str_sources s) <= MAX_SOURCES /\ Forall (Z.le 0) (str_sources s);
  si_decimation : 1 <= str_decimation s < 2 ^ 16;
  si_count : 0 <= str_count s
}.

Lemma STREAM_inv : stream_inv STREAM.
Proof. split; cbn; [done|split; [done|constructor]|lia|lia]. Qed.

Lemma stream_inv_session s :
  stream_inv s -> str_enabled s = true -> str_control_connected s = true ->
  exists endpoint, session_ok s endpoint.
Proof.
  intros [He [Hl Hs] Hd Hc] E C. destruct (He E) as [Hn [endpoint Ht]]. exists endpoint.
  split; try done. split; [|done]. unfold MAX_SOURCES in Hl. unfold len in *.
  assert (length (str_sources s) <> 0%nat) by (by intros ?%nil_length_inv). lia.
Qed.

(** The frames a server may answer to the requests at the front of [input]: the
    type and sequence number of each, or the error frame that names its type. *)
Definition reply_to (ty ty' : Z) (payload' : list Z) : Prop :=
  ty' = ty \/ (ty' = MsgType_u8 MsgError /\ exists code, payload' = [ErrorCode_u8 code; ty]).

(** A complete well-formed frame is at the front. *)
Definition framed (input : list Z) : Prop :=
  exists ty seq payload rest, len payload <= MAX_PAYLOAD
    /\ input = frame_bytes ty seq payload ++ rest.

(** The replies to the bytes of a connection and how it ends, with one environment
    for each request.  While there is a frame the server answers it and goes on,
    unless the reply could not be written or the request was one that reboots the
    chip ([reboots], a condition on its type and payload) and the ROM accepted.
    It drops the connection only when the connection is lost, when the frame at
    the front is incomplete or malformed, or when a reply cannot be written. *)
Inductive answers (reboots : Z -> list Z -> Prop) :
    list Environment -> list Z -> list (Z * Z * list Z) -> serve_end -> Prop :=
  | answers_lost input : answers reboots [] input [] Dropped
  | answers_bad env envs input : ~ framed input -> answers reboots (env :: envs) input [] Dropped
  | answers_unwritten env envs ty seq payload input ending :
      en_written env = false ->
      (ending = Rebooting -> reboots ty payload /\ 0 <= en_rom_reboot env) ->
      answers reboots (env :: envs) (frame_bytes ty seq payload ++ input) [] ending
  | answers_reboot env envs ty seq payload input :
      en_written env = true -> reboots ty payload -> 0 <= en_rom_reboot env ->
      answers reboots (env :: envs) (frame_bytes ty seq payload ++ input) [(ty, seq, [])] Rebooting
  | answers_next env envs ty seq payload input ty' payload' replies ending :
      en_written env = true -> reply_to ty ty' payload' ->
      answers reboots envs input replies ending ->
      answers reboots (env :: envs) (frame_bytes ty seq payload ++ input)
        ((ty', seq, payload') :: replies) ending.

Definition reply_bytes (replies : list (Z * Z * list Z)) : list Z :=
  replies ≫= (fun '(ty, seq, payload) => frame_bytes ty seq payload).

Lemma reply_bytes_cons ty seq payload replies :
  reply_bytes ((ty, seq, payload) :: replies) = frame_bytes ty seq payload ++ reply_bytes replies.
Proof. done. Qed.

(** ** Lemmas: encoders *)

Lemma encode_param_fills out name ty count writable :
  fills out (encode_param out name ty count writable).
Proof.
  rewrite encode_param_spec. destruct (negb _); [done|].
  destruct (Z.ltb_spec (len out) (str_len name + 5)) as [|Hl]; [done|].
  pose proof (str_len_nonneg name). split; [|lia].
  rewrite len_app, len_param_bytes, len_drop_nat. cbn. lia.
Qed.

Lemma encode_source_fills out name unit : fills out (encode_source out name unit).
Proof.
  rewrite encode_source_spec. destruct (negb _); [done|].
  destruct (Z.ltb_spec (len out) (str_len name + str_len unit + 2)) as [|Hl]; [done|].
  pose proof (str_len_nonneg name). pose proof (str_len_nonneg unit). split; [|lia].
  unfold source_bytes. rewrite !len_app, len_cons, len_app, len_drop_nat. change (len [0]) with 1.
  unfold str_len in *. lia.
Qed.

Lemma page_loop_fills remaining definition out next offset :
  0 <= offset <= len out ->
  match page_loop remaining definition out next offset with
  | Ok (out', _, offset') => len out' = len out /\ offset <= offset' <= len out
  | Err _ => True
  | Panic => False
  end.
Proof.
  revert out next offset. induction remaining as [|remaining IH]; intros out next offset Ho;
    cbn [page_loop]; [lia|].
  destruct (definition next) as [[[[name ty] count] writable]|]; [|done]. cbn [ok_or]. rewrite bind_Ok.
  destruct (_ || _); [done|]. destruct (Z.ltb_spec (len out - offset) (str_len name + 5)) as [|Hl]; [lia|].
  rewrite slice_ok by lia. rewrite bind_or_panic. set (rest := take _ _).
  assert (Lr : len rest = len out - offset).
  { subst rest. rewrite take_ge by (rewrite length_drop; unfold len; lia). apply len_drop. lia. }
  pose proof (encode_param_fills rest name ty count writable) as Hf.
  destruct (encode_param rest name ty count writable) as [[rest' n]| |]; [|done|done].
  rewrite bind_Ok. destruct Hf as [Lr' Hn].
  destruct (blit_spec out offset rest') as (out' & -> & Lo & _); [lia|lia|]. rewrite bind_or_panic.
  specialize (IH out' (next + 1) (offset + n) ltac:(lia)).
  destruct (page_loop remaining definition out' (next + 1) (offset + n)) as [[[o nx] off]| |];
    [lia|done|done].
Qed.

Lemma encode_param_page_fills out start total definition :
  fills out (encode_param_page out start total definition).
Proof.
  unfold encode_param_page, PARAM_PAGE_HEADER_LEN. destruct (total <? start); [done|].
  destruct (Z.ltb_spec (len out) 4) as [|Hl]; [done|].
  destruct (blit_spec out 0 (le16 start)) as (o1 & -> & L1 & _);
    [lia|change (len (le16 start)) with 2; lia|]. rewrite bind_or_panic.
  pose proof (page_loop_fills (Z.to_nat (total - start)) definition o1 start 4 ltac:(lia)) as Hp.
  destruct (page_loop _ _ _ _ _) as [[[o2 nx] off]| |]; [|done|done]. rewrite bind_Ok.
  destruct (_ && _); [done|].
  destruct (blit_spec o2 2 (le16 nx)) as (o3 & -> & L3 & _);
    [lia|change (len (le16 nx)) with 2; lia|]. rewrite bind_or_panic. cbn. lia.
Qed.

(** What a response in progress satisfies. *)
Definition appended (resp : list Z) (off : Z) (r : outcome ErrorCode (list Z * Z)) : Prop :=
  match r with
  | Ok (resp', off') => len resp' = len resp /\ off <= off' <= len resp
  | Err _ => True
  | Panic => False
  end.

Lemma append_read_ok resp off read :
  0 <= off <= len resp -> (forall out, fills out (read out)) ->
  appended resp off (append_read resp off read).
Proof.
  intros Ho Hr. unfold append_read. rewrite slice_ok by lia. rewrite bind_or_panic.
  set (rest := take _ _). assert (Lr : len rest = len resp - off).
  { subst rest. rewrite take_ge by (rewrite length_drop; unfold len; lia). apply len_drop. lia. }
  specialize (Hr rest). destruct (read rest) as [[rest' n]| |]; [|done|done]. rewrite bind_Ok.
  destruct Hr as [Lr' Hn]. destruct (blit_spec resp off rest') as (resp' & -> & L & _); [lia|lia|].
  rewrite bind_or_panic. cbn. lia.
Qed.

(** Reads appended one after the other. *)
Lemma append_reads_fill {A} (f : A -> list Z -> outcome ErrorCode (list Z * Z)) (l : list A) resp :
  (forall x out, x ∈ l -> fills out (f x out)) ->
  fills resp (for_each (fun x s => append_read (fst s) (snd s) (f x)) l (resp, 0)).
Proof.
  intros Hf. pose proof (for_each_outcome_inv (fun x s => append_read (fst s) (snd s) (f x))
    (fun s => len (fst s) = len resp /\ 0 <= snd s <= len resp) l (resp, 0)) as Hi.
  pose proof (len_nonneg resp).
  assert (Hstep : forall x s, x ∈ l -> len (fst s) = len resp /\ 0 <= snd s <= len resp ->
    match append_read (fst s) (snd s) (f x) with
    | Ok s' => len (fst s') = len resp /\ 0 <= snd s' <= len resp
    | Err _ => True | Panic => False end).
  { intros x [r o] Hx [Hr Ho]. cbn [fst snd] in *.
    pose proof (append_read_ok r o (f x) ltac:(lia) (fun out => Hf x out Hx)) as Ha.
    destruct (append_read r o (f x)) as [[r' o']| |]; [|done|done]. cbn in *. lia. }
  specialize (Hi Hstep ltac:(cbn; lia)).
  destruct (for_each _ _ _) as [[r o]| |]; [|done|done]. exact Hi.
Qed.

(** ** Lemmas: the requests *)

Lemma existsb_false {A} (f : A -> bool) l : existsb f l = false -> Forall (fun x => f x = false) l.
Proof.
  induction l as [|x l IH]; [constructor|]. cbn. intros [Hx Hl]%orb_false_elim. constructor; auto.
Qed.

Lemma handle_stream_setup_spec {R P} `{Rig R, Program P} s payload :
  stream_inv s -> bytes_ok payload ->
  let '(s', r) := handle_stream_setup (R := R) (P := P) s payload in
  r <> Panic /\ stream_inv s' /\ (forall e, r = Err e -> s' = s).
Proof.
  intros Hs Hp. unfold handle_stream_setup. destruct (Z.ltb_spec (len payload) 7) as [|Hl]; [done|].
  destruct (u16_at_is_Some payload 0) as [decimation Ed]; [lia|lia|]. rewrite Ed, bind_or_panic.
  destruct (u32_at_is_Some payload 2) as [count Ec]; [lia|lia|]. rewrite Ec, bind_or_panic.
  destruct (index_is_Some payload 6) as [n En]; [lia|]. rewrite En, bind_or_panic.
  apply drop_u16_at in Ed as [[Hd0 Hd] _]; [|done]. apply drop_u32_at in Ec as [[Hc0 Hc] _]; [|done].
  pose proof (index_byte _ _ _ Hp En) as [Hn0 Hn].
  destruct (_ || _) eqn:Hg; [done|]. bool_facts. rewrite slice_ok by lia. rewrite bind_or_panic.
  set (sources := take _ _). destruct (existsb _ sources) eqn:Hx; [done|]. cbn [and_then].
  assert (Ls : len sources = n).
  { subst sources. rewrite len_take; [lia|]. rewrite len_drop by lia. lia. }
  unfold stream_setup. destruct (str_enabled s) eqn:He; [done|].
  rewrite (proj2 (Z.ltb_ge _ _)) by lia. split; [done|]. split; [|done].
  split; cbn; [congruence|split; [lia|]|lia|lia].
  apply Forall_take, Forall_drop. eapply Forall_impl; [exact Hp|]. by intros b [? _].
Qed.

Lemma handle_stream_start_spec s remote payload :
  stream_inv s ->
  let '(s', r) := handle_stream_start s remote payload in
  r <> Panic /\ stream_inv s' /\ (forall e, r = Err e -> s' = s).
Proof.
  intros Hs. unfold handle_stream_start. destruct (Z.eqb_spec (len payload) 2) as [Hl|]; cbn [negb]; [|done].
  destruct (u16_at_is_Some payload 0) as [port ->]; [lia|lia|]. rewrite bind_or_panic.
  destruct remote as [addr|]; [|done]. cbn [ok_or]. rewrite bind_Ok. cbn [and_then].
  unfold stream_start. destruct (bool_decide_reflect (str_sources s = [])); [done|].
  split; [done|]. split; [|done]. destruct Hs as [_ H2 H3 H4].
  split; [intros _; split; [done|by eexists]|done|done|done].
Qed.

Section server_lemmas.
Context {R P G CQ : Type} `{HR : Rig R, HP : Program P, HG : ParamGroup G, HQ : SpscQueue CQ RtCommand}.
Context {world_ok : World -> Prop} {idle : G -> Prop} {signals : list (string * string)}.
Context `{!ParamGroupLaws G world_ok idle, !SpscLaws CQ RtCommand, !ProgramSignals P signals}.
Implicit Types sv : Server G CQ.

Record server_ok sv : Prop := {
  vo_store : store_ok idle (sv_store sv);
  vo_world : world_ok (sv_world sv);
  vo_stream : stream_inv (sv_stream sv) }.

(** What the other tasks may do between and during requests. *)
Record environment_ok (env : Environment) : Prop := {
  eo_shared w : world_ok w -> world_ok (en_shared env w);
  eo_streamer s : stream_inv s -> stream_inv (en_streamer env s);
  eo_core1 w : world_ok w -> world_ok (en_core1 env w) }.

Hypothesis disarm_ok : forall w, world_ok w -> world_ok (with_safety w Safety_disarm).
Hypothesis reboot_ok : forall w state, world_ok w ->
  world_ok (w <| w_shared := (w_shared w) <| rs_reboot := state |> |>).

Lemma ParamStore_get_fills w (s : ParamStore G CQ) i out :
  store_ok idle s -> world_ok w -> 0 <= i -> fills out (ParamStore_get w s i out).
Proof.
  intros [Hv Ht He] Hw Hi. unfold ParamStore_get. rewrite Hv. cbn [assert_that]. rewrite bind_Ok.
  pose proof (locate_spec s i Hi Ht) as Hl. destruct (locate s i) as [[k id]|]; [|done].
  cbn [ok_or]. rewrite bind_Ok. destruct Hl as (_ & entry & Hk & Hid). rewrite Hk, bind_or_panic.
  apply (law_read world_ok idle); [done|]. by apply (Forall_lookup_1 _ _ _ _ He Hk).
Qed.

Lemma store_count (s : ParamStore G CQ) :
  store_ok idle s -> ParamStore_count s = Some (total_count s).
Proof. intros [Hv _ _]. unfold ParamStore_count. by rewrite Hv. Qed.

Lemma get_params_fills (s : ParamStore G CQ) payload resp :
  store_ok idle s -> fills resp (get_params s payload resp).
Proof.
  intros Hs. unfold get_params, decode_param_page_request.
  destruct (Z.eqb_spec (len payload) 2) as [Hl|]; cbn [negb]; [|done].
  destruct (u16_at_is_Some payload 0) as [start ->]; [lia|lia|]. cbn [or_panic map_err]. rewrite bind_Ok.
  rewrite (store_count s Hs), bind_or_panic. destruct (umax 16 <? _); [done|].
  destruct (_ <? start); [done|]. apply fills_map_err, encode_param_page_fills.
Qed.

Lemma get_sources_fills resp : fills resp (get_sources (R := R) (P := P) resp).
Proof using signals ProgramSignals0.
  unfold get_sources.
  assert (Hc : 0 <= source_count R P).
  { unfold source_count. rewrite signal_count_ok. pose proof (len_nonneg (INPUTS (R := R))).
    pose proof (len_nonneg signals). pose proof (len_nonneg (ACTUATORS (R := R))). lia. }
  pose proof (for_each_outcome_inv (E := ErrorCode) (fun i x =>
    '(name, unit) ← or_panic (source R P i);
    append_read (fst x) (snd x)
      (fun out => map_err (fun _ => BadLength) (encode_source out name unit)))
    (fun s => len (fst s) = len resp /\ 0 <= snd s <= len resp) (seqZ 0 (source_count R P)) (resp, 0)) as Hi.
  pose proof (len_nonneg resp). cbn [fst snd] in Hi.
  match type of Hi with ?A -> ?B -> _ => assert (HA : A); [|specialize (Hi HA ltac:(lia))] end.
  - intros i [r o] Hx%elem_of_seqZ [Hr Ho]. cbn [fst snd] in *.
    assert (Hsome : is_Some (source R P i)) by (apply (source_is_Some signals); lia).
    destruct Hsome as [[name unit] ->].
    rewrite bind_or_panic.
    pose proof (append_read_ok r o (fun out => map_err (fun _ => BadLength) (encode_source out name unit))
      ltac:(lia) (fun out => fills_map_err _ _ _ (encode_source_fills out name unit))) as Ha.
    destruct (append_read r o _) as [[r' o']| |]; [|done|done]. cbn in *. lia.
  - destruct (for_each _ _ _) as [[r o]| |]; [|done|done]. exact Hi.
Qed.

Lemma chunks2_bytes l : bytes_ok l -> Forall (fun p => is_byte (fst p) /\ is_byte (snd p)) (chunks2 l).
Proof.
  remember (length l) as n eqn:En. revert l En. induction n as [n IH] using lt_wf_ind. intros l -> Hl.
  destruct l as [|a [|b l]]; [constructor|constructor|].
  apply Forall_cons in Hl as [Ha Hl]. apply Forall_cons in Hl as [Hb Hl]. constructor; [done|].
  eapply IH; [|done|done]. cbn. lia.
Qed.

Lemma get_par_fills w (s : ParamStore G CQ) payload resp :
  store_ok idle s -> world_ok w -> bytes_ok payload -> fills resp (get_par w s payload resp).
Proof.
  intros Hs Hw Hp. unfold get_par. destruct (_ || _); [done|].
  apply (append_reads_fill (fun pair => ParamStore_get w s (of_le_bytes [fst pair; snd pair]))).
  intros x out Hx. destruct (proj1 (Forall_forall _ _) (chunks2_bytes _ Hp) x Hx) as [Ha Hb].
  apply ParamStore_get_fills; [done|done|]. by apply of_le16_fits.
Qed.

Lemma status_fills (s : ParamStore G CQ) uptime resp :
  store_ok idle s -> 12 <= len resp -> fills resp (status (R := R) (P := P) s uptime resp).
Proof.
  intros Hs Hl. unfold status. rewrite (store_count s Hs).
  destruct (put_spec resp 0 VERSION) as (r1 & -> & L1 & _); [lia|]. rewrite !bind_or_panic.
  pose proof (so_total _ Hs) as Ht. rewrite (proj2 (Z.leb_le _ _)) by done. cbn [assert_that].
  rewrite bind_Ok.
  destruct (blit_spec r1 1 (le16 (total_count s))) as (r2 & -> & L2 & _);
    [lia|change (len (le16 _)) with 2; lia|]. rewrite bind_or_panic.
  destruct (put_spec r2 3 (wrap 8 (source_count R P))) as (r3 & -> & L3 & _); [lia|]. rewrite bind_or_panic.
  destruct (blit_spec r3 4 (f32_to_le_bytes (SampleRate_hz (ps_sample_rate s)))) as (r4 & -> & L4 & _);
    [lia|rewrite len_f32_le_bytes; lia|]. rewrite bind_or_panic.
  destruct (blit_spec r4 8 (le32 (wrap 32 uptime))) as (r5 & -> & L5 & _);
    [lia|change (len (le32 _)) with 4; lia|]. rewrite bind_or_panic. cbn. lia.
Qed.

(** The outcome of a store operation, for the server. *)
Lemma store_op_server w (s : ParamStore G CQ) op :
  op_ok op -> store_ok idle s -> world_ok w ->
  let '(w', s', r) := store_apply w s op in r <> Panic /\ store_ok idle s' /\ world_ok w'.
Proof.
  intros Hop Hs Hw. destruct (store_apply_transaction (world_ok := world_ok) (idle := idle) w s op Hop Hs Hw)
    as (k & id & Ht). destruct (store_apply w s op) as [[w' s'] r].
  destruct Ht as (Hs' & Hw' & Hr). split_and!; try done. by destruct r.
Qed.

(** A [SetPar] that a store accepts as the request to reboot. *)
Definition set_reboots (ty : Z) (payload : list Z) : Prop :=
  ty = MsgType_u8 SetPar /\ exists w (s : ParamStore G CQ) i data,
    store_ok idle s /\ world_ok w /\ u16_at payload 0 = Some i
    /\ slice payload 2 (len payload) = Some data
    /\ (ParamStore_set w s i data).2 = Ok Reboot.

(** Every request is answered, and keeps the server well formed. *)
Definition handled ty payload resp
    (x : Server G CQ * ParamAction * outcome ErrorCode (list Z * Z)) : Prop :=
  let '(sv', action, r) := x in
  server_ok sv' /\ fills resp r
  /\ (action = Reboot -> forall resp' n, r = Ok (resp', n) -> n = 0 /\ set_reboots ty payload).

Lemma pure_handled ty payload sv resp r :
  server_ok sv -> fills resp r -> handled ty payload resp (pure_reply sv r).
Proof. done. Qed.

Lemma unit_handled ty payload sv resp r :
  server_ok sv -> r <> Panic -> handled ty payload resp (unit_reply sv NoAction resp r).
Proof.
  intros Hs Hr. unfold unit_reply. split; [done|]. split; [|done]. pose proof (len_nonneg resp).
  destruct r; [cbn; lia|done|done].
Qed.

Lemma set_par_handled ty payload remote uptime sv resp :
  MsgType_from_u8 ty = Some SetPar ->
  server_ok sv -> bytes_ok payload -> len resp = MAX_PAYLOAD ->
  handled ty payload resp (handle (R := R) (P := P) ty payload remote uptime sv resp).
Proof using world_ok idle ParamGroupLaws0 SpscLaws0.
  intros Ety Hsv Hp Hr. destruct sv as [w s stream]. pose proof Hsv as [Hs Hw Hst].
  cbn [sv_store sv_world sv_stream] in *. unfold handle. rewrite Ety. unfold MAX_PAYLOAD in Hr.
  destruct (Z.ltb_spec (len payload) 2) as [|Hl]; [by apply pure_handled|].
  destruct (u16_at_is_Some payload 0) as [i Ei]; [lia|lia|]. rewrite Ei, slice_ok by lia.
  pose proof Ei as Ei'. apply drop_u16_at in Ei' as [[Hi _] _]; [|done].
  pose proof (store_op_server w s (OpSet i (take (Z.to_nat (len payload - 2)) (drop (Z.to_nat 2) payload))))
    as Ho. cbn [store_apply] in Ho.
  destruct (ParamStore_set w s i _) as [[w' s'] r] eqn:Eset.
  specialize (Ho (conj Hi (Forall_take _ _ _ (Forall_drop _ _ _ Hp))) Hs Hw).
  destruct r as [a|e|]; cbn [and_then] in Ho; destruct Ho as (Hn & Hs' & Hw'); [| |done];
    (split; [by split|]); pose proof (len_nonneg resp); [|done].
  split; [cbn; lia|]. intros -> resp' n [= <- <-]. split; [done|].
  split; [by apply MsgType_from_u8_Some in Ety|]. eexists w, s, i, _. split_and!; [done..| |by rewrite Eset].
  by rewrite slice_ok by lia.
Qed.

Lemma handle_spec ty payload remote uptime sv resp :
  server_ok sv -> bytes_ok payload -> len resp = MAX_PAYLOAD ->
  handled ty payload resp (handle (R := R) (P := P) ty payload remote uptime sv resp).
Proof using world_ok idle signals ParamGroupLaws0 SpscLaws0 ProgramSignals0.
  intros Hsv Hp Hr. destruct sv as [w s stream]. pose proof Hsv as [Hs Hw Hst].
  destruct (decide (MsgType_from_u8 ty = Some SetPar)) as [|Hty]; [by apply set_par_handled|].
  cbn [sv_store sv_world sv_stream] in *. unfold handle. unfold MAX_PAYLOAD in Hr.
  destruct (MsgType_from_u8 ty) as [[]|]; try (by apply pure_handled).
  - apply pure_handled; [done|by apply get_params_fills].
  - apply pure_handled; [done|apply get_sources_fills].
  - apply pure_handled; [done|by apply get_par_fills].
  - done.
  - unfold decode_set_block. destruct (Z.ltb_spec (len payload) 6) as [|Hl]; [by apply pure_handled|].
    destruct (u16_at_is_Some payload 0) as [i Ei]; [lia|lia|].
    destruct (u32_at_is_Some payload 2) as [off Eo]; [lia|lia|].
    rewrite Ei, Eo, slice_ok by lia. cbn [or_panic]. rewrite !bind_Ok.
    apply drop_u16_at in Ei as [[Hi _] _]; [|done]. apply drop_u32_at in Eo as [[Hoff _] _]; [|done].
    pose proof (store_op_server w s (OpBlock i off (take (Z.to_nat (len payload - 6)) (drop (Z.to_nat 6) payload))))
      as Ho. cbn [store_apply] in Ho.
    destruct (ParamStore_set_block w s i off _) as [[w' s'] r].
    destruct Ho as (Hn & Hs' & Hw'); [|done|done|].
    { split; [done|]. split; [done|]. by apply Forall_take, Forall_drop. }
    apply unit_handled; [by split|done].
  - unfold decode_commit. destruct (Z.eqb_spec (len payload) 6) as [Hl|]; cbn [negb]; [|by apply pure_handled].
    destruct (u16_at_is_Some payload 0) as [i Ei]; [lia|lia|].
    destruct (u32_at_is_Some payload 2) as [n En]; [lia|lia|].
    rewrite Ei, En. cbn [or_panic]. rewrite !bind_Ok. apply drop_u16_at in Ei as [[Hi _] _]; [|done].
    pose proof (store_op_server w s (OpCommit i n) Hi Hs Hw) as Ho. cbn [store_apply] in Ho.
    destruct (ParamStore_commit w s i n) as [[w' s'] r]. destruct Ho as (Hn & Hs' & Hw').
    apply unit_handled; [by split|done].
  - pose proof (handle_stream_setup_spec (R := R) (P := P) stream payload Hst Hp) as Ho.
    destruct (handle_stream_setup stream payload) as [stream' r]. destruct Ho as (Hn & Hs' & _).
    apply unit_handled; [by split|done].
  - pose proof (handle_stream_start_spec stream remote payload Hst) as Ho.
    destruct (handle_stream_start stream remote payload) as [stream' r]. destruct Ho as (Hn & Hs' & _).
    apply unit_handled; [by split|done].
  - apply unit_handled; [|done]. split; [done|done|]. destruct Hst. by split.
  - apply pure_handled; [done|apply status_fills; [done|lia]].
Qed.

(** ** Lemmas: the connection *)

Lemma next_frame_spec input :
  bytes_ok input ->
  match next_frame input with
  | None => False
  | Some None => True
  | Some (Some (frame, rest)) => input = frame ++ rest
  end.
Proof.
  intros Hi. unfold next_frame, HEADER_LEN, TRAILER_LEN. destruct (Z.ltb_spec (len input) 6) as [|Hl]; [done|].
  rewrite slice_ok by lia. rewrite bind_Some. destruct (negb _); [done|].
  destruct (u16_at_is_Some input 4) as [n En]; [lia|lia|]. rewrite En, bind_Some.
  destruct (_ <? n); [done|]. destruct (Z.ltb_spec (len input) (6 + n + 2)) as [|Hn]; [done|].
  apply drop_u16_at in En as [[Hn0 _] _]; [|done].
  rewrite (slice_ok input (6 + n + 2)), (slice_ok input 0) by lia. rewrite !bind_Some.
  rewrite drop_0, Z.sub_0_r. rewrite (take_ge (drop _ _)) by (rewrite length_drop; unfold len; lia).
  by rewrite take_drop.
Qed.

(** The front of a frame is the frame. *)
Lemma next_frame_bytes ty seq payload rest :
  len payload <= MAX_PAYLOAD ->
  next_frame (frame_bytes ty seq payload ++ rest) = Some (Some (frame_bytes ty seq payload, rest)).
Proof.
  intros Hl. unfold next_frame. pose proof (len_frame_bytes ty seq payload) as Lf.
  pose proof (len_nonneg payload). pose proof (len_nonneg rest). unfold HEADER_LEN, TRAILER_LEN in *.
  rewrite (proj2 (Z.ltb_ge _ _)) by (rewrite len_app; lia).
  assert (Hm : slice (frame_bytes ty seq payload ++ rest) 0 2 = Some (le16 MAGIC))
    by (unfold frame_bytes; rewrite <-app_assoc; by apply (slice_app [] (le16 MAGIC))).
  rewrite Hm, bind_Some, bool_decide_true by done. cbn [negb].
  assert (Hn : u16_at (frame_bytes ty seq payload ++ rest) 4 = Some (len payload)).
  { replace (frame_bytes ty seq payload ++ rest) with
      ((le16 MAGIC ++ [ty; seq]) ++ le16 (len payload)
       ++ (payload ++ le16 (crc16 (frame_body ty seq payload)) ++ rest)).
    2:{ unfold frame_bytes, frame_body. rewrite <-!app_assoc. cbn [app]. by rewrite <-!app_assoc. }
    apply u16_at_app; [done|]. unfold MAX_PAYLOAD in Hl. unfold fits. lia. }
  rewrite Hn, bind_Some, (proj2 (Z.ltb_ge _ _)) by done.
  rewrite (proj2 (Z.ltb_ge _ _)) by (rewrite len_app; lia).
  rewrite (slice_app [] (frame_bytes ty seq payload) rest 0) by (rewrite ?(len_nil (A := Z)); lia).
  rewrite bind_Some, slice_ok by (rewrite ?len_app; lia). rewrite bind_Some.
  replace (Z.to_nat (6 + len payload + 2)) with (length (frame_bytes ty seq payload)) by (unfold len in *; lia).
  rewrite drop_app_length, take_ge; [done|]. rewrite len_app. unfold len in *. lia.
Qed.

Lemma bytes_ok_frame ty seq payload :
  bytes_ok (frame_bytes ty seq payload) -> is_byte ty /\ is_byte seq /\ bytes_ok payload.
Proof.
  unfold frame_bytes, frame_body. intros Hf. apply Forall_app in Hf as [_ Hf].
  apply Forall_app in Hf as [Hf _]. apply Forall_cons in Hf as [Ht Hf]. apply Forall_cons in Hf as [Hs Hf].
  by apply Forall_app in Hf as [_ Hf].
Qed.

(** A drop without a reply: there is no frame at the front. *)
Lemma not_framed input :
  bytes_ok input ->
  match next_frame input with
  | Some (Some (frame, _)) => forall e, decode frame = Err e -> ~ framed input
  | _ => ~ framed input
  end.
Proof.
  intros Hi.
  assert (Hf : framed input -> exists ty seq payload rest, next_frame input = Some (Some (frame_bytes ty seq payload, rest))
    /\ decode (frame_bytes ty seq payload) = Ok (ty, seq, payload)).
  { intros (ty & seq & payload & rest & Hl & ->). exists ty, seq, payload, rest.
    split; [by apply next_frame_bytes|]. apply Forall_app in Hi as [Hb _].
    apply bytes_ok_frame in Hb as (Ht & Hs & Hp). by apply decode_frame_bytes. }
  destruct (next_frame input) as [[[frame rest]|]|].
  - intros e He (ty & seq & payload & rest' & [= -> ->] & Hd)%Hf. congruence.
  - by intros (ty & seq & payload & rest' & Hn & _)%Hf.
  - by intros (ty & seq & payload & rest' & Hn & _)%Hf.
Qed.

Lemma slice_encoded buf ty seq payload :
  HEADER_LEN + len payload + TRAILER_LEN <= len buf -> len payload <= MAX_PAYLOAD ->
  exists n buf', encode buf ty seq payload = Ok (n, buf')
    /\ slice buf' 0 n = Some (frame_bytes ty seq payload).
Proof.
  intros Hb Hp. rewrite encode_exact by done. eexists _, _. split; [done|].
  pose proof (len_nonneg payload). pose proof (len_frame_bytes ty seq payload) as Lf.
  unfold HEADER_LEN, TRAILER_LEN in *.
  pose proof (len_nonneg (drop (length (frame_bytes ty seq payload)) buf)) as Hd.
  rewrite slice_ok by (rewrite ?len_app; lia).
  rewrite drop_0, Z.sub_0_r, <-Lf. unfold len. rewrite Nat2Z.id. by rewrite take_app_length.
Qed.

Lemma response_frame_spec ty seq resp result :
  len resp = MAX_PAYLOAD -> fills resp result ->
  exists n buf ty' payload', response_frame ty seq result = Ok (n, buf)
    /\ slice buf 0 n = Some (frame_bytes ty' seq payload') /\ reply_to ty ty' payload'
    /\ (forall resp', result = Ok (resp', 0) -> ty' = ty /\ payload' = []).
Proof.
  intros Hr Hf. unfold response_frame.
  assert (Lb : len (replicate (Z.to_nat MAX_FRAME) 0) = MAX_FRAME) by by rewrite len_replicate.
  destruct result as [[resp' n]|code|]; [| |done].
  - destruct Hf as [Lr Hn]. rewrite slice_ok by lia. rewrite bind_or_panic.
    set (payload := take _ _). assert (Lp : len payload = n).
    { subst payload. rewrite drop_0, len_take; lia. }
    destruct (slice_encoded (replicate (Z.to_nat MAX_FRAME) 0) ty seq payload) as (k & buf & He & Hs).
    + rewrite Lb, Lp. unfold MAX_FRAME, HEADER_LEN, TRAILER_LEN. lia.
    + lia.
    + exists k, buf, ty, payload. split_and!; [done|done|by left|].
      intros r [= -> ->]. split; [done|]. by apply len_zero.
  - destruct (slice_encoded (replicate (Z.to_nat MAX_FRAME) 0) (MsgType_u8 MsgError) seq
      [ErrorCode_u8 code; ty]) as (k & buf & He & Hs).
    + rewrite Lb. vm_compute. congruence.
    + vm_compute. congruence.
    + eexists k, buf, _, _. split_and!; [done|done| |done]. right. eauto.
Qed.

Lemma reboot_sequence_spec env sv resp result :
  server_ok sv -> environment_ok env -> fills resp result ->
  let '(sv', result', scheduled) := reboot_sequence env sv result in
  server_ok sv' /\ fills resp result' /\ str_enabled (sv_stream sv') = false
  /\ (scheduled = true -> 0 <= en_rom_reboot env /\ result' = result).
Proof using disarm_ok reboot_ok.
  intros [Hs Hw Hst] He Hf. unfold reboot_sequence.
  assert (Hok : forall sv', sv' = (let sv := sv <| sv_stream := (sv_stream sv) <| str_enabled := false |> |> in
    let w := with_safety (sv_world sv) Safety_disarm in
    let w := w <| w_shared := (w_shared w) <| rs_reboot := RebootShared_request (rs_reboot (w_shared w)) |> |> in
    sv <| sv_world := en_core1 env w |>) -> server_ok sv').
  { intros sv' ->. destruct sv as [w s stream]. split; [done| |].
    - apply (eo_core1 _ He), reboot_ok, disarm_ok, Hw.
    - destruct Hst. by split. }
  specialize (Hok _ eq_refl). destruct (Z.ltb_spec (en_rom_reboot env) 0); by split_and!.
Qed.

(** What one served request leaves. *)
Definition served env (frame : list Z) (x : Server G CQ * list Z * list Z * bool) : Prop :=
  let '(sv, resp, bytes, scheduled) := x in
  server_ok sv /\ len resp = MAX_PAYLOAD
  /\ (scheduled = true -> str_enabled (sv_stream sv) = false)
  /\ exists ty seq payload ty' payload', frame = frame_bytes ty seq payload
     /\ bytes = frame_bytes ty' seq payload' /\ reply_to ty ty' payload'
     /\ (scheduled = true -> set_reboots ty payload /\ 0 <= en_rom_reboot env /\ ty' = ty /\ payload' = []).

Lemma serve_frame_spec env sv resp frame :
  server_ok sv -> environment_ok env -> bytes_ok frame -> len resp = MAX_PAYLOAD ->
  match serve_frame (R := R) (P := P) env sv resp frame with
  | None => False
  | Some None => exists e, decode frame = Err e
  | Some (Some x) => served env frame x
  end.
Proof using world_ok idle signals ParamGroupLaws0 SpscLaws0 ProgramSignals0 disarm_ok reboot_ok.
  intros Hsv He Hf Hr. unfold serve_frame. pose proof (decode_no_panic frame) as Hn.
  destruct (decode frame) as [[[ty seq] payload]|e|] eqn:Hd; [|by exists e|done].
  apply decode_sound in Hd as [-> Hlen]; [|done].
  pose proof (bytes_ok_frame _ _ _ Hf) as (_ & _ & Hp).
  pose proof (handle_spec ty payload (en_remote env) (en_uptime_ms env) sv resp Hsv Hp Hr) as Hh.
  destruct (handle _ _ _ _ _ _) as [[sv1 action] result]. destruct Hh as (Hsv1 & Hfill & Hreb).
  match goal with |- context [if ?b then reboot_sequence _ _ _ else _] => set (reboot := b) end.
  assert (Hseq : let '(sv2, result2, scheduled) :=
    (if reboot then reboot_sequence env sv1 result else (sv1, result, false)) in
    server_ok sv2 /\ fills resp result2 /\ (scheduled = true -> str_enabled (sv_stream sv2) = false)
    /\ (scheduled = true -> 0 <= en_rom_reboot env /\ set_reboots ty payload
                            /\ exists resp', result2 = Ok (resp', 0))).
  { destruct reboot eqn:Er; [|done].
    assert (Hres : exists resp', result = Ok (resp', 0) /\ set_reboots ty payload).
    { subst reboot. destruct result as [[resp' n]| |]; [|done|done]. bool_facts.
      destruct (Hreb Er resp' n eq_refl) as [-> ?]. by exists resp'. }
    destruct Hres as (resp' & Hres & Hset).
    pose proof (reboot_sequence_spec env sv1 resp result Hsv1 He Hfill) as Hb.
    destruct (reboot_sequence _ _ _) as [[sv2 result2] scheduled].
    destruct Hb as (? & ? & ? & Hsch). split_and!; [done..|]. intros Hs. destruct (Hsch Hs) as [? ->].
    split_and!; [done..|by exists resp']. }
  destruct (if reboot then _ else _) as [[sv2 result2] scheduled]. destruct Hseq as (Hsv2 & Hf2 & Hsch & Hrb).
  destruct (response_frame_spec ty seq resp result2 Hr Hf2) as (n & buf & ty' & payload' & -> & -> & Hto & Hz).
  rewrite bind_Some. split; [done|]. split; [|split; [done|]].
  - destruct result2 as [[resp' k]| |]; [|done|done]. destruct Hf2. lia.
  - exists ty, seq, payload, ty', payload'. split_and!; [done..|]. intros Hs.
    destruct (Hrb Hs) as (? & ? & resp' & Hres). by destruct (Hz resp' Hres).
Qed.

(** What a whole connection leaves. *)
Definition connection_served envs (input : list Z) (x : option (Server G CQ * list Z * serve_end)) : Prop :=
  match x with
  | None => False
  | Some (sv, output, ending) =>
      server_ok sv /\ (ending = Rebooting -> str_enabled (sv_stream sv) = false)
      /\ exists replies, output = reply_bytes replies /\ answers set_reboots envs input replies ending
  end.

Lemma serve_nothing sv envs input :
  server_ok sv -> answers set_reboots envs input [] Dropped ->
  connection_served envs input (Some (sv, [], Dropped)).
Proof. intros. split; [done|]. split; [done|]. by exists []. Qed.

Lemma serve_spec envs sv resp input :
  Forall environment_ok envs -> server_ok sv -> bytes_ok input -> len resp = MAX_PAYLOAD ->
  connection_served envs input (serve (R := R) (P := P) envs sv resp input).
Proof using world_ok idle signals ParamGroupLaws0 SpscLaws0 ProgramSignals0 disarm_ok reboot_ok.
  intros He. revert sv resp input.
  induction He as [|env envs He _ IH]; intros sv resp input Hsv Hi Hr; cbn [serve];
    [apply serve_nothing; [done|constructor]|].
  pose proof (next_frame_spec input Hi) as Hnf. pose proof (not_framed input Hi) as Hbad.
  destruct (next_frame input) as [[[frame rest]|]|]; [|apply serve_nothing; [done|by constructor]|done].
  match goal with |- context [serve_frame _ ?x _ _] => set (sv1 := x) end.
  assert (Hsv1 : server_ok sv1).
  { destruct sv as [w s stream], Hsv as [Hs Hw Hst]. split; [done|by apply (eo_shared _ He)|by apply (eo_streamer _ He)]. }
  assert (Hfr : bytes_ok frame /\ bytes_ok rest) by (by apply Forall_app; rewrite <-Hnf).
  pose proof (serve_frame_spec env sv1 resp frame Hsv1 He (proj1 Hfr) Hr) as Hsf.
  destruct (serve_frame _ _ _ _) as [[[[[sv2 resp2] bytes] scheduled]|]|]; [| |done].
  2:{ destruct Hsf as [e Hd]. apply serve_nothing; [done|]. constructor. by apply (Hbad e). }
  clear Hbad. subst input.
  destruct Hsf as (Hsv2 & Hr2 & Hsch & ty & seq & payload & ty' & payload' & -> & -> & Hto & Hrb).
  destruct (en_written env) eqn:Ew; cbn [negb].
  2:{ split; [done|]. split; [destruct scheduled; [intros _; by apply Hsch|discriminate]|]. exists [].
      split; [done|]. apply answers_unwritten; [done|]. destruct scheduled; [|done].
      intros _. by destruct (Hrb eq_refl) as (? & ? & _). }
  destruct scheduled.
  { destruct (Hrb eq_refl) as (? & ? & -> & ->). split; [done|]. split; [intros _; by apply Hsch|].
    exists [(ty, seq, [])]. split; [by rewrite reply_bytes_cons, app_nil_r|]. by apply answers_reboot. }
  specialize (IH sv2 resp2 rest Hsv2 (proj2 Hfr) Hr2).
  destruct (serve envs sv2 resp2 rest) as [[[sv3 output] ending]|]; [|done]. rewrite bind_Some.
  destruct IH as (Hsv3 & Hend & replies & -> & Ha). split; [done|]. split; [done|].
  exists ((ty', seq, payload') :: replies). split; [done|]. by apply answers_next.
Qed.

(** C8. A connection of the control server, for any bytes and any behaviour of the
    peer and of the other core, never panics: as long as there is a complete
    well-formed frame it is answered, in order, with a frame of its own sequence
    number that carries its type or names it in an error, and the next one is
    served; this ends only when the connection is lost, when the bytes at the front
    are not such a frame, when a reply cannot be written, or after the reply to a
    [SetPar] that a store accepts as the reboot request, if the ROM accepts it;
    and when the connection is gone the stream is off, so that the streamer sends
    nothing more, and the output is disarmed, unless the chip is rebooting with
    the stream off. *)
Theorem control_connection_safe envs sv input :
  Forall environment_ok envs -> server_ok sv -> bytes_ok input ->
  exists sv' output ending replies,
    control_connection (R := R) (P := P) envs sv input = Some (sv', output, ending)
    /\ output = reply_bytes replies /\ answers set_reboots envs input replies ending
    /\ server_ok sv'
    /\ str_enabled (sv_stream sv') = false
    /\ (forall Q (HQ' : SpscQueue Q StreamRecord) (_ : SpscLaws Q StreamRecord) dropped host m (ring : Q),
        exists m' ring', stream_flush dropped host (sv_stream sv') m ring
          = Some (sv_stream sv', m', ring', []) /\ q_contents ring' = [])
    /\ (ending = Dropped -> str_control_connected (sv_stream sv') = false
        /\ sf_armed (rs_safety (w_shared (sv_world sv'))) = 0).
Proof using world_ok idle signals ParamGroupLaws0 SpscLaws0 ProgramSignals0 disarm_ok reboot_ok.
  intros He Hsv Hi. unfold control_connection.
  match goal with |- context [serve _ ?x _ _] => set (sv1 := x) end.
  assert (Hsv1 : server_ok sv1).
  { destruct sv as [w s stream], Hsv as [Hs Hw Hst]. split; [done|done|]. destruct Hst. by split. }
  pose proof (serve_spec envs sv1 (replicate (Z.to_nat MAX_PAYLOAD) 0) input He Hsv1 Hi
    ltac:(by rewrite len_replicate)) as Hc.
  destruct (serve _ _ _ _) as [[[sv2 output] ending]|]; [|done]. rewrite bind_Some.
  destruct Hc as (Hsv2 & Hend & replies & -> & Ha). destruct ending.
  - eexists _, _, _, replies. split_and!; try done.
    + destruct sv2 as [w s stream], Hsv2 as [Hs Hw Hst]. split; [done|by apply disarm_ok|]. by destruct Hst.
    + intros. by apply stream_flush_idle.
  - eexists _, _, _, replies. split_and!; try done; [by apply Hend|].
    intros. by apply stream_flush_idle, Hend.
Qed.
End server_lemmas.

(** ** A finding

    A finite capture is over when its last packet has been sent; the streamer
    then disables the session.  It does not look again at the generation, so
    when the host stops the capture, sets up another one and starts it while
    that packet is being sent, it is the new session that is disabled: the host
    was told that it streams. *)

(** The three requests the server serves during the send. *)
Definition restart_during_send (s : StreamState) : StreamState :=
  let s := s <| str_enabled := false |> in
  let '(s, _) := stream_setup s 1 0 [1] in
  (stream_start s (7, 6000)).1.

Lemma restart_is_accepted :
  (stream_setup (demo_session <| str_enabled := false |>) 1 0 [1]).2 = Ok ()
  /\ (stream_start (stream_setup (demo_session <| str_enabled := false |>) 1 0 [1]).1 (7, 6000)).2 = Ok ()
  /\ str_enabled (restart_during_send demo_session) = true.
Proof. done. Qed.

Lemma finite_completion_stops_new_session :
  exists m' ring' datagram,
    stream_flush (fun _ => 0) restart_during_send demo_session Streamer_new
        (demo_ring [10; 11; 12; 13; 14])
      = Some ((restart_during_send demo_session) <| str_enabled := false |>, m', ring',
              [((7, 5000), datagram)])
    /\ str_generation (restart_during_send demo_session) <> str_generation demo_session.
Proof. eexists _, _, _. split; [vm_compute; reflexivity|done]. Qed.
