(* ===== verification/GroupLaws.v ===== *)
(** * The parameter groups keep their laws

    Every group of [Groups] satisfies the laws the store's theorems assume
    ([Params.ParamGroupLaws]); the sum of two lawful groups is lawful, which
    gives the store of the standard programme; and every host operation keeps
    the invariant of the real-time loop. *)

From stdpp Require Import strings.
From S2P Require Import Prelude Float32 Phase Harmonics Proto Text ParamPayload Frame Table.
From S2P Require Import TableBuffer Channels Shared Rig Program RtLoop Params Groups.

#[export] Set Default Goal Selector "!".
Open Scope Z_scope.

(** ** Lemmas: buffers *)

(** A double buffer between calls: two banks that satisfy [Q]. *)
Definition buffer_wf {T} (Q : T -> Prop) (b : DoubleBuffer T) : Prop :=
  (exists x y, db_banks b = [x; y] /\ Q x /\ Q y)
  /\ (db_active b = 0 \/ db_active b = 1) /\ 0 <= db_pending b <= 2.

Lemma staging_buffer_cases {T R} (Q : T -> Prop) (b : DoubleBuffer T) (f : T -> option (T * R)) :
  buffer_wf Q b -> (forall x, Q x -> exists y r, f x = Some (y, r) /\ Q y) ->
  Staging_buffer b f = Err BufferBusy
  \/ exists b' x y r, Staging_buffer b f = Ok (b', r) /\ buffer_wf Q b' /\ db_visible b b'
       /\ db_pending b' = NO_PENDING /\ Q x /\ f x = Some (y, r).
Proof.
  intros ((x0 & x1 & Hb & H0 & H1) & Ha & Hp) Hf. unfold Staging_buffer, Staging_bank.
  destruct (Z.eqb_spec (db_pending b) NO_PENDING) as [Ep|Ep]; cbn [negb]; [|by left]. right.
  rewrite bind_Ok, (lxor_bit _ Ha), Hb.
  set (x := if decide (db_active b = 0) then x1 else x0).
  assert (Qx : Q x) by (unfold x; by destruct (decide _)).
  destruct (Hf x Qx) as (y & r & Ef & Qy).
  assert (Ei : index [x0; x1] (1 - db_active b) = Some x) by (unfold x; by destruct Ha as [-> | ->]).
  assert (Epu : exists l, put [x0; x1] (1 - db_active b) y = Some l
    /\ (exists u v, l = [u; v] /\ Q u /\ Q v)
    /\ index l (db_active b) = index [x0; x1] (db_active b)).
  { unfold x in *. destruct Ha as [-> | ->]; eexists; (split; [reflexivity|]);
      (split; [by eexists _, _|done]). }
  destruct Epu as (l & El & Hl & Hi).
  rewrite Ei. cbn [or_panic]. rewrite bind_Ok, Ef. cbn [or_panic]. rewrite bind_Ok, El.
  cbn [or_panic]. rewrite bind_Ok. exists (set_banks b l), x, y, r. split; [done|].
  split; [exact (conj Hl (conj Ha Hp))|]. split; [|done]. unfold db_visible. cbn. by rewrite Hi, Hb.
Qed.

Lemma staging_commit_ok {T} (Q : T -> Prop) (b : DoubleBuffer T) :
  buffer_wf Q b -> db_pending b = NO_PENDING ->
  exists b' t, Staging_commit b = Ok (b', t) /\ buffer_wf Q b'
    /\ db_visible b (Staging_cancel b' t) /\ buffer_wf Q (Staging_cancel b' t).
Proof.
  intros (Hb & Ha & Hp) Ep. unfold Staging_commit. rewrite Ep, (lxor_bit _ Ha).
  cbn [NO_PENDING Z.eqb negb]. eexists _, _. split; [done|].
  unfold Staging_cancel, buffer_wf, db_visible, NO_PENDING. cbn. rewrite Z.eqb_refl. cbn.
  split_and!; try done; try lia; by rewrite Ep.
Qed.

(** The shared memory of the standard programme, for its laws. *)
Record world_ok (Hn : nat) (N : Z) (w : World) : Prop := {
  wo_target : buffer_wf (coeffs_wf Hn) (w_target w);
  wo_forcing : buffer_wf (coeffs_wf Hn) (w_forcing w);
  wo_table : buffer_wf (fun t => table_wf t /\ WaveTable_capacity t = N) (w_table w);
  (** An experiment's telemetry is at most [MAX_EXTRA_PARAMS] words. *)
  wo_extra : len (w_extra w) = MAX_EXTRA_PARAMS }.

Lemma world_ok_target Hn N w b :
  world_ok Hn N w -> buffer_wf (coeffs_wf Hn) b -> world_ok Hn N (w <| w_target := b |>).
Proof. by intros []. Qed.
Lemma world_ok_forcing Hn N w b :
  world_ok Hn N w -> buffer_wf (coeffs_wf Hn) b -> world_ok Hn N (w <| w_forcing := b |>).
Proof. by intros []. Qed.
Lemma world_ok_table Hn N w b :
  world_ok Hn N w -> buffer_wf (fun t => table_wf t /\ WaveTable_capacity t = N) b ->
  world_ok Hn N (w <| w_table := b |>).
Proof. by intros []. Qed.
Lemma world_ok_shared Hn N w b : world_ok Hn N w -> world_ok Hn N (w <| w_shared := b |>).
Proof. by intros []. Qed.
#[local] Hint Resolve world_ok_target world_ok_forcing world_ok_table world_ok_shared : core.

Lemma read_f32_cases data : read_f32 data = Err BadLength \/ exists v, read_f32 data = Ok v.
Proof. unfold read_f32. destruct (_ =? _); eauto. Qed.

Lemma read_u32_cases data :
  bytes_ok data -> read_u32 data = Err BadLength \/ exists v, read_u32 data = Ok v /\ fits 32 v.
Proof.
  intros Hd. unfold read_u32. destruct (Z.eqb_spec (len data) 4); [|by left]. right.
  eexists. split; [done|]. apply of_le_bytes_fits; [done|lia].
Qed.

Lemma phase_offset_fits x : fits 32 (phase_offset_of x).
Proof.
  unfold phase_offset_of, cast_u32_f64. pose proof (cast_bounds 0 (umax 32)
    (dmul (f64_of_f32 x) (f64_of_Z 4294967296))) as Hc. unfold fits, umax in *. lia.
Qed.

(** ** Lemmas: staging *)

Section staged.
Context {G : Type} `{ParamGroup G}.
Context {wok : World -> Prop} {idle : G -> Prop}.

Lemma staged_err w (g : G) id e : wok w -> staged_ok wok idle w g id (w, g, Err e).
Proof. intros. split; [done|]. by split_and!. Qed.

Lemma staged_local w (g g' : G) id a :
  same_shape g g' ->
  (exists w2 g2, group_accept w g' id = Some (w2, g2) /\ wok w2 /\ idle g2 /\ same_shape g g2) ->
  staged_ok wok idle w g id (w, g', Ok (StagedLocal a)).
Proof. intros. by split. Qed.

(** A scalar command: the memory is not touched. *)
Lemma staged_rt w (g g' : G) id p :
  wok w -> same_shape g g' -> payload_ok p ->
  (exists w2 g2, group_accept w g' id = Some (w2, g2) /\ wok w2 /\ idle g2 /\ same_shape g g2) ->
  group_reject w g' id (Some p) = (w, g) ->
  staged_ok wok idle w g id (w, g', Ok (StagedRt p)).
Proof. intros Hw Hs Hp Ha Hr. split; [done|]. split; [done|]. rewrite Hr. by split_and!. Qed.
End staged.

(** ** Lemmas: coefficient vectors *)

Section coefficients_facts.
Variable Hn : nat.
Let H := Z.of_nat Hn.

Lemma coeff_value_Some data i :
  0 <= i < 1 + 2 * H -> len data = (1 + 2 * H) * 4 ->
  exists s, slice data (4 * i) (4 * i + 4) = Some s /\ length s = 4%nat
    /\ coeff_value data i = Some (f32_of_le_bytes s)
    /\ forall j, 0 <= j < 4 -> index s j = index data (4 * i + j).
Proof.
  intros Hi Hl. destruct (slice data (4 * i) (4 * i + 4)) as [s|] eqn:E.
  - exists s. unfold coeff_value. rewrite E. split; [done|].
    pose proof (slice_length _ _ _ _ E) as Ls. split; [unfold len in Ls; lia|]. split; [done|].
    intros j Hj. apply (slice_index data (4 * i) (4 * i + 4)); [done|lia].
  - unfold slice in E. by rewrite !(proj2 (Z.leb_le _ _)) in E by lia.
Qed.

(** The coefficients of a vector of the right length, position by position. *)
Lemma deserialize_coeffs_spec data :
  len data = (1 + 2 * H) * 4 ->
  exists c, coeffs_wf Hn c /\ coeff_value data 0 = Some (fc_mean c)
    /\ (forall k, 0 <= k < H -> index (fc_a c) k = coeff_value data (1 + k)
                              /\ index (fc_b c) k = coeff_value data (1 + H + k))
    /\ deserialize_coeffs Hn data
       = if is_finite (fc_mean c) && forallb is_finite (fc_a c) && forallb is_finite (fc_b c)
         then Ok c else Err BadValue.
Proof.
  intros Hl. unfold deserialize_coeffs. fold H. rewrite (proj2 (Z.eqb_eq _ _) Hl). cbn [negb].
  destruct (coeff_value_Some data 0) as (s0 & _ & _ & E0 & _); [lia|done|]. rewrite E0.
  cbn [or_panic]. rewrite bind_Ok. set (m := f32_of_le_bytes s0).
  match goal with |- context [for_each ?f _ ?c0] => set (body := f); set (c1 := c0) end.
  destruct (for_range_inv body (fun i c => coeffs_wf Hn c /\ fc_mean c = m
      /\ forall k, 0 <= k < i -> index (fc_a c) k = coeff_value data (1 + k)
                              /\ index (fc_b c) k = coeff_value data (1 + H + k)) 0 H c1)
    as (c & Ec & (Hc & Hm & Hk)).
  - lia.
  - intros i c Hi ([La Lb] & Hm & Hk). unfold body.
    destruct (coeff_value_Some data (1 + i)) as (sa & _ & _ & Ea & _); [lia|done|].
    destruct (coeff_value_Some data (1 + H + i)) as (sb & _ & _ & Eb & _); [lia|done|].
    rewrite Ea, Eb.
    rewrite bind_Some.
    destruct (put_spec (fc_a c) i (f32_of_le_bytes sa)) as (a & -> & La' & Ia); [unfold len; lia|].
    rewrite !bind_Some.
    destruct (put_spec (fc_b c) i (f32_of_le_bytes sb)) as (b & -> & Lb' & Ib); [unfold len; lia|].
    rewrite bind_Some. eexists. split; [reflexivity|]. unfold len in *.
    split; [split; cbn; lia|]. split; [done|]. cbn [fc_a fc_b]. intros k Hk'.
    rewrite Ia, Ib. destruct (Z.eqb_spec k i) as [-> | Hne]; [|apply Hk; lia].
    by rewrite Ea, Eb.
  - unfold c1. split; [split; cbn; by rewrite length_replicate|]. split; [done|]. intros. lia.
  - rewrite Ec. cbn [or_panic]. rewrite bind_Ok. exists c. rewrite Hm. by split_and!.
Qed.

Lemma deserialize_coeffs_cases data :
  deserialize_coeffs Hn data = Err BadLength \/ deserialize_coeffs Hn data = Err BadValue
  \/ exists c, deserialize_coeffs Hn data = Ok c /\ coeffs_wf Hn c.
Proof.
  destruct (Z.eq_dec (len data) ((1 + 2 * H) * 4)) as [Hl|Hl].
  - right. destruct (deserialize_coeffs_spec data Hl) as (c & Hc & _ & _ & ->).
    destruct (_ && _); eauto.
  - left. unfold deserialize_coeffs. fold H. by rewrite (proj2 (Z.eqb_neq _ _)).
Qed.

Lemma amplitude_bound_Some sqrtf c :
  coeffs_wf Hn c -> is_Some (FourierCoeffs_amplitude_bound sqrtf Hn c).
Proof.
  intros [La Lb]. unfold FourierCoeffs_amplitude_bound. apply for_range_Some; [lia|].
  intros i s Hi. destruct (index_is_Some (fc_a c) i) as [a ->]; [unfold len; lia|].
  destruct (index_is_Some (fc_b c) i) as [b ->]; [unfold len; lia|]. by eexists.
Qed.

Lemma stage_coeffs_spec b c :
  buffer_wf (coeffs_wf Hn) b -> coeffs_wf Hn c ->
  stage_coeffs b c = (b, Err Busy)
  \/ exists b' t, stage_coeffs b c = (b', Ok t) /\ buffer_wf (coeffs_wf Hn) b'
       /\ db_visible b (Staging_cancel b' t) /\ buffer_wf (coeffs_wf Hn) (Staging_cancel b' t).
Proof.
  intros Hb Hc. unfold stage_coeffs.
  destruct (staging_buffer_cases (coeffs_wf Hn) b (fun _ => Some (c, ())) Hb) as
    [-> | (b' & x & y & r & -> & Hb' & Hv & Hp & _)]; [eauto|by left|].
  right. cbn [buffer_call and_then].
  destruct (staging_commit_ok _ b' Hb' Hp) as (b2 & t & -> & Hb2 & Hv2 & Hc2).
  cbn [buffer_call]. exists b2, t. split_and!; try done. by etransitivity.
Qed.
End coefficients_facts.

(** ** Lemmas: reads *)

Lemma checked_output_cases defs id out :
  (exists e, checked_output defs id out = Err e)
  \/ exists def, index defs id = Some def
       /\ checked_output defs id out = Ok (ParamType_size (def_ty def) * def_count def)
       /\ ParamType_size (def_ty def) * def_count def <= len out.
Proof.
  unfold checked_output. destruct (index defs id) as [def|]; [|by left; eexists].
  cbn [ok_or]. rewrite bind_Ok. destruct (Z.ltb_spec (len out) (ParamType_size (def_ty def) * def_count def));
    [by left; eexists|]. right. by exists def.
Qed.

Lemma write_out_fills out size bytes :
  len bytes = size -> size <= len out -> fills out (write_out out size bytes).
Proof.
  intros Hb Hs. unfold write_out. rewrite Hb, Z.eqb_refl. cbn [assert_that]. rewrite bind_Ok.
  pose proof (len_nonneg bytes).
  destruct (blit_spec out 0 bytes) as (out' & -> & Hl & _); [lia|lia|].
  rewrite bind_or_panic. split; [done|lia].
Qed.

(** ** The groups keep their laws *)

Section group_laws.
Variable Hn : nat.
Variable sqrtf : float -> float.
Variable N : Z.
Hypothesis N_ok : 2 <= N <= umax 16.
Let wok := world_ok Hn N.

Lemma platform_reads w g id out : fills out (PlatformGroup_get w g id out).
Proof using.
  unfold PlatformGroup_get.
  destruct (checked_output_cases PLATFORM_PARAMS id out) as [[e ->]|(def & Ei & -> & Hs)]; [done|].
  rewrite bind_Ok.
  assert (Hv : exists v, platform_value w g id (ParamType_size (def_ty def) * def_count def) = Some v
    /\ len v = ParamType_size (def_ty def) * def_count def).
  { pose proof Ei as Hid. apply index_Some in Hid as [H0 Hl%lookup_lt_Some].
    change (length PLATFORM_PARAMS) with 21%nat in Hl.
    assert (exists n, id = Z.of_nat n /\ (n < 21)%nat) as (n & -> & Hlt)
      by (exists (Z.to_nat id); lia). clear - Ei Hlt.
    do 21 (destruct n as [|n];
      [vm_compute in Ei; apply (inj Some) in Ei as <-; eexists; (split; [reflexivity|]);
       first [apply len_le_bytes | unfold write_string, len; rewrite length_fmap, length_seq; reflexivity]|]).
    lia. }
  destruct Hv as (v & -> & Lv). cbn [ok_or]. rewrite bind_Ok. by apply write_out_fills.
Qed.

#[export] Instance PlatformGroup_laws :
  ParamGroupLaws PlatformGroup wok (fun g => pf_pending g = PlatformNone).
Proof using.
  split; cbn [group_stage group_stage_commit group_set_block group_reset_diagnostics group_get
              PlatformGroup_group].
  - intros w g id data Hw Hg _ Hd. unfold PlatformGroup_stage.
    assert (Hacc : forall p, exists w2 g2, group_accept w (g <| pf_pending := p |>) id = Some (w2, g2)
      /\ wok w2 /\ pf_pending g2 = PlatformNone /\ same_shape g g2).
    { intros p. eexists _, _. split; [reflexivity|]. split; [|done].
      cbn. destruct p as [|[]]; (split; apply Hw). }
    assert (Eg : g = g <| pf_pending := PlatformNone |>) by (destruct g; cbn in *; by subst).
    destruct (read_u32_cases data Hd) as [-> | (v & -> & _)]; cbn [and_then]; [by apply staged_err|].
    destruct (_ =? PLATFORM_DIAG_RESET).
    { apply staged_local; [done|]. rewrite Eg. apply Hacc. }
    destruct (_ =? PLATFORM_ARM); [by apply staged_local|].
    destruct (_ && _).
    { apply staged_local; [done|]. rewrite Eg. apply Hacc. }
    destruct (_ =? PLATFORM_MCU_REBOOT); by apply staged_err.
  - intros. by apply staged_err.
  - intros w g id offset data Hw Hg _ _. by split_and!.
  - intros w g [] Hg. by split_and!.
  - intros w w' g id out Hv. unfold PlatformGroup_get, platform_value.
    by rewrite (vis_shared _ _ Hv).
  - intros. apply platform_reads.
Qed.

(** The generator between calls, as its constructor leaves it. *)
Record generator_idle (g : GeneratorGroup) : Prop := {
  gi_pending : gg_pending g = GeneratorNone;
  gi_harmonics : Z.of_nat Hn <= MAX_HARMONICS;
  gi_defs : gg_defs g = generator_params Hn;
  gi_target : coeffs_wf Hn (gg_target g);
  gi_forcing : coeffs_wf Hn (gg_forcing g) }.

Definition generator_pending_ok (p : GeneratorPending) : Prop :=
  match p with
  | GeneratorTarget c | GeneratorForcing c => coeffs_wf Hn c
  | _ => True
  end.

Lemma serialize_len c out :
  coeffs_wf Hn c -> len out = (1 + 2 * Z.of_nat Hn) * 4 ->
  exists out', serialize_coeffs Hn c out = Some out' /\ len out' = len out.
Proof using.
  intros [La Lb] Hl. unfold serialize_coeffs.
  destruct (blit_spec out 0 (f32_to_le_bytes (fc_mean c))) as (o1 & -> & L1 & _);
    [lia|unfold f32_to_le_bytes, le32; rewrite len_le_bytes; lia|]. rewrite bind_Some.
  match goal with |- context [for_each ?f _ o1] => set (body := f) end.
  destruct (for_range_inv body (fun _ o => len o = len out) 0 (Z.of_nat Hn) o1) as (o2 & -> & L2);
    [lia| |done|by exists o2].
  intros k o Hk Lo. unfold body.
  destruct (index_is_Some (fc_a c) k) as [a ->]; [unfold len; lia|]. rewrite bind_Some.
  destruct (blit_spec o (4 + 4 * k) (f32_to_le_bytes a)) as (o3 & -> & L3 & _);
    [lia|unfold f32_to_le_bytes, le32; rewrite len_le_bytes; lia|]. rewrite bind_Some.
  destruct (index_is_Some (fc_b c) k) as [b ->]; [unfold len; lia|]. rewrite bind_Some.
  destruct (blit_spec o3 (4 + 4 * (Z.of_nat Hn + k)) (f32_to_le_bytes b)) as (o4 & -> & L4 & _);
    [lia|unfold f32_to_le_bytes, le32; rewrite len_le_bytes; lia|].
  exists o4. split; [done|lia].
Qed.

Lemma generator_reads w g id out :
  generator_idle g -> fills out (GeneratorGroup_get Hn w g id out).
Proof using.
  intros [_ HH Hd Ht Hf]. unfold GeneratorGroup_get. rewrite Hd.
  destruct (checked_output_cases (generator_params Hn) id out) as [[e ->]|(def & Ei & -> & Hs)]; [done|].
  rewrite bind_Ok. unfold MAX_HARMONICS in HH.
  assert (Hw : wrap 16 (1 + 2 * Z.of_nat Hn) = 1 + 2 * Z.of_nat Hn) by (apply wrap_id; unfold fits; lia).
  assert (Hsz : 0 <= id < 3 /\ ParamType_size (def_ty def) * def_count def
    = if id =? 0 then 4 else (1 + 2 * Z.of_nat Hn) * 4).
  { pose proof Ei as Hid. apply index_Some in Hid as [H0 Hl%lookup_lt_Some].
    change (length (generator_params Hn)) with 3%nat in Hl.
    set (d0 := ParamDef_writable "freq" F32 1).
    set (coeffs := fun name => ParamDef_writable name F32 (wrap 16 (1 + 2 * Z.of_nat Hn))).
    assert (Hcount : forall name, ParamType_size (def_ty (coeffs name)) * def_count (coeffs name)
      = (1 + 2 * Z.of_nat Hn) * 4) by (intros name; unfold coeffs; cbn [def_ty def_count
        ParamDef_writable ParamType_size]; lia).
    assert (id = 0 \/ id = 1 \/ id = 2) as [-> | [-> | ->]] by lia.
    - change (Some d0 = Some def) in Ei. apply (inj Some) in Ei as <-. done.
    - change (Some (coeffs "target_coeffs"%string) = Some def) in Ei. apply (inj Some) in Ei as <-.
      split; [lia|apply Hcount].
    - change (Some (coeffs "forcing_coeffs"%string) = Some def) in Ei. apply (inj Some) in Ei as <-.
      split; [lia|apply Hcount]. }
  destruct Hsz as [Hid Hsz]. rewrite Hsz in *.
  assert (Hz : 0 <= (if id =? 0 then 4 else (1 + 2 * Z.of_nat Hn) * 4)) by (destruct (id =? 0); lia).
  rewrite slice_ok by lia. rewrite bind_or_panic. rewrite Z.sub_0_r. cbn [drop].
  set (size := if id =? 0 then _ else _) in *. change (Z.to_nat 0) with 0%nat. rewrite drop_0.
  assert (Lh : len (take (Z.to_nat size) out) = size) by (apply len_take; lia).
  destruct (Z.eqb_spec id 0) as [E0|E0].
  { pose proof (len_le_bytes 4 (f32_to_bits (gg_frequency g))) as L4.
    unfold copy_from_slice. rewrite Lh, (proj2 (Z.eqb_eq _ _)) by (by symmetry).
    rewrite bind_or_panic. by apply write_out_fills. }
  destruct (Z.eqb_spec id 1) as [E1|E1].
  { destruct (serialize_len (gg_target g) (take (Z.to_nat size) out) Ht Lh) as (b & -> & Lb).
    rewrite bind_or_panic. apply write_out_fills; [lia|done]. }
  rewrite (proj2 (Z.eqb_eq id 2)) by lia.
  destruct (serialize_len (gg_forcing g) (take (Z.to_nat size) out) Hf Lh) as (b & -> & Lb).
  rewrite bind_or_panic. apply write_out_fills; [lia|done].
Qed.

Lemma over_limit_no_panic g id c : coeffs_wf Hn c -> over_limit Hn sqrtf g id c <> Panic.
Proof using.
  intros Hc. unfold over_limit. destruct (id =? 2); [|done].
  destruct (amplitude_bound_Some Hn sqrtf c Hc) as [b ->].
  cbn [or_panic]. rewrite bind_Ok. unfold guard_err. by destruct (fgt _ _).
Qed.

(** Clearing what is pending gives an idle group back. *)
Lemma generator_cleared g p :
  generator_idle g -> (g <| gg_pending := p |>) <| gg_pending := GeneratorNone |> = g.
Proof using. intros Hg. pose proof (gi_pending _ Hg). destruct g; cbn in *; by subst. Qed.

Lemma generator_accepts w g id p :
  wok w -> generator_idle g -> generator_pending_ok p -> exists w2 g2,
    @group_accept _ (GeneratorGroup_group Hn sqrtf) w (g <| gg_pending := p |>) id = Some (w2, g2)
    /\ wok w2 /\ generator_idle g2 /\ @same_shape _ (GeneratorGroup_group Hn sqrtf) g g2.
Proof using.
  intros Hw Hg Hp. eexists _, _. split; [reflexivity|]. split; [done|].
  destruct Hg. by destruct p; (split; [split|]).
Qed.

Lemma generator_stage_ok w g id data :
  wok w -> generator_idle g ->
  @staged_ok _ (GeneratorGroup_group Hn sqrtf) wok generator_idle w g id (GeneratorGroup_stage Hn sqrtf w g id data).
Proof using.
  intros Hw Hg. unfold GeneratorGroup_stage.
  destruct (Z.eqb_spec id 0) as [-> | _].
  { destruct (read_f32_cases data) as [-> | [v ->]]; cbn [and_then]; [by apply staged_err|].
    destruct (negb _); [by apply staged_err|].
    apply staged_rt; [done|done|apply increment_for_fits|by apply generator_accepts|].
    cbn. unfold GeneratorGroup_reject. by rewrite generator_cleared. }
  destruct ((id =? 1) || (id =? 2)) eqn:E12; [|by apply staged_err].
  destruct (deserialize_coeffs_cases Hn data) as [-> | [-> | (c & -> & Hc)]]; cbn [and_then];
    [by apply staged_err|by apply staged_err|].
  pose proof (over_limit_no_panic g id c Hc) as Hlim.
  destruct (over_limit Hn sqrtf g id c) as [[]|e|]; cbn [and_then]; [|by apply staged_err|done]. clear Hlim.
  destruct (Z.eqb_spec id 1) as [-> | H1].
  - destruct (stage_coeffs_spec Hn (w_target w) c (wo_target _ _ _ Hw) Hc)
      as [-> | (b & t & -> & Hb & Hv & Hcan)]; cbn [and_then].
    { split; [done|]. split; [by split|]. split; [|done]. by split; apply Hw. }
    split; [done|]. split; [apply generator_accepts; [split; [done|apply Hw|apply Hw|apply Hw]|done|done]|]. split; [exact I|].
    cbn [group_reject GeneratorGroup_group]. unfold GeneratorGroup_reject. cbn [fst snd].
    rewrite generator_cleared by done. change (1 =? 1) with true. cbv iota.
    split; [by split|]. split; [|done]. split; [exact Hcan|apply Hw|apply Hw|apply Hw].
  - assert (id = 2) as -> by (apply orb_prop in E12 as [E|E]; bool_facts; lia).
    destruct (stage_coeffs_spec Hn (w_forcing w) c (wo_forcing _ _ _ Hw) Hc)
      as [-> | (b & t & -> & Hb & Hv & Hcan)]; cbn [and_then].
    { split; [done|]. split; [by split|]. split; [|done]. by split; apply Hw. }
    split; [done|]. split; [apply generator_accepts; [split; [apply Hw|done|apply Hw|apply Hw]|done|done]|]. split; [exact I|].
    cbn [group_reject GeneratorGroup_group]. unfold GeneratorGroup_reject. cbn [fst snd].
    rewrite generator_cleared by done. change (2 =? 1) with false. change (2 =? 2) with true. cbv iota.
    split; [by split|]. split; [|done]. split; [apply Hw|exact Hcan|apply Hw|apply Hw].
Qed.

#[export] Instance GeneratorGroup_laws :
  ParamGroupLaws GeneratorGroup (H := GeneratorGroup_group Hn sqrtf) wok generator_idle.
Proof using.
  split; cbn [group_stage group_stage_commit group_set_block group_reset_diagnostics group_get
              GeneratorGroup_group].
  - intros. by apply generator_stage_ok.
  - intros. by apply staged_err.
  - intros w g id offset data Hw Hg _ _. by split_and!.
  - intros w g Hw Hg. by split_and!.
  - done.
  - intros. by apply generator_reads.
Qed.

Lemma write_words_ok (words : list float) t offset :
  table_wf t /\ WaveTable_capacity t = N -> 0 <= offset ->
  exists t', write_words t offset words = Some t' /\ table_wf t' /\ WaveTable_capacity t' = N.
Proof using.
  intros Ht Ho. unfold write_words. revert t Ht. generalize (imap pair words) as l.
  induction l as [|[i v] l IH]; intros t [Ht Hc]; [by exists t|]. cbn [for_each].
  destruct (WaveTable_write_block_spec t (offset + Z.of_nat i) [v] Ht) as
    (t1 & ok & -> & Ht1 & Hc1 & _); [lia|]. rewrite !bind_Some. apply IH. by rewrite Hc1.
Qed.

(** The table group between calls. *)
Record table_idle (g : TableGroup) : Prop := {
  ti_pending : tg_pending g = TableNone;
  ti_defs : tg_defs g = table_params N }.

Lemma table_reads w g id out : table_idle g -> fills out (TableGroup_get w g id out).
Proof using.
  intros [_ Hd]. unfold TableGroup_get. rewrite Hd.
  destruct (checked_output_cases (table_params N) id out) as [[e ->]|(def & Ei & -> & Hs)]; [done|].
  rewrite bind_Ok.
  assert (Hv : id = 0 \/ (id <> 0 /\ ParamType_size (def_ty def) * def_count def = 4)).
  { pose proof Ei as Hid. apply index_Some in Hid as [H0 Hl%lookup_lt_Some].
    change (length (table_params N)) with 8%nat in Hl.
    assert (id = 0 \/ id = 1 \/ id = 2 \/ id = 3 \/ id = 4 \/ id = 5 \/ id = 6 \/ id = 7) as Hc by lia.
    destruct Hc as [-> | Hc]; [by left|right]. split; [lia|].
    repeat destruct Hc as [-> | Hc]; try subst id; unfold table_params in Ei; cbn in Ei;
      apply (inj Some) in Ei as <-; done. }
  destruct Hv as [-> | [H0 Hsz]]; [done|]. rewrite (proj2 (Z.eqb_neq _ _) H0).
  assert (L4 : forall z, len (le32 z) = 4) by (intros; apply len_le_bytes).
  assert (F4 : forall v, len (f32_to_le_bytes v) = 4) by (intros; apply len_le_bytes).
  repeat (destruct (id =? _); [rewrite bind_Ok; apply write_out_fills;
    [by rewrite Hsz, ?L4, ?F4|done]|]). done.
Qed.

Lemma table_stage_ok w g id data :
  wok w -> table_idle g -> Forall is_byte data ->
  @staged_ok _ (TableGroup_group N) wok table_idle w g id (TableGroup_stage w g id data).
Proof using N_ok.
  intros Hw Hg Hd. unfold TableGroup_stage.
  assert (Hacc : forall p, exists w2 g2,
    @group_accept _ (TableGroup_group N) w (with_table_pending g p) id = Some (w2, g2)
    /\ wok w2 /\ table_idle g2 /\ @same_shape _ (TableGroup_group N) g g2).
  { intros p. eexists _, _. split; [reflexivity|]. split; [done|].
    destruct Hg. by destruct p; (split; [split|]). }
  assert (Eg : with_table_pending g TableNone = g)
    by (pose proof (ti_pending _ Hg); destruct g; cbn in *; by subst).
  assert (Hrej : forall p v, (forall t, v <> PBuffer t) ->
    @group_reject _ (TableGroup_group N) w (with_table_pending g p) id (Some v) = (w, g)).
  { intros p v Hv. cbn. unfold TableGroup_reject.
    change (with_table_pending (with_table_pending g p) TableNone) with (with_table_pending g TableNone).
    rewrite Eg. destruct (id =? 0); [|done]. by destruct v; try done; edestruct Hv. }
  assert (Hfl : forall p v, (forall t, v <> PBuffer t) -> payload_ok v ->
    @staged_ok _ (TableGroup_group N) wok table_idle w g id
      (w, with_table_pending g p, Ok (StagedRt v))).
  { intros p v Hv Hp. apply staged_rt; [done|done|done|apply Hacc|by apply Hrej]. }
  assert (Herr : forall e, @staged_ok _ (TableGroup_group N) wok
    table_idle w g id (w, g, Err e)) by (intros; by apply staged_err).
  repeat match goal with |- context [if id =? ?k then _ else _] => destruct (id =? k); [try done|] end;
    try done.
  all: first [destruct (read_u32_cases data Hd) as [-> | (v & -> & Hv)]
             |destruct (read_f32_cases data) as [-> | [v ->]]]; cbn [and_then]; [done|].
  + destruct (negb _); [done|]. apply Hfl; [done|apply increment_for_fits].
  + destruct (negb _); [done|]. by apply Hfl.
  + destruct (TableInterpolation_from_u32 v); [|done]. by apply Hfl.
  + destruct (TableMode_from_u32 v); [|done]. by apply Hfl.
  + destruct (v =? 0); [done|]. by apply Hfl.
  + destruct (negb _); [done|]. apply Hfl; [done|apply phase_offset_fits].
  + rewrite <-Eg. destruct (v =? 0); [|rewrite Eg at 1; by apply Hfl].
    rewrite Eg at 1. by apply staged_local.
Qed.

Lemma table_commit_ok w g id n :
  wok w -> table_idle g ->
  @staged_ok _ (TableGroup_group N) wok table_idle w g id (TableGroup_stage_commit N w g id n).
Proof using N_ok.
  intros Hw Hg. unfold TableGroup_stage_commit.
  destruct (Z.eqb_spec id 0) as [-> | _]; cbn [negb]; [|by apply staged_err].
  destruct (negb _) eqn:En; [by apply staged_err|]. bool_facts.
  assert (Hf : forall t, table_wf t /\ WaveTable_capacity t = N ->
    exists t' r, commit_length n t = Some (t', r) /\ table_wf t' /\ WaveTable_capacity t' = N).
  { intros t [Ht Hc]. unfold commit_length, WaveTable_prefix.
    rewrite slice_ok by (unfold WaveTable_capacity in Hc; lia). rewrite bind_Some.
    destruct (negb _); [by eexists _, _|]. eexists _, _. split; [done|].
    split; [by apply WaveTable_set_len_wf|].
    unfold WaveTable_set_len. by destruct (negb _). }
  destruct (staging_buffer_cases _ (w_table w) (commit_length n) (wo_table _ _ _ Hw)) as
    [-> | (b & x & y & r & -> & Hb & Hv & Hp & _)]; [exact Hf| |]; cbn [buffer_call and_then].
  { split; [done|]. split; [by split|]. split; [|done]. by split; apply Hw. }
  assert (Hw1 : wok (w <| w_table := b |>)) by (split; [apply Hw|apply Hw|done|apply Hw]).
  destruct r; cbn [negb].
  + cbn [w_table set const]. change (w_table (w <| w_table := b |>)) with b.
    destruct (staging_commit_ok _ b Hb Hp) as (b2 & t & -> & Hb2 & Hv2 & Hc2).
    cbn [buffer_call and_then].
    split; [done|]. split.
    { eexists _, _. split; [reflexivity|]. rewrite (ti_pending _ Hg).
      split; [split; [apply Hw|apply Hw|done|apply Hw]|]. destruct Hg. by split; [split|]. }
    split; [exact I|]. cbn [group_reject TableGroup_group]. unfold TableGroup_reject.
    change (0 =? 0) with true. cbv iota. cbn [fst snd].
    split; [split; try done; by etransitivity|]. split; [split; [apply Hw|apply Hw|done|apply Hw]|].
    pose proof (ti_pending _ Hg). destruct g; cbn in *; by subst.
  + split; [done|]. split; [by split|]. by split.
Qed.

#[export] Instance TableGroup_laws :
  ParamGroupLaws TableGroup (H := TableGroup_group N) wok table_idle.
Proof using N_ok.
  split; cbn [group_stage group_stage_commit group_set_block group_reset_diagnostics group_get
              TableGroup_group].
  - intros. by apply table_stage_ok.
  - intros. by apply table_commit_ok.
  - intros w g id offset data Hw Hg Hd Ho. unfold TableGroup_set_block.
    destruct (negb (id =? 0)); [by split_and!|]. destruct (negb _); [by split_and!|].
    destruct (_ || _); [by split_and!|].
    destruct (staging_buffer_cases _ (w_table w)
      (fun t => t ← write_words t offset (f32_words data); Some (t, ())) (wo_table _ _ _ Hw)) as
      [-> | (b & x & y & r & -> & Hb & Hv & Hp & _)].
    + intros t Ht. destruct (write_words_ok (f32_words data) t offset Ht Ho) as (t' & -> & Ht').
      by eexists _, _.
    + cbn [buffer_call]. split; [done|]. split; [by split; apply Hw|]. split; [by split|done].
    + cbn [buffer_call]. split; [done|]. split; [split; [apply Hw|apply Hw|done|apply Hw]|].
      split; [by split|done].
  - intros w g Hw Hg. by split_and!.
  - done.
  - intros. by apply table_reads.
Qed.

(** The telemetry group as its constructor leaves it: one definition for each
    word of an experiment's statics. *)
Record telemetry_idle (g : TelemetryGroup) : Prop := {
  ei_defs : te_defs g = ExtraParam_def <$> te_values g;
  ei_values : Forall (fun e => ParamType_size (ex_ty e) = 4
                               /\ Z.of_nat (ex_value e) < MAX_EXTRA_PARAMS) (te_values g) }.

Lemma telemetry_reads w g id out :
  wok w -> telemetry_idle g -> fills out (TelemetryGroup_get w g id out).
Proof using.
  intros [_ _ _ Hx] [Hd Hv]. unfold TelemetryGroup_get. rewrite Hd.
  destruct (checked_output_cases (ExtraParam_def <$> te_values g) id out)
    as [[e ->]|(def & Ei & -> & Hs)]; [done|].
  rewrite bind_Ok. apply index_Some in Ei as [H0 Ei]. rewrite list_lookup_fmap in Ei.
  destruct (te_values g !! Z.to_nat id) as [e|] eqn:Ee; [|done]. cbn in Ei.
  apply (inj Some) in Ei as <-. cbn [ExtraParam_def ParamDef_read_only def_ty def_count] in *.
  destruct (Forall_lookup_1 _ _ _ _ Hv Ee) as [Hsz Hval]. rewrite Hsz in *. change (4 * 1) with 4 in *.
  rewrite (proj2 (index_Some _ _ e)) by done. cbn [ok_or]. rewrite bind_Ok, slice_ok by lia.
  rewrite bind_or_panic. unfold ExtraParam_get. unfold len, MAX_EXTRA_PARAMS in *.
  destruct (lookup_lt_is_Some_2 (w_extra w) (ex_value e)) as [v ->]; [lia|]. rewrite bind_Some.
  assert (L4 : len (le32 v) = 4) by apply len_le_bytes.
  unfold copy_from_slice. rewrite (proj2 (Z.eqb_eq _ _)).
  2: { rewrite L4, len_take by (unfold len; rewrite length_drop; lia). done. }
  rewrite bind_or_panic. by apply write_out_fills.
Qed.

Lemma reset_extra_ok l w : wok w -> wok (fold_left ExtraParam_reset_diagnostic l w).
Proof using.
  revert w. induction l as [|e l IH]; intros w Hw; [done|]. cbn [fold_left]. apply IH.
  unfold ExtraParam_reset_diagnostic. destruct (ex_reset_on_diag e); [|done].
  split; [apply Hw..|]. destruct Hw. cbn. unfold len in *. by rewrite length_insert.
Qed.

#[export] Instance TelemetryGroup_laws : ParamGroupLaws TelemetryGroup wok telemetry_idle.
Proof using.
  split; cbn [group_stage group_stage_commit group_set_block group_reset_diagnostics group_get
              TelemetryGroup_group].
  - intros. by apply staged_err.
  - intros. by apply staged_err.
  - intros w g id offset data Hw Hg _ _. by split_and!.
  - intros w g Hw Hg. split; [by apply reset_extra_ok|]. by split_and!.
  - intros w w' g id out Hv. unfold TelemetryGroup_get, ExtraParam_get.
    by rewrite (vis_extra _ _ Hv).
  - intros. by apply telemetry_reads.
Qed.

(** The shadow keeps room for every definition. *)
Definition shadow_ok (g : ScalarGroup) : Prop :=
  sg_pending g = None /\ len (sg_defs g) <= len (sg_values g)
  /\ Forall (fun def => ParamType_size (def_ty def) * def_count def = 4) (sg_defs g).

Lemma scalar_reads w g id out : shadow_ok g -> fills out (ScalarGroup_get w g id out).
Proof using.
  intros (_ & Hl & Hd). unfold ScalarGroup_get.
  destruct (checked_output_cases (sg_defs g) id out) as [[e ->]|(def & Ei & -> & Hs)]; [done|].
  rewrite bind_Ok. pose proof Ei as Hid. apply index_Some in Hid as [H0 Hid].
  rewrite (Forall_lookup_1 _ _ _ _ Hd Hid) in *. apply lookup_lt_Some in Hid.
  destruct (index_is_Some (sg_values g) id) as [v ->]; [unfold len in *; lia|].
  cbn [ok_or]. rewrite bind_Ok. apply write_out_fills; [apply len_le_bytes|done].
Qed.

Lemma ScalarGroup_stage_spec normalise w (g : ScalarGroup) id data :
  shadow_ok g -> 0 <= id < len (sg_defs g) ->
  (exists e, ScalarGroup_stage normalise w g id data = (w, g, Err e))
  \/ exists v g' g2, ScalarGroup_stage normalise w g id data = (w, g', Ok (StagedRt (PF32 v)))
       /\ sg_defs g' = sg_defs g
       /\ ScalarGroup_accept w g' id = Some (w, g2) /\ shadow_ok g2 /\ sg_defs g2 = sg_defs g
       /\ ScalarGroup_reject w g' id (Some (PF32 v)) = (w, g).
Proof using.
  intros (Hp & Hl & Hd4) Hid. unfold ScalarGroup_stage.
  destruct (read_f32_cases data) as [-> | [raw ->]]; cbn [and_then]; [by left; eexists|].
  destruct (normalise id raw) as [v|]; cbn [ok_or and_then]; [right|by left; eexists].
  destruct (put_spec (sg_values g) id v) as (values & E & Lv & _); [lia|].
  eexists v, _, _. split; [reflexivity|]. split; [done|]. unfold ScalarGroup_accept.
  change (sg_pending (g <| sg_pending := Some (id, v) |>)) with (Some (id, v)).
  change (sg_values (g <| sg_pending := Some (id, v) |>)) with (sg_values g).
  cbv iota. rewrite E, bind_Some. split; [reflexivity|]. split; [split; [done|split; [|done]]|].
  - cbn. by rewrite Lv.
  - split; [done|]. unfold ScalarGroup_reject. f_equal. destruct g; cbn in *; by subst.
Qed.

#[export] Instance RigGroup_laws {R} `{Rig R} :
  ParamGroupLaws (RigGroup R) wok (fun g => shadow_ok (rg_group g)).
Proof using.
  split; cbn [group_stage group_stage_commit group_set_block group_reset_diagnostics group_get
              params RigGroup_group].
  - intros w g id data Hw Hg Hid _.
    destruct (ScalarGroup_stage_spec (normalise_param (R := R)) w (rg_group g) id data Hg Hid)
      as [[e ->] | (v & g' & g2 & -> & Hd & Ha & H2 & Hd2 & Hr)]; cbn [rewrap].
    + destruct g. by apply staged_err.
    + apply staged_rt; [done|by split|done| |].
      * exists w, {| rg_group := g2 |}. cbn. rewrite Ha. split; [done|]. by split_and!.
      * cbn. injection Hr as Hr. by destruct g; cbn in *; rewrite Hr.
  - intros. by apply staged_err.
  - intros w g id offset data Hw Hg _ _. by split_and!.
  - intros w g Hw Hg. by split_and!.
  - done.
  - intros w g id out _ Hg. by apply scalar_reads.
Qed.

#[export] Instance ScalarControlGroup_laws {C} `{StandardControl C} :
  ParamGroupLaws (ScalarControlGroup C) wok (fun g => shadow_ok (cg_group g)).
Proof using.
  split; cbn [group_stage group_stage_commit group_set_block group_reset_diagnostics group_get
              params ScalarControlGroup_group].
  - intros w g id data Hw Hg Hid _.
    destruct (ScalarGroup_stage_spec (fun id v => normalise_scalar_param (C := C) id v (cg_input_count g))
      w (cg_group g) id data Hg Hid)
      as [[e ->] | (v & g' & g2 & -> & Hd & Ha & H2 & Hd2 & Hr)]; cbn [rewrap].
    + destruct g. by apply staged_err.
    + apply staged_rt; [done|by split|done| |].
      * exists w, {| cg_group := g2; cg_input_count := cg_input_count g |}. cbn. rewrite Ha.
        split; [done|]. by split_and!.
      * cbn. injection Hr as Hr. by destruct g; cbn in *; rewrite Hr.
  - intros. by apply staged_err.
  - intros w g id offset data Hw Hg _ _. by split_and!.
  - intros w g Hw Hg. by split_and!.
  - done.
  - intros w g id out _ Hg. by apply scalar_reads.
Qed.
End group_laws.

(** A sum of lawful groups is lawful: the store is dynamic dispatch over them. *)
Definition sum_idle {A B} (ia : A -> Prop) (ib : B -> Prop) (g : A + B) : Prop :=
  match g with inl a => ia a | inr b => ib b end.

Section sum_laws.
Context {A B : Type} `{HA : ParamGroup A, HB : ParamGroup B}.
Context {wok : World -> Prop} {ia : A -> Prop} {ib : B -> Prop}.

Lemma staged_inl w (g : A) id m :
  staged_ok wok ia w g id m -> staged_ok wok (sum_idle ia ib) w (inl g : A + B) id (rewrap inl m).
Proof.
  destruct m as [[w' g'] [staged|e|]]; [| |done].
  - intros (Hs & (w2 & g2 & Ea & Hw2 & Hi2 & Hs2) & Hrt). split; [done|]. split.
    + exists w2, (inl g2). cbn. rewrite Ea. by split_and!.
    + destruct staged as [|p]; [done|]. destruct Hrt as (Hp & Hv & Hw & Hg).
      cbn [group_reject sum_group]. destruct (group_reject w' g' id (Some p)) as [wr gr].
      cbn in *. by rewrite Hg.
  - intros (Hs & Hv & Hw & ->). by split_and!.
Qed.

Lemma staged_inr w (g : B) id m :
  staged_ok wok ib w g id m -> staged_ok wok (sum_idle ia ib) w (inr g : A + B) id (rewrap inr m).
Proof.
  destruct m as [[w' g'] [staged|e|]]; [| |done].
  - intros (Hs & (w2 & g2 & Ea & Hw2 & Hi2 & Hs2) & Hrt). split; [done|]. split.
    + exists w2, (inr g2). cbn. rewrite Ea. by split_and!.
    + destruct staged as [|p]; [done|]. destruct Hrt as (Hp & Hv & Hw & Hg).
      cbn [group_reject sum_group]. destruct (group_reject w' g' id (Some p)) as [wr gr].
      cbn in *. by rewrite Hg.
  - intros (Hs & Hv & Hw & ->). by split_and!.
Qed.

#[export] Instance sum_laws `{!ParamGroupLaws A wok ia, !ParamGroupLaws B wok ib} :
  ParamGroupLaws (A + B) wok (sum_idle ia ib).
Proof.
  split.
  - intros w [g|g] id data Hw Hg Hid Hd; [apply staged_inl|apply staged_inr]; by apply law_stage.
  - intros w [g|g] id n Hw Hg Hid; [apply staged_inl|apply staged_inr]; by apply law_stage_commit.
  - intros w [g|g] id offset data Hw Hg Hd Ho; cbn [group_set_block sum_group].
    + pose proof (law_set_block wok ia w g id offset data Hw Hg Hd Ho) as Hb.
      destruct (group_set_block w g id offset data) as [[w' g'] r]. cbn.
      destruct Hb as (? & ? & ? & ->). by split_and!.
    + pose proof (law_set_block wok ib w g id offset data Hw Hg Hd Ho) as Hb.
      destruct (group_set_block w g id offset data) as [[w' g'] r]. cbn.
      destruct Hb as (? & ? & ? & ->). by split_and!.
  - intros w [g|g] Hw Hg; cbn [group_reset_diagnostics sum_group].
    + pose proof (law_reset wok ia w g Hw Hg) as Hr.
      by destruct (group_reset_diagnostics w g) as [w' g'].
    + pose proof (law_reset wok ib w g Hw Hg) as Hr.
      by destruct (group_reset_diagnostics w g) as [w' g'].
  - intros w w' [g|g] id out Hv; cbn [group_get sum_group];
      [by apply (law_get wok ia)|by apply (law_get wok ib)].
  - intros w [g|g] id out Hw Hg; cbn [group_get sum_group];
      [by apply (law_read wok ia)|by apply (law_read wok ib)].
Qed.
End sum_laws.

(** ** The loop's invariant under host operations *)

Lemma buffer_activate_wf {T} (Q : T -> Prop) b a t :
  buffer_wf Q b -> buffer_wf Q (Active_activate b a t).1.
Proof.
  intros Hb. pose proof Hb as (Hbk & Ha & Hp). unfold Active_activate, NO_PENDING.
  destruct (negb _); [done|]. destruct ((db_pending b =? 0) || _) eqn:E; [done|]. bool_facts.
  split; [exact Hbk|]. cbn. split; lia.
Qed.

Lemma endpoint_of_buffer {T} (Q Q' : T -> Prop) b b' a :
  (forall x, Q' x -> Q x) -> endpoint_ok Q b a -> buffer_wf Q' b' -> endpoint_ok Q b' a.
Proof.
  intros HQ (_ & Ha & _) ((x & y & Hb & Hx & Hy) & _ & Hp).
  split; [exists x, y; auto|]. by split.
Qed.

Section loop_invariant.
Context {C : Type} `{HC : StandardControl C} {ok : C -> Prop} `{!ControlLaws C ok}.
Variable Hn : nat.
Variable N : Z.

(** The programme's invariant with the host's: what both cores rely on. *)
Definition loop_world_ok (w : World) (p : StandardProgram C) : Prop :=
  world_ok Hn N w /\ program_ok (ok := ok) Hn w p.

Lemma program_ok_world w w' p :
  program_ok (ok := ok) Hn w p -> world_ok Hn N w' -> program_ok (ok := ok) Hn w' p.
Proof.
  intros (Hg & Hi & Ht & Hf & Htab & Hpl & Hc) [H1 H2 H3]. unfold program_ok.
  split_and!; try done; (eapply endpoint_of_buffer; [|done|done]); [done|done|by intros x [? _]].
Qed.

Lemma apply_world_ok w p d id payload w' p' :
  world_ok Hn N w -> StandardProgram_apply w p d id payload = Some (w', p') -> world_ok Hn N w'.
Proof.
  intros Hw. pose proof Hw as [H1 H2 H3]. unfold StandardProgram_apply.
  destruct (d =? DOMAIN_GENERATOR).
  { intros E. apply (inj Some) in E. assert (w' = (apply_generator w p id payload).1) as ->
      by (by rewrite E). unfold apply_generator. destruct payload as [|v|v|token]; try done.
    - by destruct (id =? _).
    - destruct (id =? command_id.generator.SET_TARGET); [|destruct (id =? _); [|done]].
      + pose proof (buffer_activate_wf _ _ (st_target_coeffs p) token H1) as Hb.
        destruct (Active_activate (w_target w) _ token). by split.
      + pose proof (buffer_activate_wf _ _ (st_forcing_coeffs p) token H2) as Hb.
        destruct (Active_activate (w_forcing w) _ token). by split. }
  destruct (d =? DOMAIN_TABLE).
  { unfold apply_table. destruct payload as [|v|v|token].
    1-3: intros E; apply (inj Some), pair_equal_spec in E as [<- _]; done.
    destruct (id =? _); [|intros E; apply (inj Some), pair_equal_spec in E as [<- _]; done].
    pose proof (buffer_activate_wf _ _ (st_active_table p) token H3) as Hb.
    destruct (Active_activate (w_table w) _ token) as [b a].
    destruct (Active_get b a); [|done]. rewrite bind_Some. intros E.
    apply (inj Some), pair_equal_spec in E as [<- _]. by split. }
  destruct (d =? DOMAIN_CONTROLLER); intros E; apply (inj Some), pair_equal_spec in E as [<- _]; done.
Qed.

#[export] Instance loop_program_laws (Hnext : increments_fit C) :
  ProgramLaws (StandardProgram C) (H := StandardProgram_program Hn) loop_world_ok
    (fun ctx => lut_wf (ctx_lut ctx)).
Proof.
  pose proof (StandardProgram_laws ok Hn Hnext) as L.
  split.
  - intros w p d id payload [Hw Hp] Hpl.
    destruct (apply_ok (ProgramLaws := L) w p d id payload Hp Hpl) as (w' & p' & E & Hp').
    exists w', p'. split; [done|]. split; [exact (apply_world_ok w p d id payload w' p' Hw E)|done].
  - intros w p inputs enabled ctx outputs [Hw Hp] Hl Hi Hpos Ho.
    destruct (step_signals_spec (ok := ok) Hn w p ctx Hp Hl) as (p1 & tc & fc & t & Es & Hok1 & _ & Hen & _).
    destruct (step_control_Some (ok := ok) Hn w p p1 tc inputs enabled ctx outputs Es Hok1 Hen Hi
      ltac:(lia) ltac:(intros; by eapply Hnext)) as (c & cs & out & _ & E & Hok' & Lo & _).
    exists w, (step_finish (step_enable p1 enabled) enabled c cs), out. by split_and!.
  - intros w p out [_ Hp] Hl. by apply (write_ok (ProgramLaws := L) w).
  - apply (signal_count_nonneg (ProgramLaws := L)).
  - apply (outputs_positive (ProgramLaws := L)).
  - intros w p s [[] Hp]. by split.
Qed.
End loop_invariant.

(** The bytes that a finite value was read from are the ones it writes. *)
Lemma coeff_bytes (Hn : nat) data i v :
  bytes_ok data -> len data = (1 + 2 * Z.of_nat Hn) * 4 -> 0 <= i < 1 + 2 * Z.of_nat Hn ->
  coeff_value data i = Some v -> is_finite v = true ->
  len (f32_to_le_bytes v) = 4
  /\ forall j, 0 <= j < 4 -> index (f32_to_le_bytes v) j = index data (4 * i + j).
Proof.
  intros Hd Hl Hi Ev Hv. destruct (coeff_value_Some Hn data i Hi Hl) as (s & Es & Ls & Ev' & Hj).
  rewrite Ev' in Ev. apply (inj Some) in Ev as <-. split; [apply len_le_bytes|].
  rewrite f32_le_bytes_roundtrip; [done| |done|by apply is_finite_not_nan].
  unfold slice in Es. destruct (_ && _); [|done]. apply (inj Some) in Es as <-.
  apply Forall_take, Forall_drop. exact Hd.
Qed.

(** Serializing the finite coefficients of a vector writes that vector. *)
Lemma serialize_coeffs_spec (Hn : nat) c data out :
  bytes_ok data -> len data = (1 + 2 * Z.of_nat Hn) * 4 -> coeffs_wf Hn c ->
  coeff_value data 0 = Some (fc_mean c) ->
  (forall k, 0 <= k < Z.of_nat Hn -> index (fc_a c) k = coeff_value data (1 + k)
      /\ index (fc_b c) k = coeff_value data (1 + Z.of_nat Hn + k)) ->
  is_finite (fc_mean c) = true -> Forall (fun x => is_finite x = true) (fc_a c) ->
  Forall (fun x => is_finite x = true) (fc_b c) -> len out = len data ->
  serialize_coeffs Hn c out = Some data.
Proof.
  intros Hd Hl [La Lb] Hm Hk Hfm Hfa Hfb Lo. set (H := Z.of_nat Hn) in *.
  assert (Hget : forall l k, 0 <= k < H -> length l = Hn -> Forall (fun x => is_finite x = true) l ->
    exists x, index l k = Some x /\ is_finite x = true).
  { intros l k Hk' Ll Hf. destruct (index_is_Some l k) as [x Hx]; [unfold len; lia|].
    exists x. split; [done|]. apply index_Some in Hx as [_ Hx].
    by apply (Forall_lookup_1 _ _ _ _ Hf Hx). }
  destruct (coeff_bytes Hn data 0 (fc_mean c)) as [L0 B0]; [done|done|lia|done|done|].
  unfold serialize_coeffs.
  destruct (blit_spec out 0 (f32_to_le_bytes (fc_mean c))) as (o1 & -> & L1 & I1); [lia|lia|].
  rewrite bind_Some.
  match goal with |- for_each ?f _ _ = _ => set (body := f) end.
  destruct (for_range_inv body (fun i o => len o = len data /\ forall j,
      (0 <= j < 4 + 4 * i \/ 4 + 4 * H <= j < 4 + 4 * H + 4 * i) -> index o j = index data j) 0 H o1)
    as (o & Eo & Lo' & Io).
  - lia.
  - intros i o Hi [Lo' Io]. unfold body. destruct (Hk i) as [Ea Eb]; [lia|].
    destruct (Hget (fc_a c) i) as (a & Ha & Fa); [lia|done|done|].
    destruct (Hget (fc_b c) i) as (b & Hb & Fb); [lia|done|done|].
    destruct (coeff_bytes Hn data (1 + i) a) as [La' Ba]; [done|done|lia|congruence|done|].
    destruct (coeff_bytes Hn data (1 + H + i) b) as [Lb' Bb]; [done|done|lia|congruence|done|].
    rewrite Ha, Hb, bind_Some.
    destruct (blit_spec o (4 + 4 * i) (f32_to_le_bytes a)) as (o2 & -> & L2 & I2); [lia|lia|].
    rewrite !bind_Some. fold H.
    destruct (blit_spec o2 (4 + 4 * (H + i)) (f32_to_le_bytes b)) as (o3 & -> & L3 & I3); [lia|lia|].
    exists o3. split; [done|]. split; [lia|]. intros j Hj. rewrite I3, I2, La', Lb'.
    destruct (Z.leb_spec (4 + 4 * (H + i)) j), (Z.ltb_spec j (4 + 4 * (H + i) + 4)); cbn [andb].
    1: rewrite Bb by lia; f_equal; lia.
    all: destruct (Z.leb_spec (4 + 4 * i) j), (Z.ltb_spec j (4 + 4 * i + 4)); cbn [andb];
      try (rewrite Ba by lia; f_equal; lia); apply Io; lia.
  - split; [lia|]. intros j Hj. rewrite I1, L0. rewrite (proj2 (Z.leb_le _ _)), (proj2 (Z.ltb_lt _ _)) by lia.
    cbn [andb]. rewrite B0 by lia. f_equal. lia.
  - fold H. rewrite Eo. f_equal. apply list_eq_index; [done|]. intros i Hi. apply Io. lia.
Qed.

Lemma write_out_exact out bytes :
  len out = len bytes -> write_out out (len bytes) bytes = Ok (bytes, len bytes).
Proof.
  intros Ho. unfold write_out. rewrite Z.eqb_refl. cbn [assert_that]. rewrite bind_Ok.
  rewrite (blit_cursor [] out); [|done|lia]. cbn [or_panic app]. rewrite bind_Ok.
  rewrite drop_ge by (unfold len in Ho; lia). by rewrite app_nil_r.
Qed.

Lemma slice_whole {A} (l : list A) n : len l = n -> slice l 0 n = Some l.
Proof. intros <-. rewrite <-(app_nil_r l) at 1. by apply (slice_app [] l []). Qed.

Lemma generator_output_size (Hn : nat) id out :
  Z.of_nat Hn <= MAX_HARMONICS -> id = 1 \/ id = 2 -> len out = (1 + 2 * Z.of_nat Hn) * 4 ->
  checked_output (generator_params Hn) id out = Ok (len out).
Proof.
  intros HH Hid Ho. unfold MAX_HARMONICS in HH.
  assert (Ew : wrap 16 (1 + 2 * Z.of_nat Hn) = 1 + 2 * Z.of_nat Hn)
    by (apply wrap_id; unfold fits; lia).
  assert (Ei : exists name, index (generator_params Hn) id
    = Some (ParamDef_writable name F32 (1 + 2 * Z.of_nat Hn)))
    by (unfold generator_params; rewrite Ew; destruct Hid as [-> | ->]; by eexists).
  destruct Ei as [name Ei]. unfold checked_output. rewrite Ei. cbn [ok_or]. rewrite bind_Ok.
  cbn [def_ty def_count ParamDef_writable ParamType_size].
  rewrite (proj2 (Z.ltb_ge _ _)) by lia. f_equal. lia.
Qed.

(** What a successful coefficient write leaves in the pending slot. *)
Lemma generator_stage_cases (Hn : nat) sqrtf w g id data w1 g1 p :
  GeneratorGroup_stage Hn sqrtf w g id data = (w1, g1, Ok (StagedRt p)) ->
  (id = 0 /\ exists v, read_f32 data = Ok v /\ is_nan v = false
     /\ g1 = g <| gg_pending := GeneratorFrequency v |>)
  \/ (id = 1 /\ exists c, deserialize_coeffs Hn data = Ok c
     /\ g1 = g <| gg_pending := GeneratorTarget c |>)
  \/ (id = 2 /\ exists c bound, deserialize_coeffs Hn data = Ok c
     /\ g1 = g <| gg_pending := GeneratorForcing c |>
     /\ FourierCoeffs_amplitude_bound sqrtf Hn c = Some bound
     /\ fgt bound (gg_forcing_amplitude_limit g) = false).
Proof.
  unfold GeneratorGroup_stage. destruct (Z.eqb_spec id 0) as [-> | H0].
  { left. split; [done|]. destruct (read_f32 data) as [v|e|]; cbn [and_then] in *; [|done|done].
    destruct (negb _) eqn:En; [done|]. apply negb_false_iff in En.
    unfold contains in En. apply andb_prop in En as [En _]. apply fle_nan in En as [_ En].
    assert (g1 = g <| gg_pending := GeneratorFrequency v |>) as -> by congruence. eauto. }
  destruct (Z.eqb_spec id 1) as [-> | H1]; cbn [orb].
  { right; left. split; [done|].
    destruct (deserialize_coeffs Hn data) as [c|e|]; cbn [and_then] in *; [|done|done].
    change (over_limit Hn sqrtf g 1 c) with (@Ok ErrorCode unit ()) in *. cbn [and_then] in *.
    destruct (stage_coeffs (w_target w) c) as [b [t|e|]]; cbn [and_then] in *; [|done|done].
    exists c. split; [done|congruence]. }
  destruct (Z.eqb_spec id 2) as [-> | H2]; [|done].
  right; right. split; [done|].
  destruct (deserialize_coeffs Hn data) as [c|e|]; cbn [and_then] in *; [|done|done].
  unfold over_limit in *. change (2 =? 2) with true in *. cbv iota in *.
  destruct (FourierCoeffs_amplitude_bound sqrtf Hn c) as [bound|] eqn:Eb; [|done].
  cbn [or_panic] in *. rewrite bind_Ok in *. unfold guard_err in *.
  destruct (fgt bound _) eqn:Ef; [done|]. cbn [and_then] in *.
  destruct (stage_coeffs (w_forcing w) c) as [b [t|e|]]; cbn [and_then] in *; [|done|done].
  exists c, bound. split; [done|]. split; [congruence|done].
Qed.

Lemma deserialize_roundtrip (Hn : nat) data c :
  bytes_ok data -> deserialize_coeffs Hn data = Ok c ->
  len data = (1 + 2 * Z.of_nat Hn) * 4
  /\ forall out, len out = len data -> serialize_coeffs Hn c out = Some data.
Proof.
  intros Hd E. destruct (Z.eq_dec (len data) ((1 + 2 * Z.of_nat Hn) * 4)) as [Hl|Hl].
  2:{ unfold deserialize_coeffs in E. by rewrite (proj2 (Z.eqb_neq _ _)) in E. }
  split; [done|]. intros out Lo.
  destruct (deserialize_coeffs_spec Hn data Hl) as (c' & Hc & Hm & Hk & E').
  rewrite E in E'. destruct (_ && _) eqn:Ef; [|done]. apply Ok_inj in E' as <-. bool_facts.
  assert (Hall : forall l, forallb is_finite l = true -> Forall (fun x => is_finite x = true) l).
  { intros l Hl'. apply Forall_forall. intros x Hx.
    apply (proj1 (forallb_forall is_finite l) Hl'). by apply list_elem_of_In. }
  apply serialize_coeffs_spec; auto.
Qed.

Lemma generator_get_coeffs (Hn : nat) w (g : GeneratorGroup) id data out :
  Z.of_nat Hn <= MAX_HARMONICS -> gg_defs g = generator_params Hn -> id = 1 \/ id = 2 ->
  len out = (1 + 2 * Z.of_nat Hn) * 4 -> len data = len out ->
  serialize_coeffs Hn (if id =? 1 then gg_target g else gg_forcing g) out = Some data ->
  GeneratorGroup_get Hn w g id out = Ok (data, len data).
Proof.
  intros HH Hg Hid Lo Ld Es. unfold GeneratorGroup_get.
  rewrite Hg, generator_output_size, bind_Ok, slice_whole by done. cbn [or_panic]. rewrite bind_Ok.
  destruct Hid as [-> | ->]; cbn [Z.eqb Pos.eqb] in *; rewrite Es; cbn [or_panic]; rewrite bind_Ok, <-Ld;
    by apply write_out_exact.
Qed.

(** ** Properties *)

(** Coefficient vectors survive the wire: a vector that is accepted has the
    right length and only finite coefficients, and reading it back gives the
    very bytes that were written; anything else is an error, never a panic. *)
Theorem coeffs_roundtrip (Hn : nat) (data : list Z) (Hd : bytes_ok data) :
  (deserialize_coeffs Hn data = Err BadLength /\ len data <> 4 * (1 + 2 * Z.of_nat Hn))
  \/ (deserialize_coeffs Hn data = Err BadValue /\ len data = 4 * (1 + 2 * Z.of_nat Hn))
  \/ exists c, deserialize_coeffs Hn data = Ok c /\ coeffs_wf Hn c
       /\ is_finite (fc_mean c) = true /\ Forall (fun x => is_finite x = true) (fc_a c ++ fc_b c)
       /\ forall out, len out = len data -> serialize_coeffs Hn c out = Some data.
Proof.
  set (H := Z.of_nat Hn).
  destruct (Z.eq_dec (len data) ((1 + 2 * H) * 4)) as [Hl|Hl].
  2:{ left. unfold deserialize_coeffs. fold H. rewrite (proj2 (Z.eqb_neq _ _)) by done. split; [done|lia]. }
  right. destruct (deserialize_coeffs_spec Hn data Hl) as (c & Hc & Hm & Hk & E).
  rewrite E. destruct (_ && _) eqn:Ef; [right|by left; split; [|lia]].
  bool_facts. exists c.
  assert (Hall : forall l, forallb is_finite l = true -> Forall (fun x => is_finite x = true) l).
  { intros l Hl'. apply Forall_forall. intros x Hx.
    apply (proj1 (forallb_forall is_finite l) Hl'). by apply list_elem_of_In. }
  split; [done|]. split; [done|]. split; [done|]. split; [apply Forall_app; auto|].
  by apply deserialize_roundtrip.
Qed.

(** C27. What the host writes to the generator is what it reads back: once a staged
    write is accepted, the parameter reads as exactly the bytes written and
    every other parameter reads as before; and forcing coefficients beyond the
    rig's amplitude limit are never staged. *)
Theorem generator_set_get (Hn : nat) (sqrtf : float -> float) (w w1 w2 : World)
    (g g1 g2 : GeneratorGroup) (id : Z) (data : list Z) (p : Payload)
    (HH : Z.of_nat Hn <= MAX_HARMONICS) (Hd : bytes_ok data) (Hg : gg_defs g = generator_params Hn)
    (Hs : GeneratorGroup_stage Hn sqrtf w g id data = (w1, g1, Ok (StagedRt p)))
    (Ha : GeneratorGroup_accept w1 g1 id = Some (w2, g2)) :
  (forall w3 out, len out = len data -> GeneratorGroup_get Hn w3 g2 id out = Ok (data, len data))
  /\ (forall w3 id' out, id' <> id ->
        GeneratorGroup_get Hn w3 g2 id' out = GeneratorGroup_get Hn w3 g id' out)
  /\ (id = 2 -> exists bound, FourierCoeffs_amplitude_bound sqrtf Hn (gg_forcing g2) = Some bound
        /\ fgt bound (gg_forcing_amplitude_limit g) = false).
Proof.
  unfold GeneratorGroup_accept in Ha. apply (inj Some), pair_equal_spec in Ha as [_ <-].
  assert (Hother : forall w3 g' id' out, gg_defs g' = gg_defs g ->
    (id' = 0 -> gg_frequency g' = gg_frequency g) -> (id' = 1 -> gg_target g' = gg_target g) ->
    (id' = 2 -> gg_forcing g' = gg_forcing g) ->
    GeneratorGroup_get Hn w3 g' id' out = GeneratorGroup_get Hn w3 g id' out).
  { intros w3 g' id' out Ed E0 E1 E2. unfold GeneratorGroup_get. rewrite Ed.
    destruct (Z.eqb_spec id' 0); [by rewrite E0|]. destruct (Z.eqb_spec id' 1); [by rewrite E1|].
    destruct (Z.eqb_spec id' 2); [by rewrite E2|done]. }
  destruct (generator_stage_cases Hn sqrtf w g id data w1 g1 p Hs) as
    [(-> & v & Ev & Hv & ->) | [(-> & c & Ec & ->) | (-> & c & bound & Ec & -> & Eb & Hb)]].
  - split; [|split; [intros; by apply Hother|done]].
    intros w3 out Lo. unfold read_f32 in Ev. destruct (Z.eqb_spec (len data) 4) as [Hl|]; [|done].
    apply Ok_inj in Ev as <-. unfold GeneratorGroup_get. cbn [gg_defs gg_pending set const].
    change (gg_defs (_ <| gg_frequency := _ |>)) with (gg_defs g).
    assert (Ei : checked_output (gg_defs g) 0 out = Ok (len out)).
    { rewrite Hg. change (checked_output (generator_params Hn) 0 out)
        with (if len out <? 4 then Err BadLength else @Ok ErrorCode Z 4).
      rewrite (proj2 (Z.ltb_ge _ _)) by lia. f_equal. lia. }
    rewrite Ei, bind_Ok, slice_whole by done. cbn [or_panic]. rewrite bind_Ok.
    cbn [Z.eqb]. cbn [gg_frequency set const].
    rewrite f32_le_bytes_roundtrip by (done || unfold len in Hl; lia).
    unfold copy_from_slice. rewrite Lo, Z.eqb_refl. cbn [or_panic]. rewrite bind_Ok.
    by apply write_out_exact.
  - destruct (deserialize_roundtrip Hn data c Hd Ec) as [Hl Hser].
    split; [|split; [intros; by apply Hother|done]].
    intros w3 out Lo. apply generator_get_coeffs; try done; [by left|lia|by apply Hser].
  - destruct (deserialize_roundtrip Hn data c Hd Ec) as [Hl Hser].
    split; [|split; [intros; by apply Hother|]].
    + intros w3 out Lo. apply generator_get_coeffs; try done; [by right|lia|by apply Hser].
    + intros _. by exists bound.
Qed.

(** ** The composition *)

(** A [&'static mut dyn ParamGroup] of the standard programme. *)
Definition AnyGroup (R C : Type) : Type :=
  PlatformGroup + (GeneratorGroup + (TableGroup + (TelemetryGroup
    + (RigGroup R + ScalarControlGroup C)))).

(** A buffer of two equal banks, and an endpoint on it, before the first commit. *)
Lemma fresh_buffer_wf {T : Type} (Q : T -> Prop) i x : Q x -> buffer_wf Q (DoubleBuffer_from_banks i x x).
Proof. intros. split; [by exists x, x|]. split; [by left|]. cbn. unfold NO_PENDING. lia. Qed.

Lemma fresh_endpoint_ok {T : Type} (Q : T -> Prop) i x :
  Q x -> endpoint_ok Q (DoubleBuffer_from_banks i x x) {| ac_current := 0 |}.
Proof. intros. split; [by exists x, x|]. split; [by left|]. cbn. unfold NO_PENDING. lia. Qed.

Section composition.
Context {R C : Type} `{HR : Rig R, HC : StandardControl C}.
Variable Hn : nat.
Variable sqrtf : float -> float.
Variable N : Z.

#[export] Instance AnyGroup_group : ParamGroup (AnyGroup R C) :=
  @sum_group _ _ PlatformGroup_group (@sum_group _ _ (GeneratorGroup_group Hn sqrtf)
    (@sum_group _ _ (TableGroup_group N) (@sum_group _ _ TelemetryGroup_group
      (@sum_group _ _ RigGroup_group ScalarControlGroup_group)))).

Definition any_idle : AnyGroup R C -> Prop :=
  sum_idle (fun g => pf_pending g = PlatformNone)
    (sum_idle (generator_idle Hn) (sum_idle (table_idle N) (sum_idle telemetry_idle
        (sum_idle (fun g => shadow_ok (rg_group g)) (fun g => shadow_ok (cg_group g)))))).

Lemma AnyGroup_laws :
  2 <= N <= umax 16 -> @ParamGroupLaws (AnyGroup R C) AnyGroup_group (world_ok Hn N) any_idle.
Proof.
  intros HN. apply @sum_laws; [apply PlatformGroup_laws|].
  apply @sum_laws; [apply GeneratorGroup_laws|].
  apply @sum_laws; [by apply TableGroup_laws|].
  apply @sum_laws; [apply TelemetryGroup_laws|].
  apply @sum_laws; [apply RigGroup_laws|apply ScalarControlGroup_laws].
Qed.
End composition.

(** C5. The two cores together: whatever operation the host performs on the
    parameter store of the standard programme, and wherever in a tick it falls,
    it keeps the invariant the real-time loop relies on, so the loop's theorems
    apply with it as the interfering host; and the commands it queues are ones
    the loop can apply. *)
Theorem host_operations_keep_loop {R C CQ : Type} `{HR : Rig R, HC : StandardControl C}
    `{HQ : SpscQueue CQ RtCommand} `{!SpscLaws CQ RtCommand}
    (ok : C -> Prop) `{!ControlLaws C ok} (Hn : nat) (sqrtf : float -> float) (N : Z)
    (s : ParamStore (AnyGroup R C) CQ) (op : store_op)
    (HN : 2 <= N <= umax 16) (Hop : op_ok op)
    (Hs : store_ok (HG := AnyGroup_group Hn sqrtf N) (any_idle Hn N) s)
    (Hq : Forall (fun c => payload_ok (cmd_payload c)) (q_contents (ps_commands s))) :
  let apply w := store_apply (HG := AnyGroup_group Hn sqrtf N) w s op in
  host_ok (I := loop_world_ok (ok := ok) Hn N) (fun w => (apply w).1.1)
  /\ forall w, world_ok Hn N w ->
       store_ok (HG := AnyGroup_group Hn sqrtf N) (any_idle Hn N) (apply w).1.2
       /\ Forall (fun c => payload_ok (cmd_payload c)) (q_contents (ps_commands (apply w).1.2)).
Proof.
  pose proof (AnyGroup_laws (R := R) (C := C) Hn sqrtf N HN) as L.
  assert (Ht : forall w, world_ok Hn N w -> exists k id,
    transaction (HG := AnyGroup_group Hn sqrtf N) (world_ok := world_ok Hn N) (idle := any_idle Hn N)
      w s k id (store_apply (HG := AnyGroup_group Hn sqrtf N) w s op)).
  { intros w Hw. by apply (store_apply_transaction (ParamGroupLaws0 := L)). }
  intros apply. split.
  - intros w p [Hw Hp]. destruct (Ht w Hw) as (k & id & Htr). unfold apply.
    destruct (store_apply w s op) as [[w' s'] r]. destruct Htr as (_ & Hw' & _).
    split; [exact Hw'|by eapply program_ok_world].
  - intros w Hw. destruct (Ht w Hw) as (k & id & Htr). unfold apply.
    destruct (store_apply w s op) as [[w' s'] r]. destruct Htr as (Hs' & _ & Hr). cbn [fst snd].
    split; [exact Hs'|]. destruct r as [a|e|]; [|by destruct Hr as [_ ->]|done].
    destruct Hr as [-> | (c & entry & -> & _ & _ & Hp & _)]; [done|].
    apply Forall_app. split; [done|]. by apply Forall_singleton.
Qed.

(** ** Examples *)

Definition demo_platform : PlatformGroup := PlatformGroup_new Hz8000 "helic" "demo".

Definition demo_generator : GeneratorGroup := {|
  gg_defs := generator_params 1; gg_sample_rate := Hz8000; gg_frequency := f0;
  gg_target := FourierCoeffs_zero 1; gg_forcing := FourierCoeffs_zero 1;
  gg_forcing_amplitude_limit := f1; gg_pending := GeneratorNone |}.

Definition demo_N : Z := WaveTable_capacity ramp.

Lemma demo_N_ok : 2 <= demo_N <= umax 16.
Proof. by split; vm_compute. Defined.

(** Two groups over the platform and the generator; the command queue holds
    one command. *)
Definition demo_store : ParamStore (AnyGroup VectorRig PassThrough) (ListQueue RtCommand) := {|
  ps_commands := {| lq_items := []; lq_capacity := 1 |}; ps_sample_rate := Hz8000;
  ps_entries := [{| ge_group := inl demo_platform; ge_target := Core0 |};
                 {| ge_group := inr (inl demo_generator);
                    ge_target := TargetProgram DOMAIN_GENERATOR |}];
  ps_validated := true |}.

Lemma demo_store_ok : store_ok (HG := AnyGroup_group 1 (fun x => x) demo_N) (any_idle 1 demo_N) demo_store.
Proof.
  split; [reflexivity|by vm_compute|]. apply Forall_cons. split; [by split|].
  apply Forall_cons. split; [by split|]. apply Forall_nil, I.
Defined.

Lemma demo_world_ok : world_ok 1 demo_N demo_world.
Proof.
  assert (Hb : forall (T : Type) (Q : T -> Prop) i x y, Q x -> Q y ->
    buffer_wf Q (DoubleBuffer_from_banks i x y)).
  { intros. split; [by exists x, y|]. split; [by left|]. cbn. unfold NO_PENDING. lia. }
  split; [apply Hb..|reflexivity]; try done; split; (apply ramp_wf || reflexivity).
Defined.

(** The frequency 1 Hz as a little-endian word. *)
Definition one_hz : list Z := f32_to_le_bytes f1.

Lemma store_ops_transactional_witness :
  let '(w', s', r) := store_apply (HG := AnyGroup_group 1 (fun x => x) demo_N) demo_world demo_store
                        (OpSet 15 [0; 0; 0]) in
  q_contents (ps_commands s') = [] /\ r <> Panic.
Proof.
  pose proof (@store_ops_transactional (AnyGroup VectorRig PassThrough) (ListQueue RtCommand)
    (AnyGroup_group 1 (fun x => x) demo_N) list_queue (world_ok 1 demo_N) (any_idle 1 demo_N)
    (AnyGroup_laws 1 (fun x => x) demo_N demo_N_ok) list_queue_laws
    demo_world demo_store (OpSet 15 [0; 0; 0])) as Ht.
  destruct (store_apply demo_world demo_store (OpSet 15 [0; 0; 0])) as [[w' s'] r] eqn:E.
  destruct Ht as (Hr & _ & _ & Herr & _).
  - split; [lia|]. repeat (constructor; [by vm_compute|]). constructor.
  - exact demo_store_ok.
  - exact demo_world_ok.
  - split; [|exact Hr]. destruct (Herr BadLength) as [Hq _]; [|exact Hq].
    assert (r = (store_apply (HG := AnyGroup_group 1 (fun x => x) demo_N) demo_world demo_store
      (OpSet 15 [0; 0; 0])).2) as -> by (by rewrite E). reflexivity.
Defined.

Lemma validated_store_is_registry_witness :
  exists s', ParamStore_validate (H := AnyGroup_group 1 (fun x => x) demo_N)
      (demo_store <| ps_validated := false |>) [DOMAIN_GENERATOR] = Some s'
    /\ total_count (H := AnyGroup_group 1 (fun x => x) demo_N) s' = 24
    /\ registry_ok (store_definition (H := AnyGroup_group 1 (fun x => x) demo_N) s') 24.
Proof.
  destruct (ParamStore_validate (H := AnyGroup_group 1 (fun x => x) demo_N)
      (demo_store <| ps_validated := false |>) [DOMAIN_GENERATOR]) as [s'|] eqn:E.
  - exists s'. assert (Hn : total_count (H := AnyGroup_group 1 (fun x => x) demo_N) s' = 24).
    { assert (Hs : Some s' = ParamStore_validate (H := AnyGroup_group 1 (fun x => x) demo_N)
        (demo_store <| ps_validated := false |>) [DOMAIN_GENERATOR]) by done.
      vm_compute in Hs. apply (inj Some) in Hs as ->. reflexivity. }
    split; [done|]. split; [exact Hn|].
    destruct (@validated_store_is_registry (AnyGroup VectorRig PassThrough) (ListQueue RtCommand)
      (AnyGroup_group 1 (fun x => x) demo_N) _ _ _ E) as (_ & Hr & _). by rewrite Hn in Hr.
  - vm_compute in E. done.
Defined.

Lemma coeffs_roundtrip_witness :
  exists c, deserialize_coeffs 1 (one_hz ++ one_hz ++ one_hz) = Ok c
    /\ serialize_coeffs 1 c (replicate 12 0) = Some (one_hz ++ one_hz ++ one_hz).
Proof.
  destruct (coeffs_roundtrip 1 (one_hz ++ one_hz ++ one_hz)) as
    [[E _]|[[E _]|(c & E & _ & _ & _ & Hs)]].
  - repeat (apply Forall_app; split); apply le_bytes_ok.
  - vm_compute in E. done.
  - vm_compute in E. done.
  - exists c. split; [exact E|]. apply Hs. reflexivity.
Defined.

Lemma generator_set_get_witness :
  exists w' g' p, GeneratorGroup_stage 1 (fun x => x) demo_world demo_generator 0 one_hz
      = (w', demo_generator <| gg_pending := GeneratorFrequency f1 |>, Ok (StagedRt p))
    /\ GeneratorGroup_accept w' (demo_generator <| gg_pending := GeneratorFrequency f1 |>) 0
       = Some (w', g')
    /\ GeneratorGroup_get 1 w' g' 0 [0; 0; 0; 0] = Ok (one_hz, 4).
Proof.
  eexists _, _, _. split; [vm_compute; reflexivity|]. split; [reflexivity|].
  refine (proj1 (generator_set_get 1 (fun x => x) demo_world _ _ demo_generator _ _ 0 one_hz _
    _ _ _ _ _) _ [0; 0; 0; 0] eq_refl).
  - by vm_compute.
  - apply le_bytes_ok.
  - reflexivity.
  - vm_compute. reflexivity.
  - reflexivity.
Defined.

Lemma host_operations_keep_loop_witness :
  loop_world_ok (ok := fun _ : PassThrough => True) 1 demo_N
    (store_apply (HG := AnyGroup_group 1 (fun x => x) demo_N) demo_world demo_store
       (OpSet 22 (one_hz ++ one_hz ++ one_hz))).1.1 demo_program.
Proof.
  refine (proj1 (host_operations_keep_loop (R := VectorRig) (fun _ : PassThrough => True) 1
    (fun x => x) demo_N demo_store (OpSet 22 (one_hz ++ one_hz ++ one_hz)) demo_N_ok _
    demo_store_ok _) demo_world demo_program (conj demo_world_ok demo_ok)).
  - split; [lia|]. repeat (apply Forall_app; split); apply le_bytes_ok.
  - apply Forall_nil, I.
Defined.
