(* ===== verification/PicoRig.v ===== *)
(** * The Pico 2W rig (firmware/experiments/pico2w-rig)

    The shipped experiment: [rig.rs], the constants of [config.rs] and
    [telemetry.rs], and the assembly of [main.rs].  The laser words that core 0
    shares with the rig and the counter of the PWM slice are fields of its
    state: they are what it reads at that moment, and core 0 and the hardware
    change them between two operations.  The writes of the converter are the
    words [AnalogSpi.sram_write_exact] puts on the line. *)

From stdpp Require Import strings.
From S2P Require Import Prelude Float32 Phase Harmonics Proto Text ParamPayload Frame Table TableBuffer Ad7609 Ad5064 AnalogSpi Channels Shared Rig Program RtLoop Params Groups GroupLaws.

#[export] Set Default Goal Selector "!".
Open Scope Z_scope.

(** ** Configuration *)

Definition EXPERIMENT : string := "pico2w-rig".
Definition TABLE_CAPACITY : Z := 4096.
Definition HARMONICS : nat := 16.
Definition OUTPUT_CHANNEL : Z := 0.
Definition DEFAULT_LASER_RANGE_MM : float := f32_of_Z 50.
Definition SAMPLE_RATE : SampleRate := Hz8000.

Definition DAC_VREF : float := flit 4096 1000.
Definition DAC_CS_PIN : Z := 9.
Definition DAC_SPI_CONFIG : HotSpiConfig :=
  {| hc_frequency := 16000000; hc_polarity := IdleLow; hc_phase := CaptureOnSecondTransition |}.
Definition DAC_POLARITY : list ChannelPolarity := [Unipolar; Unipolar; Unipolar; Unipolar].

(** ** The rig *)

Record PicoDacRig := {
  pr_dac : Ad5064; pr_tick_pin : bool; pr_output_channel : Z; pr_dac_raw : SramAd5064; pr_pwm_divider : Z;
  (** The words sent so far, and which of them the start-up driver sees refused. *)
  pr_bus : list DacEvent; pr_refuses : Bus unit;
  (** [LASER_VALUE], [LASER_RANGE_MM] and the counter of the PWM slice. *)
  pr_laser_value : Z; pr_laser_range : Z; pr_pwm_ctr : Z }.

(** [PicoDacParts::build]; [None] is a failed assertion of the raw driver. *)
Definition PicoDacParts_build (clk_peri : Z) (refuses : Bus unit) (sample_rate : SampleRate) : option PicoDacRig :=
  device ← RawSpiDevice_new clk_peri DAC_SPI_CONFIG DAC_CS_PIN;
  dac_raw ← SramAd5064_new device DAC_POLARITY DAC_VREF;
  Some {| pr_dac := {| da_polarity := DAC_POLARITY; da_vref := DAC_VREF |}; pr_tick_pin := false;
          pr_output_channel := OUTPUT_CHANNEL; pr_dac_raw := dac_raw;
          pr_pwm_divider := fst (SampleRate_pwm_params sample_rate);
          pr_bus := []; pr_refuses := refuses;
          pr_laser_value := 0; pr_laser_range := f32_to_bits DEFAULT_LASER_RANGE_MM; pr_pwm_ctr := 0 |}.

(** A failure is only logged. *)
Definition pico_init (r : PicoDacRig) : option PicoDacRig :=
  match zero_all_with_delay (pr_refuses r) (pr_dac r) (pr_bus r) with
  | (_, Panic) => None
  | (bus, _) => Some (r <| pr_bus := bus |>)
  end.

Definition pico_measure (r : PicoDacRig) (values : list float) : option (list float) :=
  put values 0 (f32_of_bits (pr_laser_value r)).

(** [self.dac_raw.write_volts]. *)
Definition pico_write (r : PicoDacRig) (channel : Z) (volts : float) : option PicoDacRig :=
  word ← sram_word (pr_dac_raw r) channel volts;
  Some (r <| pr_bus := pr_bus r ++ [Word word] |>).

Definition pico_actuate (r : PicoDacRig) (outputs : list float) : option PicoDacRig :=
  v ← index outputs 0;
  pico_write r (pr_output_channel r) v.

Definition pico_prepare_reboot (r : PicoDacRig) (step : Z) : option (PicoDacRig * bool) :=
  let channel := Z.min step 3 in
  r ← pico_write r channel f0;
  Some (r, 3 <=? step).

Definition pico_tick_phase_us (r : PicoDacRig) : option Z :=
  if umax 32 <? pr_pwm_ctr r * pr_pwm_divider r then None
  else Some (pr_pwm_ctr r * pr_pwm_divider r / 150).

(** [value as usize], on a 32-bit core. *)
Definition as_usize (value : float) : Z := cast_u32 value.

Definition pico_normalise_param (id : Z) (value : float) : option float :=
  if (id =? 0) && (is_finite value && fgt value f0) then Some value
  else if (id =? 1) && (is_finite value && fge value f0 && flt value (f32_of_Z (len DAC_POLARITY))
                        && feq value (f32_of_Z (as_usize value))) then Some value
  else None.

Definition pico_set_param (r : PicoDacRig) (id : Z) (value : float) : PicoDacRig :=
  if id =? 0 then r <| pr_laser_range := f32_to_bits value |>
  else if id =? 1 then r <| pr_output_channel := as_usize value |>
  else r.

(** The operations of the trait do not return where the ones above panic; the
    properties below show that this does not happen. *)
#[export] Instance PicoDacRig_rig : Rig PicoDacRig := {|
  INPUTS := [("laser", "mm")]%string; ACTUATORS := [("out", "V")]%string; SAFETY_GATED := false;
  rig_init r := default r (pico_init r);
  measure r values := (r, default values (pico_measure r values));
  actuate r outputs := default r (pico_actuate r outputs);
  prepare_reboot r step := default (r, true) (pico_prepare_reboot r step);
  clamp_output _ _ v := v; safe_output _ _ := f0; output_fault r _ := (r, false);
  tick_start r := r <| pr_tick_pin := true |>; tick_end r := r <| pr_tick_pin := false |>;
  tick_phase_us := pico_tick_phase_us;
  param_names := ["rig_laser_range"; "rig_out_channel"]%string;
  param_defaults := [DEFAULT_LASER_RANGE_MM; f32_of_Z OUTPUT_CHANNEL];
  normalise_param := pico_normalise_param; set_param := pico_set_param |}.

(** ** The assembly ([main.rs], [telemetry.rs]) *)

(** The statics of [telemetry.rs] behind the parameters, by their positions in
    the telemetry words. *)
Definition EXTRA_PARAMS : list ExtraParam := [
  ExtraParam_f32 "laser" 0;
  ExtraParam_u32 "laser_frames_received" 1;
  ExtraParam_u32_event "laser_uart_errors" 2;
  ExtraParam_u32_event "laser_parse_errors" 3;
  ExtraParam_u32_event "laser_invalid_frames" 4;
  ExtraParam_u32_event "laser_unexpected_values" 5;
  ExtraParam_u32_event "laser_sync_errors" 6]%string.

Section main.
Context {CQ RQ : Type} `{HCQ : SpscQueue CQ RtCommand, HRQ : SpscQueue RQ StreamRecord}.
(** The addresses of the three static buffers, the build's version, and the
    functions of [libm]. *)
Variables (target_id forcing_id table_id : Z) (version : string) (sinf sqrtf : float -> float).

Abbreviation Store := (ParamStore (AnyGroup PicoDacRig PassThrough) CQ).
Abbreviation group := (AnyGroup_group (R := PicoDacRig) (C := PassThrough) HARMONICS sqrtf TABLE_CAPACITY).
Abbreviation PicoProgram := (StandardProgram_program (C := PassThrough) HARMONICS).

(** The statics before [main]. *)
Definition pico_world : World := {|
  w_shared := RtShared_new;
  w_target := DoubleBuffer_from_banks target_id (FourierCoeffs_zero HARMONICS) (FourierCoeffs_zero HARMONICS);
  w_forcing := DoubleBuffer_from_banks forcing_id (FourierCoeffs_zero HARMONICS) (FourierCoeffs_zero HARMONICS);
  w_table := TableBuffer_new table_id TABLE_CAPACITY;
  w_extra := replicate (Z.to_nat MAX_EXTRA_PARAMS) 0 |}.

(** The parameter store with its groups, in order, validated. *)
Definition pico_store (commands : CQ) : option Store :=
  let store : Store := ParamStore_new commands SAMPLE_RATE in
  store ← ParamStore_push (H := group) store (inl (PlatformGroup_new SAMPLE_RATE version EXPERIMENT));
  generator ← GeneratorGroup_new HARMONICS SAMPLE_RATE;
  store ← ParamStore_push (H := group) store (inr (inl generator));
  store ← ParamStore_push (H := group) store (inr (inr (inl (TableGroup_new TABLE_CAPACITY SAMPLE_RATE))));
  control ← ScalarControlGroup_new pass_through (len (INPUTS (R := PicoDacRig)));
  store ← ParamStore_push (H := group) store (inr (inr (inr (inr (inr control)))));
  rig ← RigGroup_new PicoDacRig;
  store ← ParamStore_push (H := group) store (inr (inr (inr (inr (inl rig)))));
  telemetry ← TelemetryGroup_new EXTRA_PARAMS;
  store ← ParamStore_push (H := group) store (inr (inr (inr (inl telemetry))));
  ParamStore_validate (H := group) store (DOMAINS (Program := PicoProgram)).

(** [main], up to the loops of the two cores. *)
Definition pico_main (clk_peri : Z) (refuses : Bus unit) (commands : CQ) (records : RQ)
    : option (World * Store * RtLoopState PicoDacRig (StandardProgram PassThrough) CQ RQ) :=
  let w := pico_world in
  let '(_, target_active) := DoubleBuffer_split (w_target w) in
  let '(_, forcing_active) := DoubleBuffer_split (w_forcing w) in
  let '(_, active_table) := DoubleBuffer_split (w_table w) in
  store ← pico_store commands;
  match validate_sources PicoDacRig (StandardProgram PassThrough) (H0 := PicoProgram) with
  | Ok _ =>
      program ← StandardProgram_new HARMONICS pass_through target_active forcing_active active_table;
      rig ← PicoDacParts_build clk_peri refuses SAMPLE_RATE;
      lut ← SinLut_new sinf;
      st ← run_rt_loop (H0 := PicoProgram) rig program SAMPLE_RATE lut commands records;
      Some (w, store, st)
  | _ => None
  end.
End main.

(** ** Invariants *)

(** A rig as it was built, on a channel of the converter. *)
Record pico_ok (r : PicoDacRig) : Prop := {
  po_raw_polarity : AnalogSpi.sa_polarity (pr_dac_raw r) = DAC_POLARITY;
  po_raw_vref : AnalogSpi.sa_vref (pr_dac_raw r) = DAC_VREF;
  po_dac : pr_dac r = {| da_polarity := DAC_POLARITY; da_vref := DAC_VREF |};
  po_channel : 0 <= pr_output_channel r < 4 }.

(** The word for a voltage on a channel of the rig. *)
Definition pico_word (channel : Z) (volts : float) : list Z :=
  dac_frame WriteAndUpdate channel (default 0 (code_for_volts volts Unipolar DAC_VREF)).

(** A command the rig's parameter group can have queued. *)
Definition rig_command_ok (c : RtCommand) : Prop :=
  cmd_domain c = DOMAIN_RIG -> forall v, cmd_payload c = PF32 v -> pico_normalise_param (cmd_id c) v = Some v.

(** The channel a command leaves. *)
Definition channel_after (channel : Z) (c : RtCommand) : Z :=
  if cmd_domain c =? DOMAIN_RIG then
    match cmd_payload c with
    | PF32 v => if cmd_id c =? 1 then as_usize v else channel
    | _ => channel
    end
  else channel.

(** ** Lemmas *)

Lemma shr_exponent r e n : e <= (shr r e n).2.
Proof. unfold shr. destruct n; cbn [snd]; lia. Qed.

Lemma shr_fexp_exponent prec emax m e l : e <= (shr_fexp prec emax m e l).2.
Proof. apply shr_exponent. Qed.

(** An integer of at least 4 is not below 4.0 after rounding to [f32]. *)
Lemma f32_of_Z_ge_4 k s m e : 4 <= k -> f32_of_Z k = S754_finite s m e -> flt (f32_of_Z k) (f32_of_Z 4) = false.
Proof.
  intros Hk Hf. destruct k as [|p|p]; [lia| |lia].
  destruct (decide (Z.pos p < 8)) as [Hs|Hs].
  { assert (p = 4 \/ p = 5 \/ p = 6 \/ p = 7)%positive as [-> | [-> | [-> | ->]]] by lia; by vm_compute. }
  assert (Hd : 4 <= Z.pos (digits2_pos p)) by (do 3 (destruct p as [p|p|]; [|cbn in *..]; try lia); destruct p; cbn; lia).
  assert (He : -20 <= e); [|rewrite Hf; change (f32_of_Z 4) with (S754_finite false 8388608 (-21));
    unfold flt, SFltb, SFcompare; destruct s; [|by rewrite (proj2 (Z.compare_gt_iff e (-21))) by lia]].
  - unfold f32_of_Z, binary_normalize, binary_round, shl_align in Hf.
    set (ex := fexp 24 128 (Z.pos (digits2_pos p) + 0)) in Hf.
    assert (Hex : -20 <= ex) by (unfold ex, fexp, emin; lia).
    assert (Hmz : exists mz ez, (match ex - 0 with Z.neg d => (Pos.iter xO p d, ex) | _ => (p, 0) end) = (mz, ez) /\ -20 <= ez).
    { destruct (ex - 0); eexists _, _; (split; [reflexivity|]); lia. }
    destruct Hmz as (mz & ez & Hmz & Hez). rewrite Hmz in Hf. unfold binary_round_aux in Hf.
    destruct (shr_fexp 24 128 (Z.pos mz) ez loc_Exact) as [r1 e1] eqn:E1.
    pose proof (shr_fexp_exponent 24 128 (Z.pos mz) ez loc_Exact) as H1. rewrite E1 in H1.
    set (m1 := round_nearest_even _ _) in Hf.
    destruct (shr_fexp 24 128 m1 e1 loc_Exact) as [r2 e2] eqn:E2.
    pose proof (shr_fexp_exponent 24 128 m1 e1 loc_Exact) as H2. rewrite E2 in H2. cbn [snd] in *.
    destruct (shr_m r2); [done| |done]. destruct (_ <=? _); [|done].
    assert (e2 = e) by congruence. lia.
  - exfalso. pose proof (f32_of_Z_nonneg (Z.pos p) ltac:(lia)) as Hn. by rewrite Hf in Hn.
Qed.

(** An accepted channel is one of the converter's. *)
Lemma accepted_channel v v' : pico_normalise_param 1 v = Some v' -> v' = v /\ 0 <= as_usize v < 4.
Proof.
  unfold pico_normalise_param. cbn [Z.eqb Pos.eqb andb]. change (len DAC_POLARITY) with 4.
  destruct (is_finite v) eqn:Ef; [|done]. cbn [andb]. destruct (fge v f0) eqn:Eg; [|done]. cbn [andb].
  destruct (flt v (f32_of_Z 4)) eqn:El; [|done]. cbn [andb].
  destruct (feq v (f32_of_Z (as_usize v))) eqn:Eq; [|done]. intros Hv. apply (inj Some) in Hv as <-.
  split; [done|]. pose proof (cast_u32_fits v) as Hc. unfold as_usize in *. split; [apply Hc|].
  destruct (Z.lt_ge_cases (cast_u32 v) 4) as [|Hge]; [done|]. exfalso.
  destruct v as [s| | |s m e]; try done.
  destruct (f32_of_Z (cast_u32 (S754_finite s m e))) as [s'|s'| |s' m' e'] eqn:Ek; try (by destruct s); try (by destruct s, s').
  assert (Hlt : flt (f32_of_Z (cast_u32 (S754_finite s m e))) (f32_of_Z 4) = false) by (by eapply f32_of_Z_ge_4).
  rewrite Ek in Hlt. clear Ek Hge Hc. unfold feq, SFeqb in Eq.
  assert (E : S754_finite s m e = S754_finite s' m' e'); [|by rewrite E, Hlt in El].
  clear El Hlt Ef Eg. unfold SFcompare in Eq. destruct s, s'; try done;
    destruct (Z.compare_spec e e') as [->| |]; try done; cbn [CompOpp] in Eq;
    change Pos.compare_cont with Pos.compare_cont in Eq; fold (Pos.compare m m') in Eq;
    destruct (Pos.compare_spec m m') as [->| |]; try done.
Qed.

Lemma pico_write_ok r channel v :
  pico_ok r -> 0 <= channel < 4 ->
  pico_write r channel v = Some (r <| pr_bus := pr_bus r ++ [Word (pico_word channel v)] |>).
Proof.
  intros [Hp Hv _ _] Hc. unfold pico_write, sram_word. rewrite Hp, Hv.
  assert (Hi : index DAC_POLARITY channel = Some Unipolar).
  { assert (channel = 0 \/ channel = 1 \/ channel = 2 \/ channel = 3) as [-> | [-> | [-> | ->]]] by lia; done. }
  rewrite Hi, !bind_Some. unfold pico_word. destruct (code_spec v Unipolar DAC_VREF) as (code & -> & _).
  rewrite !bind_Some. cbn [default]. by rewrite wrap_id by (unfold fits; lia).
Qed.

Lemma pico_ok_bus r bus : pico_ok r -> pico_ok (r <| pr_bus := bus |>).
Proof. by intros []. Qed.

Lemma pico_ok_pin r b : pico_ok r -> pico_ok (r <| pr_tick_pin := b |>).
Proof. by intros []. Qed.

Lemma pico_actuate_ok r v :
  pico_ok r -> pico_actuate r [v] = Some (r <| pr_bus := pr_bus r ++ [Word (pico_word (pr_output_channel r) v)] |>).
Proof.
  intros Hr. unfold pico_actuate. change (index [v] 0) with (Some v). rewrite bind_Some.
  apply pico_write_ok; [done|apply Hr].
Qed.

#[export] Instance PicoDacRig_laws : RigLaws PicoDacRig.
Proof.
  split. intros r l. cbn [measure PicoDacRig_rig snd]. unfold pico_measure.
  destruct (put l 0 _) as [l'|] eqn:E; [|done]. by apply blit_length in E.
Qed.

Section commands.
Context {P : Type} `{HP : Program P}.

Lemma pico_command c w (r : PicoDacRig) (p : P) w' r' p' :
  apply_one c (w, r, p) = Some (w', r', p') -> pico_ok r -> rig_command_ok c ->
  pico_ok r' /\ pr_bus r' = pr_bus r /\ pr_laser_value r' = pr_laser_value r
  /\ pr_output_channel r' = channel_after (pr_output_channel r) c.
Proof.
  intros E Hr Hc. unfold apply_one, apply_command in E. unfold channel_after. cbn [set_param PicoDacRig_rig] in E.
  destruct (Z.eqb_spec (cmd_domain c) DOMAIN_RIG) as [Hd|Hd].
  2:{ apply option.bind_Some in E as ([w1 p1] & _ & E). apply (inj Some) in E. by assert (r = r') as -> by congruence. }
  destruct (cmd_payload c) as [|v|v|t] eqn:Ep;
    try (apply (inj Some) in E; assert (r = r') as -> by congruence; done).
  specialize (Hc Hd v Ep). apply (inj Some) in E. assert (r' = pico_set_param r (cmd_id c) v) as -> by congruence.
  unfold pico_set_param. destruct (Z.eqb_spec (cmd_id c) 0) as [->|H0]; [by destruct Hr; split_and!|].
  destruct (Z.eqb_spec (cmd_id c) 1) as [H1|H1]; [|by split_and!]. rewrite H1 in Hc.
  apply accepted_channel in Hc as [_ Hc]. destruct Hr. by split_and!.
Qed.

Lemma pico_commands cs w (r : PicoDacRig) (p : P) w' r' p' :
  for_each apply_one cs (w, r, p) = Some (w', r', p') -> pico_ok r -> Forall rig_command_ok cs ->
  pico_ok r' /\ pr_bus r' = pr_bus r /\ pr_laser_value r' = pr_laser_value r
  /\ pr_output_channel r' = fold_left channel_after cs (pr_output_channel r).
Proof.
  revert w r p. induction cs as [|c cs IH]; intros w r p E Hr Hc.
  { cbn [for_each] in E. apply (inj Some) in E. by assert (r = r') as -> by congruence. }
  cbn [for_each] in E. apply option.bind_Some in E as ([[w1 r1] p1] & E1 & E).
  apply Forall_cons in Hc as [Hc1 Hc]. apply pico_command in E1 as (Hr1 & Hb1 & Hl1 & Hch1); [|done..].
  apply IH in E as (Hr' & Hb & Hl & Hch); [|done..]. cbn [fold_left]. rewrite <-Hch1. by split_and!; [|congruence..|].
Qed.
End commands.

(** *** The shipped configuration *)

Section boot.
Context {CQ RQ : Type} `{HCQ : SpscQueue CQ RtCommand, HRQ : SpscQueue RQ StreamRecord}.
Variables (target_id forcing_id table_id : Z) (version : string) (sinf sqrtf : float -> float).
Abbreviation group := (AnyGroup_group (R := PicoDacRig) (C := PassThrough) HARMONICS sqrtf TABLE_CAPACITY).
Abbreviation idle := (any_idle (R := PicoDacRig) (C := PassThrough) HARMONICS TABLE_CAPACITY).

Definition pico_entries : list (GroupEntry (AnyGroup PicoDacRig PassThrough)) := [
  {| ge_group := inl (PlatformGroup_new SAMPLE_RATE version EXPERIMENT); ge_target := Core0 |};
  {| ge_group := inr (inl {|
       gg_defs := generator_params HARMONICS; gg_sample_rate := SAMPLE_RATE; gg_frequency := f0;
       gg_target := FourierCoeffs_zero HARMONICS; gg_forcing := FourierCoeffs_zero HARMONICS;
       gg_forcing_amplitude_limit := f32_MAX; gg_pending := GeneratorNone |});
     ge_target := TargetProgram DOMAIN_GENERATOR |};
  {| ge_group := inr (inr (inl (TableGroup_new TABLE_CAPACITY SAMPLE_RATE))); ge_target := TargetProgram DOMAIN_TABLE |};
  {| ge_group := inr (inr (inr (inr (inr {| cg_group :=
       {| sg_defs := []; sg_values := replicate (Z.to_nat MAX_CTRL_PARAMS) f0; sg_pending := None |}; cg_input_count := 1 |}))));
     ge_target := TargetProgram DOMAIN_CONTROLLER |};
  {| ge_group := inr (inr (inr (inr (inl {| rg_group :=
       {| sg_defs := [ParamDef_writable "rig_laser_range" F32 1; ParamDef_writable "rig_out_channel" F32 1];
          sg_values := DEFAULT_LASER_RANGE_MM :: replicate 15 f0; sg_pending := None |} |}))));
     ge_target := TargetRig |};
  {| ge_group := inr (inr (inr (inl {| te_values := EXTRA_PARAMS; te_defs := ExtraParam_def <$> EXTRA_PARAMS |})));
     ge_target := Core0 |}]%string.

Lemma pico_store_boots (commands : CQ) :
  pico_store version sqrtf commands
  = Some {| ps_commands := commands; ps_sample_rate := SAMPLE_RATE; ps_entries := pico_entries; ps_validated := true |}.
Proof. vm_compute. reflexivity. Qed.

Lemma pico_store_ok (commands : CQ) :
  let store := {| ps_commands := commands; ps_sample_rate := SAMPLE_RATE; ps_entries := pico_entries; ps_validated := true |} in
  store_ok (HG := group) idle store /\ total_count (H := group) store = 41.
Proof.
  assert (Hn : total_count (H := group) {| ps_commands := commands; ps_sample_rate := SAMPLE_RATE;
    ps_entries := pico_entries; ps_validated := true |} = 41) by (by vm_compute).
  cbv zeta. split; [|exact Hn]. split; [done|rewrite Hn; by vm_compute|]. cbn [ps_entries].
  unfold pico_entries. repeat (apply Forall_cons; split); [..|by apply Forall_nil].
  - by split.
  - split; [|done]. by split.
  - split; [|done]. by split.
  - split; [|done]. split; [done|]. split; [by vm_compute|]. constructor.
  - split; [|done]. split; [done|]. split; [by vm_compute|]. by repeat constructor.
  - split; [|done]. split; [done|]. cbn [te_values]. unfold EXTRA_PARAMS. by repeat constructor.
Qed.

Lemma pico_world_ok : world_ok HARMONICS TABLE_CAPACITY (pico_world target_id forcing_id table_id).
Proof.
  assert (HN : 2 <= TABLE_CAPACITY <= umax 16) by (by split; vm_compute).
  split; [apply fresh_buffer_wf..|]; [done|done| |done]. split; [by apply WaveTable_empty_wf|].
  unfold WaveTable_capacity, WaveTable_empty, len. cbn [wt_values]. by rewrite length_replicate.
Qed.
End boot.

Definition pico_rig_built (refuses : Bus unit) : PicoDacRig := {|
  pr_dac := {| da_polarity := DAC_POLARITY; da_vref := DAC_VREF |}; pr_tick_pin := false;
  pr_output_channel := OUTPUT_CHANNEL;
  pr_dac_raw := {| sa_device := {| rd_config := {| sc_cpsr := 2; sc_scr := 4; sc_cpol := false; sc_cpha := true |};
                                   rd_cs := SioOutPin_new DAC_CS_PIN |};
                   AnalogSpi.sa_polarity := DAC_POLARITY; AnalogSpi.sa_vref := DAC_VREF |};
  pr_pwm_divider := 2; pr_bus := []; pr_refuses := refuses;
  pr_laser_value := 0; pr_laser_range := f32_to_bits DEFAULT_LASER_RANGE_MM; pr_pwm_ctr := 0 |}.

Lemma pico_built refuses : PicoDacParts_build 150000000 refuses SAMPLE_RATE = Some (pico_rig_built refuses).
Proof. reflexivity. Qed.

Definition pico_program (target forcing table : Active) : StandardProgram PassThrough := {|
  st_controller := pass_through; st_generator := HarmonicGenerator_new HARMONICS; st_nominal_increment := 0;
  st_frequency_overridden := false; st_target_coeffs := target; st_forcing_coeffs := forcing;
  st_table_player := TablePlayer_new; st_active_table := table; st_target := f0; st_forcing := f0; st_table := f0;
  st_phase_turns := f0; st_output_enabled := false |}.

Lemma pico_program_new target forcing table :
  StandardProgram_new HARMONICS pass_through target forcing table = Some (pico_program target forcing table).
Proof. reflexivity. Qed.

Lemma pico_program_ok (target_id forcing_id table_id : Z) :
  let active := {| ac_current := 0 |} in
  program_ok (ok := fun _ : PassThrough => True) HARMONICS (pico_world target_id forcing_id table_id)
    (pico_program active active active).
Proof.
  cbv zeta.
  assert (HN : 2 <= TABLE_CAPACITY <= umax 16) by (by split; vm_compute).
  split; [split; [split; cbn; unfold fits; lia|done]|]. split; [cbn; unfold fits; lia|].
  split; [by apply fresh_endpoint_ok|]. split; [by apply fresh_endpoint_ok|]. split; [by apply fresh_endpoint_ok, WaveTable_empty_wf|].
  split; [|exact I]. split; cbn; unfold fits; lia.
Qed.

(** The state in which the loop of the rig starts. *)
Definition pico_loop {CQ RQ : Type} (rig : PicoDacRig) (program : StandardProgram PassThrough) (lut : SinLut)
    (commands : CQ) (records : RQ) : RtLoopState PicoDacRig (StandardProgram PassThrough) CQ RQ := {|
  rl_rig := rig; rl_program := program; rl_sample_rate := SAMPLE_RATE;
  rl_commands := commands; rl_records := records;
  rl_ctx := {| ctx_lut := lut; ctx_sample_rate := SAMPLE_RATE |};
  rl_command_epoch := 0; rl_index := 0; rl_last_tick := None; rl_n_inputs := 1;
  rl_n_program_signals := 4; rl_n_actuators := 1; rl_n_sources := 7 |}.

Lemma pico_loop_starts {CQ RQ} `{HCQ : SpscQueue CQ RtCommand, HRQ : SpscQueue RQ StreamRecord}
    rig program lut (commands : CQ) (records : RQ) :
  run_rt_loop (R := PicoDacRig) (H0 := StandardProgram_program HARMONICS) rig program SAMPLE_RATE lut commands records
  = Some (pico_loop (rig_init rig) program lut commands records).
Proof. reflexivity. Qed.

Abbreviation pico_invariant := (loop_world_ok (ok := fun _ : PassThrough => True) HARMONICS TABLE_CAPACITY).
Abbreviation pico_ctx_ok := (fun ctx => lut_wf (ctx_lut ctx)).

Lemma pico_loop_ok {CQ RQ} `{HCQ : SpscQueue CQ RtCommand, HRQ : SpscQueue RQ StreamRecord}
    target_id forcing_id table_id rig lut (commands : CQ) (records : RQ) :
  lut_wf lut -> Forall (fun c => payload_ok (cmd_payload c)) (q_contents commands) ->
  let active := {| ac_current := 0 |} in
  loop_ok (HP := StandardProgram_program HARMONICS) (I := pico_invariant) (ctx_ok := pico_ctx_ok)
    (pico_world target_id forcing_id table_id) (pico_loop rig (pico_program active active active) lut commands records).
Proof.
  intros Hl Hc active. apply Build_loop_ok.
  - split; [apply pico_world_ok|apply pico_program_ok].
  - exact Hl.
  - reflexivity.
  - reflexivity.
  - reflexivity.
  - by vm_compute.
  - reflexivity.
  - by vm_compute.
  - by vm_compute.
  - unfold fits. cbn [rl_command_epoch pico_loop]. lia.
  - exact Hc.
Qed.

(** The control policy of the rig leaves the frequency alone. *)
Lemma pico_increments_fit : increments_fit PassThrough.
Proof. intros c i cs c' ctx E. by apply (inj Some), pair_equal_spec in E as [_ <-]. Qed.

Lemma pico_built_ok refuses : pico_ok (rig_init (pico_rig_built refuses)).
Proof.
  cbn [rig_init PicoDacRig_rig]. unfold pico_init. destruct (zero_all_with_delay _ _ _) as [bus [| |]]; by split.
Qed.

(** One iteration of the hot loop while a reboot is requested. *)
Lemma hot_step_quiescing {R P CQ RQ} `{Rig R, Program P, SpscQueue CQ RtCommand, SpscQueue RQ StreamRecord}
    w (st : RtLoopState R P CQ RQ) step tick_ok ck host rig :
  RebootShared_is_requested (rs_reboot (w_shared w)) = true -> prepare_reboot (rl_rig st) step = (rig, false) ->
  keeps_request host ->
  exists w', hot_step (Hot w st step) tick_ok ck host
      = Some (Hot w' (st <| rl_rig := rig |>) (saturating_add 8 step 1), Quiescing false)
    /\ RebootShared_is_requested (rs_reboot (w_shared w')) = true.
Proof.
  intros Hq Hp Hh. unfold hot_step. rewrite Hp.
  set (w1 := if tick_ok then w else _). assert (Hq1 : RebootShared_is_requested (rs_reboot (w_shared w1)) = true)
    by (unfold w1; by destruct tick_ok).
  rewrite Hq1. eexists. split; [reflexivity|]. by apply Hh.
Qed.

Lemma hot_step_quiesced {R P CQ RQ} `{Rig R, Program P, SpscQueue CQ RtCommand, SpscQueue RQ StreamRecord}
    w (st : RtLoopState R P CQ RQ) step tick_ok ck host rig :
  RebootShared_is_requested (rs_reboot (w_shared w)) = true -> prepare_reboot (rl_rig st) step = (rig, true) ->
  exists w', hot_step (Hot w st step) tick_ok ck host = Some (Spinning w', Quiescing true).
Proof.
  intros Hq Hp. unfold hot_step. rewrite Hp.
  set (w1 := if tick_ok then w else _). assert (Hq1 : RebootShared_is_requested (rs_reboot (w_shared w1)) = true)
    by (unfold w1; by destruct tick_ok).
  rewrite Hq1. by eexists.
Qed.

(** ** Properties *)

(** C22. One tick of the rig, for any lawful programme and queues and whatever core 0
    does meanwhile, when the queued rig commands are ones the parameter store
    accepts: nothing panics; exactly one word is sent to the converter, the
    write-and-update word for the commanded voltage, on the channel that the
    commands of this tick left, which is one of the four; and the first value
    of the record is the distance the laser task last published. *)
Theorem pico_tick_drives_dac {P CQ RQ : Type} `{Program P, SpscQueue CQ RtCommand, SpscQueue RQ StreamRecord}
    (I : World -> P -> Prop) (ctx_ok : StepCtx -> Prop)
    `{!ProgramLaws P I ctx_ok, !SpscLaws CQ RtCommand, !SpscLaws RQ StreamRecord}
    (w : World) (st : RtLoopState PicoDacRig P CQ RQ) (ck : TickClock) (host : World -> World)
    (Hok : loop_ok (I := I) (ctx_ok := ctx_ok) w st) (Hh : host_ok (I := I) host)
    (Hr : pico_ok (rl_rig st)) (Hc : Forall rig_command_ok (q_contents (rl_commands st))) :
  exists w' st' v,
    let r := rl_rig st in
    let channel := fold_left channel_after (take 2 (q_contents (rl_commands st))) (pr_output_channel r) in
    run_rt_tick w st ck host = Some (w', st', [v])
    /\ pico_ok (rl_rig st') /\ 0 <= channel < 4
    /\ pr_output_channel (rl_rig st') = channel
    /\ pr_bus (rl_rig st') = pr_bus r ++ [Word (pico_word channel v)]
    /\ (len (q_contents (rl_records st)) < q_capacity (rl_records st) ->
        exists record, q_contents (rl_records st') = q_contents (rl_records st) ++ [record]
          /\ index (rec_values record) 0 = Some (f32_of_bits (pr_laser_value r))).
Proof.
  destruct (run_rt_tick_spec w st ck host Hok Hh) as
    (w1 & rig1 & p1 & q1 & rig2 & inputs & w2 & Ef & Eq & Em & Li & Hi1 & Hi2 & _ & Ht).
  assert (Hin : rl_n_inputs st = 1) by (destruct Hok; done).
  assert (Hact : rl_n_actuators st = 1) by (destruct Hok; done).
  pose proof (pico_commands _ _ _ _ _ _ _ Ef (pico_ok_pin _ true Hr)) as Hp.
  destruct Hp as (Hr1 & Hb1 & Hl1 & Hch1); [by apply Forall_take|].
  change (pr_bus (tick_start (rl_rig st))) with (pr_bus (rl_rig st)) in Hb1.
  change (pr_laser_value (tick_start (rl_rig st))) with (pr_laser_value (rl_rig st)) in Hl1.
  change (pr_output_channel (tick_start (rl_rig st))) with (pr_output_channel (rl_rig st)) in Hch1.
  rewrite Hin in Em. change (Z.to_nat 1) with 1%nat in Em. cbn [replicate] in Em.
  assert (rig2 = rig1 /\ inputs = [f32_of_bits (pr_laser_value (rl_rig st))]) as [-> Hinp].
  { rewrite <-Hl1. cbn [measure PicoDacRig_rig] in Em. unfold pico_measure in Em.
    rewrite put_insert in Em by (change (len [f0]) with 1; lia). apply pair_equal_spec in Em as [<- <-].
    by split. }
  set (zeros := replicate (Z.to_nat (MAX_SOURCES - rl_n_inputs st)) f0) in Ht.
  destruct (tick_outputs_spec w w2 rig1 p1 st (inputs ++ zeros) (Safety_load_inputs (rs_safety (w_shared w1))) host Hok Hi2 Hh)
    as (inputs' & w3 & p3 & commanded & _ & _ & Lc & Hi3 & Ho); [rewrite len_app; pose proof (len_nonneg zeros); lia|].
  change (SAFETY_GATED (R := PicoDacRig)) with false in Ho. cbv iota in Ho.
  rewrite Hact in Lc. destruct commanded as [|v commanded]; [done|].
  rewrite len_cons in Lc. assert (commanded = []) as -> by (apply len_zero; lia).
  destruct (Ht _ _ _ _ Ho Hi3) as (w' & st' & slots & signals & E & _ & _ & Erig & _ & _ & _ & _ & _ & _ & Er); [by rewrite Hact|].
  assert (Ea : actuate rig1 [v] = rig1 <| pr_bus := pr_bus rig1 ++ [Word (pico_word (pr_output_channel rig1) v)] |>).
  { cbn [actuate PicoDacRig_rig]. by rewrite pico_actuate_ok. }
  exists w', st', v. split; [exact E|]. rewrite Erig, Ea. split; [by apply pico_ok_pin, pico_ok_bus|].
  change COMMANDS_PER_TICK with 2%nat in Hch1. cbv zeta. rewrite <-Hch1. split; [apply Hr1|]. split; [done|]. split; [cbn; by rewrite Hb1|]. intros Hq.
  edestruct (q_enqueue_ok (rl_records st)) as (q' & Eenq & Eq' & _); [exact Hq|]. rewrite Eenq in Er. cbn [default] in Er.
  eexists. rewrite Er. unfold id. rewrite Eq'. split; [reflexivity|]. cbn [rec_values]. unfold record_of. by rewrite Hinp.
Qed.

(** C38. A requested reboot: the loop calls the rig four times, which sends the word
    for 0 V to each of the four channels, in order, and nothing else; only then
    does it report that it is finished, and the loop spins from there on. *)
Theorem pico_reboot_zeroes {P CQ RQ : Type} `{Program P, SpscQueue CQ RtCommand, SpscQueue RQ StreamRecord}
    (w : World) (st : RtLoopState PicoDacRig P CQ RQ) (env : list (bool * TickClock * (World -> World)))
    (Hr : pico_ok (rl_rig st)) (Hq : RebootShared_is_requested (rs_reboot (w_shared w)) = true)
    (Hk : Forall (fun e => keeps_request e.2) env) (Hl : (4 <= length env)%nat) :
  exists w3 r3 r4 w4,
    hot_run (Hot w st 0) (take 3 env) = Some (Hot w3 (st <| rl_rig := r3 |>) 3, replicate 3 (Quiescing false))
    /\ prepare_reboot r3 3 = (r4, true)
    /\ pr_bus r4 = pr_bus (rl_rig st) ++ ((fun ch => Word (dac_frame WriteAndUpdate ch 0)) <$> [0; 1; 2; 3])
    /\ hot_run (Hot w st 0) env
       = Some (Spinning w4, replicate 3 (Quiescing false) ++ Quiescing true :: replicate (length env - 4) Spun).
Proof.
  destruct env as [|[[o1 c1] h1] [|[[o2 c2] h2] [|[[o3 c3] h3] [|[[o4 c4] h4] env]]]]; cbn [length] in Hl; try lia.
  apply Forall_cons in Hk as [Hk1 Hk]. apply Forall_cons in Hk as [Hk2 Hk].
  apply Forall_cons in Hk as [Hk3 Hk]. apply Forall_cons in Hk as [_ _]. cbn [snd] in *.
  set (add ch (r : PicoDacRig) := r <| pr_bus := pr_bus r ++ [Word (pico_word ch f0)] |>).
  assert (Hp : forall r step, pico_ok r -> 0 <= step < 4 -> prepare_reboot r step = (add step r, 3 <=? step)).
  { intros r step Hok Hs. cbn [prepare_reboot PicoDacRig_rig]. unfold pico_prepare_reboot.
    by rewrite Z.min_l, pico_write_ok by (done || lia). }
  assert (Hadd : forall ch r, pico_ok r -> pico_ok (add ch r)) by (intros; by apply pico_ok_bus).
  destruct (hot_step_quiescing w st 0 o1 c1 h1 (add 0 (rl_rig st)) Hq (Hp (rl_rig st) 0 Hr ltac:(lia))) as (w1 & E1 & Hq1); [done|].
  destruct (hot_step_quiescing w1 (st <| rl_rig := add 0 (rl_rig st) |>) 1 o2 c2 h2 (add 1 (add 0 (rl_rig st))) Hq1) as (w2 & E2 & Hq2);
    [apply Hp; [by apply Hadd|lia]|done|].
  destruct (hot_step_quiescing w2 (st <| rl_rig := add 1 (add 0 (rl_rig st)) |>) 2 o3 c3 h3 (add 2 (add 1 (add 0 (rl_rig st)))) Hq2)
    as (w3 & E3 & Hq3); [apply Hp; [by repeat apply Hadd|lia]|done|].
  destruct (hot_step_quiesced w3 (st <| rl_rig := add 2 (add 1 (add 0 (rl_rig st))) |>) 3 o4 c4 h4
    (add 3 (add 2 (add 1 (add 0 (rl_rig st))))) Hq3) as (w4 & E4);
    [apply Hp; [by repeat apply Hadd|lia]|].
  destruct (spinning_run (R := PicoDacRig) (P := P) (CQ := CQ) (RQ := RQ) w4 env) as (w5 & E5 & _).
  change (saturating_add 8 0 1) with 1 in E1.
  assert (E2' : hot_step (Hot w1 (st <| rl_rig := add 0 (rl_rig st) |>) 1) o2 c2 h2
    = Some (Hot w2 (st <| rl_rig := add 1 (add 0 (rl_rig st)) |>) 2, Quiescing false)) by exact E2.
  assert (E3' : hot_step (Hot w2 (st <| rl_rig := add 1 (add 0 (rl_rig st)) |>) 2) o3 c3 h3
    = Some (Hot w3 (st <| rl_rig := add 2 (add 1 (add 0 (rl_rig st))) |>) 3, Quiescing false)) by exact E3.
  exists w3, (add 2 (add 1 (add 0 (rl_rig st)))), (add 3 (add 2 (add 1 (add 0 (rl_rig st))))), w5.
  split; [cbn [take hot_run]; by rewrite E1, bind_Some, E2', bind_Some, E3', !bind_Some|].
  split; [apply Hp; [by repeat apply Hadd|lia]|]. split.
  - unfold add. cbn [pr_bus set const]. rewrite <-!app_assoc. do 2 f_equal.
  - cbn [hot_run]. rewrite E1, bind_Some, E2', bind_Some, E3', bind_Some, E4, bind_Some, E5, !bind_Some.
    do 2 f_equal. cbn [replicate app length]. by replace (S (S (S (S (length env)))) - 4)%nat with (length env) by lia.
Qed.

(** C20. The shipped configuration boots, whatever the version string, the functions
    of [libm] and the placement of the statics, when the queues are empty and
    the converter takes every word: no assertion of the parameter registry, of
    the source discovery or of the loop fails, the registry has 41 parameters,
    the four channels have been set to 0 V with the settling time between them,
    and the state of both cores satisfies the invariants under which the ticks
    of the loop and the operations of the host were proved correct. *)
Theorem pico_boots {CQ RQ : Type} `{HCQ : SpscQueue CQ RtCommand, HRQ : SpscQueue RQ StreamRecord}
    (target_id forcing_id table_id : Z) (version : string) (sinf sqrtf : float -> float)
    (commands : CQ) (records : RQ) (Hc : q_contents commands = []) :
  exists w store st,
    pico_main target_id forcing_id table_id version sinf sqrtf 150000000 (fun _ => None) commands records = Some (w, store, st)
    /\ store_ok (HG := AnyGroup_group HARMONICS sqrtf TABLE_CAPACITY) (any_idle HARMONICS TABLE_CAPACITY) store
    /\ total_count (H := AnyGroup_group HARMONICS sqrtf TABLE_CAPACITY) store = 41
    /\ loop_ok (HP := StandardProgram_program HARMONICS)
         (I := loop_world_ok (ok := fun _ : PassThrough => True) HARMONICS TABLE_CAPACITY)
         (ctx_ok := fun ctx => lut_wf (ctx_lut ctx)) w st
    /\ pico_ok (rl_rig st)
    /\ pr_bus (rl_rig st) = spaced ((fun ch => dac_frame WriteAndUpdate ch 0) <$> [0; 1; 2; 3]).
Proof.
  destruct (SinLut_new_spec sinf) as (lut & El & Hl & _).
  destruct (pico_store_ok version sqrtf commands) as [Hs Hn].
  assert (Hv : validate_sources PicoDacRig (StandardProgram PassThrough) (H0 := StandardProgram_program HARMONICS) = Ok ())
    by (by vm_compute).
  eexists _, _, _. split.
  { unfold pico_main. cbn [DoubleBuffer_split]. rewrite pico_store_boots, bind_Some, Hv.
    cbv iota. rewrite pico_program_new, bind_Some, pico_built, bind_Some, El, bind_Some, pico_loop_starts, bind_Some.
    reflexivity. }
  split; [exact Hs|]. split; [exact Hn|]. split; [|split; [|by vm_compute]].
  - apply pico_loop_ok; [exact Hl|]. rewrite Hc. constructor.
  - exact (pico_built_ok (fun _ => None)).
Qed.

(** The wake phase is the time since the sample instant: while the counter of
    the slice stays below its top, as it does, the division does not overflow
    and the phase is below the sample period. *)
Theorem pico_phase_in_period (r : PicoDacRig) (rate : SampleRate)
    (Hd : pr_pwm_divider r = fst (SampleRate_pwm_params rate))
    (Hc : 0 <= pr_pwm_ctr r <= snd (SampleRate_pwm_params rate)) :
  exists phase, tick_phase_us r = Some phase /\ 0 <= phase < SampleRate_period_us rate
    /\ 150 * phase <= pr_pwm_ctr r * pr_pwm_divider r < 150 * (phase + 1).
Proof.
  cbn [tick_phase_us PicoDacRig_rig]. unfold pico_tick_phase_us, umax. rewrite Hd.
  assert (H : (0 <= pr_pwm_ctr r * fst (SampleRate_pwm_params rate) < 150 * SampleRate_period_us rate) /\ SampleRate_period_us rate <= 1000)
    by (destruct rate; cbn in *; lia).
  rewrite (proj2 (Z.ltb_ge _ _)) by lia. eexists. split; [done|]. div_lia.
Qed.

(** ** Examples *)

Definition select_channel (v : float) : RtCommand := {| cmd_domain := DOMAIN_RIG; cmd_id := 1; cmd_payload := PF32 v |}.

Abbreviation demo_pico_loop commands :=
  (pico_loop (pico_rig_built (fun _ => None)) (pico_program {| ac_current := 0 |} {| ac_current := 0 |} {| ac_current := 0 |}) test_lut
     {| lq_items := commands; lq_capacity := 31 |} {| lq_items := []; lq_capacity := 255 |}).

Lemma pico_tick_drives_dac_witness :
  exists w' st' v, run_rt_tick (H0 := StandardProgram_program HARMONICS) (pico_world 1 2 3)
      (demo_pico_loop [select_channel (f32_of_Z 2)]) demo_clock (fun w => w) = Some (w', st', [v])
    /\ pr_bus (rl_rig st') = [Word (pico_word 2 v)].
Proof.
  destruct (@pico_tick_drives_dac (StandardProgram PassThrough) (ListQueue RtCommand) (ListQueue StreamRecord)
    (StandardProgram_program HARMONICS) list_queue list_queue pico_invariant pico_ctx_ok
    (loop_program_laws HARMONICS TABLE_CAPACITY pico_increments_fit) list_queue_laws list_queue_laws
    (pico_world 1 2 3) (demo_pico_loop [select_channel (f32_of_Z 2)]) demo_clock (fun w => w))
    as (w' & st' & v & E & _ & _ & _ & Hb & _).
  - apply pico_loop_ok; [by vm_compute|]. apply Forall_cons. split; [exact I|]. apply Forall_nil, I.
  - by intros w p Hi.
  - by split.
  - apply Forall_cons. split; [|apply Forall_nil, I]. intros _ v [= <-]. by vm_compute.
  - exists w', st', v. split; [exact E|]. rewrite Hb. cbn [pr_bus rl_rig pico_loop pico_rig_built app]. do 3 f_equal.
Defined.

Lemma pico_reboot_zeroes_witness :
  exists w4, hot_run (HP := StandardProgram_program HARMONICS) (Hot (with_reboot_requested (pico_world 1 2 3)) (demo_pico_loop []) 0)
      (replicate 5 (true, demo_clock, fun w => w))
    = Some (Spinning w4, replicate 3 (Quiescing false) ++ [Quiescing true; Spun]).
Proof.
  destruct (@pico_reboot_zeroes (StandardProgram PassThrough) (ListQueue RtCommand) (ListQueue StreamRecord)
    (StandardProgram_program HARMONICS) list_queue list_queue
    (with_reboot_requested (pico_world 1 2 3)) (demo_pico_loop []) (replicate 5 (true, demo_clock, fun w => w)))
    as (w3 & r3 & r4 & w4 & _ & _ & _ & E).
  - by split.
  - reflexivity.
  - repeat (apply Forall_cons; split; [by intros w|]). apply Forall_nil, I.
  - rewrite length_replicate. lia.
  - exists w4. exact E.
Defined.

Definition commands0 : ListQueue RtCommand := {| lq_items := []; lq_capacity := 31 |}.
Definition records0 : ListQueue StreamRecord := {| lq_items := []; lq_capacity := 255 |}.

Lemma pico_boots_witness :
  exists w store st, pico_main 1 2 3 "v1" (fun _ => f0) (fun x => x) 150000000 (fun _ => None)
      commands0 records0 = Some (w, store, st)
    /\ pico_ok (rl_rig st).
Proof.
  destruct (pico_boots 1 2 3 "v1" (fun _ => f0) (fun x => x) commands0
    records0) as (w & store & st & E & _ & _ & _ & Hr & _).
  - reflexivity.
  - exists w, store, st. split; [exact E|exact Hr].
Defined.

Lemma pico_phase_in_period_witness :
  exists phase, pico_tick_phase_us ((pico_rig_built (fun _ => None)) <| pr_pwm_ctr := 9374 |>) = Some phase /\ phase < 125.
Proof.
  destruct (pico_phase_in_period ((pico_rig_built (fun _ => None)) <| pr_pwm_ctr := 9374 |>) Hz8000) as (phase & E & Hp & _).
  - reflexivity.
  - by split; vm_compute.
  - exists phase. split; [exact E|]. apply Hp.
Defined.
