(* ===== verification/ExternalRig.v ===== *)
(** * The external acceptance rig (tests/external-rig)

    A programme, a control policy and two rigs written outside the platform's
    workspaces, against its interfaces only.  The programme and the rig are
    instances of [Program] and [Rig] that keep their laws, so that the theorems
    of the real-time loop hold of the fixture; the control policy is an
    instance of [StandardControl] that does not. *)

From stdpp Require Import strings.
From S2P Require Import Prelude Float32 Phase Harmonics Proto Channels Shared Rig Program RtLoop.

#[export] Set Default Goal Selector "!".
Open Scope Z_scope.

(** ** The programme (fixture-program/src/lib.rs) *)

Record FixtureProgram := { fx_bias : float }.

Definition FixtureProgram_new : FixtureProgram := {| fx_bias := f0 |}.

Definition FixtureProgram_apply (p : FixtureProgram) (domain id : Z) (payload : Payload) : FixtureProgram :=
  match payload with
  | PF32 value => if (domain =? 7) && (id =? 0) then {| fx_bias := value |} else p
  | _ => p
  end.

(** [None] is an index out of range. *)
Definition FixtureProgram_step (p : FixtureProgram) (inputs outputs : list float) : option (list float) :=
  v ← index inputs 0; put outputs 0 (fadd v (fx_bias p)).

Definition FIXTURE_SIGNALS : list (string * string) := [("bias", "V")]%string.

#[export] Instance FixtureProgram_program : Program FixtureProgram := {|
  OUTPUTS := 1; INPUTS_REQUIRED := 1; DOMAINS := [7];
  program_apply w p domain id payload := Some (w, FixtureProgram_apply p domain id payload);
  program_step w p inputs _ _ outputs := outputs ← FixtureProgram_step p inputs outputs; Some (w, p, outputs);
  write_signals p out := put out 0 (fx_bias p);
  signal_count := len FIXTURE_SIGNALS; signal i := index FIXTURE_SIGNALS i;
  program_fault _ := false |}.

(** ** The control policy *)

Record FixtureController := { fc_gain : float; fc_last_error : float }.

Definition FixtureController_new : FixtureController := {| fc_gain := f1; fc_last_error := f0 |}.

Definition FixtureController_step (c : FixtureController) (i : StandardControlInputs) (_ : StepCtx)
    : option (FixtureController * ControlStep) :=
  m ← index (in_measured i) 0;
  let c := c <| fc_last_error := fsub (in_reference i) m |> in
  Some (c, {| cs_output := fadd (fadd (fmul (fc_gain c) (fc_last_error c)) (in_forcing i)) (in_table i);
              cs_next_increment := None |}).

Definition FixtureController_apply (c : FixtureController) (id : Z) (payload : Payload) : FixtureController :=
  match payload with PF32 value => if id =? 0 then c <| fc_gain := value |> else c | _ => c end.

Definition FixtureController_names : list string := ["fixture_gain"]%string.

(** What it does not define is the trait's default, its inputs included. *)
#[export] Instance FixtureController_control : StandardControl FixtureController := {|
  control_inputs_required := 0; REFERENCE_UNIT := "V"; TELEMETRY := [("fixture_error", "V")]%string;
  control_step := FixtureController_step; control_apply := FixtureController_apply;
  control_reset c := c <| fc_last_error := f0 |>; set_output_enabled c _ := c;
  control_telemetry c out := default out (put out 0 (fc_last_error c)); control_fault _ := false;
  scalar_param_names := FixtureController_names;
  scalar_param_value c id := if id =? 0 then Some (fc_gain c) else None;
  normalise_scalar_param := default_normalise_scalar FixtureController_names |}.

(** ** The rigs (firmware/src/main.rs, service-firmware/src/main.rs) *)

(** The measured slice; a slice of no values would be a panic and stays as it is. *)
Definition zero_measure (l : list float) : list float := default l (put l 0 f0).

Inductive FixtureRig := fixture_rig.

#[export] Instance FixtureRig_rig : Rig FixtureRig := {|
  INPUTS := [("sense", "V")]%string; ACTUATORS := [("drive", "V")]%string; SAFETY_GATED := false;
  rig_init r := r; measure r l := (r, zero_measure l); actuate r _ := r; prepare_reboot r _ := (r, true);
  clamp_output _ _ x := x; safe_output _ _ := f0; output_fault r _ := (r, false);
  tick_start r := r; tick_end r := r; tick_phase_us _ := None;
  param_names := []; param_defaults := []; normalise_param _ _ := None; set_param r _ _ := r |}.

(** The rig of the service firmware has a pin. *)
Record ServiceRig := { sr_tick_pin : bool }.

#[export] Instance ServiceRig_rig : Rig ServiceRig := {|
  INPUTS := [("sense", "V")]%string; ACTUATORS := [("drive", "V")]%string; SAFETY_GATED := false;
  rig_init r := r <| sr_tick_pin := false |>; measure r l := (r, zero_measure l); actuate r _ := r;
  prepare_reboot r _ := (r, true);
  clamp_output _ _ x := x; safe_output _ _ := f0; output_fault r _ := (r, false);
  tick_start r := r; tick_end r := r; tick_phase_us _ := None;
  param_names := []; param_defaults := []; normalise_param _ _ := None; set_param r _ _ := r |}.

(** [main] of the minimal firmware, up to the loop. *)
Definition fixture_main {CQ RQ : Type} (lut : SinLut) (commands : CQ) (records : RQ)
    : option (RtLoopState FixtureRig FixtureProgram CQ RQ) :=
  run_rt_loop fixture_rig FixtureProgram_new Hz1000 lut commands records.

(** ** Laws *)

#[export] Instance FixtureProgram_signals : ProgramSignals FixtureProgram FIXTURE_SIGNALS.
Proof. by split. Qed.

#[export] Instance FixtureProgram_laws : ProgramLaws FixtureProgram (fun _ _ => True) (fun _ => True).
Proof.
  split; cbn [program_apply program_step write_signals signal_count OUTPUTS INPUTS_REQUIRED FixtureProgram_program].
  - intros. by eexists _, _.
  - intros w p inputs _ _ outputs _ _ Hi Ho _. unfold FixtureProgram_step.
    destruct (index_is_Some inputs 0) as [v ->]; [lia|]. rewrite bind_Some.
    destruct (put_spec outputs 0 (fadd v (fx_bias p))) as (out & -> & Hl & _); [lia|]. rewrite bind_Some.
    by eexists _, _, _.
  - intros w p out _ Hl. change (len FIXTURE_SIGNALS) with 1 in Hl.
    destruct (put_spec out 0 (fx_bias p)) as (out' & -> & Hl' & _); [lia|]. by exists out'.
  - by vm_compute.
  - lia.
  - done.
Qed.

Lemma zero_measure_len l : len (zero_measure l) = len l.
Proof. unfold zero_measure. destruct (put l 0 f0) eqn:E; [|done]. by apply blit_length in E. Qed.

#[export] Instance FixtureRig_laws : RigLaws FixtureRig.
Proof. split. intros. apply zero_measure_len. Qed.

#[export] Instance ServiceRig_laws : RigLaws ServiceRig.
Proof. split. intros. apply zero_measure_len. Qed.

(** ** Specification *)

(** The bias a command leaves. *)
Definition bias_after (bias : float) (c : RtCommand) : float :=
  if (cmd_domain c =? 7) && (cmd_id c =? 0)
  then match cmd_payload c with PF32 value => value | _ => bias end else bias.

Abbreviation fixture_ok := (loop_ok (R := FixtureRig) (HP := FixtureProgram_program)
  (I := fun _ _ => True) (ctx_ok := fun _ => True)).

Lemma fixture_commands cs w (r : FixtureRig) p w' r' p' :
  for_each apply_one cs (w, r, p) = Some (w', r', p') -> fx_bias p' = fold_left bias_after cs (fx_bias p).
Proof.
  revert w r p. induction cs as [|c cs IH]; intros w r p E.
  { cbn [for_each] in E. apply (inj Some) in E. by assert (p = p') as -> by congruence. }
  cbn [for_each] in E. apply option.bind_Some in E as ([[w1 r1] p1] & E1 & E).
  apply IH in E. rewrite E. cbn [fold_left]. f_equal. clear IH E.
  unfold apply_one, apply_command in E1. unfold bias_after. destruct (Z.eqb_spec (cmd_domain c) DOMAIN_RIG) as [Hd|Hd].
  - rewrite Hd. cbn [Z.eqb DOMAIN_RIG andb]. destruct (cmd_payload c); apply (inj Some) in E1; congruence.
  - cbn [program_apply FixtureProgram_program] in E1. rewrite bind_Some in E1. apply (inj Some) in E1.
    assert (p1 = FixtureProgram_apply p (cmd_domain c) (cmd_id c) (cmd_payload c)) as -> by congruence.
    unfold FixtureProgram_apply. by destruct (cmd_payload c), (_ && _).
Qed.

(** ** Properties *)

(** The minimal firmware, over any lawful queues: it passes the assertions of the
    loop, and from a state of its loop every tick returns to one, with the single
    output the measured zero plus the bias that this tick's commands left, and a
    record that carries the measurement and that bias. *)
Theorem fixture_ticks {CQ RQ : Type} `{SpscQueue CQ RtCommand, SpscQueue RQ StreamRecord,
    !SpscLaws CQ RtCommand, !SpscLaws RQ StreamRecord} (w : World) (lut : SinLut) (commands : CQ) (records : RQ)
    (Hc : Forall (fun c => payload_ok (cmd_payload c)) (q_contents commands)) :
  (exists st, fixture_main lut commands records = Some st /\ fixture_ok w st)
  /\ (forall w (st : RtLoopState FixtureRig FixtureProgram CQ RQ) ck host, fixture_ok w st ->
      let bias := fold_left bias_after (take 2 (q_contents (rl_commands st))) (fx_bias (rl_program st)) in
      exists w' st', run_rt_tick w st ck host = Some (w', st', [fadd f0 bias])
        /\ fixture_ok w' st' /\ fx_bias (rl_program st') = bias
        /\ (len (q_contents (rl_records st)) < q_capacity (rl_records st) ->
            exists record, q_contents (rl_records st') = q_contents (rl_records st) ++ [record]
              /\ rec_index record = rl_index st /\ take 2 (rec_values record) = [f0; bias])).
Proof.
  split.
  - eexists. split; [reflexivity|]. split; try done; by vm_compute.
  - clear w lut commands records Hc. intros w st ck host Hok bias.
    destruct (run_rt_tick_spec w st ck host Hok) as
      (w1 & rig1 & p1 & q1 & rig2 & inputs & w2 & Ef & Eq & Em & Li & _ & _ & _ & Ht); [done|].
    assert (Hin : rl_n_inputs st = 1) by (by destruct Hok).
    assert (Hact : rl_n_actuators st = 1) by (by destruct Hok).
    apply fixture_commands in Ef. change COMMANDS_PER_TICK with 2%nat in Ef. fold bias in Ef.
    rewrite Hin in Em. change (Z.to_nat 1) with 1%nat in Em. apply pair_equal_spec in Em as [_ Em].
    change (zero_measure (replicate 1 f0)) with [f0] in Em. subst inputs.
    set (zeros := replicate (Z.to_nat (MAX_SOURCES - rl_n_inputs st)) f0) in Ht.
    destruct (tick_outputs_spec w w2 rig2 p1 st ([f0] ++ zeros) (Safety_load_inputs (rs_safety (w_shared w1))) host Hok)
      as (inputs & w3 & p3 & commanded & Ei & Es & _ & _ & Ho); [done|done|rewrite len_app, Hin; pose proof (len_nonneg zeros); change (len [f0]) with 1; lia|].
    change (SAFETY_GATED (R := FixtureRig)) with false in Ho. cbv iota in Ho.
    rewrite Hin in Ei. change (slice ([f0] ++ zeros) 0 1) with (slice ([] ++ [f0] ++ zeros) 0 1) in Ei.
    rewrite slice_app in Ei by done. apply (inj Some) in Ei as <-.
    rewrite Hact in Es. change (Z.to_nat 1) with 1%nat in Es. cbn [replicate program_step FixtureProgram_program] in Es.
    unfold FixtureProgram_step in Es. change (index [f0] 0) with (Some f0) in Es. rewrite bind_Some in Es.
    change (put [f0] 0 (fadd f0 (fx_bias p1))) with (Some [fadd f0 (fx_bias p1)]) in Es. rewrite bind_Some, Ef in Es.
    apply (inj Some), pair_equal_spec in Es as [Es <-]. apply pair_equal_spec in Es as [_ <-].
    destruct (Ht _ _ _ _ Ho I) as (w' & st' & slots & signals & E & Hok' & _ & _ & Ep & Ee & _ & _ & _ & Ew & Er); [by rewrite Hact|].
    exists w', st'. split; [exact E|]. split; [exact Hok'|]. split; [by rewrite Ep|]. intros Hq.
    edestruct (q_enqueue_ok (rl_records st)) as (q' & Eenq & Eq' & _); [exact Hq|]. rewrite Eenq in Er. cbn [default] in Er.
    eexists. rewrite Er. unfold id. rewrite Eq'. split; [reflexivity|]. split; [done|]. cbn [rec_values]. unfold record_of.
    cbn [write_signals FixtureProgram_program] in Ew. rewrite Ef in Ew. unfold put, blit in Ew.
    destruct (_ && _); [|done]. apply (inj Some) in Ew as <-. by change (Z.to_nat 0) with 0%nat.
Qed.

(** A rig without inputs, with the one actuator of the standard programme. *)
Inductive BlindRig := blind_rig.

#[export] Instance BlindRig_rig : Rig BlindRig := {|
  INPUTS := []; ACTUATORS := [("drive", "V")]%string; SAFETY_GATED := false;
  rig_init r := r; measure r l := (r, l); actuate r _ := r; prepare_reboot r _ := (r, true);
  clamp_output _ _ x := x; safe_output _ _ := f0; output_fault r _ := (r, false);
  tick_start r := r; tick_end r := r; tick_phase_us _ := None;
  param_names := []; param_defaults := []; normalise_param _ _ := None; set_param r _ _ := r |}.

(** The fixture's control policy understates what it reads: it inherits the
    trait's requirement of no inputs, so that the start-up assertions accept it on
    a rig without inputs, and panics on every step there; with an input it
    returns the proportional law.  No condition on its state makes it lawful. *)
Theorem fixture_controller_understates (Hn : nat) :
  validate_sources BlindRig (StandardProgram FixtureController) (H0 := StandardProgram_program Hn) = Ok ()
  /\ (forall c i ctx, in_measured i = [] -> control_step c i ctx = None)
  /\ (forall c m rest r mean f t frame inc ctx,
       control_step c (Build_StandardControlInputs (m :: rest) r mean f t frame inc) ctx
       = Some (c <| fc_last_error := fsub r m |>,
               {| cs_output := fadd (fadd (fmul (fc_gain c) (fsub r m)) f) t; cs_next_increment := None |}))
  /\ (forall ok c, ok c -> ~ ControlLaws FixtureController ok).
Proof.
  split_and!; [by vm_compute| |done|].
  - intros c i ctx Hi. cbn. unfold FixtureController_step. by rewrite Hi.
  - intros ok c Hc [Hstep _ _ _ _].
    destruct (Hstep c (Build_StandardControlInputs [] f0 f0 f0 f0 (hg_frame (HarmonicGenerator_new 0)) 0)
      {| ctx_lut := test_lut; ctx_sample_rate := Hz1000 |} Hc) as (c' & cs & E & _); [done|]. done.
Qed.

(** ** Witnesses *)

Lemma fixture_ticks_witness :
  exists st w' st', fixture_main test_lut
      {| lq_items := [{| cmd_domain := 7; cmd_id := 0; cmd_payload := PF32 f1 |}]; lq_capacity := 31 |}
      {| lq_items := ([] : list StreamRecord); lq_capacity := 255 |} = Some st
    /\ run_rt_tick demo_world st demo_clock (fun w => w) = Some (w', st', [f1])
    /\ fx_bias (rl_program st') = f1.
Proof.
  destruct (fixture_ticks (CQ := ListQueue RtCommand) (RQ := ListQueue StreamRecord) demo_world test_lut
    {| lq_items := [{| cmd_domain := 7; cmd_id := 0; cmd_payload := PF32 f1 |}]; lq_capacity := 31 |}
    {| lq_items := []; lq_capacity := 255 |}) as [(st & E & Hok) Htick]; [by repeat constructor|].
  destruct (Htick demo_world st demo_clock (fun w => w) Hok) as (w' & st' & Et & _ & Eb & _).
  exists st, w', st'. split; [exact E|]. injection E as <-. by split.
Defined.
