(* ===== verification/ServiceRig.v ===== *)
(** * The service firmware of the acceptance rig (tests/external-rig)

    [service-firmware/src/main.rs] assembles the platform's services around the
    fixture's control policy, in an independent workspace and with its own
    capacities: two harmonics, a table of 64 points, 1 kHz.  The rig itself is
    [ServiceRig] of ExternalRig.v.

    The policy understates what it reads ([fixture_controller_understates]), so
    it is no [ControlLaws] instance.  On this rig, which has an input, the
    firmware is sound all the same: the loop does not depend on the declared
    requirement, and the same policy that declares one input is lawful. *)

From stdpp Require Import strings.
From S2P Require Import Prelude Float32 Phase Harmonics Proto ParamPayload Table TableBuffer Channels Shared Rig Program RtLoop Params Groups GroupLaws ExternalRig.

#[export] Set Default Goal Selector "!".
Open Scope Z_scope.

(** ** Configuration *)

Definition SERVICE_EXPERIMENT : string := "fixture-service-rig".
Definition SERVICE_SAMPLE_RATE : SampleRate := Hz1000.
Definition SERVICE_HARMONICS : nat := 2.
Definition SERVICE_TABLE_CAPACITY : Z := 64.

(** ** The assembly *)

Section main.
Context {CQ RQ : Type} `{HCQ : SpscQueue CQ RtCommand, HRQ : SpscQueue RQ StreamRecord}.
(** The addresses of the three static buffers, the build's version, and the
    functions of [libm]. *)
Variables (target_id forcing_id table_id : Z) (version : string) (sinf sqrtf : float -> float).

Abbreviation Store := (ParamStore (AnyGroup ServiceRig FixtureController) CQ).
Abbreviation group := (AnyGroup_group (R := ServiceRig) (C := FixtureController)
  SERVICE_HARMONICS sqrtf SERVICE_TABLE_CAPACITY).
Abbreviation ServiceProgram := (StandardProgram_program (C := FixtureController) SERVICE_HARMONICS).

(** The statics before [main]. *)
Definition service_world : World := {|
  w_shared := RtShared_new;
  w_target := DoubleBuffer_from_banks target_id (FourierCoeffs_zero SERVICE_HARMONICS) (FourierCoeffs_zero SERVICE_HARMONICS);
  w_forcing := DoubleBuffer_from_banks forcing_id (FourierCoeffs_zero SERVICE_HARMONICS) (FourierCoeffs_zero SERVICE_HARMONICS);
  w_table := TableBuffer_new table_id SERVICE_TABLE_CAPACITY;
  w_extra := replicate (Z.to_nat MAX_EXTRA_PARAMS) 0 |}.

(** The parameter store with its groups, in order, validated. *)
Definition service_store (commands : CQ) : option Store :=
  let store : Store := ParamStore_new commands SERVICE_SAMPLE_RATE in
  store ← ParamStore_push (H := group) store (inl (PlatformGroup_new SERVICE_SAMPLE_RATE version SERVICE_EXPERIMENT));
  generator ← GeneratorGroup_new SERVICE_HARMONICS SERVICE_SAMPLE_RATE;
  store ← ParamStore_push (H := group) store (inr (inl generator));
  store ← ParamStore_push (H := group) store (inr (inr (inl (TableGroup_new SERVICE_TABLE_CAPACITY SERVICE_SAMPLE_RATE))));
  control ← ScalarControlGroup_new FixtureController_new (len (INPUTS (R := ServiceRig)));
  store ← ParamStore_push (H := group) store (inr (inr (inr (inr (inr control)))));
  rig ← RigGroup_new ServiceRig;
  store ← ParamStore_push (H := group) store (inr (inr (inr (inr (inl rig)))));
  telemetry ← TelemetryGroup_new [];
  store ← ParamStore_push (H := group) store (inr (inr (inr (inl telemetry))));
  ParamStore_validate (H := group) store (DOMAINS (Program := ServiceProgram)).

(** [main], up to the loops of the two cores; the pin starts low ([Board::new]). *)
Definition service_main (commands : CQ) (records : RQ)
    : option (World * Store * RtLoopState ServiceRig (StandardProgram FixtureController) CQ RQ) :=
  let w := service_world in
  let '(_, target_active) := DoubleBuffer_split (w_target w) in
  let '(_, forcing_active) := DoubleBuffer_split (w_forcing w) in
  let '(_, active_table) := DoubleBuffer_split (w_table w) in
  store ← service_store commands;
  match validate_sources ServiceRig (StandardProgram FixtureController) (H0 := ServiceProgram) with
  | Ok _ =>
      program ← StandardProgram_new SERVICE_HARMONICS FixtureController_new target_active forcing_active active_table;
      lut ← SinLut_new sinf;
      st ← run_rt_loop (H0 := ServiceProgram) {| sr_tick_pin := false |} program SERVICE_SAMPLE_RATE lut commands records;
      Some (w, store, st)
  | _ => None
  end.
End main.

(** ** The policy with the requirement it has *)

(** The operations of the fixture's policy, and the input it reads declared. *)
#[local] Instance FixtureController_declared : StandardControl FixtureController := {|
  control_inputs_required := 1; REFERENCE_UNIT := "V"; TELEMETRY := [("fixture_error", "V")]%string;
  control_step := FixtureController_step; control_apply := FixtureController_apply;
  control_reset c := c <| fc_last_error := f0 |>; set_output_enabled c _ := c;
  control_telemetry c out := default out (put out 0 (fc_last_error c)); control_fault _ := false;
  scalar_param_names := FixtureController_names;
  scalar_param_value c id := if id =? 0 then Some (fc_gain c) else None;
  normalise_scalar_param := default_normalise_scalar FixtureController_names |}.

#[local] Instance FixtureController_laws : ControlLaws FixtureController (fun _ => True).
Proof.
  split; try done.
  - intros c i ctx _ Hl. cbn [control_step control_inputs_required FixtureController_declared] in *.
    unfold FixtureController_step. destruct (index_is_Some (in_measured i) 0) as [m ->]; [lia|].
    rewrite bind_Some. by eexists _, _.
  - intros c out. cbn [control_telemetry FixtureController_declared].
    destruct (put out 0 (fc_last_error c)) eqn:E; [|done]. by apply blit_length in E.
Qed.

Lemma service_increments_fit : increments_fit FixtureController (H := FixtureController_declared).
Proof.
  intros c i cs c' ctx. cbn [control_step FixtureController_declared]. unfold FixtureController_step.
  destruct (index _ _); [|done]. rewrite bind_Some. intros E. by apply (inj Some), pair_equal_spec in E as [_ <-].
Qed.

Abbreviation service_program := (StandardProgram_program (C := FixtureController) (H := FixtureController_control) SERVICE_HARMONICS).
Abbreviation declared_program := (StandardProgram_program (C := FixtureController) (H := FixtureController_declared) SERVICE_HARMONICS).
Abbreviation service_invariant :=
  (loop_world_ok (ok := fun _ : FixtureController => True) SERVICE_HARMONICS SERVICE_TABLE_CAPACITY).
Abbreviation service_ctx_ok := (fun ctx => lut_wf (ctx_lut ctx)).
Abbreviation service_ok := (loop_ok (HP := declared_program) (I := service_invariant) (ctx_ok := service_ctx_ok)).
Abbreviation service_group sqrtf := (AnyGroup_group (R := ServiceRig) (C := FixtureController) (HC := FixtureController_control)
  SERVICE_HARMONICS sqrtf SERVICE_TABLE_CAPACITY).
Abbreviation service_idle := (any_idle (R := ServiceRig) (C := FixtureController) SERVICE_HARMONICS SERVICE_TABLE_CAPACITY).

(** ** Lemmas *)

Section boot.
Context {CQ RQ : Type} `{HCQ : SpscQueue CQ RtCommand, HRQ : SpscQueue RQ StreamRecord}.
Variables (target_id forcing_id table_id : Z) (version : string) (sinf sqrtf : float -> float).

Definition service_entries : list (GroupEntry (AnyGroup ServiceRig FixtureController)) := [
  {| ge_group := inl (PlatformGroup_new SERVICE_SAMPLE_RATE version SERVICE_EXPERIMENT); ge_target := Core0 |};
  {| ge_group := inr (inl {|
       gg_defs := generator_params SERVICE_HARMONICS; gg_sample_rate := SERVICE_SAMPLE_RATE; gg_frequency := f0;
       gg_target := FourierCoeffs_zero SERVICE_HARMONICS; gg_forcing := FourierCoeffs_zero SERVICE_HARMONICS;
       gg_forcing_amplitude_limit := f32_MAX; gg_pending := GeneratorNone |});
     ge_target := TargetProgram DOMAIN_GENERATOR |};
  {| ge_group := inr (inr (inl (TableGroup_new SERVICE_TABLE_CAPACITY SERVICE_SAMPLE_RATE))); ge_target := TargetProgram DOMAIN_TABLE |};
  {| ge_group := inr (inr (inr (inr (inr {| cg_group :=
       {| sg_defs := [ParamDef_writable "fixture_gain" F32 1]; sg_values := f1 :: replicate 16 f0; sg_pending := None |};
       cg_input_count := 1 |}))));
     ge_target := TargetProgram DOMAIN_CONTROLLER |};
  {| ge_group := inr (inr (inr (inr (inl {| rg_group :=
       {| sg_defs := []; sg_values := replicate 16 f0; sg_pending := None |} |}))));
     ge_target := TargetRig |};
  {| ge_group := inr (inr (inr (inl {| te_values := []; te_defs := [] |}))); ge_target := Core0 |}]%string.

Definition service_validated (commands : CQ) : ParamStore (AnyGroup ServiceRig FixtureController) CQ :=
  {| ps_commands := commands; ps_sample_rate := SERVICE_SAMPLE_RATE; ps_entries := service_entries; ps_validated := true |}.

Lemma service_store_boots (commands : CQ) : service_store version sqrtf commands = Some (service_validated commands).
Proof. vm_compute. reflexivity. Qed.

Lemma service_store_ok (commands : CQ) :
  store_ok (HG := service_group sqrtf) service_idle (service_validated commands)
  /\ total_count (H := service_group sqrtf) (service_validated commands) = 33.
Proof.
  assert (Hn : total_count (H := service_group sqrtf) (service_validated commands) = 33) by (by vm_compute).
  split; [|exact Hn]. split; [done|rewrite Hn; by vm_compute|]. cbn [ps_entries service_validated].
  unfold service_entries. repeat (apply Forall_cons; split); [..|by apply Forall_nil].
  - by split.
  - split; [|done]. by split.
  - split; [|done]. by split.
  - split; [|done]. split; [done|]. split; [by vm_compute|]. by repeat constructor.
  - split; [|done]. split; [done|]. split; [by vm_compute|]. constructor.
  - split; [|done]. split; [done|]. constructor.
Qed.

Lemma service_world_ok : world_ok SERVICE_HARMONICS SERVICE_TABLE_CAPACITY (service_world target_id forcing_id table_id).
Proof.
  assert (HN : 2 <= SERVICE_TABLE_CAPACITY <= umax 16) by (by split; vm_compute).
  split; [apply fresh_buffer_wf..|]; [done|done| |done]. split; [by apply WaveTable_empty_wf|].
  unfold WaveTable_capacity, WaveTable_empty, len. cbn [wt_values]. by rewrite length_replicate.
Qed.
End boot.

Definition fresh_service_program : StandardProgram FixtureController := {|
  st_controller := FixtureController_new; st_generator := HarmonicGenerator_new SERVICE_HARMONICS; st_nominal_increment := 0;
  st_frequency_overridden := false; st_target_coeffs := {| ac_current := 0 |}; st_forcing_coeffs := {| ac_current := 0 |};
  st_table_player := TablePlayer_new; st_active_table := {| ac_current := 0 |}; st_target := f0; st_forcing := f0; st_table := f0;
  st_phase_turns := f0; st_output_enabled := false |}.

Lemma fresh_service_program_ok target_id forcing_id table_id :
  program_ok (ok := fun _ : FixtureController => True) SERVICE_HARMONICS (service_world target_id forcing_id table_id)
    fresh_service_program.
Proof.
  assert (HN : 2 <= SERVICE_TABLE_CAPACITY <= umax 16) by (by split; vm_compute).
  split; [split; [split; cbn; unfold fits; lia|done]|]. split; [cbn; unfold fits; lia|].
  split; [by apply fresh_endpoint_ok|]. split; [by apply fresh_endpoint_ok|].
  split; [by apply fresh_endpoint_ok, WaveTable_empty_wf|].
  split; [|exact I]. split; cbn; unfold fits; lia.
Qed.

(** The state in which the loop of the rig starts. *)
Definition service_loop {CQ RQ : Type} (lut : SinLut) (commands : CQ) (records : RQ)
    : RtLoopState ServiceRig (StandardProgram FixtureController) CQ RQ := {|
  rl_rig := {| sr_tick_pin := false |}; rl_program := fresh_service_program; rl_sample_rate := SERVICE_SAMPLE_RATE;
  rl_commands := commands; rl_records := records;
  rl_ctx := {| ctx_lut := lut; ctx_sample_rate := SERVICE_SAMPLE_RATE |};
  rl_command_epoch := 0; rl_index := 0; rl_last_tick := None; rl_n_inputs := 1;
  rl_n_program_signals := 5; rl_n_actuators := 1; rl_n_sources := 8 |}.

Lemma service_loop_starts {CQ RQ} `{HCQ : SpscQueue CQ RtCommand, HRQ : SpscQueue RQ StreamRecord}
    lut (commands : CQ) (records : RQ) :
  run_rt_loop (R := ServiceRig) (H0 := service_program) {| sr_tick_pin := false |} fresh_service_program SERVICE_SAMPLE_RATE
    lut commands records = Some (service_loop lut commands records).
Proof. reflexivity. Qed.

Lemma service_loop_ok {CQ RQ} `{HCQ : SpscQueue CQ RtCommand, HRQ : SpscQueue RQ StreamRecord}
    target_id forcing_id table_id lut (commands : CQ) (records : RQ) :
  lut_wf lut -> Forall (fun c => payload_ok (cmd_payload c)) (q_contents commands) ->
  service_ok (service_world target_id forcing_id table_id) (service_loop lut commands records).
Proof.
  intros Hl Hc. apply Build_loop_ok; try done; try (by vm_compute).
  - split; [apply service_world_ok|apply fresh_service_program_ok].
Qed.

(** The declaration of inputs is all in which the two policies differ, and no
    tick reads it. *)
Lemma declared_tick {CQ RQ} `{HCQ : SpscQueue CQ RtCommand, HRQ : SpscQueue RQ StreamRecord}
    w (st : RtLoopState ServiceRig (StandardProgram FixtureController) CQ RQ) ck host :
  run_rt_tick (H0 := service_program) w st ck host = run_rt_tick (H0 := declared_program) w st ck host.
Proof. reflexivity. Qed.

(** ** Property *)

(** The service firmware, whatever the version string, the functions of [libm]
    and the placement of the statics, when the queues are empty: no assertion
    of the registry, of the source discovery or of the loop fails; the registry
    has 33 parameters, among them the gain that the policy declares; and although the policy understates
    the inputs that it reads, the loop starts in an invariant under which every
    tick returns, drives the one actuator, and which host operations and ticks
    keep. *)
Theorem service_boots {CQ RQ : Type} `{HCQ : SpscQueue CQ RtCommand, HRQ : SpscQueue RQ StreamRecord,
    !SpscLaws CQ RtCommand, !SpscLaws RQ StreamRecord}
    (target_id forcing_id table_id : Z) (version : string) (sinf sqrtf : float -> float)
    (commands : CQ) (records : RQ) (Hc : q_contents commands = []) :
  exists w store st,
    service_main target_id forcing_id table_id version sinf sqrtf commands records = Some (w, store, st)
    /\ store_ok (HG := service_group sqrtf) service_idle store
    /\ (exists i def, ParamStore_def (H := service_group sqrtf) store i = Some (Some def)
        /\ def_name def = "fixture_gain"%string /\ total_count (H := service_group sqrtf) store = 33)
    /\ service_ok w st
    /\ forall w (st : RtLoopState ServiceRig (StandardProgram FixtureController) CQ RQ) ck host,
         service_ok w st -> host_ok (I := service_invariant) host ->
         exists w' st' v, run_rt_tick (H0 := service_program) w st ck host = Some (w', st', [v]) /\ service_ok w' st'.
Proof.
  destruct (SinLut_new_spec sinf) as (lut & El & Hl & _).
  destruct (service_store_ok version sqrtf commands) as [Hs Hn].
  assert (Hv : validate_sources ServiceRig (StandardProgram FixtureController) (H0 := service_program) = Ok ())
    by (by vm_compute).
  eexists (service_world target_id forcing_id table_id), (service_validated version commands), _. split; [|split; [exact Hs|split; [|split]]].
  - unfold service_main. cbn [DoubleBuffer_split]. rewrite service_store_boots, bind_Some, Hv.
    cbv iota. change (StandardProgram_new _ _ _ _ _) with (Some fresh_service_program).
    rewrite bind_Some, El, bind_Some, service_loop_starts, bind_Some. reflexivity.
  - exists 32, (ParamDef_writable "fixture_gain" F32 1). split; [by vm_compute|]. split; [done|exact Hn].
  - apply service_loop_ok; [exact Hl|]. rewrite Hc. constructor.
  - intros w st ck host Hok Hh. rewrite declared_tick.
    destruct (run_rt_tick_returns (R := ServiceRig) (HP := declared_program) (I := service_invariant) (ctx_ok := service_ctx_ok)
      (ProgramLaws0 := loop_program_laws SERVICE_HARMONICS SERVICE_TABLE_CAPACITY service_increments_fit) w st ck host Hok Hh)
      as (w' & st' & applied & E & Hok' & La & _).
    rewrite (lo_actuators _ _ Hok) in La. destruct applied as [|v [|v2 rest]]; [done| |rewrite !len_cons in La; pose proof (len_nonneg rest); change (len (ACTUATORS (R := ServiceRig))) with 1 in La; lia].
    exists w', st', v. split; [exact E|exact Hok'].
Qed.

(** ** Witness *)

Lemma service_boots_witness :
  exists w store st, service_main 1 2 3 "v1" (fun _ => f0) (fun x => x)
      {| lq_items := ([] : list RtCommand); lq_capacity := 31 |} {| lq_items := ([] : list StreamRecord); lq_capacity := 255 |}
      = Some (w, store, st)
    /\ exists w' st' v, run_rt_tick (H0 := service_program) w st demo_clock (fun w => w) = Some (w', st', [v]).
Proof.
  destruct (service_boots (CQ := ListQueue RtCommand) (RQ := ListQueue StreamRecord) 1 2 3 "v1" (fun _ => f0) (fun x => x)
    {| lq_items := []; lq_capacity := 31 |} {| lq_items := []; lq_capacity := 255 |}) as (w & store & st & E & _ & _ & Hok & Ht).
  - reflexivity.
  - exists w, store, st. split; [exact E|].
    destruct (Ht w st demo_clock (fun w => w) Hok) as (w' & st' & v & Et & _); [by intros ? ? ?|]. exists w', st', v. exact Et.
Defined.
