(* ===== verification/ControlDemo.v ===== *)
(** * A control connection to the standard programme

    The control server of [ControlServer] over the parameter store of
    [GroupLaws]: what the server assumes of the groups and of the shared memory
    holds for the standard programme. *)

From stdpp Require Import strings.
From S2P Require Import Prelude Float32 Harmonics Proto Text ParamPayload Crc Frame StreamPacket.
From S2P Require Import Channels StreamTask Shared Rig Program RtLoop Params Groups ControlServer GroupLaws.

#[export] Set Default Goal Selector "!".
Open Scope Z_scope.

Lemma with_safety_ok Hn N w f : world_ok Hn N w -> world_ok Hn N (with_safety w f).
Proof. apply world_ok_shared. Qed.

(** A host at address 7; nothing happens on the other core. *)
Definition demo_env : Environment := {|
  en_remote := Some 7; en_uptime_ms := 1234; en_shared := fun w => w; en_streamer := fun s => s;
  en_core1 := fun w => w; en_rom_reboot := 0; en_written := true |}.

Lemma demo_env_ok Hn N : environment_ok (world_ok := world_ok Hn N) demo_env.
Proof. by split. Defined.

Definition demo_server : Server (AnyGroup VectorRig PassThrough) (ListQueue RtCommand) := {|
  sv_world := demo_world; sv_store := demo_store; sv_stream := STREAM |}.

(** A status request, then a byte of a second request that never completes. *)
Definition demo_input : list Z := frame_bytes (MsgType_u8 Status) 5 [] ++ [0x48].

Lemma control_connection_safe_witness :
  exists sv' output ending replies,
    control_connection (R := VectorRig) (P := PhaseProgram)
        (H1 := AnyGroup_group 1 (fun x => x) demo_N) [demo_env; demo_env] demo_server demo_input
      = Some (sv', output, ending)
    /\ output = reply_bytes replies
    /\ answers (set_reboots (HG := AnyGroup_group 1 (fun x => x) demo_N) (CQ := ListQueue RtCommand)
                  (world_ok := world_ok 1 demo_N) (idle := any_idle 1 demo_N))
         [demo_env; demo_env] demo_input replies ending
    /\ str_enabled (sv_stream sv') = false.
Proof.
  pose proof (@control_connection_safe VectorRig PhaseProgram (AnyGroup VectorRig PassThrough)
    (ListQueue RtCommand) VectorRig_rig PhaseProgram_program (AnyGroup_group 1 (fun x => x) demo_N)
    list_queue (world_ok 1 demo_N) (any_idle 1 demo_N) [("phase", "turn")]%string
    (AnyGroup_laws 1 (fun x => x) demo_N demo_N_ok) list_queue_laws PhaseProgram_signals
    (fun w => with_safety_ok 1 demo_N w Safety_disarm)
    (fun w state => world_ok_shared 1 demo_N w _)
    [demo_env; demo_env] demo_server demo_input) as H.
  destruct H as (sv' & output & ending & replies & E & Ho & Ha & _ & He & _).
  - apply Forall_cons. split; [apply demo_env_ok|]. apply Forall_cons. split; [apply demo_env_ok|].
    apply Forall_nil, I.
  - split; [exact demo_store_ok|exact demo_world_ok|exact STREAM_inv].
  - bytes_solve.
  - exists sv', output, ending, replies. split; [exact E|]. split; [exact Ho|]. split; [exact Ha|exact He].
Defined.
