(* ===== verification/EndToEnd.v ===== *)
(** * The broker and the MCU together

    The broker's discovery ([Upstream]) against the control server of the
    firmware ([ControlServer]), byte for byte over the control connection. *)

From stdpp Require Import strings.
From S2P Require Import Prelude Float32 Harmonics Proto Text ParamPayload Crc Frame StreamPacket.
From S2P Require Import Channels StreamTask Shared Rig Program RtLoop Params Groups ControlServer.
From S2P Require Import GroupLaws ControlDemo Upstream.

#[export] Set Default Goal Selector "!".
Open Scope Z_scope.

(** ** Specification *)

(** A registry discovery can carry: encodable names without a NUL byte, and
    parameters that hold something. *)
Definition describable (definition : Z -> option Definition_) (total : Z) : Prop :=
  forall i, 0 <= i < total -> exists name ty count writable,
    definition i = Some (name, ty, count, writable) /\ name_ok name = true
    /\ Forall (fun b => b <> 0) (str_bytes name) /\ 0 < count < 2 ^ 16.

(** What the broker makes of a definition. *)
Definition described (i : Z) (d : Definition_) : ParameterDefinition :=
  let '(name, ty, count, _) := d in
  {| pd_index := i; pd_name := str_bytes name; pd_type_code := ParamType_u8 ty; pd_count := count |}.

Fixpoint discovered (definition : Z -> option Definition_) (start : Z) (n : nat)
    : list ParameterDefinition :=
  match n with
  | O => []
  | S n => match definition start with
           | Some d => described start d :: discovered definition (start + 1) n
           | None => []
           end
  end.

(** ** Lemmas: a page *)

Lemma describable_registry definition total : describable definition total -> registry_ok definition total.
Proof. intros H i Hi. destruct (H i Hi) as (name & ty & count & w & E & Hn & _). by exists name, ty, count, w. Qed.

Lemma utf8_ascii l : Forall (fun b => 0 <= b < 128) l -> utf8_valid l = true.
Proof.
  induction 1 as [|b l Hb _ IH]; [done|]. cbn [utf8_valid].
  assert (within 0 0x7F b = true) as -> by (apply andb_true_iff; split; apply Z.leb_le; lia). exact IH.
Qed.

Lemma str_ascii_bytes s : str_is_ascii s = true -> Forall (fun b => 0 <= b < 128) (str_bytes s).
Proof.
  unfold str_is_ascii, bytes_is_ascii. intros H. apply Forall_forall. intros b Hb.
  pose proof (proj1 (forallb_forall _ _) H b (proj1 (list_elem_of_In _ _) Hb)) as Hl%Z.ltb_lt.
  pose proof (proj1 (Forall_forall _ _) (str_bytes_ok s) b Hb) as [? _]. lia.
Qed.

Lemma nul_position_app l rest : Forall (fun b => b <> 0) l -> nul_position (l ++ 0 :: rest) = Some (len l).
Proof.
  induction 1 as [|b l Hb _ IH]; [done|]. cbn [app nul_position].
  rewrite (proj2 (Z.eqb_neq _ _) Hb), IH, bind_Some, len_cons. f_equal. lia.
Qed.

Lemma described_size i d name ty count writable :
  d = (name, ty, count, writable) -> 0 < count -> ParameterDefinition_size (described i d) <> 0.
Proof. intros -> Hc. unfold ParameterDefinition_size, described. cbn [pd_type_code pd_count]. destruct ty; cbn; lia. Qed.

(** One definition of a page. *)
Lemma parse_page_step fuel pre rest i result name ty count writable :
  name_ok name = true -> Forall (fun b => b <> 0) (str_bytes name) -> 0 < count < 2 ^ 16 -> i + 1 <= umax 16 ->
  parse_page (S fuel) (pre ++ param_bytes (name, ty, count, writable) ++ rest) (len pre) i result
  = parse_page fuel (pre ++ param_bytes (name, ty, count, writable) ++ rest)
      (len pre + str_len name + 5) (i + 1)
      (result ++ [described i (name, ty, count, writable)]).
Proof.
  intros Hn Hz Hc Hi. set (payload := pre ++ _).
  pose proof (len_param_bytes name ty count writable) as Lp. pose proof (str_len_nonneg name).
  assert (L : len payload = len pre + (str_len name + 5) + len rest)
    by (subst payload; rewrite !len_app; lia).
  pose proof (len_nonneg rest). pose proof (len_nonneg pre).
  assert (E1 : payload = pre ++ str_bytes name ++ 0 :: ParamType_u8 ty :: le16 count ++ Z.b2z writable :: rest)
    by (subst payload; unfold param_bytes; by rewrite <-!app_assoc).
  assert (Hdrop : drop (Z.to_nat (len pre)) payload
    = str_bytes name ++ 0 :: ParamType_u8 ty :: le16 count ++ Z.b2z writable :: rest)
    by (rewrite E1; apply drop_app_length'; unfold len; lia).
  cbn [parse_page]. rewrite (proj2 (Z.leb_gt _ _)) by lia.
  rewrite slice_ok by lia. rewrite bind_or_panic, Hdrop.
  rewrite take_ge by (rewrite <-Hdrop, length_drop; unfold len in *; lia).
  rewrite nul_position_app by done. cbn [ok_or]. rewrite bind_Ok. fold (str_len name).
  rewrite (proj2 (Z.ltb_ge _ _)) by lia. rewrite slice_ok by lia. rewrite bind_or_panic, Hdrop.
  rewrite take_app_length' by (unfold str_len, len; lia).
  unfold name_ok in Hn. apply andb_true_iff in Hn as [_ Ha].
  unfold from_utf8. rewrite utf8_ascii by by apply str_ascii_bytes. rewrite bind_Ok.
  assert (I1 : index payload (len pre + str_len name + 1) = Some (ParamType_u8 ty)).
  { rewrite E1. change (str_bytes name ++ 0 :: ?l) with (str_bytes name ++ [0] ++ l).
    rewrite !app_assoc. apply index_app. rewrite !len_app. unfold str_len. change (len [0]) with 1. lia. }
  rewrite I1, bind_or_panic.
  assert (I2 : u16_at payload (len pre + str_len name + 2) = Some count).
  { rewrite E1. change (str_bytes name ++ 0 :: ParamType_u8 ty :: ?l)
      with (str_bytes name ++ [0; ParamType_u8 ty] ++ l).
    rewrite (app_assoc (str_bytes name)), (app_assoc pre).
    apply u16_at_app; [|unfold fits; lia]. rewrite !len_app. unfold str_len.
    change (len [0; ParamType_u8 ty]) with 2. lia. }
  rewrite I2, bind_or_panic.
  assert (I3 : index payload (len pre + str_len name + 4) = Some (Z.b2z writable)).
  { rewrite E1. change (str_bytes name ++ 0 :: ParamType_u8 ty :: ?l)
      with (str_bytes name ++ [0; ParamType_u8 ty] ++ l).
    rewrite !app_assoc. apply index_app. rewrite !len_app. unfold str_len.
    change (len [0; ParamType_u8 ty]) with 2. change (len (le16 count)) with 2. lia. }
  rewrite I3, bind_or_panic. rewrite (proj2 (Z.ltb_ge 1 _)) by (destruct writable; cbn; lia).
  change (Build_ParameterDefinition i (str_bytes name) (ParamType_u8 ty) count)
    with (described i (name, ty, count, writable)).
  rewrite (proj2 (Z.eqb_neq _ _)) by (eapply described_size; [done|lia]).
  by rewrite (proj2 (Z.ltb_ge _ _)).
Qed.

Lemma parse_page_entries definition total fuel pre i n result :
  describable definition total -> 0 <= i -> i + Z.of_nat n <= total -> total <= umax 16 -> (n <= fuel)%nat ->
  parse_page fuel (pre ++ entries_bytes definition i n) (len pre) i result
  = Ok (result ++ discovered definition i n, i + Z.of_nat n).
Proof.
  intros Hd Hi Hn Ht Hf. revert pre fuel i result Hi Hn Hf.
  induction n as [|n IH]; intros pre fuel i result Hi Hn Hf; cbn [entries_bytes discovered].
  - rewrite !app_nil_r. destruct fuel; cbn [parse_page]; rewrite Z.leb_refl; do 2 f_equal; lia.
  - destruct fuel as [|fuel]; [lia|].
    destruct (Hd i ltac:(lia)) as (name & ty & count & writable & E & Hname & Hz & Hc). rewrite E.
    rewrite parse_page_step by (done || lia).
    rewrite app_assoc. replace (len pre + str_len name + 5)
      with (len (pre ++ param_bytes (name, ty, count, writable))) by (rewrite len_app, len_param_bytes; lia).
    rewrite IH by lia. rewrite <-app_assoc. do 2 f_equal. lia.
Qed.

Lemma discovered_app definition total i n m :
  describable definition total -> 0 <= i -> i + Z.of_nat n + Z.of_nat m <= total ->
  discovered definition i (n + m) = discovered definition i n ++ discovered definition (i + Z.of_nat n) m.
Proof.
  intros Hd. revert i. induction n as [|n IH]; intros i Hi Hn; cbn [discovered Nat.add app].
  - by rewrite Z.add_0_r.
  - destruct (Hd i ltac:(lia)) as (name & ty & count & writable & -> & _). rewrite IH by lia.
    cbn [app]. do 3 f_equal. lia.
Qed.

Lemma entries_bytes_ext f g i n :
  (forall j, f j = g j) -> entries_bytes f i n = entries_bytes g i n.
Proof.
  intros Hfg. revert i. induction n as [|n IH]; intros i; [done|]. cbn [entries_bytes].
  rewrite Hfg. destruct (g i); [by rewrite IH|done].
Qed.

Lemma len_entries definition total i n :
  describable definition total -> 0 <= i -> i + Z.of_nat n <= total ->
  5 * Z.of_nat n <= len (entries_bytes definition i n).
Proof.
  intros Hd. revert i. induction n as [|n IH]; intros i Hi Hn; [apply len_nonneg|]. cbn [entries_bytes].
  destruct (Hd i ltac:(lia)) as (name & ty & count & w & -> & _). rewrite len_app, len_param_bytes.
  pose proof (str_len_nonneg name). specialize (IH (i + 1)). lia.
Qed.

Lemma entries_bytes_ok definition i n : bytes_ok (entries_bytes definition i n).
Proof.
  revert i. induction n as [|n IH]; intros i; cbn [entries_bytes]; [constructor|].
  destruct (definition i) as [[[[name ty] count] w]|]; [|constructor]. apply Forall_app. split; [|apply IH].
  unfold param_bytes. apply Forall_app. split; [apply str_bytes_ok|].
  apply Forall_cons. split; [done|]. apply Forall_cons. split; [apply ParamType_u8_byte|].
  apply Forall_app. split; [apply le_bytes_ok|]. apply Forall_singleton. by destruct w.
Qed.

(** ** The MCU as the device of a discovery *)

Section mcu.
Context {R P G CQ : Type} `{HR : Rig R, HP : Program P, HG : ParamGroup G, HQ : SpscQueue CQ RtCommand}.
Variable env : Environment.

(** The control server answers each frame it is sent. *)
Definition mcu (d : Server G CQ * list Z) (frame : list Z) : Server G CQ * list Z * option (list Z) :=
  let '(sv, resp) := d in
  match serve_frame (R := R) (P := P) env sv resp frame with
  | Some (Some (sv, resp, bytes, _)) => (sv, resp, Some bytes)
  | _ => (sv, resp, None)
  end.

(** A page of the store, for the response buffer [resp]. *)
Lemma get_params_page (s : ParamStore G CQ) start resp :
  ps_validated s = true -> total_count s <= umax 16 -> describable (store_definition s) (total_count s) ->
  0 <= start < total_count s -> len resp = MAX_PAYLOAD ->
  exists k resp', get_params s (le16 start) resp
      = Ok (resp', len (le16 start ++ le16 (start + Z.of_nat k) ++ entries_bytes (store_definition s) start k))
    /\ len resp' = MAX_PAYLOAD /\ (0 < k)%nat /\ start + Z.of_nat k <= total_count s
    /\ slice resp' 0 (len (le16 start ++ le16 (start + Z.of_nat k) ++ entries_bytes (store_definition s) start k))
       = Some (le16 start ++ le16 (start + Z.of_nat k) ++ entries_bytes (store_definition s) start k).
Proof.
  intros Hv Ht Hd Hs Hr. unfold get_params, decode_param_page_request.
  change (len (le16 start) =? 2) with true. cbn [negb].
  assert (u16_at (le16 start) 0 = Some start) as ->.
  { rewrite <-(app_nil_r (le16 start)). apply (u16_at_app [] []); [done|unfold fits, umax in *; lia]. }
  cbn [or_panic map_err]. rewrite bind_Ok.
  assert (ParamStore_count s = Some (total_count s)) as -> by (unfold ParamStore_count; by rewrite Hv).
  rewrite bind_or_panic. rewrite (proj2 (Z.ltb_ge _ _)), (proj2 (Z.ltb_ge _ start)) by lia.
  match goal with |- context [encode_param_page _ _ _ ?f] => set (callback := f) end.
  assert (Hcb : forall i, callback i = store_definition s i).
  { intros i. subst callback. cbn beta. unfold ParamStore_def, store_definition. rewrite Hv.
    by destruct (def_unchecked s i). }
  assert (Hreg : registry_ok callback (total_count s)).
  { intros i Hi. rewrite Hcb. exact (describable_registry _ _ Hd i Hi). }
  destruct (encode_param_page_spec resp start (total_count s) callback Hreg) as (k & Hk & Hmax & E);
    [lia|rewrite Hr; by vm_compute|]. rewrite (entries_bytes_ext _ _ start k Hcb) in Hmax, E.
  assert (Hk0 : k <> 0%nat).
  { intros ->. destruct Hmax as (name & ty & count & w & Ed & Hl); [lia|]. cbn [entries_bytes] in Hl.
    rewrite Hcb, Z.add_0_r in Ed. destruct (Hd start ltac:(lia)) as (name' & ty' & count' & w' & Ed' & Hn & _).
    rewrite Ed in Ed'. injection Ed' as <- <- <- <-. unfold name_ok in Hn.
    apply andb_true_iff in Hn as [Hn%Z.leb_le _]. unfold MAX_PARAM_NAME_LEN in Hn.
    unfold PARAM_PAGE_HEADER_LEN in Hl. rewrite Hr in Hl. unfold MAX_PAYLOAD, len in Hl. cbn in Hl. lia. }
  rewrite E, bool_decide_false by done. cbn [andb map_err]. cbv zeta.
  set (page := le16 start ++ _). exists k, (page ++ drop (length page) resp).
  assert (Hp : len page <= MAX_PAYLOAD).
  { assert (Hf : fills resp (encode_param_page resp start (total_count s) callback))
      by apply encode_param_page_fills.
    rewrite E, bool_decide_false in Hf by done. cbn in Hf. fold page in Hf. rewrite Hr in Hf. apply Hf. }
  assert (Ld : len (drop (length page) resp) = len resp - len page) by (unfold len in *; rewrite length_drop; lia).
  split; [done|]. split; [rewrite len_app; lia|]. split; [lia|]. split; [lia|].
  fold page. pose proof (len_nonneg page). rewrite slice_ok by (rewrite ?len_app; lia).
  rewrite drop_0, Z.sub_0_r. unfold len. rewrite Nat2Z.id. by rewrite take_app_length.
Qed.

Lemma mcu_get_params sv resp seq start :
  ps_validated (sv_store sv) = true -> total_count (sv_store sv) <= umax 16 ->
  describable (store_definition (sv_store sv)) (total_count (sv_store sv)) ->
  0 <= start < total_count (sv_store sv) -> len resp = MAX_PAYLOAD -> is_byte seq ->
  exists k resp', (0 < k)%nat /\ start + Z.of_nat k <= total_count (sv_store sv) /\ len resp' = MAX_PAYLOAD
    /\ len (le16 start ++ le16 (start + Z.of_nat k) ++ entries_bytes (store_definition (sv_store sv)) start k)
       <= MAX_PAYLOAD
    /\ mcu (sv, resp) (frame_bytes (MsgType_u8 GetParams) seq (le16 start))
       = (sv, resp', Some (frame_bytes (MsgType_u8 GetParams) seq
           (le16 start ++ le16 (start + Z.of_nat k) ++ entries_bytes (store_definition (sv_store sv)) start k))).
Proof.
  intros Hv Ht Hd Hs Hr Hseq. destruct sv as [w s stream]. cbn [sv_store] in *.
  destruct (get_params_page s start resp Hv Ht Hd Hs Hr) as (k & resp' & E & Lr' & Hk & Hle & Hsl).
  exists k, resp'. split; [done|]. split; [done|]. split; [done|]. set (page := le16 start ++ _) in *.
  assert (Hp : len page <= MAX_PAYLOAD).
  { unfold slice in Hsl. destruct (_ && _) eqn:Hb; [|done]. bool_facts. lia. }
  split; [done|].
  unfold mcu, serve_frame. rewrite decode_frame_bytes; [|done|done|apply le_bytes_ok|by vm_compute].
  unfold handle. change (MsgType_from_u8 (MsgType_u8 GetParams)) with (Some GetParams). cbv iota beta.
  unfold pure_reply. rewrite E. cbv iota beta. change (bool_decide (NoAction = Reboot)) with false. cbv iota.
  unfold response_frame. rewrite Hsl, bind_or_panic.
  destruct (slice_encoded (replicate (Z.to_nat MAX_FRAME) 0) (MsgType_u8 GetParams) seq page)
    as (n & buf & -> & ->).
  - rewrite len_replicate. unfold MAX_FRAME, HEADER_LEN, TRAILER_LEN. lia.
  - done.
  - done.
Qed.

Lemma parse_params_page definition total start k result :
  describable definition total -> 0 <= start -> (0 < k)%nat -> start + Z.of_nat k <= total -> total <= umax 16 ->
  parse_params {| ur_message_type := MsgType_u8 GetParams;
                  ur_payload := le16 start ++ le16 (start + Z.of_nat k) ++ entries_bytes definition start k |}
    start total result
  = Ok (result ++ discovered definition start k, start + Z.of_nat k).
Proof.
  intros Hd Hs Hk Hle Ht. unfold parse_params. cbn [ur_message_type ur_payload]. rewrite Z.eqb_refl. cbn [negb orb].
  set (entries := entries_bytes definition start k). pose proof (len_nonneg entries).
  assert (L : len (le16 start ++ le16 (start + Z.of_nat k) ++ entries) = 4 + len entries)
    by (rewrite !len_app; change (len (le16 _)) with 2; lia).
  rewrite (proj2 (Z.ltb_ge _ _)) by lia. unfold umax in Ht.
  assert (u16_at (le16 start ++ le16 (start + Z.of_nat k) ++ entries) 0 = Some start) as ->
    by (apply (u16_at_app []); [done|unfold fits; lia]).
  rewrite bind_or_panic.
  assert (u16_at (le16 start ++ le16 (start + Z.of_nat k) ++ entries) 2 = Some (start + Z.of_nat k)) as ->
    by (apply u16_at_app; [done|unfold fits; lia]).
  rewrite bind_or_panic, Z.eqb_refl, (proj2 (Z.leb_gt _ _)), (proj2 (Z.ltb_ge _ _)) by lia. cbn [negb orb].
  pose proof (parse_page_entries definition total
    (length (le16 start ++ le16 (start + Z.of_nat k) ++ entries)) (le16 start ++ le16 (start + Z.of_nat k))
    start k result Hd Hs Hle ltac:(unfold umax; lia)) as Hp.
  rewrite <-app_assoc in Hp. fold entries in Hp. change (len (le16 start ++ _)) with 4 in Hp.
  rewrite Hp; [by rewrite bind_Ok, Z.eqb_refl|].
  pose proof (len_entries definition total start k Hd Hs Hle) as Hlen. fold entries in Hlen.
  unfold len in *. lia.
Qed.

Lemma discover_loop_mcu fuel u sv resp start result :
  ps_validated (sv_store sv) = true -> total_count (sv_store sv) <= umax 16 ->
  describable (store_definition (sv_store sv)) (total_count (sv_store sv)) ->
  0 <= start <= total_count (sv_store sv) -> (Z.to_nat (total_count (sv_store sv) - start) <= fuel)%nat ->
  len resp = MAX_PAYLOAD -> uc_stream u = [] ->
  exists u' resp', discover_loop mcu fuel (u, (sv, resp)) start (total_count (sv_store sv)) result
    = (u', (sv, resp'), Ok (result ++ discovered (store_definition (sv_store sv)) start
                              (Z.to_nat (total_count (sv_store sv) - start))))
    /\ uc_stream u' = [] /\ len resp' = MAX_PAYLOAD.
Proof.
  intros Hv Ht Hd. set (total := total_count (sv_store sv)) in *.
  revert u resp start result. induction fuel as [|fuel IH]; intros u resp start result Hs Hf Hr Hu.
  all: cbn [discover_loop]; destruct (Z.leb_spec total start) as [Hle|Hlt];
    [exists u, resp; replace (Z.to_nat (total - start)) with 0%nat by lia;
     cbn [discovered]; rewrite app_nil_r; split; [reflexivity|split; assumption]|].
  { lia. }
  assert (Hseq : is_byte (wrapping_add 8 (uc_sequence u) 1)) by (apply wrap_fits; lia).
  destruct (mcu_get_params sv resp (wrapping_add 8 (uc_sequence u) 1) start Hv Ht Hd ltac:(fold total; lia) Hr Hseq)
    as (k & resp' & Hk & Hle & Lr' & Lp & E). fold total in Hle.
  rewrite (session_request_answer mcu u (sv, resp) (sv, resp') (MsgType_u8 GetParams) (MsgType_u8 GetParams)
    (le16 start) _ Hu ltac:(by vm_compute) ltac:(by vm_compute)
    ltac:(apply Forall_app; split; [apply le_bytes_ok|apply Forall_app; split; [apply le_bytes_ok|apply entries_bytes_ok]])
    Lp E).
  clear E Lp. cbn [and_then]. rewrite (parse_params_page _ total) by (done || lia).
  destruct (IH (u <| uc_sequence := wrapping_add 8 (uc_sequence u) 1 |> <| uc_stream := [] |>) resp'
    (start + Z.of_nat k) (result ++ discovered (store_definition (sv_store sv)) start k))
    as (u' & resp'' & E' & Hu' & Lr''); [lia|lia|done|done|].
  exists u', resp''. rewrite E'. split; [|done]. do 2 f_equal. rewrite <-app_assoc. f_equal.
  replace (Z.to_nat (total - start)) with (k + Z.to_nat (total - (start + Z.of_nat k)))%nat by lia.
  by rewrite (discovered_app _ total) by (done || lia).
Qed.
End mcu.

Lemma discovered_lookup definition total i n j :
  describable definition total -> 0 <= i -> i + Z.of_nat n <= total ->
  discovered definition i n !! j
  = (if (j <? n)%nat then described (i + Z.of_nat j) <$> definition (i + Z.of_nat j) else None).
Proof.
  intros Hd. revert i j. induction n as [|n IH]; intros i j Hi Hn; [done|]. cbn [discovered].
  destruct (Hd i ltac:(lia)) as (name & ty & count & w & E & _). rewrite E. destruct j as [|j].
  - cbn. by rewrite Z.add_0_r, E.
  - cbn [lookup list_lookup]. change (list_lookup j ?l) with (l !! j). rewrite IH by lia.
    replace (i + 1 + Z.of_nat j) with (i + Z.of_nat (S j)) by lia. done.
Qed.

Lemma len_discovered definition total i n :
  describable definition total -> 0 <= i -> i + Z.of_nat n <= total -> len (discovered definition i n) = Z.of_nat n.
Proof.
  intros Hd. revert i. induction n as [|n IH]; intros i Hi Hn; [done|]. cbn [discovered].
  destruct (Hd i ltac:(lia)) as (name & ty & count & w & -> & _). rewrite len_cons, IH by lia. lia.
Qed.

(** A list without repeated keys finds an element by its key. *)
Lemma find_key {A K} `{EqDecision K} (key : A -> K) (l : list A) n a :
  NoDup (key <$> l) -> l !! n = Some a -> find (fun b => bool_decide (key b = key a)) l = Some a.
Proof.
  revert n. induction l as [|b l IH]; intros n Hnd Hn; [done|]. cbn [find]. cbn [fmap list_fmap] in Hnd.
  apply NoDup_cons in Hnd as [Hb Hnd]. destruct n as [|n].
  - injection Hn as ->. by rewrite bool_decide_true.
  - rewrite bool_decide_false; [by eapply IH|]. intros E. apply Hb. rewrite E.
    apply list_elem_of_fmap. exists a. split; [done|]. by eapply list_elem_of_lookup_2.
Qed.

(** C15. The broker learns the registry of the firmware: discovering the parameters
    of a control server with a validated store over the control connection
    returns every definition of the store, in order, with its index, name, type
    and count, and leaves the connection without unread bytes and the server
    unchanged; in particular the index of a name is the index the store will
    resolve. *)
Theorem discovery_finds_registry {R P G CQ : Type} `{HR : Rig R, HP : Program P, HG : ParamGroup G,
    HQ : SpscQueue CQ RtCommand} (env : Environment) (u : UpstreamControl) (sv : Server G CQ) (resp : list Z)
    (Hv : ps_validated (sv_store sv) = true) (Ht : total_count (sv_store sv) <= umax 16)
    (Hd : describable (store_definition (sv_store sv)) (total_count (sv_store sv)))
    (Hnames : forall i j d d', 0 <= i < total_count (sv_store sv) -> 0 <= j < total_count (sv_store sv) ->
       store_definition (sv_store sv) i = Some d -> store_definition (sv_store sv) j = Some d' ->
       d.1.1.1 = d'.1.1.1 -> i = j)
    (Hr : len resp = MAX_PAYLOAD) (Hu : uc_stream u = []) :
  exists u' resp' l,
    discover_parameters (mcu (R := R) (P := P) env) (u, (sv, resp)) (total_count (sv_store sv))
    = (u', (sv, resp'), Ok l)
    /\ uc_stream u' = []
    /\ len l = total_count (sv_store sv)
    /\ (forall i d, 0 <= i < total_count (sv_store sv) -> store_definition (sv_store sv) i = Some d ->
          index l i = Some (described i d)
          /\ parameter_index l (str_bytes d.1.1.1) = Some i).
Proof.
  destruct (discover_loop_mcu (R := R) (P := P) env (Z.to_nat (total_count (sv_store sv))) u sv resp 0 [] Hv Ht Hd)
    as (u' & resp' & E & Hu' & _); [pose proof (total_count_nonneg (sv_store sv)); lia|lia|done|done|].
  unfold discover_parameters. rewrite E. cbn [and_then app]. rewrite Z.sub_0_r.
  set (total := total_count (sv_store sv)) in *. set (definition := store_definition (sv_store sv)) in *.
  pose proof (total_count_nonneg (sv_store sv)) as H0. fold total in H0.
  set (l := discovered definition 0 (Z.to_nat total)).
  assert (Hlook : forall j, l !! j = if (j <? Z.to_nat total)%nat then described (Z.of_nat j) <$> definition (Z.of_nat j) else None).
  { intros j. subst l. by rewrite (discovered_lookup _ total) by (done || lia). }
  assert (Hnd : NoDup (pd_name <$> l)).
  { apply NoDup_alt. intros i j name Hi Hj. rewrite list_lookup_fmap, Hlook in Hi, Hj.
    destruct (Nat.ltb_spec i (Z.to_nat total)); [|done]. destruct (Nat.ltb_spec j (Z.to_nat total)); [|done].
    destruct (definition (Z.of_nat i)) as [[[[n1 t1] c1] w1]|] eqn:Ei; [|done].
    destruct (definition (Z.of_nat j)) as [[[[n2 t2] c2] w2]|] eqn:Ej; [|done].
    injection Hi as <-. injection Hj as Hj. apply str_bytes_inj in Hj.
    apply Nat2Z.inj. eapply Hnames; [..|exact Ei|exact Ej|done]; lia. }
  rewrite bool_decide_true by done. exists u', resp', l. split; [done|]. split; [done|].
  split; [subst l; rewrite (len_discovered _ total) by (done || lia); lia|].
  intros i d Hi Ed. assert (Hl : l !! Z.to_nat i = Some (described i d)).
  { rewrite Hlook. destruct (Nat.ltb_spec (Z.to_nat i) (Z.to_nat total)); [|lia].
    rewrite Z2Nat.id by lia. by rewrite Ed. }
  split; [unfold index; by rewrite (proj2 (Z.leb_le _ _)) by lia|].
  unfold parameter_index. assert (Hk : str_bytes d.1.1.1 = pd_name (described i d)) by by destruct d as [[[]]].
  rewrite Hk, (find_key pd_name l _ _ Hnd Hl). by destruct d as [[[]]].
Qed.

(** ** Example: the store of the standard programme *)

Definition describable_test (definition : Z -> option Definition_) (i : Z) : bool :=
  match definition i with
  | Some (name, _, count, _) =>
      name_ok name && forallb (fun b => negb (b =? 0)) (str_bytes name) && (0 <? count) && (count <? 2 ^ 16)
  | None => false
  end.

Definition distinct_test (definition : Z -> option Definition_) (i j : Z) : bool :=
  match definition i, definition j with
  | Some d, Some d' => negb (bool_decide (d.1.1.1 = d'.1.1.1)) || (i =? j)
  | _, _ => true
  end.

Lemma describable_tested definition total :
  forallb (describable_test definition) (seqZ 0 total) = true -> describable definition total.
Proof.
  intros H i Hi. assert (Ht : describable_test definition i = true).
  { apply (proj1 (forallb_forall _ _) H), list_elem_of_In, elem_of_seqZ. lia. }
  unfold describable_test in Ht. destruct (definition i) as [[[[name ty] count] w]|]; [|done].
  apply andb_true_iff in Ht as [Ht Hc%Z.ltb_lt]. apply andb_true_iff in Ht as [Ht H0%Z.ltb_lt].
  apply andb_true_iff in Ht as [Hn Hz]. exists name, ty, count, w. split_and!; try (done || lia).
  apply Forall_forall. intros b Hb%list_elem_of_In. destruct (Z.eqb_spec b 0) as [->|]; [|done].
  by pose proof (proj1 (forallb_forall _ _) Hz _ Hb).
Qed.

Lemma distinct_tested definition total :
  forallb (fun i => forallb (distinct_test definition i) (seqZ 0 total)) (seqZ 0 total) = true ->
  forall i j d d', 0 <= i < total -> 0 <= j < total ->
    definition i = Some d -> definition j = Some d' -> d.1.1.1 = d'.1.1.1 -> i = j.
Proof.
  intros H i j d d' Hi Hj Ei Ej Hn.
  assert (Ht : distinct_test definition i j = true).
  { apply (proj1 (forallb_forall _ _) (proj1 (forallb_forall _ _) H i ltac:(apply list_elem_of_In, elem_of_seqZ; lia))).
    apply list_elem_of_In, elem_of_seqZ. lia. }
  unfold distinct_test in Ht. rewrite Ei, Ej, bool_decide_true in Ht by done. by apply Z.eqb_eq.
Qed.

Definition demo_upstream : UpstreamControl :=
  {| uc_stream := []; uc_sequence := 0; uc_generation := 1; uc_peer_ip := 7; uc_udp := 40000 |}.

(** The broker finds the [arm] parameter it needs to disarm the rig. *)
Lemma discovery_finds_registry_witness :
  exists u' d' l,
    discover_parameters (mcu (R := VectorRig) (P := PhaseProgram) (HG := AnyGroup_group 1 (fun x => x) demo_N) demo_env)
      (demo_upstream, (demo_server, replicate (Z.to_nat MAX_PAYLOAD) 0)) 24 = (u', d', Ok l)
    /\ len l = 24 /\ parameter_index l (str_bytes "arm") = Some 17.
Proof.
  assert (Ht : total_count (H := AnyGroup_group 1 (fun x => x) demo_N) demo_store = 24) by by vm_compute.
  destruct (@discovery_finds_registry VectorRig PhaseProgram (AnyGroup VectorRig PassThrough) (ListQueue RtCommand)
    VectorRig_rig PhaseProgram_program (AnyGroup_group 1 (fun x => x) demo_N) list_queue demo_env demo_upstream
    demo_server (replicate (Z.to_nat MAX_PAYLOAD) 0)) as (u' & resp' & l & E & _ & L & Hl).
  - reflexivity.
  - by vm_compute.
  - apply describable_tested. by vm_compute.
  - apply distinct_tested. by vm_compute.
  - by vm_compute.
  - reflexivity.
  - change (sv_store demo_server) with demo_store in *. rewrite Ht in E, L, Hl.
    exists u', (demo_server, resp'), l. split; [exact E|]. split; [exact L|].
    apply (Hl 17 ("arm"%string, U32, 1, true)); [lia|by vm_compute].
Defined.
