(* ===== verification/Capture.v ===== *)
(** * From the ring to the file

    A streaming session through all of its parts: the records that core 1 left in
    the ring are sent by core 0 (StreamTask.v), relayed and handed to the
    recorder by the broker (Broker.v), and written to the segments of a
    recording (Storage.v). *)

From stdpp Require Import strings gmap.
From S2P Require Import Prelude Float32 Proto Text Frame StreamPacket Beacon BrokerInfo Upstream History Broker BrokerLaws BrokerRuns.
From S2P Require Import Storage Channels StreamTask Rig RtLoop ControlServer Ticks.

#[export] Set Default Goal Selector "!".
Open Scope Z_scope.

(** ** A task alone

    [solo] runs a task to its end, one environment for each step, when no other
    task moves; [None] is a step that cannot be taken. *)
Fixpoint solo {A : Type} (t : Task) (envs : nat -> Env) (p : proc A) (app : App) : option (App * A) :=
  match p with
  | Ret a => Some (app, a)
  | Spawn _ k => solo t envs k app
  | Atomic f k =>
      '(app, b) ← f t (envs 0%nat) app;
      solo t (fun n => envs (S n)) (k b) app
  end.

(** In every environment of [E], [p] alone can take each of its steps and ends
    with [Q]. *)
Fixpoint surely {A : Type} (E : Env -> Prop) (t : Task) (p : proc A) (Q : App -> A -> Prop) (app : App) : Prop :=
  match p with
  | Ret a => Q app a
  | Spawn _ k => surely E t k Q app
  | Atomic f k =>
      forall env, E env -> exists app' b, f t env app = Some (app', b) /\ surely E t (k b) Q app'
  end.

Section solo.
Variables (E : Env -> Prop) (t : Task).

Lemma surely_solo {A} (p : proc A) Q app envs :
  surely E t p Q app -> (forall n, E (envs n)) -> exists app' a, solo t envs p app = Some (app', a) /\ Q app' a.
Proof.
  revert envs app. induction p as [A a|A C f k IH|A q _ k IH]; intros envs app Hp Henv; cbn [solo surely] in *.
  - by exists app, a.
  - destruct (Hp (envs 0%nat) (Henv 0%nat)) as (app1 & b & -> & Hk). rewrite bind_Some. by eapply IH.
  - by eapply IH.
Qed.

Lemma surely_bind {A B} (p : proc A) (g : A -> proc B) Q app :
  surely E t p (fun app' a => surely E t (g a) Q app') app -> surely E t (proc_bind p g) Q app.
Proof.
  revert app. induction p as [A a|A C f k IH|A q _ k IH]; intros app; cbn [surely proc_bind]; [done| |apply IH].
  intros H env Henv. destruct (H env Henv) as (app1 & b & E1 & H1). exists app1, b. split; [done|by apply IH].
Qed.

Lemma surely_mono {A} (p : proc A) (Q Q' : App -> A -> Prop) app :
  (forall app' a, Q app' a -> Q' app' a) -> surely E t p Q app -> surely E t p Q' app.
Proof.
  intros HQ. revert app. induction p as [A a|A C f k IH|A q _ k IH]; intros app; cbn [surely]; [apply HQ| |by apply IH].
  intros H env Henv. destruct (H env Henv) as (app1 & b & E1 & H1). exists app1, b. split; [done|by eapply IH].
Qed.

Lemma surely_then {A B} (m : task A) (g : A -> task B) Q app :
  surely E t m (fun app' r => exists a, r = Ok a /\ surely E t (g a) Q app') app -> surely E t (m ≫= g) Q app.
Proof. intros H. apply surely_bind. eapply surely_mono; [|exact H]. by intros app' r (a & -> & Ha). Qed.

Lemma surely_attempt {A B} (m : task A) (g : outcome Failure A -> task B) Q app :
  surely E t m (fun app' r => surely E t (g r) Q app') app -> surely E t (attempt m ≫= g) Q app.
Proof. intros H. apply surely_bind, surely_bind. exact H. Qed.
End solo.

(** ** The broker *)

(** The sockets and the recorder work. *)
Definition working (env : Env) : Prop := ev_io env = true /\ ev_storage env = true.

(** The clients a packet goes to, in the order of the table. *)
Definition stream_targets (s : SharedState) : list SocketAddr :=
  omap (fun '(_, client) => if cl_quiet client then None else cl_endpoint client) (map_to_list (ss_clients s)).

(** What the broker does with a packet. *)
Definition packet_events (targets : list SocketAddr) (p : Packet) : list Event :=
  RecordedPacket p :: (Relayed (pk_wire p) <$> targets).

(** A session that runs and has received [n] records. *)
Record streaming (c : StreamConfiguration) (n : Z) (app : App) : Prop := {
  sr_configuration : ss_configuration (ap_state app) = Some c;
  sr_running : ss_running (ap_state app) = true;
  sr_received : ss_received_records (ap_state app) = n;
  sr_history : history_ok (ss_history (ap_state app));
  sr_recording : cf_recording (ap_config app) = true;
  sr_operations : ap_operations app = None }.

(** The number of records of a finite session has been reached. *)
Definition complete (c : StreamConfiguration) (n : Z) : bool :=
  negb (sc_count c =? 0) && (sc_count c <=? n).

Section broker.
Variable t : Task.

Lemma surely_relay app l :
  surely working t (relay Relayed l)
    (fun app' r => r = Ok () /\ app' = app <| ap_log := ap_log app ++ ((fun '(w, target) => Relayed w target) <$> l) |>) app.
Proof.
  revert app. induction l as [|[w target] l IH]; intros app; cbn [relay].
  - split; [done|]. destruct app; cbn. by rewrite app_nil_r.
  - apply surely_then. intros env [Hio _]. rewrite Hio. eexists _, _. split; [done|]. exists (). split; [done|].
    eapply surely_mono; [|apply IH]. intros app' r [-> ->]. split; [done|]. destruct app; cbn. by rewrite <-app_assoc.
Qed.

Lemma accept_packet_streaming c n app p env :
  streaming c n app -> packet_ok p -> packet_matches c p = true -> ev_storage env = true ->
  let n' := n + sh_n_records (pk_header p) in
  exists app', accept_packet p env app = (app', Ok (Some (stream_targets (ap_state app), complete c n')))
    /\ streaming c n' app' /\ ss_clients (ap_state app') = ss_clients (ap_state app)
    /\ ap_log app' = ap_log app ++ [RecordedPacket p].
Proof.
  intros [Hc Hr Hn Hh Hrec Ho] Hp Hm Hs n'. unfold accept_packet.
  rewrite Hc, Hr, Hm, Hrec, Hs, andb_false_r. cbn [negb].
  destruct (History_push_spec _ p Hh Hp) as (h & k & -> & Hh' & _). eexists. split.
  - do 4 f_equal. unfold complete, n'. by rewrite <-Hn.
  - split; [|done]. split; cbn; try done. by rewrite Hn.
Qed.

(** The end of a finite session. *)
Lemma surely_complete app :
  ss_running (ap_state app) = true -> cf_recording (ap_config app) = true -> ap_operations app = None ->
  surely working t (with_operations (
      was_running ← with_state (fun _ s => if ss_running s then (quiesce s, Ok true) else (s, Ok false));
      if was_running : bool then stop_recording CloseCountComplete else mret ()))
    (fun app' r => r = Ok () /\ ss_running (ap_state app') = false
       /\ ap_log app' = ap_log app ++ [RecordingStopped CloseCountComplete]) app.
Proof.
  intros Hr Hrec Ho. unfold with_operations. apply surely_then. intros env _. rewrite Ho. eexists _, _.
  split; [done|]. exists (). split; [done|]. apply surely_attempt, surely_then. intros env1 _.
  cbn [ap_state set const]. rewrite Hr. eexists _, _. split; [done|]. exists true. split; [done|].
  unfold stop_recording, recorder. apply surely_then. intros env2 _. eexists _, _. split; [done|].
  exists true. split; [by rewrite <-Hrec|]. intros env3 [_ Hs]. rewrite Hs. eexists _, _. split; [done|].
  cbn [surely]. intros env4 _. eexists _, _. split; [done|]. done.
Qed.

(** A packet of the session, when its count is not reached before it. *)
Lemma surely_process_packet c n app wire (carried : Packet -> Prop) records :
  streaming c n app ->
  (forall tm, exists p, Packet_decode wire tm = Ok p /\ carried p) ->
  (forall p, carried p -> packet_ok p /\ packet_matches c p = true /\ sh_n_records (pk_header p) = records) ->
  surely working t (process_packet wire)
    (fun app' r => r = Ok () /\ exists p, carried p
       /\ ap_log app' = ap_log app ++ packet_events (stream_targets (ap_state app)) p
            ++ (if complete c (n + records) then [RecordingStopped CloseCountComplete] else [])
       /\ if complete c (n + records) then ss_running (ap_state app') = false
          else streaming c (n + records) app' /\ ss_clients (ap_state app') = ss_clients (ap_state app)) app.
Proof.
  intros Hs Hd Hp. unfold process_packet. apply surely_then. intros env _.
  destruct (Hd (ev_utc_ns env)) as (p & -> & Hcar). eexists _, _. split; [done|]. exists (Ok p : outcome PacketError Packet).
  split; [done|]. destruct (Hp p Hcar) as (Hpok & Hmatch & Hrecords).
  apply surely_then. intros env2 [_ Hst]. destruct (accept_packet_streaming c n app p env2) as (app1 & -> & Hs1 & Hcl & Hl); [done..|].
  rewrite Hrecords in *. eexists _, _. split; [done|]. eexists. split; [done|].
  apply surely_then. eapply surely_mono; [|apply surely_relay]. intros app2 r [-> E2]. exists (). split; [done|].
  rewrite <-list_fmap_compose, Hl, <-app_assoc in E2. unfold compose in E2. destruct (complete c (n + records)).
  - eapply surely_mono; [|apply surely_complete]; [|by rewrite E2; apply Hs1..].
    intros app3 r [-> [Hr Hl3]]. split; [done|]. exists p. split; [done|]. split; [|done].
    rewrite Hl3, E2. cbn [ap_log set const]. unfold packet_events. by rewrite <-!app_assoc.
  - split; [done|]. exists p. split; [done|]. rewrite E2, app_nil_r. split; [done|]. split; [|done].
    by destruct Hs1.
Qed.

(** A datagram and the records in it. *)
Definition carries (c : StreamConfiguration) (item : list Z * list (Z * list Z)) (p : Packet) : Prop :=
  packet_ok p /\ packet_matches c p = true /\ pk_wire p = item.1 /\ packet_records p = item.2.

Definition item_ok (c : StreamConfiguration) (item : list Z * list (Z * list Z)) : Prop :=
  0 < len item.2 /\ forall tm, exists p, Packet_decode item.1 tm = Ok p /\ carries c item p.

Lemma surely_datagrams peer_ip generation epoch c n app items :
  streaming c n app -> complete c n = false -> Forall (item_ok c) items ->
  let total := n + len (concat items.*2) in
  (sc_count c <> 0 -> total <= sc_count c) ->
  surely working t (udp_loop peer_ip generation epoch ((fun item => UdpDatagram item.1 peer_ip) <$> items))
    (fun app' r => r = Ok () /\ exists ps, Forall2 (carries c) items ps
       /\ ap_log app' = ap_log app ++ (ps ≫= packet_events (stream_targets (ap_state app)))
            ++ (if complete c total then [RecordingStopped CloseCountComplete] else [])
       /\ ss_running (ap_state app') = negb (complete c total)) app.
Proof.
  revert n app. induction items as [|item items IH]; intros n app Hs Hn Hok total Hle.
  { assert (total = n) as -> by apply Z.add_0_r. rewrite Hn. cbn [fmap list_fmap udp_loop].
    split; [done|]. exists []. split; [constructor|]. rewrite app_nil_r. split; [done|]. apply Hs. }
  apply Forall_cons in Hok as [[Hpos Hdec] Hok]. cbn [fmap list_fmap udp_loop]. rewrite Z.eqb_refl. cbn [negb].
  assert (Ht : total = n + len item.2 + len (concat items.*2)) by (unfold total; cbn; rewrite len_app; apply Z.add_assoc).
  pose proof (len_nonneg (concat items.*2)) as Hrest.
  apply surely_attempt. eapply surely_mono; [|apply (surely_process_packet c n app item.1 (carries c item) (len item.2)); [done..|]].
  2:{ intros p (Hp & Hm & _ & Hr). split; [done|]. split; [done|]. by rewrite <-length_packet_records, Hr. }
  intros app1 r [-> (p & Hp & Hl1 & H1)]. destruct (complete c (n + len item.2)) eqn:Ec.
  - assert (items = []) as ->.
    { unfold complete in Ec. apply andb_prop in Ec as [E1%negb_true_iff E2%Z.leb_le]. apply Z.eqb_neq in E1.
      specialize (Hle E1). destruct items as [|item2 items]; [done|]. apply Forall_cons in Hok as [[Hpos2 _] _].
      change (concat ((item2 :: items).*2)) with (item2.2 ++ concat items.*2) in *. rewrite len_app in Ht.
      pose proof (len_nonneg (concat items.*2)). lia. }
    assert (total = n + len item.2) as -> by (etransitivity; [exact Ht|apply Z.add_0_r]). rewrite Ec. cbn [fmap list_fmap udp_loop].
    split; [done|]. exists [p]. split; [by constructor|]. rewrite Hl1. cbn [mbind list_bind]. rewrite app_nil_r.
    by split.
  - destruct H1 as [Hs1 Hcl]. assert (Htg : stream_targets (ap_state app1) = stream_targets (ap_state app))
      by (unfold stream_targets; by rewrite Hcl).
    specialize (IH (n + len item.2) app1 Hs1 Ec Hok). cbv zeta in IH. rewrite <-Ht in IH.
    eapply surely_mono; [|apply IH; exact Hle]. intros app2 r [-> (ps & Hps & Hl2 & Hr2)]. split; [done|].
    exists (p :: ps). split; [by constructor|]. split; [|done].
    rewrite Hl2, Hl1, Htg, app_nil_r, bind_cons. by rewrite <-!app_assoc.
Qed.

(** The task that reads the datagrams, alone. *)
Lemma upstream_session peer_ip generation c app items envs :
  streaming c 0 app -> 0 <= sc_count c -> Forall (item_ok c) items ->
  let total := len (concat items.*2) in
  (sc_count c <> 0 -> total <= sc_count c) -> (forall n, working (envs n)) ->
  exists app' ps,
    solo t envs (upstream_udp_loop peer_ip generation ((fun wire => UdpDatagram wire peer_ip) <$> items.*1)) app
      = Some (app', Ok ())
    /\ Forall2 (carries c) items ps
    /\ ap_log app' = ap_log app ++ (ps ≫= packet_events (stream_targets (ap_state app)))
         ++ (if complete c total then [RecordingStopped CloseCountComplete] else [])
    /\ ss_running (ap_state app') = negb (complete c total).
Proof.
  intros Hs Hcount Hok total Hle Henv.
  assert (Hn : complete c 0 = false).
  { unfold complete. destruct (Z.eqb_spec (sc_count c) 0); [done|]. apply Z.leb_gt. lia. }
  assert (H : surely working t (upstream_udp_loop peer_ip generation ((fun wire => UdpDatagram wire peer_ip) <$> items.*1))
    (fun app' r => r = Ok () /\ exists ps, Forall2 (carries c) items ps
       /\ ap_log app' = ap_log app ++ (ps ≫= packet_events (stream_targets (ap_state app)))
            ++ (if complete c total then [RecordingStopped CloseCountComplete] else [])
       /\ ss_running (ap_state app') = negb (complete c total)) app).
  { unfold upstream_udp_loop. apply surely_then. intros env _. eexists _, _. split; [done|]. eexists. split; [done|].
    rewrite <-list_fmap_compose. exact (surely_datagrams peer_ip generation _ c 0 app items Hs Hn Hok Hle). }
  destruct (surely_solo _ _ _ _ _ envs H Henv) as (app' & r & E & -> & ps & Hps). by exists app', ps.
Qed.
End broker.

(** ** The recorder *)

(** The calls of the recorder's handle, as its worker gets them. *)
Definition recorder_command (e : Event) : option StorageCommand :=
  match e with
  | RecordingStarted metadata => Some (StorageStart metadata)
  | RecordedPacket packet => Some (StoragePacket packet)
  | RecordingStopped reason => Some (StorageStop reason)
  | RecorderShutdown => Some StorageShutdown
  | _ => None
  end.

Lemma omap_app {A B} (f : A -> option B) l1 l2 : omap f (l1 ++ l2) = omap f l1 ++ omap f l2.
Proof. induction l1 as [|x l1 IH]; [done|]. cbn. destruct (f x); cbn; by rewrite IH. Qed.

Lemma recorder_commands targets ps :
  omap recorder_command (ps ≫= packet_events targets) = StoragePacket <$> ps.
Proof.
  induction ps as [|p ps IH]; [done|]. rewrite bind_cons, omap_app, IH. cbn. f_equal.
  assert (E : omap recorder_command (Relayed (pk_wire p) <$> targets) = []); [|by rewrite E].
  clear. by induction targets as [|a l IH].
Qed.

(** ** Sample indices *)

(** The decimated records of consecutive ones are a decimation step apart. *)
Lemma kept_indexed d first l :
  0 < d -> indexed first 1 l -> indexed (d * ((first + d - 1) / d)) d (kept d l).
Proof.
  intros Hd. revert first. induction l as [|r l IH]; intros first H.
  { intros k r Hk. done. }
  apply indexed_cons in H as [Hr H]. apply IH in H.
  destruct (decide (rec_index r mod d = 0)) as [Hm|Hm].
  - rewrite kept_True by done. rewrite Hr in Hm. apply indexed_cons.
    assert (E : first = d * (first / d)) by (pose proof (Z.div_mod first d ltac:(lia)); lia).
    assert (E1 : (first + d - 1) / d = first / d).
    { symmetry. apply (Z.div_unique_pos _ _ _ (d - 1)); lia. }
    assert (E2 : (first + 1 + d - 1) / d = first / d + 1).
    { symmetry. apply (Z.div_unique_pos _ _ _ 0); lia. }
    rewrite E1. split; [lia|]. rewrite E2 in H. by replace (d * (first / d) + d) with (d * (first / d + 1)) by lia.
  - assert (Hk : kept d (r :: l) = kept d l) by (unfold kept; by rewrite filter_cons_False). rewrite Hk.
    rewrite Hr in Hm. replace ((first + d - 1) / d) with ((first + 1 + d - 1) / d); [done|].
    pose proof (Z.mod_pos_bound first d Hd). pose proof (Z.div_mod first d ltac:(lia)).
    transitivity (first / d + 1); [symmetry|].
    + apply (Z.div_unique_pos _ _ _ (first mod d)); lia.
    + apply (Z.div_unique_pos _ _ _ (first mod d - 1)); lia.
Qed.

(** ** The datagrams of a session *)

Definition configuration_of (s : StreamState) : StreamConfiguration :=
  {| sc_decimation := str_decimation s; sc_count := str_count s; sc_sources := str_sources s |}.

(** What a recording has of a record: its sample index and the bytes of its values. *)
Definition record_row (sources : list Z) (r : StreamRecord) : Z * list Z := (rec_index r, row_bytes sources r).

Lemma datagram_bytes_ok dropped sources decimation seq chunk :
  len sources <= 24 -> bytes_ok (datagram_of dropped sources decimation seq chunk).
Proof.
  intros Hs. pose proof (len_nonneg sources). unfold datagram_of. apply Forall_app. split.
  - unfold stream_header_bytes. cbn [sh_n_sources sh_seq sh_first_index sh_dropped sh_decimation sh_n_records].
    apply Forall_app. split; [apply le_bytes_ok|]. apply Forall_app. split; [|repeat (apply Forall_app; split); apply le_bytes_ok].
    apply Forall_cons. split; [by vm_compute|]. apply Forall_cons. split; [|constructor]. unfold is_byte, fits. lia.
  - apply Forall_bind, Forall_true. intros r. apply Forall_bind, Forall_true. intros src. apply le_bytes_ok.
Qed.

Lemma datagram_item dropped s endpoint seq chunk first :
  session_ok s endpoint -> (forall i, fits 32 (dropped i)) -> fits 32 seq ->
  0 < len chunk <= sn_max_records (snapshot_of s endpoint) -> Forall record_ok chunk ->
  indexed first (str_decimation s) chunk ->
  item_ok (configuration_of s) (datagram_of dropped (str_sources s) (str_decimation s) seq chunk,
                                record_row (str_sources s) <$> chunk).
Proof.
  intros Hs Hdr Hseq Hc Hok Hi. split; [cbn [snd]; unfold len in *; rewrite length_fmap; lia|]. intros tm. cbn [fst].
  destruct (datagram_decodes dropped s endpoint seq chunk tm) as (p & E & _ & Hfirst & Hdec & Hrows & _); [done..|].
  exists p. split; [done|]. pose proof Hs as [_ _ [Hsrc _] Hd _].
  destruct (Packet_decode_spec _ _ _ (datagram_bytes_ok _ _ _ _ _ (proj2 Hsrc)) E) as (Hp & Hwire & _).
  destruct chunk as [|r chunk]; [unfold len in Hc; cbn in Hc; lia|].
  assert (Hn : sh_n_sources (pk_header p) = len (str_sources s)).
  { pose proof (po_header _ Hp) as Hh. rewrite Hwire in Hh. unfold datagram_of in Hh.
    pose proof (snapshot_max _ (snapshot_of_ok s endpoint Hs)). apply Forall_cons in Hok as [[Hri _] _].
    rewrite StreamHeader_decode_bytes in Hh; [by apply Ok_inj in Hh as <-|]. split; cbn; try done; unfold fits; lia. }
  split; [done|]. split; [unfold packet_matches; by rewrite Hn, Hdec, !Z.eqb_refl|]. split; [done|].
  cbn [snd]. unfold packet_records in *. rewrite (imap_const_snd _ (fun x => x)), list_fmap_id in Hrows. rewrite Hrows.
  apply list_eq. intros k. rewrite list_lookup_imap, !list_lookup_fmap.
  destruct ((r :: chunk) !! k) as [x|] eqn:Ex; [|done]. cbn. unfold record_row. do 2 f_equal.
  cbn in Hfirst. apply (inj Some) in Hfirst. unfold row_index. rewrite Hfirst, Hdec, (Hi 0%nat r eq_refl), (Hi k x Ex).
  unfold wrapping_add. rewrite wrap_id; [lia|]. apply (proj1 (Forall_lookup _ _) Hok) in Ex as Hx.
  destruct Hx as [Hx _]. rewrite <-(Z.add_0_r (_ + _)). rewrite (Hi k x Ex) in Hx. unfold fits in *. lia.
Qed.

(** The datagrams of a session with the records in them. *)
Definition items_from (dropped : Z -> Z) (s : StreamState) (from : Z) (chunks : list (list StreamRecord))
    : list (list Z * list (Z * list Z)) :=
  imap (fun i chunk => (datagram_of dropped (str_sources s) (str_decimation s) (wrap 32 (from + Z.of_nat i)) chunk,
                        record_row (str_sources s) <$> chunk)) chunks.

Lemma items_ok dropped s endpoint from chunks first :
  session_ok s endpoint -> (forall i, fits 32 (dropped i)) ->
  Forall (fun chunk => 0 < len chunk <= sn_max_records (snapshot_of s endpoint)) chunks ->
  Forall record_ok (concat chunks) -> indexed first (str_decimation s) (concat chunks) ->
  Forall (item_ok (configuration_of s)) (items_from dropped s from chunks).
Proof.
  intros Hs Hd Hc. revert from first. induction Hc as [|chunk chunks Hc _ IH]; intros from first Hok Hi; [constructor|].
  cbn [concat] in Hok, Hi. apply Forall_app in Hok as [Hok1 Hok]. apply indexed_app in Hi as [Hi1 Hi].
  unfold items_from. rewrite imap_cons. constructor.
  - apply (datagram_item dropped s endpoint _ chunk first); try done. by apply wrap_fits.
  - erewrite imap_ext; [apply (IH (from + 1) _ Hok Hi)|]. intros i c _. unfold compose. by replace (from + Z.of_nat (S i)) with (from + 1 + Z.of_nat i) by lia.
Qed.

Lemma items_rows dropped s from chunks :
  concat (items_from dropped s from chunks).*2 = record_row (str_sources s) <$> concat chunks.
Proof.
  unfold items_from. revert from. induction chunks as [|chunk chunks IH]; intros from; [done|].
  rewrite imap_cons, fmap_cons. cbn [concat snd]. rewrite fmap_app. f_equal.
  erewrite imap_ext; [apply (IH (from + 1))|]. intros i c _. unfold compose. by replace (from + Z.of_nat (S i)) with (from + 1 + Z.of_nat i) by lia.
Qed.

Lemma carried_rows c items ps :
  Forall2 (carries c) items ps -> record_stream ps = concat items.*2 /\ pk_wire <$> ps = items.*1
    /\ Forall (fun p => packet_ok p /\ packet_matches c p = true) ps.
Proof.
  induction 1 as [|item p items ps (Hp & Hm & Hw & Hr) _ (IH1 & IH2 & IH3)]; [done|].
  unfold record_stream in *. rewrite bind_cons, !fmap_cons, IH1, IH2, Hw, Hr. split; [done|]. split; [done|]. by constructor.
Qed.

Lemma len_packets ps : Forall packet_ok ps -> len ps <= count_records ps.
Proof.
  induction 1 as [|p ps [_ _ _ Hr _] _ IH]; [done|]. rewrite len_cons.
  change (count_records (p :: ps)) with (sh_n_records (pk_header p) + count_records ps). lia.
Qed.

(** The control server and the broker read the same session from a
    [StreamSetup], which starts as a new one. *)
Lemma setup_agrees {R P : Type} `{Rig R, Program P} s0 s1 s endpoint payload :
  bytes_ok payload -> str_control_connected s0 = true ->
  handle_stream_setup (R := R) (P := P) s0 payload = (s1, Ok ()) -> stream_start s1 endpoint = (s, Ok ()) ->
  StreamConfiguration_decode payload = Ok (configuration_of s) /\ session_ok s endpoint
  /\ str_generation s <> str_generation s0.
Proof.
  intros Hp Hconn. unfold handle_stream_setup, StreamConfiguration_decode.
  destruct (Z.ltb_spec (len payload) 7) as [|Hl]; [done|].
  destruct (u16_at_is_Some payload 0) as [decimation Ed]; [lia|lia|]. rewrite Ed, !bind_or_panic.
  destruct (u32_at_is_Some payload 2) as [count Ec]; [lia|lia|]. rewrite Ec, !bind_or_panic.
  destruct (index_is_Some payload 6) as [n En]; [lia|]. rewrite En, !bind_or_panic.
  apply drop_u16_at in Ed as [[Hd0 Hd] _]; [|done]. apply drop_u32_at in Ec as [[Hc0 Hc] _]; [|done].
  pose proof (index_byte _ _ _ Hp En) as [Hn0 _].
  change BROKER_MAX_SOURCES with MAX_SOURCES. destruct (_ || _) eqn:Hg; [done|]. bool_facts.
  assert (Hlen : len payload = 7 + n) by lia. rewrite Hlen, slice_ok by lia. rewrite !bind_or_panic.
  set (sources := take _ _). destruct (existsb _ sources); [done|]. cbn [and_then].
  assert (Ls : len sources = n).
  { subst sources. rewrite len_take; [lia|]. rewrite len_drop by lia. lia. }
  assert (Hsrc : Forall (Z.le 0) sources).
  { apply Forall_take, Forall_drop. eapply Forall_impl; [exact Hp|]. by intros b [? _]. }
  unfold stream_setup. destruct (str_enabled s0); [done|]. rewrite (proj2 (Z.ltb_ge _ _)) by lia.
  intros [= <-]. unfold stream_start. destruct (bool_decide _); [done|]. intros [= <-].
  split; [done|]. split; [split; cbn; try done; [unfold MAX_SOURCES in *; split; [lia|done]|lia]|].
  cbn. unfold wrapping_add, wrap. div_lia.
Qed.

(** What a session sends, and when it ends. *)
Lemma session_items {Q : Type} `{SpscQueue Q StreamRecord, !SpscLaws Q StreamRecord}
    dropped s m endpoint (rings : list Q) first :
  session_ok s endpoint -> str_generation s <> sm_generation m -> len (sm_packet m) = MAX_PACKET ->
  (forall i, fits 32 (dropped i)) -> Forall (fun q => Forall record_ok (q_contents q)) rings ->
  indexed first 1 (concat (q_contents <$> rings)) ->
  let all := kept (str_decimation s) (concat (q_contents <$> rings)) in
  let delivered := if str_count s =? 0 then all else take (Z.to_nat (str_count s)) all in
  exists s' m' items,
    stream_flushes dropped (fun s => s) s m rings = Some (s', m', (fun wire => (endpoint, wire)) <$> items.*1)
    /\ Forall (item_ok (configuration_of s)) items
    /\ concat items.*2 = record_row (str_sources s) <$> delivered
    /\ complete (configuration_of s) (len delivered) = negb (str_enabled s')
    /\ (str_count s <> 0 -> len delivered <= str_count s)
    /\ len delivered <= len (concat (q_contents <$> rings)).
Proof.
  intros Hs Hnew Hm Hd Hr Hi all delivered. pose proof Hs as [_ _ _ Hdec Hcount].
  assert (Ea : armed s m = m <| sm_generation := str_generation s |> <| sm_seq := 0 |>
    <| sm_remaining := str_count s |>) by (unfold armed; by rewrite (proj2 (Z.eqb_neq _ _) Hnew)).
  destruct (stream_flushes_spec dropped s m endpoint rings Hs Hr Hm) as (s' & m' & chunks & E & Hcat & Hall & Hen);
    [by rewrite Ea|rewrite Ea; cbn; lia|].
  rewrite Ea in E, Hcat, Hen. cbn [sm_seq sm_remaining set const] in E, Hcat, Hen. fold all in Hcat, Hen.
  change (concat chunks = delivered) in Hcat.
  assert (Hring : Forall record_ok (concat (q_contents <$> rings))).
  { apply Forall_concat, Forall_fmap. eapply Forall_impl; [exact Hr|done]. }
  assert (Hlen : len delivered = if str_count s =? 0 then len all else Z.min (str_count s) (len all)).
  { unfold delivered. destruct (_ =? 0); [done|]. unfold len. rewrite length_take. lia. }
  exists s', m', (items_from dropped s 0 chunks). split; [|split; [|split; [|split; [|split]]]].
  - rewrite E. do 2 f_equal. apply list_eq. intros k. unfold datagrams, items_from.
    rewrite list_lookup_imap, !list_lookup_fmap, list_lookup_imap. by destruct (chunks !! k).
  - assert (Hdl : exists rest, all = delivered ++ rest).
    { unfold delivered. destruct (_ =? 0); [exists []; by rewrite app_nil_r|]. eexists. by rewrite take_drop. }
    destruct Hdl as [rest Hdl].
    pose proof (kept_ok (str_decimation s) _ Hring) as Hk. pose proof (kept_indexed (str_decimation s) first _ ltac:(lia) Hi) as Hx.
    fold all in Hk, Hx. rewrite Hdl in Hk, Hx. apply Forall_app in Hk as [Hk _]. apply indexed_app in Hx as [Hx _].
    eapply items_ok; rewrite ?Hcat; eassumption.
  - by rewrite items_rows, Hcat.
  - unfold complete. cbn [sc_count configuration_of]. rewrite Hen, Hlen. destruct (str_count s =? 0); [done|]. cbn [negb andb orb].
    destruct (Z.ltb_spec (len all) (str_count s)); cbn [negb]; [apply Z.leb_gt|apply Z.leb_le]; lia.
  - intros Hc. rewrite Hlen. destruct (Z.eqb_spec (str_count s) 0); lia.
  - assert (len all <= len (concat (q_contents <$> rings))); [|rewrite Hlen; destruct (_ =? 0); lia].
    unfold all, kept, len.
    pose proof (length_filter (fun r => rec_index r mod str_decimation s = 0) (concat (q_contents <$> rings))). lia.
Qed.

(** ** Property *)

(** C3. What was measured is what the file holds.  Let a [StreamSetup] have been
    accepted by the control server and kept by the broker, and the session
    started; the ring of the device delivers consecutive records, over any number
    of flushes; the broker runs the session with its recorder on, the datagrams
    arrive in order, and sockets, recorder and disk take every call.  Then the
    streamer sends some datagrams; the broker task that reads them, with no other
    task between, relays each to every attached client that is not quiet and ends
    the session exactly when the device ended it, for its count; and the
    recorder's worker, given the commands that the broker issued, and a stop if
    the session is still running, acknowledges and leaves segments whose records are, in order and without loss or repetition, exactly
    the decimated records of the ring (up to the count of the session), each with
    its sample index and the bytes of the values of its sources. *)
Theorem capture_exact {R P Q : Type} `{Rig R, Program P, SpscQueue Q StreamRecord, !SpscLaws Q StreamRecord}
    (payload : list Z) (s0 s1 s : StreamState) (endpoint : Endpoint) (configuration : StreamConfiguration)
    (Hp : bytes_ok payload) (Hconn : str_control_connected s0 = true)
    (Hsetup : handle_stream_setup (R := R) (P := P) s0 payload = (s1, Ok ()))
    (Hstart : stream_start s1 endpoint = (s, Ok ()))
    (Hconf : StreamConfiguration_decode payload = Ok configuration)
    (dropped : Z -> Z) (m : Streamer) (rings : list Q) (first : Z)
    (Hnew : sm_generation m = str_generation s0)
    (Hm : len (sm_packet m) = MAX_PACKET) (Hd : forall i, fits 32 (dropped i))
    (Hr : Forall (fun q => Forall record_ok (q_contents q)) rings)
    (Hi : indexed first 1 (concat (q_contents <$> rings)))
    (t : Task) (peer_ip generation : Z) (envs : nat -> Env) (app : App)
    (Happ : streaming configuration 0 app) (Henv : forall n, working (envs n))
    (disk : Disk) (metadata : SessionMetadata) (timestamp : list Z) (reason : CloseReason)
    (session : SegmentSession) (l : list DiskCall)
    (Hfails : forall l, dk_fails disk l = false)
    (Hexists : forall l p, dk_exists disk l p = true -> p ∈ made l)
    (Hidle : se_segment session = None) (Hsources : len (sm_sources metadata) = len (str_sources s))
    (Ht : dk_timestamp disk (sm_started_utc_ns metadata) = Some timestamp)
    (Hfresh : made_before (timestamp ++ str_bytes "_" ++ sanitise (sm_experiment metadata)) 0 l)
    (Hn : len (concat (q_contents <$> rings)) <= umax 32) :
  let all := kept (str_decimation s) (concat (q_contents <$> rings)) in
  let delivered := if str_count s =? 0 then all else take (Z.to_nat (str_count s)) all in
  exists s' m' wires app' ps session' l',
    stream_flushes dropped (fun s => s) s m rings = Some (s', m', (fun wire => (endpoint, wire)) <$> wires)
    /\ solo t envs (upstream_udp_loop peer_ip generation ((fun wire => UdpDatagram wire peer_ip) <$> wires)) app
       = Some (app', Ok ())
    /\ ss_running (ap_state app') = str_enabled s'
    /\ pk_wire <$> ps = wires
    /\ ap_log app' = ap_log app ++ (ps ≫= packet_events (stream_targets (ap_state app)))
         ++ (if str_enabled s' then [] else [RecordingStopped CloseCountComplete])
    /\ worker disk (session, l) (StorageStart metadata
         :: omap recorder_command (drop (length (ap_log app)) (ap_log app'))
         ++ (if ss_running (ap_state app') then [StorageStop reason] else []))
       = ((session', l ++ l'), [Acknowledged (Ok ()); Acknowledged (Ok ())], Waiting)
    /\ read_records l' = record_row (str_sources s) <$> delivered.
Proof.
  intros all delivered. destruct (setup_agrees s0 s1 s endpoint payload Hp Hconn Hsetup Hstart) as (Hagree & Hs & Hgen).
  rewrite Hagree in Hconf. apply Ok_inj in Hconf as <-. rewrite <-Hnew in Hgen.
  pose proof Hs as [_ _ [Hsrc _] Hdec Hcount].
  destruct (session_items dropped s m endpoint rings first Hs Hgen Hm Hd Hr Hi) as
    (s' & m' & items & E & Hitems & Hrows & Hend & Hle & Hle'). fold all delivered in Hrows, Hend, Hle, Hle'.
  assert (Htotal : len (concat items.*2) = len delivered) by (rewrite Hrows; unfold len; by rewrite length_fmap).
  destruct (upstream_session t peer_ip generation (configuration_of s) app items envs Happ Hcount Hitems) as
    (app' & ps & Esolo & Hps & Hlog & Hrun); [by rewrite Htotal|done|].
  rewrite Htotal, Hend in Hlog, Hrun. rewrite negb_involutive in Hrun.
  destruct (carried_rows _ _ _ Hps) as (Hstream & Hwires & Hpok).
  assert (Hok : Forall packet_ok ps) by (eapply Forall_impl; [exact Hpok|]; by intros p []).
  set (last := if str_enabled s' then reason else CloseCountComplete).
  assert (Hcommands : omap recorder_command (drop (length (ap_log app)) (ap_log app'))
      ++ (if ss_running (ap_state app') then [StorageStop reason] else []) = (StoragePacket <$> ps) ++ [StorageStop last]).
  { unfold last. rewrite Hlog, drop_app_length, omap_app, recorder_commands, Hrun, <-app_assoc. by destruct (str_enabled s'). }
  assert (Hcnt : count_records ps = len delivered) by (by rewrite <-len_record_stream, Hstream, <-Htotal).
  destruct (worker_capture disk metadata timestamp ps last session l Hfails Hexists Hidle) as
    (session' & l' & segments & Ew & _ & _ & _ & _ & Hread & _).
  - intros Hnil. rewrite Hnil in Hsources. rewrite <-Hsources in Hsrc. by destruct Hsrc.
  - done.
  - eapply Forall_impl; [exact Hpok|]. intros p [Hpk Hmt]. split; [done|]. unfold packet_matches in Hmt.
    apply andb_prop in Hmt as [Hmt%Z.eqb_eq _]. by rewrite Hmt, Hsources.
  - pose proof (len_packets ps Hok). lia.
  - unfold umax in *. lia.
  - done.
  - exists s', m', items.*1, app', ps, session', l'. split_and!; try done.
    + rewrite Hlog. by destruct (str_enabled s').
    + rewrite Hcommands. exact Ew.
    + by rewrite Hread, Hstream.
Qed.

(** ** Every schedule *)

(** The packets that were handed to the recorder. *)
Definition recorded_packets (l : list Event) : list Packet :=
  omap (fun e => match e with RecordedPacket p => Some p | _ => None end) l.

(** Within one recording: no announcement and no end of one. *)
Definition within_recording (e : Event) : Prop :=
  match e with RecordingStarted _ | RecordingStopped _ | RecorderShutdown => False | _ => True end.

Lemma within_commands l :
  Forall within_recording l -> omap recorder_command l = StoragePacket <$> recorded_packets l.
Proof. induction 1 as [|e l He _ IH]; [done|]. unfold recorded_packets in *. by destruct e; cbn in *; rewrite IH. Qed.

Lemma last_started_within l : Forall within_recording l -> forall m, fold_left
    (fun m e => match e with RecordingStarted m' => Some m' | _ => m end) l m = m.
Proof. induction 1 as [|e l He _ IH]; intros m; [done|]. cbn. by destruct e. Qed.

(** What follows an announcement fits it. *)
Lemma recorded_fit l1 m l2 l3 :
  well_recorded (l1 ++ RecordingStarted m :: l2 ++ l3) -> Forall within_recording l2 ->
  sm_sources m <> [] /\ Forall (fits_recording m) (recorded_packets l2).
Proof.
  intros Hw Hl. split; [by apply (Hw l1 _ _ eq_refl)|]. unfold recorded_packets. apply Forall_forall.
  intros p (e & He & Ep)%list_elem_of_omap. destruct e; try done. injection Ep as ->.
  apply list_elem_of_split in He as (la & lb & ->). apply Forall_app in Hl as [Hla _].
  destruct (Hw (l1 ++ RecordingStarted m :: la) (RecordedPacket p) (lb ++ l3)) as (m' & Hm & Hf).
  { by rewrite <-!app_assoc. }
  rewrite last_started_app in Hm. cbn [fold_left] in Hm. rewrite last_started_within in Hm by done. by injection Hm as ->.
Qed.

(** C6. Whatever the schedule of the broker's tasks, and whatever its clients, the
    MCU and the network do, a recording is exactly what was recorded: between an
    announcement and the next call that ends it the recorder is given only
    packets of the announced layout, and its worker, idle and given these calls
    on a disk that takes every call, leaves segments in which a reader finds
    every record of every packet in order, and for each row of the packet table
    the records of its packet. *)
Theorem recordings_exact_every_schedule {D : Type} (device : D -> list Z -> D * option (list Z))
    (config : Config) (inputs : Inputs) (schedule : list (Task * Env)) (app : App) (pool : Pool)
    (Hc : 0 <= cf_history config) (Hin : inputs_ok inputs)
    (Hx : execute schedule (App_new config, [run device inputs]) = Some (app, pool))
    (before during after : list Event) (metadata : SessionMetadata) (reason : CloseReason)
    (Hlog : ap_log app = before ++ RecordingStarted metadata :: during ++ RecordingStopped reason :: after)
    (Hduring : Forall within_recording during)
    (disk : Disk) (timestamp : list Z) (session : SegmentSession) (l : list DiskCall)
    (Hfails : forall l, dk_fails disk l = false)
    (Hexists : forall l p, dk_exists disk l p = true -> p ∈ made l)
    (Hidle : se_segment session = None)
    (Ht : dk_timestamp disk (sm_started_utc_ns metadata) = Some timestamp)
    (Hfresh : made_before (timestamp ++ str_bytes "_" ++ sanitise (sm_experiment metadata)) 0 l)
    (Hn : count_records (recorded_packets during) <= umax 32) :
  let packets := recorded_packets during in
  Forall (fits_recording metadata) packets
  /\ exists session' l',
    worker disk (session, l) (omap recorder_command (RecordingStarted metadata :: during ++ [RecordingStopped reason]))
    = ((session', l ++ l'), [Acknowledged (Ok ()); Acknowledged (Ok ())], Waiting)
    /\ read_records l' = record_stream packets /\ read_packets l' = packet_records <$> packets.
Proof.
  intros packets. pose proof (pk_inv _ _ (execute_ok True _ _ _ (start_ok True device config inputs Hc Hin (fun _ _ _ _ => I)) Hx)) as Hinv.
  pose proof (bi_recorded _ Hinv) as Hw. cbn [fst] in Hw. rewrite Hlog in Hw.
  destruct (recorded_fit _ _ _ _ Hw Hduring) as [Hne Hfit]. fold packets in Hfit. split; [done|].
  assert (Hok : Forall packet_ok packets) by (eapply Forall_impl; [exact Hfit|]; by intros p []).
  pose proof (len_packets packets Hok). fold packets in Hn.
  destruct (worker_capture disk metadata timestamp packets reason session l Hfails Hexists Hidle Hne Ht)
    as (session' & l' & segments & Ew & _ & _ & _ & _ & Hread & Hrows); [|lia|unfold umax in *; lia|done|].
  { eapply Forall_impl; [exact Hfit|]. by intros p (Hp & Hs & _). }
  exists session', l'. split; [|done]. cbn [omap list_omap recorder_command].
  rewrite <-Ew. do 2 f_equal. change (list_omap _ _ ?f ?l) with (omap f l).
  by rewrite omap_app, within_commands.
Qed.

(** ** Example

    A finite session of three records, every second sample of two sources, from
    two rings; one client is attached, another is quiet. *)

Definition demo_setup : list Z := le16 2 ++ le32 3 ++ [2; 0; 2].

Definition demo_app : App :=
  (App_new {| cf_recording := true; cf_mcu_stream_port := 5000; cf_control_port := 5001; cf_history := 10 ^ 9 |})
    <| ap_state := SharedState_default
         <| ss_configuration := Some {| sc_decimation := 2; sc_count := 3; sc_sources := [0; 2] |} |>
         <| ss_running := true |> <| ss_history := History_reset History_default 1000 |>
         <| ss_clients := <[1 := {| cl_endpoint := Some (9, 6000); cl_quiet := false |}]>
                          {[2 := {| cl_endpoint := Some (9, 6001); cl_quiet := true |}]} |> |>.

Definition demo_env : Env :=
  {| ev_now := 0; ev_utc_ns := 7; ev_answer := fun _ => None; ev_io := true; ev_storage := true |}.

Lemma capture_exact_witness :
  exists wires app' l', solo 5%nat (fun _ => demo_env) (upstream_udp_loop 7 1 ((fun wire => UdpDatagram wire 7) <$> wires)) demo_app
      = Some (app', Ok ())
    /\ len wires = 2 /\ ss_running (ap_state app') = false
    /\ read_records l' = record_row [0; 2] <$> (demo_record <$> [10; 12; 14]).
Proof.
  set (s0 := STREAM <| str_control_connected := true |>).
  destruct (handle_stream_setup (R := VectorRig) (P := PhaseProgram) s0 demo_setup) as [s1 r1] eqn:E1.
  destruct (stream_start s1 (7, 5000)) as [s r2] eqn:E2.
  assert (r1 = Ok ()) as -> by (vm_compute in E1; congruence).
  assert (Es : s = demo_session <| str_generation := 1 |> /\ r2 = Ok ()).
  { vm_compute in E1. injection E1 as <-. vm_compute in E2. by injection E2 as <- <-. }
  destruct Es as [Es ->].
  destruct (capture_exact (R := VectorRig) (P := PhaseProgram) (Q := ListQueue StreamRecord)
    demo_setup s0 s1 s (7, 5000) {| sc_decimation := 2; sc_count := 3; sc_sources := [0; 2] |}
    ltac:(by repeat constructor) eq_refl E1 E2 eq_refl (fun _ => 0) Streamer_new
    [demo_ring [10; 11; 12]; demo_ring [13; 14; 15; 16; 17]] 10) with
    (t := 5%nat) (peer_ip := 7) (generation := 1) (envs := fun _ : nat => demo_env) (app := demo_app)
    (disk := sample_disk) (metadata := sample_metadata) (timestamp := [50]) (reason := CloseStreamStop)
    (session := SegmentSession_new 1) (l := @nil DiskCall)
    as (s' & m' & wires & app' & ps & session' & l' & E & Esolo & Hrun & _ & _ & _ & Hread).
  - reflexivity.
  - by vm_compute.
  - done.
  - assert (Hr : forall l, Forall (fits 32) l -> Forall record_ok (demo_record <$> l)).
    { intros l Hl. apply Forall_fmap. eapply Forall_impl; [exact Hl|]. by split. }
    apply Forall_cons; split; [apply Hr; by repeat constructor|].
    apply Forall_cons; split; [apply Hr; by repeat constructor|by apply Forall_nil].
  - intros k r Hk. do 8 (destruct k as [|k]; [injection Hk as <-; reflexivity|]). discriminate Hk.
  - split; try done. split; [by apply Forall_nil|done|]. by left.
  - by split.
  - done.
  - intros l p H. by apply bool_decide_eq_true in H.
  - done.
  - by subst s.
  - done.
  - intros j _ _. split; by apply not_elem_of_nil.
  - by vm_compute.
  - subst s. exists wires, app', l'. split; [exact Esolo|]. rewrite Hrun. split; [|split; [|exact Hread]].
    + apply (f_equal (fun r => match r with Some (_, _, l) => len l | None => 0 end)) in E.
      unfold len in E at 2. rewrite length_fmap in E. fold (len wires) in E. rewrite <-E. by vm_compute.
    + apply (f_equal (fun r => match r with Some (s, _, _) => str_enabled s | None => true end)) in E.
      rewrite <-E. by vm_compute.
Defined.

(** A client sets up and starts a finite session, whose one packet arrives. *)
Definition finite_inputs : Inputs (D := unit) :=
  two_clients [InFrame (MsgType_u8 StreamSetup) 1 (setup_payload 2); InFrame (MsgType_u8 StreamStart) 2 (le16 6000)]
    [] [UdpDatagram (sample_packet 0) 7].

Definition finite_run : list (Task * Env) := two_accepted ++ moves 6%nat 26 ++ moves 5%nat 8.

Lemma finite_inputs_ok : inputs_ok finite_inputs.
Proof.
  split.
  - repeat constructor; try (by vm_compute); by apply (bool_decide_unpack _).
  - constructor; [|constructor]. intros x [= <-]. repeat constructor; by apply (bool_decide_unpack _).
  - constructor.
Qed.

(** The events of [finite_run]. *)
Definition finite_log : list Event := default [] (after finite_inputs finite_run ap_log).

Definition finite_metadata : SessionMetadata :=
  match finite_log !! 3%nat with Some (RecordingStarted m) => m | _ => sample_metadata end.

Lemma finite_log_split :
  finite_log = take 3 finite_log ++ RecordingStarted finite_metadata
    :: take 4 (drop 4 finite_log) ++ RecordingStopped CloseCountComplete :: drop 9 finite_log.
Proof. vm_compute. reflexivity. Qed.

Lemma recordings_exact_every_schedule_witness :
  exists app pool session' l',
    execute finite_run (App_new sample_config, [run sample_device finite_inputs]) = Some (app, pool)
    /\ worker sample_disk (SegmentSession_new 1, []) (omap recorder_command (drop 3 (ap_log app)))
       = ((session', l'), [Acknowledged (Ok ()); Acknowledged (Ok ())], Waiting)
    /\ len (read_records l') = 2.
Proof.
  destruct (executed finite_run (App_new sample_config, [run sample_device finite_inputs]) (fun _ => true))
    as (app & pool & E & _); [by vm_compute|].
  assert (Hlog : ap_log app = finite_log) by (unfold finite_log, after; by rewrite E).
  destruct (recordings_exact_every_schedule sample_device sample_config finite_inputs finite_run app pool)
    with (before := take 3 finite_log) (during := take 4 (drop 4 finite_log)) (after := drop 9 finite_log)
         (metadata := finite_metadata) (reason := CloseCountComplete) (disk := sample_disk) (timestamp := [50])
         (session := SegmentSession_new 1) (l := @nil DiskCall)
    as (_ & session' & l' & Ew & Hr & _).
  - by vm_compute.
  - exact finite_inputs_ok.
  - exact E.
  - rewrite Hlog. exact finite_log_split.
  - vm_compute. by repeat constructor.
  - done.
  - intros l p H. by apply bool_decide_eq_true in H.
  - done.
  - done.
  - intros j _ _. split; by apply not_elem_of_nil.
  - by vm_compute.
  - exists app, pool, session', l'. split; [exact E|]. split; [|rewrite Hr; vm_compute; reflexivity].
    rewrite Hlog. replace (drop 3 finite_log) with (RecordingStarted finite_metadata :: take 4 (drop 4 finite_log)
      ++ [RecordingStopped CloseCountComplete]) by (vm_compute; reflexivity). exact Ew.
Defined.
