(* ===== verification/Conformance.v ===== *)
(** * Running the repository's own unit tests on the model

    The [#[test]] functions of the crates state known answers: byte vectors of
    the protocol documents, limits, traces of a controller.  The files that
    follow this one translate them, statement by statement, to programs over
    the definitions of the library.  Every suite is evaluated by the kernel:
    each assertion of the source also holds of the translation. *)

From stdpp Require Import strings.
From S2P Require Import Prelude Float32.

(** A test that returns passes; a failed assertion or an [unwrap] of nothing is
    [None]. *)
Definition test : Type := option unit.

(** [assert!] and [assert_eq!]; on floats the latter is the comparison of IEEE 754. *)
Definition expect (b : bool) : test := if b then Some () else None.
Definition expect_eq {A} `{EqDecision A} (x y : A) : test := expect (bool_decide (x = y)).
Definition expect_feq (x y : float) : test := expect (feq x y).
Definition expect_all_feq (x y : list float) : test :=
  expect (bool_decide (length x = length y) && forallb (fun '(a, b) => feq a b) (zip x y)).

(** [result.unwrap()]. *)
Definition unwrap {E A} (m : outcome E A) : option A := match m with Ok a => Some a | _ => None end.

(** A call inside [assert!(_.is_ok())] and the like. *)
Definition is_ok {E A} (m : outcome E A) : bool := match m with Ok _ => true | _ => false end.
Definition is_err {E A} (m : outcome E A) : bool := match m with Err _ => true | _ => false end.

(** [#[should_panic]], for a call whose panic is [None] or [Panic]. *)
Definition expect_none {A} (m : option A) : test := match m with None => Some () | Some _ => None end.

(** The tests of a suite that do not pass. *)
Definition failing (suite : list (string * test)) : list string :=
  omap (fun '(name, t) => match t with Some _ => None | None => Some name end) suite.

(** [for _ in 0..n]. *)
Fixpoint repeat {S} (n : nat) (f : S -> option S) (s : S) : option S :=
  match n with
  | O => Some s
  | S n => s ← f s; repeat n f s
  end.

(** ** A sine

    The functions of [libm] are arguments of the model.  For the tests that
    need one, this is the sine in fixed point with 56 fractional bits: the
    argument is reduced to a quadrant and the Taylor series summed up to its
    tenth term, which leaves an error below 2^-50. *)

Definition FIXED_BITS : Z := 56.
Definition FIXED_PI : Z := 226375608064910089.

Definition fixed_of_float (x : float) : Z :=
  match x with
  | S754_finite s m e => let a := Z.shiftl (Z.pos m) (e + FIXED_BITS) in if s then - a else a
  | _ => 0
  end.

Definition fixed_mul (a b : Z) : Z := Z.shiftr (a * b) FIXED_BITS.

(** The terms from [term], the [k]-th power divided by [k!], on. *)
Fixpoint sine_series (n : nat) (k : Z) (term xx : Z) : Z :=
  match n with
  | O => 0
  | S n => term + sine_series n (k + 2) (- (fixed_mul term xx / ((k + 1) * (k + 2)))) xx
  end.

Definition fixed_sin (x : Z) : Z :=
  let x := x mod (2 * FIXED_PI) in
  let '(negative, x) := if FIXED_PI <? x then (true, x - FIXED_PI) else (false, x) in
  let x := if FIXED_PI / 2 <? x then FIXED_PI - x else x in
  let s := sine_series 10 1 x (fixed_mul x x) in
  if negative then - s else s.

Definition fixed_cos (x : Z) : Z := fixed_sin (x + FIXED_PI / 2).

Definition f32_of_fixed (x : Z) : float := binary_normalize 24 128 x (- FIXED_BITS) false.
Definition f64_of_fixed (x : Z) : float := binary_normalize 53 1024 x (- FIXED_BITS) false.

Definition ref_sinf (x : float) : float := f32_of_fixed (fixed_sin (fixed_of_float x)).
Definition ref_sin (x : float) : float := f64_of_fixed (fixed_sin (fixed_of_float x)).
Definition ref_cos (x : float) : float := f64_of_fixed (fixed_cos (fixed_of_float x)).
Definition ref_tan (x : float) : float := ddiv (ref_sin x) (ref_cos x).

(** The square root of IEEE 754. *)
Definition ref_sqrtf (x : float) : float := SFsqrt 24 128 x.

(** Literals of [f64]. *)
Definition dlit (n d : Z) : float := ddiv (f64_of_Z n) (f64_of_Z d).
