(* ===== verification/ProtoTests.v ===== *)
(** * Known answers of the wire protocol

    The unit tests of helic-proto/src: crc.rs, lib.rs, frame.rs, payload.rs,
    stream.rs, beacon.rs and broker.rs. *)

From stdpp Require Import strings.
From S2P Require Import Prelude Float32 Crc Proto Text ParamPayload Frame StreamPacket Beacon BrokerInfo Conformance.

#[export] Set Default Goal Selector "!".
Open Scope Z_scope.

(** ** crc.rs and lib.rs *)

Definition known_answer_vectors : test :=
  _ ← expect_eq (crc16 (str_bytes "123456789")) 0x29B1;
  _ ← expect_eq (crc16 []) 0xFFFF;
  _ ← expect_eq (crc16 [0x00]) 0xE1F0;
  expect_eq (crc16 [0x0A; 0x01; 0x00; 0x00]) 0xDB5B.

Definition type_codes_round_trip : test :=
  _ ← expect (forallb (fun t => bool_decide (ParamType_from_code (ParamType_u8 t) = Some t)) [U8; I8; U16; I16; U32; I32; F32; Char]);
  expect_eq (ParamType_from_code 120) None.

Definition reboot_confirmation_is_stable : test := expect_eq MCU_REBOOT_CONFIRMATION 0x52454254.

(** ** frame.rs *)

(** The bytes written by [encode], [&buf[..n]], and the rest of the buffer. *)
Definition encoded (buf : list Z) (ty seq : Z) (payload : list Z) : option (list Z * list Z) :=
  '(n, buf) ← unwrap (encode buf ty seq payload);
  written ← slice buf 0 n;
  Some (written, buf).

Definition zeros (n : Z) : list Z := replicate (Z.to_nat n) 0.

Definition round_trip : test :=
  '(frame, _) ← encoded (zeros MAX_FRAME) (MsgType_u8 GetPar) 7 [1; 0; 2; 0];
  '(ty, seq, payload) ← unwrap (decode frame);
  _ ← expect_eq ty (MsgType_u8 GetPar);
  _ ← expect_eq seq 7;
  expect_eq payload [1; 0; 2; 0].

Definition known_answer_frame : test :=
  '(frame, _) ← encoded (zeros 16) (MsgType_u8 Status) 1 [];
  expect_eq frame [0x48; 0x4C; 0x0A; 0x01; 0x00; 0x00; 0x5B; 0xDB].

Definition known_answer_discovery_requests : test :=
  '(frame, buf) ← encoded (zeros 16) (MsgType_u8 GetParams) 1 [0; 0];
  _ ← expect_eq frame [0x48; 0x4c; 0x01; 0x01; 0x02; 0x00; 0x00; 0x00; 0x89; 0x0c];
  '(frame, _) ← encoded buf (MsgType_u8 GetSources) 1 [];
  expect_eq frame [0x48; 0x4c; 0x02; 0x01; 0x00; 0x00; 0x98; 0x5e].

Definition known_answer_v3_frames : test :=
  let block := [0x0c; 0x00; 0x04; 0x03; 0x02; 0x01; 0xaa; 0xbb] in
  '(frame, buf) ← encoded (zeros 32) (MsgType_u8 SetBlock) 2 block;
  _ ← expect_eq frame [0x48; 0x4c; 0x05; 0x02; 0x08; 0x00; 0x0c; 0x00; 0x04; 0x03; 0x02; 0x01; 0xaa; 0xbb; 0x39; 0xa7];
  head ← slice block 0 6;
  '(frame, buf) ← encoded buf (MsgType_u8 Commit) 3 head;
  _ ← expect_eq frame [0x48; 0x4c; 0x06; 0x03; 0x06; 0x00; 0x0c; 0x00; 0x04; 0x03; 0x02; 0x01; 0x08; 0xd1];
  let status := [0x03; 0x11; 0x00; 0x0d; 0x00; 0x00; 0xfa; 0x45; 0x10; 0xa4; 0x00; 0x00] in
  '(frame, _) ← encoded buf (MsgType_u8 Status) 1 status;
  expect_eq frame [0x48; 0x4c; 0x0a; 0x01; 0x0c; 0x00; 0x03; 0x11; 0x00; 0x0d; 0x00; 0x00; 0xfa; 0x45;
                   0x10; 0xa4; 0x00; 0x00; 0x76; 0x0a].

Definition corrupt_crc_is_rejected : test :=
  '(frame, _) ← encoded (zeros MAX_FRAME) 3 0 [42];
  b ← index frame HEADER_LEN;
  bad ← put frame HEADER_LEN (Z.lxor b 0xFF);
  expect_eq (decode bad) (Err BadCrc).

Definition bad_magic_is_rejected : test :=
  '(frame, _) ← encoded (zeros MAX_FRAME) 3 0 [];
  bad ← put frame 0 0;
  expect_eq (decode bad) (Err BadMagic).

Definition wrong_length_is_rejected : test :=
  '(frame, _) ← encoded (zeros MAX_FRAME) 3 0 [1; 2; 3];
  short ← slice frame 0 (len frame - 1);
  expect_eq (decode short) (Err Frame.Truncated).

Definition oversize_payload_is_rejected : test :=
  expect_eq (encode (zeros (2 * MAX_FRAME)) 3 0 (zeros (MAX_PAYLOAD + 1))) (Err Frame.TooLong).

(** ** payload.rs *)

Definition known_answer_discovery_entries : test :=
  '(buf, n) ← unwrap (encode_param (zeros 32) "freq" F32 1 true);
  entry ← slice buf 0 n;
  _ ← expect_eq entry (str_bytes "freq" ++ [0] ++ str_bytes "f" ++ [1; 0; 1]);
  '(buf, n) ← unwrap (encode_source buf "adc0" "V");
  entry ← slice buf 0 n;
  expect_eq entry (str_bytes "adc0" ++ [0] ++ str_bytes "V" ++ [0]).

Definition parameter_pages_preserve_complete_entries_and_indices : test :=
  let definitions := [("a", F32, 1, false); ("long_name", U32, 1, true); ("tail", U16, 4, false)]%string in
  '(first, n) ← unwrap (encode_param_page (zeros 18) 0 (len definitions) (index definitions));
  page ← slice first 0 n;
  '(start, next, entries) ← unwrap (decode_param_page page);
  _ ← expect_eq (start, next) (0, 1);
  _ ← expect_eq entries (str_bytes "a" ++ [0] ++ str_bytes "f" ++ [1; 0; 0]);
  '(second, n) ← unwrap (encode_param_page (zeros 64) next (len definitions) (index definitions));
  page ← slice second 0 n;
  '(start, next, entries) ← unwrap (decode_param_page page);
  _ ← expect_eq (start, next) (1, 3);
  expect_eq entries (str_bytes "long_name" ++ [0] ++ str_bytes "I" ++ [1; 0; 1]
                     ++ str_bytes "tail" ++ [0] ++ str_bytes "H" ++ [4; 0; 0]).

Definition parameter_page_validation_rejects_bad_ranges_and_no_progress : test :=
  let buf := zeros 8 in
  _ ← expect_eq (decode_param_page_request []) (Err InvalidLength);
  _ ← expect_eq (encode_param_page buf 2 1 (fun _ => None)) (Err InvalidIndex);
  short ← slice buf 0 4;
  _ ← expect_eq (encode_param_page short 0 1 (fun _ => Some ("a"%string, F32, 1, false))) (Err ParamPayload.TooLong);
  expect_eq (decode_param_page [2; 0; 1; 0]) (Err InvalidIndex).

(** [µm] is the bytes of its UTF-8 encoding. *)
Definition micrometre : string :=
  String (Ascii.ascii_of_nat 194) (String (Ascii.ascii_of_nat 181) "m").

Definition discovery_text_limits_are_enforced : test :=
  let buf := zeros 32 in
  _ ← expect (is_ok (encode_param buf "laser_frames_received" U32 1 false));
  _ ← expect_eq (encode_param buf "twenty_four_byte_name_xx" F32 1 true) (Err InvalidText);
  _ ← expect_eq (encode_source buf "adc0" "abcdefgh") (Err InvalidText);
  expect_eq (encode_source buf micrometre "mm") (Err InvalidText).

Definition known_answer_block_payloads : test :=
  let payload := [0x0c; 0x00; 0x04; 0x03; 0x02; 0x01; 0xaa; 0xbb] in
  _ ← expect_eq (decode_set_block payload) (Ok (12, 0x01020304, [0xaa; 0xbb]));
  head ← slice payload 0 6;
  expect_eq (decode_commit head) (Ok (12, 0x01020304)).

(** ** stream.rs *)

Definition header_round_trips : test :=
  let h := {| sh_n_sources := 12; sh_seq := 123456; sh_first_index := 42; sh_dropped := 3;
              sh_decimation := 2; sh_n_records := 28 |} in
  buf ← StreamHeader_encode h (zeros STREAM_HEADER_LEN);
  expect_eq (StreamHeader_decode buf) (Ok h).

Definition bad_magic_or_version_rejected : test :=
  buf ← StreamHeader_encode {| sh_n_sources := 1; sh_seq := 0; sh_first_index := 0; sh_dropped := 0;
                               sh_decimation := 1; sh_n_records := 0 |} (zeros STREAM_HEADER_LEN);
  bad ← put buf 0 0;
  _ ← expect_eq (StreamHeader_decode bad) (Err ());
  bad ← put buf 2 99;
  expect_eq (StreamHeader_decode bad) (Err ()).

(** ** beacon.rs *)

#[local] Instance BeaconResponse_eq_dec : EqDecision BeaconResponse.
Proof. solve_decision. Defined.

Definition request_is_known_answer : test := expect_eq REQUEST [0x48; 0x4c; 0x01].

Definition response_round_trips_and_truncates_strings : test :=
  response ← BeaconResponse_new [0x02; 0x48; 0x4c; 0; 0; 1] "example-rig" "helic-daq 0.1.0 abc123";
  encoded ← BeaconResponse_encode response (zeros RESPONSE_LEN);
  _ ← expect_eq (BeaconResponse_decode encoded) (Ok response);
  head ← slice encoded 0 6;
  _ ← expect_eq head [0x48; 0x4c; 0x02; 0x03; 0x2e; 0x09];
  expect_eq (br_firmware response) (str_bytes "helic-daq 0.1.0 ").

Definition response_matches_shared_known_answer : test :=
  response ← BeaconResponse_new [0x02; 0x48; 0x4c; 0; 0; 1] "magnetoelastic" "helic-daq sim";
  encoded ← BeaconResponse_encode response (zeros RESPONSE_LEN);
  expect_eq encoded
    [0x48; 0x4c; 0x02; 0x03; 0x2e; 0x09; 0x02; 0x48; 0x4c; 0x00; 0x00; 0x01; 0x6d; 0x61;
     0x67; 0x6e; 0x65; 0x74; 0x6f; 0x65; 0x6c; 0x61; 0x73; 0x74; 0x69; 0x63; 0x00; 0x00;
     0x68; 0x65; 0x6c; 0x69; 0x63; 0x2d; 0x64; 0x61; 0x71; 0x20; 0x73; 0x69; 0x6d; 0x00;
     0x00; 0x00].

Definition malformed_responses_are_rejected : test :=
  _ ← expect_eq (BeaconResponse_decode []) (Err BeaconBadLength);
  response ← BeaconResponse_new (zeros 6) "magnetoelastic" "test";
  encoded ← BeaconResponse_encode response (zeros RESPONSE_LEN);
  bad ← put encoded 0 0;
  expect_eq (BeaconResponse_decode bad) (Err BeaconBadMagic).

(** ** broker.rs *)

#[local] Instance BrokerInfo_eq_dec : EqDecision BrokerInfo.
Proof. solve_decision. Defined.

Definition broker_info_round_trips : test :=
  sources ← blit (zeros BROKER_MAX_SOURCES) 0 [0; 8; 12];
  let info := {| bi_state := Z.lor (Z.lor STATE_UPSTREAM_CONNECTED STATE_CONFIGURED) STATE_RUNNING;
                 bi_capabilities := CAPABILITIES; bi_history_capacity_ms := 10000;
                 bi_history_available_records := 42; bi_decimation := 4; bi_count := 0;
                 bi_connected_clients := 2; bi_n_sources := 3; bi_sources := sources |} in
  '(encoded, n) ← unwrap (BrokerInfo_encode info (zeros (INFO_HEADER_LEN + BROKER_MAX_SOURCES)));
  _ ← expect_eq n (INFO_HEADER_LEN + 3);
  payload ← slice encoded 0 n;
  expect_eq (BrokerInfo_decode payload) (Ok info).

Definition broker_info_rejects_wrong_versions_and_lengths : test :=
  _ ← expect_eq (BrokerInfo_decode []) (Err BrokerBadLength);
  payload ← put (zeros INFO_HEADER_LEN) 0 (EXTENSION_VERSION + 1);
  _ ← expect_eq (BrokerInfo_decode payload) (Err BrokerBadLength);
  payload ← put payload 0 EXTENSION_VERSION;
  payload ← put payload 20 1;
  expect_eq (BrokerInfo_decode payload) (Err BrokerBadLength).

(** ** The suite *)

Definition proto_tests : list (string * test) := [
  ("known_answer_vectors", known_answer_vectors);
  ("type_codes_round_trip", type_codes_round_trip);
  ("reboot_confirmation_is_stable", reboot_confirmation_is_stable);
  ("round_trip", round_trip);
  ("known_answer_frame", known_answer_frame);
  ("known_answer_discovery_requests", known_answer_discovery_requests);
  ("known_answer_v3_frames", known_answer_v3_frames);
  ("corrupt_crc_is_rejected", corrupt_crc_is_rejected);
  ("bad_magic_is_rejected", bad_magic_is_rejected);
  ("wrong_length_is_rejected", wrong_length_is_rejected);
  ("oversize_payload_is_rejected", oversize_payload_is_rejected);
  ("known_answer_discovery_entries", known_answer_discovery_entries);
  ("parameter_pages_preserve_complete_entries_and_indices", parameter_pages_preserve_complete_entries_and_indices);
  ("parameter_page_validation_rejects_bad_ranges_and_no_progress",
    parameter_page_validation_rejects_bad_ranges_and_no_progress);
  ("discovery_text_limits_are_enforced", discovery_text_limits_are_enforced);
  ("known_answer_block_payloads", known_answer_block_payloads);
  ("header_round_trips", header_round_trips);
  ("bad_magic_or_version_rejected", bad_magic_or_version_rejected);
  ("request_is_known_answer", request_is_known_answer);
  ("response_round_trips_and_truncates_strings", response_round_trips_and_truncates_strings);
  ("response_matches_shared_known_answer", response_matches_shared_known_answer);
  ("malformed_responses_are_rejected", malformed_responses_are_rejected);
  ("broker_info_round_trips", broker_info_round_trips);
  ("broker_info_rejects_wrong_versions_and_lengths", broker_info_rejects_wrong_versions_and_lengths)]%string.

Example proto_tests_pass : failing proto_tests = [].
Proof. vm_compute. reflexivity. Qed.
