(* ===== verification/CoreTests.v ===== *)
(** * Known answers of the signal-processing core

    The unit tests of helic-core/src: phase.rs, safety.rs, lut.rs, harmonics.rs,
    filter.rs, pid.rs and table.rs.  Left out are the tests that sweep 10^5
    steps or the upper halves of the phase, whose statements are theorems here
    (the coherence of harmonics by [phase_exact], the bounds of a table by
    [table_evaluate_spec]), and those of numerical quality: the sweep of the
    interpolated sine, the amplitude bound of generator.rs, the estimators of
    fourier.rs, the settled gain of the low-pass filter and the fourth-order
    cascade. *)

From stdpp Require Import strings.
From S2P Require Import Prelude Float32 Phase Harmonics Filter Pid Table Conformance.

#[export] Set Default Goal Selector "!".
Open Scope Z_scope.

(** ** phase.rs *)

Definition FS : float := f64_of_Z 8000.

Definition increment_is_exact_for_power_of_two_ratio : test :=
  expect_eq (increment_for (f64_of_Z 1000) FS) (Z.shiftl 1 29).

Definition frequency_resolution_error_is_below_one_lsb : test :=
  let inc := increment_for (dlit 1 10) FS in
  let f_actual := ddiv (dmul (f64_of_Z inc) FS) (f64_of_Z 4294967296) in
  expect (flt (fabs (dsub f_actual (dlit 1 10))) (ddiv FS (f64_of_Z 4294967296))).

Definition phase_wraps_exactly_at_period_boundary : test :=
  let acc := PhaseAccumulator_set_frequency PhaseAccumulator_new (f64_of_Z 1000) FS in
  _ ← for_each (fun i acc =>
        let '(acc, (phase, wrapped)) := PhaseAccumulator_step acc in
        _ ← expect_eq wrapped (i mod 8 =? 0);
        _ ← (if wrapped then expect_eq phase 0 else Some ());
        Some acc)
      (seqZ 1 24) acc;
  Some ().

Definition frequency_change_is_phase_continuous : test :=
  let acc := PhaseAccumulator_set_frequency PhaseAccumulator_new (f64_of_Z 1000) FS in
  let '(acc, _) := PhaseAccumulator_step acc in
  let before := pa_phase acc in
  let acc := PhaseAccumulator_set_frequency acc (f64_of_Z 2000) FS in
  _ ← expect_eq (pa_phase acc) before;
  let '(_, (after, _)) := PhaseAccumulator_step acc in
  expect_eq after (wrapping_add 32 before (Z.shiftl 1 30)).

(** ** safety.rs *)

(** [assert!(!s.observe(f))] or [assert!(s.observe(f))]. *)
Definition observes (f : Z) (stale : bool) (s : StaleCounter) : option StaleCounter :=
  let '(s, observed) := StaleCounter_observe s f in
  _ ← expect_eq observed stale; Some s.

Definition stale_counter_flags_frozen_source_then_recovers : test :=
  let s := StaleCounter_new 3 in
  s ← for_each (fun f => observes f false) (seqZ 1 10) s;
  s ← observes 10 false s;
  s ← observes 10 false s;
  s ← observes 10 false s;
  s ← observes 10 true s;
  s ← observes 10 true s;
  _ ← observes 11 false s;
  Some ().

Definition stale_counter_flags_source_that_never_starts : test :=
  let s := StaleCounter_new 2 in
  s ← observes 0 false s;
  s ← observes 0 false s;
  _ ← observes 0 true s;
  Some ().

(** ** lut.rs and harmonics.rs *)

(** [SinLut::new()], evaluated once. *)
Definition lut : SinLut := Eval vm_compute in default {| lut_table := [] |} (SinLut_new ref_sinf).

Example lut_is_new : SinLut_new ref_sinf = Some lut.
Proof. vm_compute. reflexivity. Qed.

(** [core::f64::consts::TAU]. *)
Definition TAU_f64 : float := dmul PI_f64 (f64_of_Z 2).

Definition cos_matches_shifted_sin : test :=
  _ ← for_each (fun phase _ =>
        let exact := f32_of_f64 (ref_cos (dmul (ddiv (f64_of_Z phase) (f64_of_Z 4294967296)) TAU_f64)) in
        v ← SinLut_cos lut phase;
        expect (flt (fabs (fsub v exact)) (fdiv (f32_of_Z 6) (f32_of_Z 1000000))))
      [0; Z.shiftl 1 30; Z.shiftl 1 31; 0xDEADBEEF; umax 32] ();
  Some ().

Definition endpoints_are_exact : test :=
  v ← SinLut_sin lut 0;
  _ ← expect_feq v f0;
  v ← SinLut_sin lut (Z.shiftl 1 31);
  expect_feq v (ref_sinf (f32_of_f64 PI_f64)).

Definition projection_matches_direct_fourier_evaluation : test :=
  let generator := HarmonicGenerator_set_increment (HarmonicGenerator_new 4) 123456789 in
  let coefficients := {| fc_mean := flit 1 4; fc_a := [f1; flit (-1) 2; flit 1 8; f0];
                         fc_b := [f0; flit 3 4; flit (-1) 4; flit 1 16] |} in
  _ ← repeat 100 (fun generator =>
        generator ← HarmonicGenerator_step generator 4 lut;
        let frame := hg_frame generator in
        projected ← HarmonicFrame_project frame 4 coefficients;
        evaluated ← FourierCoeffs_evaluate coefficients 4 lut (hf_phase frame);
        _ ← expect_feq projected evaluated;
        Some generator) generator;
  Some ().

Definition period_start_comes_from_accumulator_overflow : test :=
  let generator := HarmonicGenerator_set_increment (HarmonicGenerator_new 1) (Z.shiftl 1 30) in
  _ ← for_each (fun step generator =>
        generator ← HarmonicGenerator_step generator 1 lut;
        _ ← expect_eq (hf_period_start (hg_frame generator)) (step mod 4 =? 0);
        Some generator) (seqZ 1 8) generator;
  Some ().

(** ** filter.rs *)

Definition identity_passes_through : test :=
  _ ← for_each (fun x f => let '(f, y) := SosFilter_process f x in _ ← expect_feq y x; Some f)
        [f0; f1; flit (-7) 2; f32_of_Z 100] (SosFilter_identity 2);
  Some ().

Definition lowpass_100_hz : BiquadCoeffs := butterworth_lowpass ref_tan (f64_of_Z 100) FS.

(** The test's [measure_gain], for [n_settle] and [n_measure] samples. *)
Definition measure_gain (filter : SosFilter) (f fs : float) : option float :=
  let n_settle := saturating_cast 0 (umax 64) (ddiv (dmul (f64_of_Z 10) fs) f) in
  let n_measure := saturating_cast 0 (umax 64) (ddiv (dmul (f64_of_Z 4) fs) f) in
  '(_, peak) ← for_each (fun i '(filter, peak) =>
      let x := f32_of_f64 (ref_sin (ddiv (dmul (dmul TAU_f64 f) (f64_of_Z i)) fs)) in
      let '(filter, y) := SosFilter_process filter x in
      Some (filter, if n_settle <=? i then fmax peak (fabs (f64_of_f32 y)) else peak))
    (seqZ 0 (n_settle + n_measure)) (filter, f0);
  Some peak.

(** [core::f64::consts::FRAC_1_SQRT_2]. *)
Definition FRAC_1_SQRT_2 : float := S754_finite false 0x16A09E667F3BCD (-53).

Definition lowpass_gain_is_3db_down_at_cutoff : test :=
  gain ← measure_gain (SosFilter_new [lowpass_100_hz]) (f64_of_Z 100) FS;
  expect (flt (fabs (dsub gain FRAC_1_SQRT_2)) (dlit 1 100)).

Definition lowpass_attenuates_above_cutoff : test :=
  gain ← measure_gain (SosFilter_new [lowpass_100_hz]) (f64_of_Z 1000) FS;
  expect (flt gain (dlit 2 100)).

(** ** pid.rs *)

Definition DT : float := fdiv f1 (f32_of_Z 8000).

(** [pid.update(error, DT)] on a state of type [Pid]. *)
Definition update (error : float) (p : Pid) : option (Pid * float) := Pid_update p error DT.
Definition updates (n : Z) (error : float) (p : Pid) : option (Pid * float) :=
  repeat (Z.to_nat n) (fun '(p, _) => update error p) (p, f0).

Definition proportional_only : test :=
  let pid := Pid_new (PidConfig_default <| pc_kp := flit 5 2 |>) in
  '(pid, out) ← update f1 pid;
  _ ← expect_feq out (flit 5 2);
  '(pid, out) ← update (flit (-4) 10) pid;
  expect_feq out (f32_of_Z (-1)).

Definition integral_accumulates_to_expected_value : test :=
  '(_, out) ← updates 8000 f1 (Pid_new (PidConfig_default <| pc_ki := f32_of_Z 10 |>));
  expect (flt (fabs (fsub out (f32_of_Z 10))) (flit 1 100)).

Definition derivative_of_ramp_is_slope : test :=
  '(_, out) ← for_each (fun i '(pid, _) => update (fmul (fmul (f32_of_Z 3) (f32_of_Z i)) DT) pid)
                (seqZ 0 100) (Pid_new (PidConfig_default <| pc_kd := f1 |>), f0);
  expect (flt (fabs (fsub out (f32_of_Z 3))) (flit 1 1000)).

Definition derivative_filter_smooths_a_step : test :=
  '(pid, _) ← update f0 (Pid_new (PidConfig_default <| pc_kd := f1 |> <| pc_tau_d := flit 1 100 |>));
  '(_, out) ← update f1 pid;
  _ ← expect (flt out (fmul (f32_of_Z 8000) (flit 5 100)));
  expect (fgt out f0).

Definition output_clamps_and_integrator_does_not_wind_up : test :=
  let pid := Pid_new (PidConfig_default <| pc_kp := f1 |> <| pc_ki := f32_of_Z 100 |>
                                        <| pc_out_min := f32_of_Z (-1) |> <| pc_out_max := f1 |>) in
  pid ← repeat (Z.to_nat 8000) (fun pid => '(pid, out) ← update (f32_of_Z 10) pid; _ ← expect_feq out f1; Some pid) pid;
  '(_, out) ← update (f32_of_Z (-10)) pid;
  expect (fle out (fadd (f32_of_Z (-1)) (flit 1 1000000))).

Definition anti_windup_uses_integral_direction_for_negative_gain : test :=
  let pid := Pid_new (PidConfig_default <| pc_ki := f32_of_Z (-100) |>
                                        <| pc_out_min := f32_of_Z (-1) |> <| pc_out_max := f1 |>) in
  '(pid, _) ← updates 8000 (f32_of_Z (-10)) pid;
  '(pid, out) ← update (f32_of_Z (-10)) pid;
  _ ← expect_feq out f1;
  '(pid, _) ← updates 100 (f32_of_Z 10) pid;
  '(_, out) ← update (f32_of_Z 10) pid;
  expect_feq out (f32_of_Z (-1)).

Definition default_suppresses_first_derivative_spike : test :=
  let pid := Pid_default <| pid_config := PidConfig_default <| pc_kd := f1 |> |> in
  '(_, out) ← update f1 pid;
  expect_feq out f0.

Definition reset_clears_state : test :=
  '(pid, _) ← updates 1000 (f32_of_Z 5) (Pid_new (PidConfig_default <| pc_ki := f1 |>));
  '(_, out) ← update f0 (Pid_reset pid);
  expect_feq out f0.

(** ** table.rs *)

Definition test_table (values : list Z) : option WaveTable := WaveTable_from_slice 8 (f32_of_Z <$> values).

(** [assert_eq!(table.evaluate(theta), v)]. *)
Definition evaluates (t : WaveTable) (theta : Z) (v : float) : test :=
  x ← WaveTable_evaluate t theta; expect_feq x v.

Definition ramp_is_exact_between_knots : test :=
  table ← test_table [0; 1; 2; 3];
  _ ← evaluates table 0 f0;
  _ ← evaluates table (Z.shiftl 1 30) f1;
  evaluates table (Z.shiftl 3 29) (flit 3 2).

Definition final_segment_wraps_to_first : test :=
  table ← test_table [0; 1; 2; 3];
  _ ← evaluates table (Z.shiftl 7 29) (flit 3 2);
  v ← WaveTable_evaluate table (umax 32);
  expect (flt (fabs v) (flit 1 100000)).

Definition zero_order_hold_keeps_each_value_until_the_next_knot : test :=
  table ← test_table [0; 1; 2; 3];
  let holds theta v := (x ← WaveTable_evaluate_with table theta ZeroOrderHold; expect_feq x v) in
  _ ← holds 0 f0;
  _ ← holds (Z.shiftl 1 30 - 1) f0;
  _ ← holds (Z.shiftl 1 30) f1;
  holds (umax 32) (f32_of_Z 3).

Definition interpolation_values_are_mathematical_orders : test :=
  _ ← expect_eq (TableInterpolation_from_u32 0) (Some ZeroOrderHold);
  _ ← expect_eq (TableInterpolation_from_u32 1) (Some Linear);
  expect_eq (TableInterpolation_from_u32 2) None.

Definition interpolation_change_does_not_reset_playback_phase : test :=
  table ← test_table [0; 1];
  let player := TablePlayer_set_increment (TablePlayer_set_mode TablePlayer_new Loop) (Z.shiftl 1 30) in
  '(player, v) ← TablePlayer_step player table 0 false;
  _ ← expect_feq v (flit 1 2);
  let player := TablePlayer_set_interpolation player ZeroOrderHold in
  '(_, v) ← TablePlayer_step player table 0 false;
  expect_feq v f1.

Definition free_one_shot_returns_to_zero_after_one_pass : test :=
  table ← test_table [1; 2];
  let player := TablePlayer_trigger (TablePlayer_set_increment (TablePlayer_set_mode TablePlayer_new OneShot) (Z.shiftl 1 30)) in
  '(player, v) ← TablePlayer_step player table 0 false;
  _ ← expect (fne v f0);
  player ← repeat 3 (fun player => fst <$> TablePlayer_step player table 0 false) player;
  '(_, v) ← TablePlayer_step player table 0 false;
  expect_feq v f0.

Definition locked_loop_is_an_exact_phase_multiple : test :=
  table ← test_table [0; 1; 0; -1];
  let player := TablePlayer_set_multiplier (TablePlayer_set_mode TablePlayer_new LockedLoop) 3 in
  _ ← for_each (fun phase player =>
        '(player, v) ← TablePlayer_step player table phase false;
        _ ← evaluates table (wrapping_mul 32 phase 3) v;
        Some player) [0; 123456789; umax 32] player;
  Some ().

(** [assert_ne!(player.step(&table, phase, start), 0.0)] or [assert_eq!]. *)
Definition plays (t : WaveTable) (phase : Z) (start sounding : bool) (p : TablePlayer) : option TablePlayer :=
  '(p, v) ← TablePlayer_step p t phase start;
  _ ← expect_eq (fne v f0) sounding;
  Some p.

Definition locked_one_shot_waits_for_master_start : test :=
  table ← test_table [1; 2];
  let player := TablePlayer_trigger (TablePlayer_set_mode TablePlayer_new LockedOneShot) in
  player ← plays table 100 false false player;
  player ← plays table 200 true true player;
  player ← plays table (200 + Z.shiftl 1 30) false true player;
  player ← plays table (200 + Z.shiftl 2 30) false true player;
  player ← plays table (200 + Z.shiftl 3 30) false true player;
  _ ← plays table 200 false false player;
  Some ().

Definition const_generic_capacity_is_enforced : test :=
  _ ← expect (bool_decide (is_Some (WaveTable_from_slice 8 (replicate 8 f0))));
  _ ← expect_none (WaveTable_from_slice 8 (replicate 9 f0));
  let table := WaveTable_empty 8 in
  '(table, written) ← WaveTable_write_block table 6 [f1; f2];
  _ ← expect written;
  '(table, written) ← WaveTable_write_block table 7 [f1; f2];
  _ ← expect (negb written);
  let '(table, set) := WaveTable_set_len table 8 in
  _ ← expect set;
  let '(_, set) := WaveTable_set_len table 9 in
  expect (negb set).

(** ** The suite *)

Definition core_tests : list (string * test) := [
  ("increment_is_exact_for_power_of_two_ratio", increment_is_exact_for_power_of_two_ratio);
  ("frequency_resolution_error_is_below_one_lsb", frequency_resolution_error_is_below_one_lsb);
  ("phase_wraps_exactly_at_period_boundary", phase_wraps_exactly_at_period_boundary);
  ("frequency_change_is_phase_continuous", frequency_change_is_phase_continuous);
  ("stale_counter_flags_frozen_source_then_recovers", stale_counter_flags_frozen_source_then_recovers);
  ("stale_counter_flags_source_that_never_starts", stale_counter_flags_source_that_never_starts);
  ("cos_matches_shifted_sin", cos_matches_shifted_sin);
  ("endpoints_are_exact", endpoints_are_exact);
  ("projection_matches_direct_fourier_evaluation", projection_matches_direct_fourier_evaluation);
  ("period_start_comes_from_accumulator_overflow", period_start_comes_from_accumulator_overflow);
  ("identity_passes_through", identity_passes_through);
  ("lowpass_gain_is_3db_down_at_cutoff", lowpass_gain_is_3db_down_at_cutoff);
  ("lowpass_attenuates_above_cutoff", lowpass_attenuates_above_cutoff);
  ("proportional_only", proportional_only);
  ("integral_accumulates_to_expected_value", integral_accumulates_to_expected_value);
  ("derivative_of_ramp_is_slope", derivative_of_ramp_is_slope);
  ("derivative_filter_smooths_a_step", derivative_filter_smooths_a_step);
  ("output_clamps_and_integrator_does_not_wind_up", output_clamps_and_integrator_does_not_wind_up);
  ("anti_windup_uses_integral_direction_for_negative_gain", anti_windup_uses_integral_direction_for_negative_gain);
  ("default_suppresses_first_derivative_spike", default_suppresses_first_derivative_spike);
  ("reset_clears_state", reset_clears_state);
  ("ramp_is_exact_between_knots", ramp_is_exact_between_knots);
  ("final_segment_wraps_to_first", final_segment_wraps_to_first);
  ("zero_order_hold_keeps_each_value_until_the_next_knot", zero_order_hold_keeps_each_value_until_the_next_knot);
  ("interpolation_values_are_mathematical_orders", interpolation_values_are_mathematical_orders);
  ("interpolation_change_does_not_reset_playback_phase", interpolation_change_does_not_reset_playback_phase);
  ("free_one_shot_returns_to_zero_after_one_pass", free_one_shot_returns_to_zero_after_one_pass);
  ("locked_loop_is_an_exact_phase_multiple", locked_loop_is_an_exact_phase_multiple);
  ("locked_one_shot_waits_for_master_start", locked_one_shot_waits_for_master_start);
  ("const_generic_capacity_is_enforced", const_generic_capacity_is_enforced)]%string.

Example core_tests_pass : failing core_tests = [].
Proof. vm_compute. reflexivity. Qed.
