(* ===== verification/PllTests.v ===== *)
(** * Known answers of the phase-locked loop and of the double buffer

    The unit tests of helic-core/src/pll.rs and table_buffer.rs.  Left out are
    the sweep of the arctangent over 40000 points, and the hundred thousand
    commit cycles, of which [double_buffer_refines] is the general statement. *)

From stdpp Require Import strings.
From S2P Require Import Prelude Float32 Phase Harmonics Table TableBuffer Pll Conformance CoreTests.

#[export] Set Default Goal Selector "!".
Open Scope Z_scope.

(** ** pll.rs *)

Definition pll_dt : float := flit 1 1000.

(** The [config] and [observation] of the tests. *)
Definition config : PllConfig := {|
  cfg_centre_increment := 100; cfg_min_increment := 90; cfg_max_increment := 110;
  cfg_proportional_gain := f1; cfg_integral_gain := f1; cfg_target_phase_deg := f0; cfg_delay_s := f0;
  cfg_dc_time_constant_s := flit 1 1000; cfg_demod_time_constant_s := f0;
  cfg_min_excitation_amplitude := flit 1 10; cfg_min_response_amplitude := flit 1 10;
  cfg_lock_phase_tolerance_deg := f2; cfg_unlock_phase_tolerance_deg := f32_of_Z 5;
  cfg_lock_frequency_tolerance := f1; cfg_lock_dwell_s := flit 3 1000; cfg_unlock_dwell_s := flit 3 1000;
  cfg_acquire_timeout_s := flit 5 100; cfg_saturation_dwell_s := flit 3 1000 |}.

Definition observation (phase_deg : float) : Demodulated :=
  {| dm_phase_deg := phase_deg; dm_excitation_amplitude_sq := f1; dm_response_amplitude_sq := f1 |}.

(** [n] calls of [update_observation]. *)
Definition observe_times (n : nat) (o : option Demodulated) (increment : Z) (dt : float) (p : Pll) : option Pll :=
  repeat n (fun p => fst <$> update_observation p o increment dt) p.

Definition warm (p : Pll) : option Pll := observe_times 5 (Some (observation f0)) 100 pll_dt p.

Definition conventional_phase_reports_a_lag_as_negative : test :=
  let fs := f32_of_Z 1000 in
  let increment := increment_for (f64_of_Z 50) (f64_of_f32 fs) in
  let cfg := config <| cfg_centre_increment := increment |> <| cfg_min_increment := increment - 100 |>
    <| cfg_max_increment := increment + 100 |> <| cfg_proportional_gain := f0 |> <| cfg_integral_gain := f0 |>
    <| cfg_target_phase_deg := f32_of_Z (-30) |> <| cfg_dc_time_constant_s := flit 1 10 |>
    <| cfg_demod_time_constant_s := flit 1 10 |> <| cfg_lock_frequency_tolerance := f32_of_Z 100 |>
    <| cfg_lock_dwell_s := flit 2 100 |> <| cfg_acquire_timeout_s := f32_of_Z 4 |> in
  pll ← Pll_new cfg;
  let generator := HarmonicGenerator_set_increment (HarmonicGenerator_new 1) increment in
  let shift := fmul (f32_of_Z 30) (fdiv PI (f32_of_Z 180)) in
  let cos_shift := f32_of_f64 (ref_cos (f64_of_f32 shift)) in
  let sin_shift := ref_sinf shift in
  '(pll, _) ← repeat (Z.to_nat 3000) (fun '(pll, generator) =>
      generator ← HarmonicGenerator_step generator 1 lut;
      let frame := hg_frame generator in
      c ← HarmonicFrame_cos frame 0;
      s ← HarmonicFrame_sin frame 0;
      let excitation := fadd f2 c in
      let response := fadd (fadd (f32_of_Z 25) (fmul c cos_shift)) (fmul s sin_shift) in
      '(pll, _) ← Pll_update pll frame excitation response increment (fdiv f1 fs);
      Some (pll, generator)) (Pll_set_enabled pll true, generator);
  _ ← expect_eq (pl_state pll) Locked;
  _ ← expect (flt (fabs (fadd (pl_measured_phase_deg pll) (f32_of_Z 30))) f1);
  expect (flt (fabs (pl_phase_error_deg pll)) f1).

Definition warmup_precedes_acquisition_timeout : test :=
  pll ← Pll_new config;
  pll ← observe_times 4 None 100 pll_dt (Pll_set_enabled pll true);
  _ ← expect_eq (pl_state pll) Acquiring;
  _ ← expect (negb (pl_observation_valid pll));
  pll ← observe_times 60 None 100 pll_dt pll;
  expect_eq (pl_state pll) Fixed.

Definition delay_compensation_wraps_multiple_turns_both_ways : test :=
  _ ← for_each (fun '(degrees, v) _ =>
        wrapped ← wrap_degrees_full (f32_of_Z degrees);
        expect (flt (fabs (fadd wrapped (f32_of_Z v))) (flit 1 10000)))
      [(432, -72); (-432, 72); (3779, -179); (-3779, 179)] ();
  Some ().

Definition sub_quantum_integral_accumulates_above_f32_absolute_precision_limit : test :=
  let centre := increment_for (f64_of_Z 30) (f64_of_Z 8000) in
  let cfg := config <| cfg_centre_increment := centre |> <| cfg_min_increment := centre - 100 |>
    <| cfg_max_increment := centre + 100 |> <| cfg_proportional_gain := f0 |> <| cfg_integral_gain := flit 1 4 |>
    <| cfg_lock_phase_tolerance_deg := f0 |> <| cfg_acquire_timeout_s := f32_of_Z 10 |> in
  pll ← Pll_new cfg;
  pll ← warm (Pll_set_enabled pll true);
  pll ← observe_times 5 (Some (observation f1)) centre f1 pll;
  expect_eq (pl_commanded_increment pll) (centre + 1).

(** The common start of the next two tests. *)
Definition locked : option Pll :=
  pll ← Pll_new config;
  pll ← warm (Pll_set_enabled pll true);
  pll ← observe_times 3 (Some (observation f0)) 100 pll_dt pll;
  _ ← expect_eq (pl_state pll) Locked;
  Some pll.

Definition lock_loss_is_latched_against_enable_and_reacquire : test :=
  pll ← locked;
  pll ← observe_times 3 None 100 pll_dt pll;
  _ ← expect_eq (pl_state pll) LockLost;
  let pll := Pll_set_enabled (Pll_reacquire pll) true in
  _ ← expect_eq (pl_state pll) LockLost;
  expect_eq (pl_state (Pll_reset pll)) Fixed.

Definition reacquire_preserves_frequency_and_replayed_enable_preserves_lock : test :=
  pll ← locked;
  let frequency := pl_commanded_increment pll in
  let pll := Pll_set_enabled pll true in
  _ ← expect_eq (pl_state pll) Locked;
  let pll := Pll_reacquire pll in
  _ ← expect_eq (pl_state pll) Acquiring;
  expect_eq (pl_commanded_increment pll) frequency.

Definition public_setters_reject_invalid_values_without_panicking : test :=
  pll ← Pll_new config;
  let nan := S754_nan in
  let infinity := S754_infinity false in
  _ ← for_each (fun setter pll => let '(pll, accepted) := setter pll in _ ← expect (negb accepted); Some pll)
    [(fun p => Pll_set_centre_increment p 89); (fun p => Pll_set_min_increment p 101);
     (fun p => Pll_set_max_increment p 99); (fun p => Pll_set_proportional_gain p nan);
     (fun p => Pll_set_integral_gain p infinity); (fun p => Pll_set_target_phase p f180);
     (fun p => Pll_set_delay p nan); (fun p => Pll_set_dc_time_constant p f0);
     (fun p => Pll_set_demod_time_constant p (f32_of_Z (-1)));
     (fun p => Pll_set_min_excitation_amplitude p (f32_of_Z (-1)));
     (fun p => Pll_set_min_response_amplitude p nan); (fun p => Pll_set_lock_phase_tolerance p (f32_of_Z 20));
     (fun p => Pll_set_unlock_phase_tolerance p f1); (fun p => Pll_set_lock_frequency_tolerance p (f32_of_Z (-1)));
     (fun p => Pll_set_lock_dwell p (f32_of_Z (-1))); (fun p => Pll_set_unlock_dwell p nan);
     (fun p => Pll_set_acquire_timeout p (f32_of_Z (-1))); (fun p => Pll_set_saturation_dwell p infinity)] pll;
  Some ().

Definition sram_square_root_is_accurate_across_amplitude_scales : test :=
  _ ← for_each (fun value _ =>
        let expected := ref_sqrtf value in
        let relative_error := fdiv (fabs (fsub (sqrtf_rt value) expected)) expected in
        expect (flt relative_error (flit 2 1000000)))
      [f32_of_f64 (dlit 1 (10 ^ 12)); flit 1 (10 ^ 6); flit 1 10; f1; f32_of_Z 10; f32_of_Z (10 ^ 6); f32_of_Z (10 ^ 12)] ();
  Some ().

(** ** table_buffer.rs *)

Definition endpoints (identity : Z) : DoubleBuffer WaveTable * Active := DoubleBuffer_split (TableBuffer_new identity MAX_TABLE_LEN).

(** The test's [stage]. *)
Definition stage (buf : DoubleBuffer WaveTable) (values : list float) : option (DoubleBuffer WaveTable) :=
  '(buf, (written, set)) ← unwrap (Staging_buffer buf (fun table =>
     '(table, written) ← WaveTable_write_block table 0 values;
     let '(table, set) := WaveTable_set_len table (len values) in
     Some (table, (written, set))));
  _ ← expect written;
  _ ← expect set;
  Some buf.

Definition writable {T} (buf : DoubleBuffer T) : bool := is_ok (Staging_buffer buf (fun x => Some (x, ()))).

(** [active.activate(staging.commit().unwrap())]. *)
Definition publish {T} (buf : DoubleBuffer T) (active : Active) : option (DoubleBuffer T * Active) :=
  '(buf, token) ← unwrap (Staging_commit buf);
  Some (Active_activate buf active token).

Definition active_samples (buf : DoubleBuffer WaveTable) (active : Active) : option (list float) :=
  table ← Active_get buf active; WaveTable_samples table.

Definition pending_commit_is_busy_and_cancel_restores_writability : test :=
  let '(buf, _) := endpoints 1 in
  buf ← stage buf [f1; f2];
  '(buf, token) ← unwrap (Staging_commit buf);
  _ ← expect (is_err (Staging_commit buf));
  _ ← expect (negb (writable buf));
  expect (writable (Staging_cancel buf token)).

Definition activation_observes_all_writes_published_by_commit : test :=
  let '(buf, active) := endpoints 1 in
  let values := [f1; flit (-5) 2; flit 13 4; f32_of_Z 4] in
  buf ← stage buf values;
  '(buf, active) ← publish buf active;
  samples ← active_samples buf active;
  expect_all_feq samples values.

Definition value_buffer_uses_the_same_publication_protocol : test :=
  let '(buf, active) := DoubleBuffer_split (ValueBuffer_values 1 132) in
  let values := [f1; flit (-5) 2; flit 13 4; f32_of_Z 4] in
  '(buf, _) ← unwrap (Staging_buffer buf (fun bank => bank ← blit bank 0 values; Some (bank, ())));
  '(buf, active) ← publish buf active;
  bank ← Active_get buf active;
  head ← slice bank 0 4;
  expect_all_feq head values.

Definition rejected_commit_leaves_active_bank_untouched : test :=
  let '(buf, active) := endpoints 1 in
  buf ← stage buf [f1; f2];
  '(buf, active) ← publish buf active;
  buf ← stage buf [f32_of_Z 7; f32_of_Z 8; f32_of_Z 9];
  '(buf, rejected) ← unwrap (Staging_commit buf);
  let buf := Staging_cancel buf rejected in
  samples ← active_samples buf active;
  _ ← expect_all_feq samples [f1; f2];
  expect (writable buf).

Definition foreign_tokens_cannot_cancel_or_activate_any_buffer_type : test :=
  let '(a, _) := endpoints 1 in
  let '(b, active_b) := endpoints 2 in
  a ← stage a [f1; f2];
  b ← stage b [f32_of_Z 3; f32_of_Z 4];
  '(a, token_a) ← unwrap (Staging_commit a);
  '(b, token_b) ← unwrap (Staging_commit b);
  let b := Staging_cancel b token_a in
  _ ← expect (negb (writable b));
  let '(b, active_b) := Active_activate b active_b token_b in
  samples ← active_samples b active_b;
  _ ← expect_all_feq samples [f32_of_Z 3; f32_of_Z 4];
  let '(table, _) := endpoints 3 in
  let '(values, values_active) := DoubleBuffer_split (ValueBuffer_values 4 4) in
  table ← stage table [f32_of_Z 5; f32_of_Z 6];
  '(table, token) ← unwrap (Staging_commit table);
  let '(values, values_active) := Active_activate values values_active token in
  bank ← Active_get values values_active;
  expect_all_feq bank (replicate 4 f0).

(** ** The suite *)

Definition pll_tests : list (string * test) := [
  ("conventional_phase_reports_a_lag_as_negative", conventional_phase_reports_a_lag_as_negative);
  ("warmup_precedes_acquisition_timeout", warmup_precedes_acquisition_timeout);
  ("delay_compensation_wraps_multiple_turns_both_ways", delay_compensation_wraps_multiple_turns_both_ways);
  ("sub_quantum_integral_accumulates_above_f32_absolute_precision_limit", sub_quantum_integral_accumulates_above_f32_absolute_precision_limit);
  ("lock_loss_is_latched_against_enable_and_reacquire", lock_loss_is_latched_against_enable_and_reacquire);
  ("reacquire_preserves_frequency_and_replayed_enable_preserves_lock", reacquire_preserves_frequency_and_replayed_enable_preserves_lock);
  ("public_setters_reject_invalid_values_without_panicking", public_setters_reject_invalid_values_without_panicking);
  ("sram_square_root_is_accurate_across_amplitude_scales", sram_square_root_is_accurate_across_amplitude_scales);
  ("pending_commit_is_busy_and_cancel_restores_writability", pending_commit_is_busy_and_cancel_restores_writability);
  ("activation_observes_all_writes_published_by_commit", activation_observes_all_writes_published_by_commit);
  ("value_buffer_uses_the_same_publication_protocol", value_buffer_uses_the_same_publication_protocol);
  ("rejected_commit_leaves_active_bank_untouched", rejected_commit_leaves_active_bank_untouched);
  ("foreign_tokens_cannot_cancel_or_activate_any_buffer_type", foreign_tokens_cannot_cancel_or_activate_any_buffer_type)]%string.

Example pll_tests_pass : failing pll_tests = [].
Proof. vm_compute. reflexivity. Qed.
