(* ===== verification/DriverTests.v ===== *)
(** * Known answers of the drivers

    The unit tests of helic-drivers/src: ssi.rs, ad7609.rs, ad5064.rs,
    pwm_out.rs and optoncdt.rs.  The mock bus of the crate takes every word,
    its reads give the canned bytes, and its delays are the events of the
    model.  The sweep of the interleaved pairs is [deinterleave_exact]. *)

From stdpp Require Import strings.
From S2P Require Import Prelude Float32 Text Ssi Ad7609 Ad5064 Optoncdt Conformance.

#[export] Set Default Goal Selector "!".
Open Scope Z_scope.

(** ** ssi.rs *)

(** The test's [gray]. *)
Definition gray (binary : Z) : Z := Z.lxor binary (Z.shiftr binary 1).

Definition known_gray_vectors_decode_at_12_and_13_bits : test :=
  _ ← for_each (fun bits _ =>
        let format := {| sf_bits := bits; sf_gray := true |} in
        for_each (fun binary _ => expect_eq (SsiFormat_decode format (gray binary)) (Ok binary))
          [1; 2; 3; 7; 42; 1234; Z.shiftl 1 bits - 2] ()) [12; 13] ();
  Some ().

Definition binary_words_pass_through : test :=
  expect_eq (SsiFormat_decode {| sf_bits := 13; sf_gray := false |} 0x1234) (Ok 0x1234).

Definition binary_endpoints_are_valid_positions : test :=
  let format := {| sf_bits := 12; sf_gray := false |} in
  _ ← expect_eq (SsiFormat_decode format 0) (Ok 0);
  _ ← expect_eq (SsiFormat_decode format 0x0fff) (Ok 0x0fff);
  expect_eq (SsiFormat_decode format 0x1000) (Err InvalidWord).

Definition interleaved_pair_rejects_invalid_shapes : test :=
  _ ← expect_eq (deinterleave_pair 0 0) (Err InvalidFormat);
  _ ← expect_eq (deinterleave_pair 0 17) (Err InvalidFormat);
  expect_eq (deinterleave_pair (Z.shiftl 1 24) 12) (Err InvalidWord).

Definition invalid_bit_counts_are_rejected : test :=
  expect_eq (SsiFormat_decode {| sf_bits := 0; sf_gray := false |} 1) (Err InvalidFormat).

Definition scaling_wraps_in_revolutions : test :=
  _ ← for_each (fun '(counts, v) _ => p ← SsiScale_position 4096 counts; expect_feq p v)
        [(1024, flit 1 4); (4096, f0); (5120, flit 1 4)] ();
  Some ().

(** ** ad7609.rs *)

(** The test's [pack_frame]. *)
Definition pack_bit (code ch b : Z) (raw : list Z) : option (list Z) :=
  let bit := Z.land (Z.shiftr code (17 - b)) 1 in
  let idx := ch * 18 + b in
  byte ← index raw (idx / 8);
  put raw (idx / 8) (Z.lor byte (wrap 8 (Z.shiftl bit (7 - idx mod 8)))).

Definition pack_frame (values : list Z) : option (list Z) :=
  for_each (fun '(ch, v) raw => for_each (pack_bit (Z.land (wrap 32 v) 0x3FFFF) ch) (seqZ 0 18) raw)
    (zip (seqZ 0 8) values) (replicate 18 0).

Definition decode_recovers_packed_values : test :=
  let values := [131071; -131072; 0; -1; 1; 42; -31337; 65536] in
  raw ← pack_frame values;
  expect_eq (decode_frame raw) (Some values).

Definition decode_all_zero_and_all_one : test :=
  _ ← expect_eq (decode_frame (replicate 18 0)) (Some (replicate 8 0));
  expect_eq (decode_frame (replicate 18 0xFF)) (Some (replicate 8 (-1))).

Definition scale_matches_lsb_size : test :=
  _ ← expect_feq (InputRange_scale Bipolar10V) (flit 20 262144);
  _ ← expect_feq (InputRange_scale Bipolar20V) (flit 40 262144);
  let v := fmul (f32_of_Z 131071) (InputRange_scale Bipolar10V) in
  expect (flt (fabs (fsub v (f32_of_Z 10))) (flit 1 10000)).

Definition read_frame_decodes_spi_bytes : test :=
  let values := [1000; -1000; 500; -500; 0; 131071; -131072; 77] in
  raw ← pack_frame values;
  read ← unwrap (read_frame (E := Empty_set) (Ok raw));
  expect_eq read values.

Definition init_sets_pins_and_pulses_reset : test :=
  let adc := Ad7609_init Ad7609_new Bipolar20V Os8 in
  let at_level p high := expect_eq (level (ad_events adc) p) (Some high) in
  _ ← at_level PinOs0 true;
  _ ← at_level PinOs1 true;
  _ ← at_level PinOs2 false;
  _ ← at_level PinRange true;
  expect_eq (omap (fun e => match e with PinState PinReset high => Some high | _ => None end) (ad_events adc)) [true; false].

#[local] Instance Oversampling_eq_dec : EqDecision Oversampling.
Proof. solve_decision. Defined.

Definition oversampling_for_preset_rates : test :=
  _ ← expect_eq (for_sample_rate (f32_of_Z 8000)) Os8;
  _ ← expect_eq (for_sample_rate (f32_of_Z 4000)) Os16;
  _ ← expect_eq (for_sample_rate (f32_of_Z 2000)) Os32;
  expect_eq (for_sample_rate (f32_of_Z 1000)) Os64.

(** ** ad5064.rs *)

Definition frame_layout_matches_datasheet : test :=
  _ ← expect_eq (dac_frame WriteAndUpdate 2 0xABCD) [0x03; 0x2A; 0xBC; 0xD0];
  expect_eq (dac_frame SoftwareReset 0 0) [0x06; 0x00; 0x00; 0x00].

Definition vref : float := flit 4096 1000.

Definition unipolar_volts_mapping : test :=
  _ ← expect_eq (code_for_volts f0 Unipolar vref) (Some 0);
  _ ← expect_eq (code_for_volts vref Unipolar vref) (Some 65535);
  _ ← expect_eq (code_for_volts (flit 2048 1000) Unipolar vref) (Some 32768);
  _ ← expect_eq (code_for_volts (f32_of_Z (-1)) Unipolar vref) (Some 0);
  expect_eq (code_for_volts (flit 99 10) Unipolar vref) (Some 65535).

Definition bipolar_volts_mapping : test :=
  _ ← expect_eq (code_for_volts (fneg vref) Bipolar vref) (Some 0);
  _ ← expect_eq (code_for_volts vref Bipolar vref) (Some 65535);
  expect_eq (code_for_volts f0 Bipolar vref) (Some 32768).

Definition non_finite_volts_map_to_zero_volts : test :=
  _ ← for_each (fun bad _ =>
        _ ← expect_eq (code_for_volts bad Bipolar vref) (Some 32768);
        expect_eq (code_for_volts bad Unipolar vref) (Some 0))
      [S754_nan; S754_infinity false; S754_infinity true] ();
  Some ().

(** The bytes on the bus and the delays between them. *)
Definition written (events : list DacEvent) : list Z := events ≫= (fun e => match e with Word bytes => bytes | Delay _ => [] end).
Definition delays (events : list DacEvent) : list Z := omap (fun e => match e with Delay us => Some us | Word _ => None end) events.

Definition takes_all : Bus Empty_set := fun _ => None.
Definition unipolar_dac : Ad5064 := {| da_polarity := [Unipolar; Unipolar; Unipolar; Unipolar]; da_vref := vref |}.

Definition write_volts_sends_expected_frame : test :=
  let dac := {| da_polarity := [Bipolar; Unipolar; Bipolar; Unipolar]; da_vref := vref |} in
  let '(events, r) := write_volts takes_all dac [] 0 f0 in
  _ ← unwrap r;
  expect_eq (written events) [0x03; 0x08; 0x00; 0x00].

Definition zero_all_writes_every_channel : test :=
  let '(events, r) := zero_all takes_all unipolar_dac [] in
  _ ← unwrap r;
  _ ← expect_eq (len (written events)) 16;
  _ ← for_each (fun ch _ => b ← index (written events) (ch * 4 + 1); expect_eq (Z.shiftr b 4) ch) (seqZ 0 4) ();
  Some ().

Definition zero_all_with_delay_spaces_successive_words : test :=
  let '(events, r) := zero_all_with_delay takes_all unipolar_dac [] in
  _ ← unwrap r;
  _ ← expect_eq (len (written events)) 16;
  expect_eq (delays events) [3; 3; 3].

Definition write_volts_with_delay_spaces_between_words_only : test :=
  let '(events, r) := write_volts_with_delay takes_all unipolar_dac [(2, flit 2048 1000); (0, flit 2048 1000); (1, f0)] [] in
  _ ← unwrap r;
  _ ← expect_eq (len (written events)) 12;
  _ ← for_each (fun '(i, ch) _ => b ← index (written events) i; expect_eq (Z.shiftr b 4) ch) [(1, 2); (5, 0); (9, 1)] ();
  expect_eq (delays events) [WORD_SETTLE_US; WORD_SETTLE_US].

(** ** pwm_out.rs *)

Definition mock : PwmChannel := {| pw_max := 1023; pw_duty := 0 |}.

Definition rails_and_midpoint_map_to_duty : test :=
  let five := f32_of_Z 5 in
  _ ← expect_eq (duty_for_volts (fneg five) (fneg five) five 1023) (Some 0);
  _ ← expect_eq (duty_for_volts f0 (fneg five) five 1023) (Some 512);
  expect_eq (duty_for_volts five (fneg five) five 1023) (Some 1023).

Definition volts_clamp_and_non_finite_maps_to_zero_volts : test :=
  _ ← expect_eq (duty_for_volts (f32_of_Z (-20)) f0 (flit 33 10) 2047) (Some 0);
  _ ← expect_eq (duty_for_volts (f32_of_Z 20) f0 (flit 33 10) 2047) (Some 2047);
  expect_eq (duty_for_volts S754_nan (f32_of_Z (-5)) (f32_of_Z 5) 1023) (Some 512).

Definition channels_are_independent : test :=
  output ← PwmOut_new [mock; mock] f0 (f32_of_Z 4);
  let '(output, r) := PwmOut_write_volts (E := Empty_set) output 0 f1 None in
  _ ← unwrap r;
  let '(output, r) := PwmOut_write_volts (E := Empty_set) output 1 (f32_of_Z 3) None in
  _ ← unwrap r;
  expect_eq (pw_duty <$> po_channels output) [256; 767].

Definition raw_code_spans_the_available_duty : test :=
  output ← PwmOut_new [mock] f0 (f32_of_Z 4);
  let '(output, r) := PwmOut_write (E := Empty_set) output 0 (umax 16) None in
  _ ← unwrap r;
  expect_eq (pw_duty <$> po_channels output) [1023].

(** ** optoncdt.rs *)

#[local] Instance RawValue_eq_dec : EqDecision RawValue.
Proof. solve_decision. Defined.
#[local] Instance ParseEvent_eq_dec : EqDecision ParseEvent.
Proof. solve_decision. Defined.
#[local] Instance CommandReply_eq_dec : EqDecision CommandReply.
Proof. solve_decision. Defined.
#[local] Instance Reading_eq_dec : EqDecision Reading.
Proof. solve_decision. Defined.

(** The test's [encode]. *)
Definition encode (value : Z) (first : bool) : list Z :=
  let h_flags := if first then 2 else 3 in
  [Z.land value 0x3F;
   Z.lor 64 (Z.land (Z.shiftr value 6) 0x3F);
   Z.lor (Z.shiftl h_flags 6) (Z.land (Z.shiftr value 12) 0x3F)].

Definition raw_value (value : Z) (first : bool) : RawValue := {| rv_value := value; rv_first := first |}.

(** [assert_eq!(p.push(byte), v)] and [assert_eq!(p.push_event(byte), e)]. *)
Definition pushes (byte : Z) (v : option RawValue) (p : Parser) : option Parser :=
  let '(p, pushed) := Parser_push p byte in _ ← expect_eq pushed v; Some p.
Definition pushes_event (byte : Z) (e : ParseEvent) (p : Parser) : option Parser :=
  let '(p, pushed) := Parser_push_event p byte in _ ← expect_eq pushed e; Some p.

(** The values a parser gives for a stream. *)
Definition parsed (bytes : list Z) : list RawValue := omap id (run Parser_push Parser_new bytes).2.

Definition round_trips_encoded_values : test :=
  _ ← for_each (fun value p =>
        let bytes := encode value true in
        l ← index bytes 0; p ← pushes l None p;
        m ← index bytes 1; p ← pushes m None p;
        h ← index bytes 2; pushes h (Some (raw_value value true)) p)
      [0; 643; 32768; 64887; 0x3FFFF] Parser_new;
  Some ().

Definition distinguishes_first_from_subsequent_values : test :=
  expect_eq (parsed (encode 100 true ++ encode 200 false)) [raw_value 100 true; raw_value 200 false].

Definition resynchronises_after_dropped_byte : test :=
  let good := encode 12345 true in
  l ← index good 0; m ← index good 1; h ← index good 2;
  let '(p, _) := Parser_push Parser_new m in
  let '(p, _) := Parser_push p h in
  p ← pushes_event l Pending p;
  p ← pushes m None p;
  _ ← pushes h (Some (raw_value 12345 true)) p;
  Some ().

Definition reports_out_of_sequence_bytes_while_recovering : test :=
  p ← pushes_event 65 Resynchronised Parser_new;
  p ← pushes_event 130 Resynchronised p;
  let good := encode 1234 true in
  l ← index good 0; m ← index good 1; h ← index good 2;
  p ← pushes_event l Pending p;
  p ← pushes_event m Pending p;
  _ ← pushes_event h (Value (raw_value 1234 true)) p;
  Some ().

Definition l_byte_mid_value_restarts_parsing : test :=
  let good := encode 999 true in
  l ← index good 0; m ← index good 1; h ← index good 2;
  let '(p, _) := Parser_push Parser_new l in
  p ← pushes_event l Resynchronised p;
  p ← pushes m None p;
  _ ← pushes h (Some (raw_value 999 true)) p;
  Some ().

(** [scale.convert(raw)] is in range and within 0.01 mm of [mm]. *)
Definition converts_near (raw : Z) (mm : float) : test :=
  match DistanceScale_convert (f32_of_Z 50) raw with
  | InRange v => expect (flt (fabs (fsub v mm)) (flit 1 100))
  | _ => None
  end.

Definition distance_scaling_spans_measuring_range : test :=
  _ ← converts_near 643 f0;
  _ ← converts_near 64887 (f32_of_Z 50);
  converts_near ((643 + 64887) / 2) (f32_of_Z 25).

Definition reserve_bands_and_errors_are_classified : test :=
  let convert := DistanceScale_convert (f32_of_Z 50) in
  _ ← expect_eq (convert 0) BelowRange;
  _ ← expect_eq (convert 642) BelowRange;
  _ ← expect_eq (convert 64888) AboveRange;
  _ ← expect_eq (convert 65520) AboveRange;
  expect_eq (convert 65535) (SensorError 65535).

(** [for byte in bytes { result = parser.push(byte).or(result) }]. *)
Definition reply_to (bytes : list Z) : option CommandReply :=
  last (omap id (run CommandReplyParser_push CommandReplyParser_new bytes).2).

(** [\r\n]. *)
Definition crlf : list Z := [13; 10].

Definition command_reply_waits_for_prompt_and_reports_errors : test :=
  _ ← expect_eq (reply_to (str_bytes "MEASRATE 8 ok" ++ crlf ++ str_bytes "->")) (Some ReplyOk);
  expect_eq (reply_to (str_bytes "E202 Access denied" ++ crlf ++ str_bytes "->")) (Some (ReplyError 202)).

Definition command_reply_ignores_interleaved_binary_measurements : test :=
  expect_eq (reply_to (encode 12345 true ++ str_bytes "OUTPUT NONE" ++ crlf ++ encode 23456 true ++ str_bytes "->"))
    (Some ReplyOk).

Definition measurement_parser_ignores_ascii_replies_and_prompts : test :=
  expect_eq (parsed (str_bytes "MEASRATE 8 ok" ++ crlf ++ str_bytes "->" ++ encode 32768 true)) [raw_value 32768 true].

(** ** The suite *)

Definition driver_tests : list (string * test) := [
  ("known_gray_vectors_decode_at_12_and_13_bits", known_gray_vectors_decode_at_12_and_13_bits);
  ("binary_words_pass_through", binary_words_pass_through);
  ("binary_endpoints_are_valid_positions", binary_endpoints_are_valid_positions);
  ("interleaved_pair_rejects_invalid_shapes", interleaved_pair_rejects_invalid_shapes);
  ("invalid_bit_counts_are_rejected", invalid_bit_counts_are_rejected);
  ("scaling_wraps_in_revolutions", scaling_wraps_in_revolutions);
  ("decode_recovers_packed_values", decode_recovers_packed_values);
  ("decode_all_zero_and_all_one", decode_all_zero_and_all_one);
  ("scale_matches_lsb_size", scale_matches_lsb_size);
  ("read_frame_decodes_spi_bytes", read_frame_decodes_spi_bytes);
  ("init_sets_pins_and_pulses_reset", init_sets_pins_and_pulses_reset);
  ("oversampling_for_preset_rates", oversampling_for_preset_rates);
  ("frame_layout_matches_datasheet", frame_layout_matches_datasheet);
  ("unipolar_volts_mapping", unipolar_volts_mapping);
  ("bipolar_volts_mapping", bipolar_volts_mapping);
  ("non_finite_volts_map_to_zero_volts", non_finite_volts_map_to_zero_volts);
  ("write_volts_sends_expected_frame", write_volts_sends_expected_frame);
  ("zero_all_writes_every_channel", zero_all_writes_every_channel);
  ("zero_all_with_delay_spaces_successive_words", zero_all_with_delay_spaces_successive_words);
  ("write_volts_with_delay_spaces_between_words_only", write_volts_with_delay_spaces_between_words_only);
  ("rails_and_midpoint_map_to_duty", rails_and_midpoint_map_to_duty);
  ("volts_clamp_and_non_finite_maps_to_zero_volts", volts_clamp_and_non_finite_maps_to_zero_volts);
  ("channels_are_independent", channels_are_independent);
  ("raw_code_spans_the_available_duty", raw_code_spans_the_available_duty);
  ("round_trips_encoded_values", round_trips_encoded_values);
  ("distinguishes_first_from_subsequent_values", distinguishes_first_from_subsequent_values);
  ("resynchronises_after_dropped_byte", resynchronises_after_dropped_byte);
  ("reports_out_of_sequence_bytes_while_recovering", reports_out_of_sequence_bytes_while_recovering);
  ("l_byte_mid_value_restarts_parsing", l_byte_mid_value_restarts_parsing);
  ("distance_scaling_spans_measuring_range", distance_scaling_spans_measuring_range);
  ("reserve_bands_and_errors_are_classified", reserve_bands_and_errors_are_classified);
  ("command_reply_waits_for_prompt_and_reports_errors", command_reply_waits_for_prompt_and_reports_errors);
  ("command_reply_ignores_interleaved_binary_measurements", command_reply_ignores_interleaved_binary_measurements);
  ("measurement_parser_ignores_ascii_replies_and_prompts", measurement_parser_ignores_ascii_replies_and_prompts)]%string.

Example driver_tests_pass : failing driver_tests = [].
Proof. vm_compute. reflexivity. Qed.
