(* ===== verification/RtTests.v ===== *)
(** * Known answers of the real-time platform

    The unit tests of helic-rt/src: control.rs, sample_rate.rs, safety.rs,
    shared.rs, program.rs and rig.rs, and those of the acceptance rig's
    programme.  The tests of channels.rs are about the size of a type and of a
    constant. *)

From stdpp Require Import strings.
From S2P Require Import Prelude Float32 Phase Harmonics Pid Table TableBuffer Channels Shared Rig Program ExternalRig Conformance CoreTests PllTests.

#[export] Set Default Goal Selector "!".
Open Scope Z_scope.

(** ** control.rs *)

Definition frame_2 : HarmonicFrame := HarmonicFrame_zero 2.

(** The test's [inputs] and [ctx]. *)
Definition control_inputs (measured : list float) : StandardControlInputs := {|
  in_measured := measured; in_reference := f1; in_reference_mean := f0; in_forcing := flit 1 4;
  in_table := flit 1 2; in_frame := frame_2; in_current_increment := 123 |}.
Definition step_ctx : StepCtx := {| ctx_lut := lut; ctx_sample_rate := Hz8000 |}.

Definition pass_through_composes_reference_forcing_and_table : test :=
  '(_, result) ← control_step pass_through (control_inputs []) step_ctx;
  _ ← expect_feq (cs_output result) (flit 7 4);
  _ ← expect_eq (cs_next_increment result) None;
  expect_eq (scalar_param_names (C := PassThrough)) [].

Definition fixed_input_pid_uses_raw_parameter_ids_and_complete_composition : test :=
  let control := PidController_new (Pid_new PidConfig_default) in
  let control := PidController_apply control 0 (PF32 f2) in
  let control := set_output_enabled (StandardControl := PidController_control 1) control true in
  '(_, result) ← control_step (StandardControl := PidController_control 1) control
                   (control_inputs [f32_of_Z 99; flit 1 2]) step_ctx;
  _ ← expect_feq (cs_output result) (flit 7 4);
  _ ← expect_eq (control_inputs_required (StandardControl := PidController_control 1)) 2;
  expect_eq (scalar_param_names (StandardControl := PidController_control 1))
    ["ctrl_kp"; "ctrl_ki"; "ctrl_kd"; "ctrl_tau_d"]%string.

(** ** sample_rate.rs *)

Definition presets_have_consistent_periods_and_steps : test :=
  _ ← for_each (fun rate _ =>
        _ ← expect_feq (SampleRate_dt rate) (fdiv f1 (SampleRate_hz rate));
        expect_feq (f32_of_Z (SampleRate_period_us rate)) (fdiv (f32_of_Z 1000000) (SampleRate_hz rate)))
      [Hz1000; Hz2000; Hz4000; Hz8000] ();
  Some ().

(** ** safety.rs *)

(** The rig of the tests, with the clamp of [f32]. *)
Inductive ClampedRig := clamped_rig.

#[local] Instance ClampedRig_rig : Rig ClampedRig := {|
  INPUTS := []; ACTUATORS := [("left", "V"); ("right", "V")]%string; SAFETY_GATED := true;
  rig_init r := r; measure r l := (r, l); actuate r _ := r; prepare_reboot r _ := (r, true);
  clamp_output _ i x := let limit := fadd (f32_of_Z i) f1 in default S754_nan (fclamp x (fneg limit) limit);
  safe_output _ i := fadd (f32_of_Z 10) (f32_of_Z i); output_fault r _ := (r, false);
  tick_start r := r; tick_end r := r; tick_phase_us _ := None;
  param_names := []; param_defaults := []; normalise_param _ _ := None; set_param r _ _ := r |}.

#[local] Instance SafetyOutcome_eq_dec : EqDecision SafetyOutcome.
Proof. solve_decision. Defined.
#[local] Instance SafetyInputs_eq_dec : EqDecision SafetyInputs.
Proof. solve_decision. Defined.

Definition safety_inputs (armed tripped : bool) : SafetyInputs := {| si_armed := armed; si_tripped := tripped |}.

Definition clamps_each_actuator_and_counts_one_tick : test :=
  '(applied, outcome) ← safety_decide clamped_rig (safety_inputs true false) false [f32_of_Z 3; f32_of_Z (-3)] [f0; f0];
  _ ← expect_all_feq applied [f1; f32_of_Z (-2)];
  expect_eq outcome {| so_newly_tripped := false; so_quieted := false; so_clamped := true |}.

Definition every_fault_source_quiets_the_complete_vector : test :=
  let quiet := [flit 1 2; flit (-1) 2] in
  _ ← for_each (fun '(inputs, fault, commanded) _ =>
        '(applied, outcome) ← safety_decide clamped_rig inputs fault commanded [f0; f0];
        _ ← expect_all_feq applied [f32_of_Z 10; f32_of_Z 11];
        _ ← expect (so_quieted outcome);
        _ ← expect (negb (so_clamped outcome));
        first ← index commanded 0;
        expect_eq (so_newly_tripped outcome) (fault || is_nan first))
      [(safety_inputs false false, false, quiet); (safety_inputs true true, false, quiet);
       (safety_inputs true false, true, quiet); (safety_inputs true false, false, [S754_nan; flit (-1) 2])] ();
  Some ().

Definition persistent_fault_requests_relatched_trip_after_stale_snapshot : test :=
  '(_, outcome) ← safety_decide clamped_rig (safety_inputs true true) true [f0; f0] [f0; f0];
  expect (so_newly_tripped outcome).

(** Where the rig of the test panics, this one gives a NaN, which the last
    assertion would see. *)
Inductive NonGatedRig := non_gated_rig.

#[local] Instance NonGatedRig_rig : Rig NonGatedRig := {|
  INPUTS := []; ACTUATORS := [("left", "V"); ("right", "V")]%string; SAFETY_GATED := false;
  rig_init r := r; measure r l := (r, l); actuate r _ := r; prepare_reboot r _ := (r, true);
  clamp_output _ _ _ := S754_nan; safe_output _ _ := S754_nan; output_fault r _ := (r, false);
  tick_start r := r; tick_end r := r; tick_phase_us _ := None;
  param_names := []; param_defaults := []; normalise_param _ _ := None; set_param r _ _ := r |}.

Definition non_gated_rig_applies_all_outputs_verbatim : test :=
  '(applied, outcome) ← safety_decide non_gated_rig (safety_inputs false true) true [S754_nan; S754_infinity false] [f0; f0];
  first ← index applied 0;
  second ← index applied 1;
  _ ← expect (is_nan first);
  _ ← expect_feq second (S754_infinity false);
  expect_eq outcome SafetyOutcome_default.

(** ** shared.rs *)

Definition diagnostics_reset_preserves_live_and_safety_state : test :=
  let live := Live_new <| lv_ticks := 17 |> <| lv_loop_time_last_us := 23 |> <| lv_active_table_len := 7 |> in
  let diagnostics := Diagnostics_new <| dg_overruns := 3 |> <| dg_wake_phase_min_us := 36 |> <| dg_safety_quiet_ticks := 9 |> in
  let shared := RtShared_new <| rs_live := live |> <| rs_diagnostics := diagnostics |>
                             <| rs_safety := Safety_latch_trip (Safety_arm Safety_new) |> in
  let shared := shared <| rs_diagnostics := Diagnostics_reset (rs_diagnostics shared) |> in
  _ ← expect_eq (lv_ticks (rs_live shared)) 17;
  _ ← expect_eq (lv_loop_time_last_us (rs_live shared)) 23;
  _ ← expect_eq (lv_active_table_len (rs_live shared)) 7;
  _ ← expect_eq (dg_overruns (rs_diagnostics shared)) 0;
  _ ← expect_eq (dg_wake_phase_min_us (rs_diagnostics shared)) (umax 32);
  _ ← expect_eq (dg_safety_quiet_ticks (rs_diagnostics shared)) 0;
  expect_eq (Safety_load_inputs (rs_safety shared)) (safety_inputs true true).

Definition disarm_between_snapshot_and_trip_latch_stays_disarmed : test :=
  let safety := Safety_arm Safety_new in
  let snapshot := Safety_load_inputs safety in
  _ ← expect (si_armed snapshot);
  let safety := Safety_latch_trip (Safety_disarm safety) in
  expect_eq (Safety_load_inputs safety) (safety_inputs false true).

Definition safety_flags_include_state_and_resettable_events : test :=
  let safety := Safety_latch_trip (Safety_arm Safety_new) in
  let diagnostics := Diagnostics_new <| dg_safety_clamp_ticks := 1 |> <| dg_safety_quiet_ticks := 2 |> in
  expect_eq (Safety_flags safety diagnostics) 15.

Definition reboot_handshake_is_ordered_and_request_is_idempotent : test :=
  let reboot := REBOOT_IDLE in
  _ ← expect (negb (RebootShared_is_requested reboot));
  _ ← expect (negb (RebootShared_is_quiesced reboot));
  let reboot := RebootShared_request (RebootShared_request reboot) in
  _ ← expect (RebootShared_is_requested reboot);
  _ ← expect (negb (RebootShared_is_quiesced reboot));
  let reboot := RebootShared_mark_quiesced reboot in
  _ ← expect (RebootShared_is_requested reboot);
  _ ← expect (RebootShared_is_quiesced reboot);
  let reboot := RebootShared_request reboot in
  expect (RebootShared_is_quiesced reboot).

(** ** program.rs *)

Record TestController := { tc_observed : float; tc_next_increment : option Z }.

Definition TestController_step (c : TestController) (i : StandardControlInputs) (_ : StepCtx)
    : option (TestController * ControlStep) :=
  m ← index (in_measured i) 0;
  Some (c <| tc_observed := m |>,
        {| cs_output := fadd (fadd (in_reference i) (in_forcing i)) (in_table i); cs_next_increment := tc_next_increment c |}).

Definition TestController_apply (c : TestController) (id : Z) (payload : Payload) : TestController :=
  match payload with
  | PU32 value => if id =? 0 then c <| tc_next_increment := if value =? 0 then None else Some value |> else c
  | _ => c
  end.

#[local] Instance TestController_control : StandardControl TestController := {|
  control_inputs_required := 0; REFERENCE_UNIT := "V"; TELEMETRY := [("observed", "V")]%string;
  control_step := TestController_step; control_apply := TestController_apply; control_reset c := c;
  set_output_enabled c _ := c; control_telemetry c out := default out (put out 0 (tc_observed c)); control_fault _ := false;
  scalar_param_names := []; scalar_param_value _ _ := None; normalise_scalar_param := default_normalise_scalar [] |}.

Abbreviation test_program := (StandardProgram_program (C := TestController) 4).

(** The test's [program]: the buffers and atomics are in the world. *)
Definition program : option (World * StandardProgram TestController) :=
  let zero := FourierCoeffs_zero 4 in
  let '(target, target_active) := DoubleBuffer_split (DoubleBuffer_from_banks 1 zero zero) in
  let '(forcing, forcing_active) := DoubleBuffer_split (DoubleBuffer_from_banks 2 zero zero) in
  let '(table, active_table) := DoubleBuffer_split (TableBuffer_new 3 8) in
  program ← StandardProgram_new 4 {| tc_observed := f0; tc_next_increment := None |} target_active forcing_active active_table;
  Some ({| w_shared := RtShared_new; w_target := target; w_forcing := forcing; w_table := table; w_extra := [] |}, program).

(** Staging a constant series, and its token. *)
Definition stage_mean (buf : DoubleBuffer FourierCoeffs) (mean : float) : option (DoubleBuffer FourierCoeffs * CommitToken) :=
  let c := {| fc_mean := mean; fc_a := replicate 4 f0; fc_b := replicate 4 f0 |} in
  '(buf, _) ← unwrap (Staging_buffer buf (fun _ => Some (c, ())));
  unwrap (Staging_commit buf).

Definition apply (domain id : Z) (payload : Payload) '((w, p) : World * StandardProgram TestController)
    : option (World * StandardProgram TestController) :=
  program_apply (Program := test_program) w p domain id payload.

Definition standard_program_owns_commands_step_and_signals : test :=
  '(w, p) ← program;
  '(target, token) ← stage_mean (w_target w) (flit 1 4);
  '(w, p) ← apply DOMAIN_GENERATOR command_id.generator.SET_TARGET (PBuffer token) (w <| w_target := target |>, p);
  '(forcing, token) ← stage_mean (w_forcing w) (flit 1 8);
  '(w, p) ← apply DOMAIN_GENERATOR command_id.generator.SET_FORCING (PBuffer token) (w <| w_forcing := forcing |>, p);
  table ← stage (w_table w) [f1; f1];
  '(table, token) ← unwrap (Staging_commit table);
  '(w, p) ← apply DOMAIN_TABLE command_id.table.ACTIVATE (PBuffer token) (w <| w_table := table |>, p);
  '(w, p) ← apply DOMAIN_TABLE command_id.table.SET_MODE (PU32 1) (w, p);
  '(w, p) ← apply DOMAIN_GENERATOR command_id.generator.SET_INCREMENT (PU32 (Z.shiftl 1 30)) (w, p);
  '(w, p, output) ← program_step (Program := test_program) w p [f2] true step_ctx [f0];
  _ ← expect_all_feq output [flit 11 8];
  signals ← write_signals (Program := test_program) p (replicate 5 f0);
  _ ← expect_all_feq signals [f2; flit 1 4; flit 1 8; f1; flit 1 4];
  _ ← expect_eq (lv_active_table_len (rs_live (w_shared w))) 2;
  _ ← expect_eq (signal_count (Program := test_program)) 5;
  _ ← expect_eq (signal (Program := test_program) 0) (Some ("observed", "V"))%string;
  expect_eq (signal (Program := test_program) 4) (Some ("phase", "turn"))%string.

Definition phase_signal_meets_the_half_f32_ulp_bound : test :=
  _ ← for_each (fun phase _ =>
        let exact := ddiv (f64_of_Z phase) (f64_of_Z 4294967296) in
        let turns := HarmonicFrame_phase_turns ((HarmonicFrame_zero 0) <| hf_phase := phase |>) in
        let error := fabs (dsub (f64_of_f32 turns) exact) in
        expect (fle error (dlit 1 (2 ^ 25))))
      [0; 1; Z.shiftl 1 24 - 1; Z.shiftl 1 30; umax 32 - 1; umax 32] ();
  Some ().

(** One enabled step, and the phase signal after it. *)
Definition phase_after_step '((w, p) : World * StandardProgram TestController)
    : option (World * StandardProgram TestController * float) :=
  '(w, p, _) ← program_step (Program := test_program) w p [f0] true step_ctx [f0];
  signals ← write_signals (Program := test_program) p (replicate 5 f0);
  phase ← index signals 4;
  Some (w, p, phase).

Definition returned_increment_first_affects_the_following_tick_and_none_restores_nominal : test :=
  s ← program;
  s ← apply DOMAIN_GENERATOR command_id.generator.SET_INCREMENT (PU32 (Z.shiftl 1 29)) s;
  s ← apply DOMAIN_CONTROLLER 0 (PU32 (Z.shiftl 1 30)) s;
  '(s, phase) ← phase_after_step s;
  _ ← expect_feq phase (flit 1 8);
  '(s, phase) ← phase_after_step s;
  _ ← expect_feq phase (flit 3 8);
  s ← apply DOMAIN_CONTROLLER 0 (PU32 0) s;
  '(s, _) ← phase_after_step s;
  '(_, phase) ← phase_after_step s;
  expect_feq phase (flit 3 4).

(** ** rig.rs *)

(** The rigs and programmes of the tests differ in their constants only. *)
Definition constant_rig (inputs actuators : list (string * string)) : Rig unit := {|
  INPUTS := inputs; ACTUATORS := actuators; SAFETY_GATED := false;
  rig_init r := r; measure r l := (r, l); actuate r _ := r; prepare_reboot r _ := (r, true);
  clamp_output _ _ x := x; safe_output _ _ := f0; output_fault r _ := (r, false);
  tick_start r := r; tick_end r := r; tick_phase_us _ := None;
  param_names := []; param_defaults := []; normalise_param _ _ := None; set_param r _ _ := r |}.

Definition constant_program (outputs required : Z) (domains : list Z) (signals : list (string * string)) : Program unit := {|
  OUTPUTS := outputs; INPUTS_REQUIRED := required; DOMAINS := domains;
  program_apply w p _ _ _ := Some (w, p); program_step w p _ _ _ outputs := Some (w, p, outputs);
  write_signals _ out := Some out; signal_count := len signals; signal i := index signals i; program_fault _ := false |}.

Definition TestRig : Rig unit := constant_rig [("input", "V")]%string [("left", "V"); ("right", "V")]%string.
Definition TestProgram : Program unit := constant_program 2 1 [1] [("phase", "turn")]%string.
Definition TooManyInputs : Program unit := constant_program 2 2 [] [].
Definition OutputMismatch : Program unit := constant_program 1 0 [] [].
Definition TooManyActuators : Rig unit :=
  constant_rig [] [("out0", "V"); ("out1", "V"); ("out2", "V"); ("out3", "V"); ("out4", "V")]%string.
Definition FiveOutputs : Program unit := constant_program 5 0 [] [].

(** [validate_sources] of a rig and a programme panics. *)
Definition validation_panics (R P : Type) `{Rig R, Program P} : test := expect_none (unwrap (validate_sources R P)).

Definition source_walk_preserves_segment_order : test :=
  let source := source unit unit (H := TestRig) (H0 := TestProgram) in
  _ ← unwrap (validate_sources unit unit (H := TestRig) (H0 := TestProgram));
  _ ← expect_eq (source_count unit unit (H := TestRig) (H0 := TestProgram)) 5;
  _ ← expect_eq (source 0) (Some ("input", "V"))%string;
  _ ← expect_eq (source 1) (Some ("phase", "turn"))%string;
  _ ← expect_eq (source 2) (Some ("left", "V"))%string;
  _ ← expect_eq (source 3) (Some ("right", "V"))%string;
  _ ← expect_eq (source 4) (Some ("cmd_epoch", "count"))%string;
  expect_eq (source 5) None.

Definition validation_rejects_insufficient_rig_inputs : test :=
  validation_panics unit unit (H := TestRig) (H0 := TooManyInputs).
Definition validation_rejects_programme_rig_output_mismatch : test :=
  validation_panics unit unit (H := TestRig) (H0 := OutputMismatch).
Definition validation_rejects_too_many_actuators : test :=
  validation_panics unit unit (H := TooManyActuators) (H0 := FiveOutputs).

(** ** tests/external-rig/fixture-program/src/lib.rs *)

Definition controller_owns_its_parameter_and_telemetry : test :=
  let controller := FixtureController_new in
  _ ← expect_eq (scalar_param_names (C := FixtureController)) ["fixture_gain"]%string;
  let controller := control_apply controller 0 (PF32 f2) in
  gain ← scalar_param_value controller 0;
  _ ← expect_feq gain f2;
  let controller := control_reset controller in
  expect_all_feq (control_telemetry controller [f0]) [f0].

Definition programme_contract_is_owned_locally : test :=
  _ ← expect_eq (OUTPUTS (P := FixtureProgram)) 1;
  _ ← expect_eq (INPUTS_REQUIRED (P := FixtureProgram)) 1;
  expect_eq (signal (P := FixtureProgram) 0) (Some ("bias", "V"))%string.

(** ** The suite *)

Definition rt_tests : list (string * test) := [
  ("pass_through_composes_reference_forcing_and_table", pass_through_composes_reference_forcing_and_table);
  ("fixed_input_pid_uses_raw_parameter_ids_and_complete_composition", fixed_input_pid_uses_raw_parameter_ids_and_complete_composition);
  ("presets_have_consistent_periods_and_steps", presets_have_consistent_periods_and_steps);
  ("clamps_each_actuator_and_counts_one_tick", clamps_each_actuator_and_counts_one_tick);
  ("every_fault_source_quiets_the_complete_vector", every_fault_source_quiets_the_complete_vector);
  ("persistent_fault_requests_relatched_trip_after_stale_snapshot", persistent_fault_requests_relatched_trip_after_stale_snapshot);
  ("non_gated_rig_applies_all_outputs_verbatim", non_gated_rig_applies_all_outputs_verbatim);
  ("diagnostics_reset_preserves_live_and_safety_state", diagnostics_reset_preserves_live_and_safety_state);
  ("disarm_between_snapshot_and_trip_latch_stays_disarmed", disarm_between_snapshot_and_trip_latch_stays_disarmed);
  ("safety_flags_include_state_and_resettable_events", safety_flags_include_state_and_resettable_events);
  ("reboot_handshake_is_ordered_and_request_is_idempotent", reboot_handshake_is_ordered_and_request_is_idempotent);
  ("standard_program_owns_commands_step_and_signals", standard_program_owns_commands_step_and_signals);
  ("phase_signal_meets_the_half_f32_ulp_bound", phase_signal_meets_the_half_f32_ulp_bound);
  ("returned_increment_first_affects_the_following_tick_and_none_restores_nominal", returned_increment_first_affects_the_following_tick_and_none_restores_nominal);
  ("source_walk_preserves_segment_order", source_walk_preserves_segment_order);
  ("validation_rejects_insufficient_rig_inputs", validation_rejects_insufficient_rig_inputs);
  ("validation_rejects_programme_rig_output_mismatch", validation_rejects_programme_rig_output_mismatch);
  ("validation_rejects_too_many_actuators", validation_rejects_too_many_actuators);
  ("controller_owns_its_parameter_and_telemetry", controller_owns_its_parameter_and_telemetry);
  ("programme_contract_is_owned_locally", programme_contract_is_owned_locally)]%string.

Example rt_tests_pass : failing rt_tests = [].
Proof. vm_compute. reflexivity. Qed.
