(* ===== verification/ParamTests.v ===== *)
(** * Known answers of the parameter registry

    The unit tests of helic-rt/src/params.rs: the store with the groups of the
    standard programme, a rig with one parameter and two telemetry words, and
    the assertions of its validation. *)

From stdpp Require Import strings.
From S2P Require Import Prelude Float32 Phase Harmonics Proto Table TableBuffer Channels Shared Rig Program Params Groups GroupLaws Conformance.

#[export] Set Default Goal Selector "!".
Open Scope Z_scope.

(** ** The fixture *)

Definition TEST_HARMONICS : nat := 16.
Definition COEFF_COUNT : Z := coeff_count TEST_HARMONICS.

Definition EXTRA_VALUE : nat := 0.
Definition EXTRA_EVENT : nat := 1.
Definition EXTRAS : list ExtraParam :=
  [ExtraParam_f32 "extra" EXTRA_VALUE; ExtraParam_u32_event "extra_event" EXTRA_EVENT]%string.

Inductive ParamRig := param_rig.

(** [normalise_param] is the default of the trait. *)
#[local] Instance ParamRig_rig : Rig ParamRig := {|
  INPUTS := [("adc0", "V")]%string; ACTUATORS := [("out", "V")]%string; SAFETY_GATED := false;
  rig_init r := r; measure r l := (r, l); actuate r _ := r; prepare_reboot r _ := (r, true);
  clamp_output _ _ x := x; safe_output _ _ := f0; output_fault r _ := (r, false);
  tick_start r := r; tick_end r := r; tick_phase_us _ := None;
  param_names := ["rig_gain"]%string; param_defaults := [f1];
  normalise_param i v := if (i <? 1) && is_finite v then Some v else None; set_param r _ _ := r |}.

Abbreviation Queue := (ListQueue RtCommand).
Abbreviation Group := (AnyGroup ParamRig PassThrough).
#[local] Instance test_group : ParamGroup Group := AnyGroup_group TEST_HARMONICS ref_sqrtf 4096.

(** The store together with the memory its groups point into. *)
Definition Fixture : Type := World * ParamStore Group Queue.

(** [Queue::<_, COMMAND_QUEUE_LEN>]: one slot of it stays free. *)
Definition command_queue : Queue := {| lq_items := []; lq_capacity := COMMAND_QUEUE_LEN - 1 |}.

Definition store_world : World := {|
  w_shared := RtShared_new;
  w_target := DoubleBuffer_from_banks 1 (FourierCoeffs_zero TEST_HARMONICS) (FourierCoeffs_zero TEST_HARMONICS);
  w_forcing := DoubleBuffer_from_banks 2 (FourierCoeffs_zero TEST_HARMONICS) (FourierCoeffs_zero TEST_HARMONICS);
  w_table := TableBuffer_new 3 4096; w_extra := [0; 0] |}.

(** [store()]; its two active endpoints point to the first banks. *)
Definition store : option Fixture :=
  let store : ParamStore Group Queue := ParamStore_new command_queue Hz8000 in
  store ← ParamStore_push store (inl (PlatformGroup_new Hz8000 "0.1.0 test" "test-rig"));
  generator ← GeneratorGroup_new TEST_HARMONICS Hz8000;
  store ← ParamStore_push store (inr (inl generator));
  store ← ParamStore_push store (inr (inr (inl (TableGroup_new 4096 Hz8000))));
  control ← ScalarControlGroup_new pass_through (len (INPUTS (R := ParamRig)));
  store ← ParamStore_push store (inr (inr (inr (inr (inr control)))));
  rig ← RigGroup_new ParamRig;
  store ← ParamStore_push store (inr (inr (inr (inr (inl rig)))));
  telemetry ← TelemetryGroup_new EXTRAS;
  store ← ParamStore_push store (inr (inr (inr (inl telemetry))));
  store ← ParamStore_validate store (DOMAINS (Program := StandardProgram_program (C := PassThrough) TEST_HARMONICS));
  Some (store_world, store).
Definition active_first : Active := {| ac_current := 0 |}.

Definition store_names (s : ParamStore Group Queue) : option (list string) :=
  count ← ParamStore_count s;
  for_each (fun i names => d ← ParamStore_def s i; d ← d; Some (names ++ [def_name d])) (seqZ 0 count) [].

(** [index]: the first position of a name. *)
Definition index_of (f : Fixture) (name : string) : option Z :=
  names ← store_names (snd f);
  '(i, _) ← list_find (fun n => n = name) names;
  Some (Z.of_nat i).

(** The methods on the fixture. *)
Definition set (f : Fixture) (i : Z) (data : list Z) : Fixture * outcome ErrorCode ParamAction :=
  ParamStore_set (fst f) (snd f) i data.
Definition set_block (f : Fixture) (i offset : Z) (data : list Z) : Fixture * outcome ErrorCode unit :=
  ParamStore_set_block (fst f) (snd f) i offset data.
Definition commit (f : Fixture) (i n : Z) : Fixture * outcome ErrorCode unit :=
  ParamStore_commit (fst f) (snd f) i n.
(** [get] into a buffer of [size] zeros. *)
Definition get (f : Fixture) (i : Z) (size : nat) : option (list Z) :=
  fst <$> unwrap (ParamStore_get (fst f) (snd f) i (replicate size 0)).
(** A call that is unwrapped. *)
Definition done {A} (m : Fixture * outcome ErrorCode A) : option Fixture := _ ← unwrap (snd m); Some (fst m).
Definition dequeue (f : Fixture) : option (RtCommand * Fixture) :=
  '(c, q) ← q_dequeue (ps_commands (snd f));
  Some (c, (fst f, (snd f) <| ps_commands := q |>)).

Definition get_f32 (f : Fixture) (i : Z) : option float := f32_of_le_bytes <$> get f i 4.

(** [while store.set(..).is_ok() {}], for at most [fuel] turns: more than the
    queue holds. *)
Fixpoint fill_queue (fuel : nat) (f : Fixture) (i : Z) (data : list Z) : option Fixture :=
  match fuel with
  | O => None
  | S fuel => let '(f, r) := set f i data in if is_ok r then fill_queue fuel f i data else Some f
  end.

(** The pending payload of a command to [domain] with [id]. *)
Definition routed (c : RtCommand) (domain id : Z) : option Payload :=
  _ ← expect ((cmd_domain c =? domain) && (cmd_id c =? id)); Some (cmd_payload c).
Definition is_f32 (p : Payload) (v : float) : test := match p with PF32 x => expect_feq x v | _ => None end.

(** ** The registry *)

(** [sort_unstable]. *)
Fixpoint sorted_insert (x : string) (l : list string) : list string :=
  match l with
  | [] => [x]
  | y :: l => if String.leb x y then x :: y :: l else y :: sorted_insert x l
  end.
Definition sorted (l : list string) : list string := foldr sorted_insert [] l.

Definition registry_preserves_the_complete_discovered_set : test :=
  '(_, s) ← store;
  names ← store_names s;
  expect_eq (sorted names) (sorted [
    "arm"; "clock_jitter"; "cmd_backlog_max"; "diag_reset"; "experiment"; "extra"; "extra_event"; "firmware";
    "forcing_coeffs"; "freq"; "loop_time_last"; "loop_time_max"; "mcu_reboot"; "overruns"; "records_dropped";
    "rig_gain"; "safety"; "sample_freq"; "t_actuate_max"; "t_measure_max"; "t_rest_max"; "table"; "table_freq";
    "table_gain"; "table_interp"; "table_len"; "table_mode"; "table_mult"; "table_phase"; "table_trigger";
    "target_coeffs"; "tick_timeouts"; "ticks"; "wake_phase_max"; "wake_phase_min"]%string).

Definition generator_group_discovers_its_const_generic_harmonic_count : test :=
  group ← GeneratorGroup_new 3 Hz8000;
  let defs := params (ParamGroup := GeneratorGroup_group 3 ref_sqrtf) group in
  target ← index defs 1;
  forcing ← index defs 2;
  _ ← expect_eq (def_count target) (1 + 2 * 3);
  expect_eq (def_count forcing) (1 + 2 * 3).

Definition global_walk_routes_and_accepts_only_after_enqueue : test :=
  f ← store;
  frequency ← index_of f "freq";
  f ← done (set f frequency (f32_to_le_bytes (f32_of_Z 20)));
  '(command, f) ← dequeue f;
  _ ← routed command DOMAIN_GENERATOR command_id.generator.SET_INCREMENT;
  out ← get_f32 f frequency;
  expect_feq out (f32_of_Z 20).

Definition table_group_local_ids_are_wire_command_ids : test :=
  f ← store;
  frequency ← index_of f "table_freq";
  f ← done (set f frequency (f32_to_le_bytes (f32_of_Z 20)));
  '(command, _) ← dequeue f;
  p ← routed command DOMAIN_TABLE command_id.table.SET_INCREMENT;
  match p with PU32 _ => Some () | _ => None end.

(** [AdjustableController]: the defaults of the trait otherwise. *)
Inductive AdjustableController := adjustable_controller.

#[local] Instance AdjustableController_control : StandardControl AdjustableController := {|
  control_inputs_required := 0; REFERENCE_UNIT := "V"; TELEMETRY := [];
  control_step c inputs _ := Some (c, {| cs_output := in_reference inputs; cs_next_increment := None |});
  control_apply c _ _ := c; control_reset c := c; set_output_enabled c _ := c; control_telemetry _ out := out;
  control_fault _ := false; scalar_param_names := ["adjustment"]%string;
  scalar_param_value _ i := if i =? 0 then Some f1 else None;
  normalise_scalar_param i v _ := if (i <? 1) && is_finite v then Some v else None |}.

Definition controller_group_local_ids_are_wire_command_ids : test :=
  let s : ParamStore (ScalarControlGroup AdjustableController) Queue := ParamStore_new command_queue Hz8000 in
  control ← ScalarControlGroup_new adjustable_controller 1;
  s ← ParamStore_push s control;
  s ← ParamStore_validate s [DOMAIN_CONTROLLER];
  let '(_, s, r) := ParamStore_set store_world s 0 (f32_to_le_bytes f2) in
  _ ← unwrap r;
  '(command, _) ← q_dequeue (ps_commands s);
  p ← routed command DOMAIN_CONTROLLER 0;
  is_f32 p f2.

(** ** Transactions *)

Definition zero_coefficients : list Z := replicate (Z.to_nat (COEFF_COUNT * 4)) 0.

Definition full_queue_rejects_scalar_and_buffer_transactionally : test :=
  f ← store;
  frequency ← index_of f "freq";
  f ← fill_queue 40 f frequency (f32_to_le_bytes (f32_of_Z 20));
  let '(f, r) := set f frequency (f32_to_le_bytes (f32_of_Z 21)) in
  _ ← expect_eq r (Err Busy);
  out ← get_f32 f frequency;
  _ ← expect_feq out (f32_of_Z 20);
  target ← index_of f "target_coeffs";
  let '(f, r) := set f target zero_coefficients in
  _ ← expect_eq r (Err Busy);
  '(_, f) ← dequeue f;
  expect_eq (snd (set f target zero_coefficients)) (Ok NoAction).

Definition diagnostic_reset_broadcasts_without_touching_live_state : test :=
  '(w, s) ← store;
  let sh := w_shared w in
  let sh := sh <| rs_live := (rs_live sh) <| lv_ticks := 17 |> |>
               <| rs_diagnostics := (rs_diagnostics sh) <| dg_overruns := 9 |> |> in
  let f := (w <| w_shared := sh |> <| w_extra ::= <[EXTRA_EVENT := 11]> |>, s) in
  reset ← index_of f "diag_reset";
  '(w, _) ← done (set f reset (le32 1));
  _ ← expect_eq (lv_ticks (rs_live (w_shared w))) 17;
  _ ← expect_eq (dg_overruns (rs_diagnostics (w_shared w))) 0;
  expect_eq (w_extra w !! EXTRA_EVENT) (Some 0).

Definition coefficient_buffer_activates_the_complete_staged_value : test :=
  f ← store;
  target ← index_of f "target_coeffs";
  let numbers := f32_of_Z <$> seqZ 1 (Z.of_nat TEST_HARMONICS) in
  let coefficients := {| fc_mean := flit 1 4; fc_a := numbers; fc_b := fneg <$> numbers |} in
  let bytes := f32_to_le_bytes (fc_mean coefficients)
                 ++ (fc_a coefficients ≫= f32_to_le_bytes) ++ (fc_b coefficients ≫= f32_to_le_bytes) in
  f ← done (set f target bytes);
  '(command, f) ← dequeue f;
  p ← routed command DOMAIN_GENERATOR command_id.generator.SET_TARGET;
  match p with
  | PBuffer token =>
      let '(buf, a) := Active_activate (w_target (fst f)) active_first token in
      active ← Active_get buf a;
      _ ← expect_feq (fc_mean active) (fc_mean coefficients);
      _ ← expect_all_feq (fc_a active) (fc_a coefficients);
      expect_all_feq (fc_b active) (fc_b coefficients)
  | _ => None
  end.

Definition failing_stage_leaves_no_coefficient_pending_state : test :=
  f ← store;
  target ← index_of f "target_coeffs";
  let invalid := f32_to_le_bytes S754_nan ++ drop 4 zero_coefficients in
  let '(f, r) := set f target invalid in
  _ ← expect_eq r (Err BadValue);
  expect_eq (snd (set f target zero_coefficients)) (Ok NoAction).

Definition table_length_is_published_only_after_core_one_activation : test :=
  f ← store;
  table ← index_of f "table";
  table_len ← index_of f "table_len";
  f ← done (set_block f table 0 ([f1; f2; f32_of_Z 3] ≫= f32_to_le_bytes));
  f ← done (commit f table 3);
  out ← get f table_len 2;
  _ ← expect_eq (of_le_bytes out) 0;
  '(command, f) ← dequeue f;
  p ← routed command DOMAIN_TABLE command_id.table.ACTIVATE;
  match p with
  | PBuffer token =>
      let '(buf, a) := Active_activate (w_table (fst f)) active_first token in
      t ← Active_get buf a;
      let sh := w_shared (fst f) in
      let sh := sh <| rs_live := (rs_live sh) <| lv_active_table_len := wt_len t |> |> in
      out ← get ((fst f) <| w_table := buf |> <| w_shared := sh |>, snd f) table_len 2;
      expect_eq (of_le_bytes out) 3
  | _ => None
  end.

Definition full_queue_returns_table_token_to_its_group : test :=
  f ← store;
  table ← index_of f "table";
  frequency ← index_of f "freq";
  f ← done (set_block f table 0 (f32_to_le_bytes f1 ++ f32_to_le_bytes f2));
  f ← fill_queue 40 f frequency (f32_to_le_bytes (f32_of_Z 20));
  let '(f, r) := commit f table 2 in
  _ ← expect_eq r (Err Busy);
  expect (is_ok (snd (set_block f table 0 (f32_to_le_bytes (f32_of_Z 3))))).

Definition rig_group_maps_global_index_to_local_command_id : test :=
  f ← store;
  rig_gain ← index_of f "rig_gain";
  f ← done (set f rig_gain (f32_to_le_bytes (flit 5 2)));
  '(command, f) ← dequeue f;
  p ← routed command DOMAIN_RIG 0;
  _ ← is_f32 p (flit 5 2);
  out ← get_f32 f rig_gain;
  expect_feq out (flit 5 2).

(** ** Groups of the tests *)

(** [BadCore0Group]; its [rejected] word is the first of the telemetry. *)
Inductive BadCore0Group := bad_core0_group.

Definition BAD_PARAM : list ParamDef := [ParamDef_writable "bad" U32 1]%string.

#[local] Instance BadCore0Group_group : ParamGroup BadCore0Group := {|
  target _ := Core0; params _ := BAD_PARAM; group_get _ _ _ out := Ok (out, 0);
  group_stage w g _ _ := (w, g, Ok (StagedRt (PU32 1))); group_accept w g _ := Some (w, g);
  group_reject w g _ returned :=
    (match returned with Some (PU32 1) => w <| w_extra ::= <[0%nat := 1]> |> | _ => w end, g);
  group_reset_diagnostics w g := (w, g); group_set_block := no_set_block; group_stage_commit := no_stage_commit |}.

Definition core_zero_group_rt_payload_is_rejected_and_returned : test :=
  s ← ParamStore_push (ParamStore_new command_queue Hz8000) bad_core0_group;
  s ← ParamStore_validate s [];
  let '(w, _, r) := ParamStore_set store_world s 0 (le32 1) in
  _ ← expect_eq r (Err BadIndex);
  expect_eq (w_extra w !! 0%nat) (Some 1).

Record TargetGroup := { tt_target : CommandTarget; tt_defs : list ParamDef }.

#[local] Instance TargetGroup_group : ParamGroup TargetGroup := {|
  target := tt_target; params := tt_defs; group_get _ _ _ out := Ok (out, 0);
  group_stage w g _ _ := (w, g, Ok (StagedLocal NoAction)); group_accept w g _ := Some (w, g);
  group_reject w g _ _ := (w, g); group_reset_diagnostics w g := (w, g);
  group_set_block := no_set_block; group_stage_commit := no_stage_commit |}.

Definition empty_store : ParamStore TargetGroup Queue := ParamStore_new command_queue Hz8000.

Definition TARGET_A : list ParamDef := [ParamDef_read_only "target_a" U32 1]%string.
Definition TARGET_B : list ParamDef := [ParamDef_read_only "target_b" U32 1]%string.

(** [#[should_panic]]: the pushes return, and the validation does not.  The
    model has no panic messages. *)
Definition validation_rejects (groups : list TargetGroup) (domains : list Z) : test :=
  s ← for_each (fun g s => ParamStore_push s g) groups empty_store;
  expect_none (ParamStore_validate s domains).

Definition target_a (t : CommandTarget) : TargetGroup := {| tt_target := t; tt_defs := TARGET_A |}.
Definition target_b (t : CommandTarget) : TargetGroup := {| tt_target := t; tt_defs := TARGET_B |}.

Definition validation_rejects_duplicate_programme_target : test :=
  validation_rejects [target_a (TargetProgram 1); target_b (TargetProgram 1)] [1].
Definition validation_rejects_zero_programme_domain : test := validation_rejects [] [0].
Definition validation_rejects_unreachable_programme_domain : test := validation_rejects [] [1].
Definition validation_rejects_group_for_unknown_programme_domain : test :=
  validation_rejects [target_a (TargetProgram 7)] [].
Definition validation_rejects_multiple_rig_groups : test :=
  validation_rejects [target_a TargetRig; target_b TargetRig] [].

Definition LONG_NAME : list ParamDef := [ParamDef_read_only "parameter_name_far_too_long" U32 1]%string.
Definition validation_rejects_definition_that_cannot_be_discovered : test :=
  validation_rejects [{| tt_target := Core0; tt_defs := LONG_NAME |}] [].

Definition OVERSIZED_BLOB : list ParamDef := [ParamDef_blob "blob" F32 1 (umax 16 + 1)]%string.
Definition validation_rejects_blob_maximum_outside_wire_range : test :=
  validation_rejects [{| tt_target := Core0; tt_defs := OVERSIZED_BLOB |}] [].

Definition table_group_discovers_its_const_generic_capacity : test :=
  d ← index (params (ParamGroup := TableGroup_group 8) (TableGroup_new 8 Hz8000)) 0;
  _ ← expect_eq (def_count d) 8;
  match def_kind d with Blob maximum => expect_eq maximum 8 | _ => None end.

(** ** The suite *)

Definition param_tests : list (string * test) := [
  ("registry_preserves_the_complete_discovered_set", registry_preserves_the_complete_discovered_set);
  ("generator_group_discovers_its_const_generic_harmonic_count", generator_group_discovers_its_const_generic_harmonic_count);
  ("global_walk_routes_and_accepts_only_after_enqueue", global_walk_routes_and_accepts_only_after_enqueue);
  ("table_group_local_ids_are_wire_command_ids", table_group_local_ids_are_wire_command_ids);
  ("controller_group_local_ids_are_wire_command_ids", controller_group_local_ids_are_wire_command_ids);
  ("full_queue_rejects_scalar_and_buffer_transactionally", full_queue_rejects_scalar_and_buffer_transactionally);
  ("diagnostic_reset_broadcasts_without_touching_live_state", diagnostic_reset_broadcasts_without_touching_live_state);
  ("coefficient_buffer_activates_the_complete_staged_value", coefficient_buffer_activates_the_complete_staged_value);
  ("failing_stage_leaves_no_coefficient_pending_state", failing_stage_leaves_no_coefficient_pending_state);
  ("table_length_is_published_only_after_core_one_activation", table_length_is_published_only_after_core_one_activation);
  ("full_queue_returns_table_token_to_its_group", full_queue_returns_table_token_to_its_group);
  ("rig_group_maps_global_index_to_local_command_id", rig_group_maps_global_index_to_local_command_id);
  ("core_zero_group_rt_payload_is_rejected_and_returned", core_zero_group_rt_payload_is_rejected_and_returned);
  ("validation_rejects_duplicate_programme_target", validation_rejects_duplicate_programme_target);
  ("validation_rejects_zero_programme_domain", validation_rejects_zero_programme_domain);
  ("validation_rejects_unreachable_programme_domain", validation_rejects_unreachable_programme_domain);
  ("validation_rejects_group_for_unknown_programme_domain", validation_rejects_group_for_unknown_programme_domain);
  ("validation_rejects_multiple_rig_groups", validation_rejects_multiple_rig_groups);
  ("validation_rejects_definition_that_cannot_be_discovered", validation_rejects_definition_that_cannot_be_discovered);
  ("validation_rejects_blob_maximum_outside_wire_range", validation_rejects_blob_maximum_outside_wire_range);
  ("table_group_discovers_its_const_generic_capacity", table_group_discovers_its_const_generic_capacity)]%string.

Example param_tests_pass : failing param_tests = [].
Proof. vm_compute. reflexivity. Qed.
