(* ===== verification/HostTests.v ===== *)
(** * Known answers of the host

    The unit tests of helic-broker/src (history.rs, server.rs, config.rs,
    storage.rs) and of firmware/build.  The disk of the storage tests is one
    that never fails; what their reader finds in a file is read off the calls
    that wrote it. *)

From stdpp Require Import strings.
From S2P Require Import Prelude Float32 Proto Text StreamPacket History Upstream Broker BrokerConfig BrokerDuration Storage Discovery Conformance.

#[export] Set Default Goal Selector "!".
Open Scope Z_scope.

(** ** history.rs *)

Module history.
(** The payload counts up from zero. *)
Definition packet (seq first records : Z) : option Packet :=
  let header := mkStreamHeader 2 seq first 0 2 records in
  wire ← StreamHeader_encode header (replicate (Z.to_nat STREAM_HEADER_LEN) 0);
  unwrap (Packet_decode (wire ++ (wrap 8 <$> seqZ 0 (records * 8))) 0).

Definition push (h : History) (p : option Packet) : option History := p ← p; History_push h p.
End history.

Definition history_is_bounded_by_whole_packets : test :=
  let h := History_reset History_default 5 in
  h ← history.push h (history.packet 0 0 3);
  h ← history.push h (history.packet 1 6 3);
  expect_eq (hi_records h) 3.

Definition recent_trims_only_the_oldest_packet : test :=
  let h := History_reset History_default 20 in
  h ← history.push h (history.packet 4 100 4);
  h ← history.push h (history.packet 5 108 3);
  replay ← unwrap (History_recent h 5);
  _ ← expect_eq (len replay) 2;
  first ← index replay 0;
  first ← unwrap (StreamHeader_decode first);
  _ ← expect_eq (sh_seq first, sh_first_index first, sh_n_records first) (4, 104, 2);
  total ← for_each (fun p n => h ← unwrap (StreamHeader_decode p); Some (n + sh_n_records h)) replay 0;
  _ ← expect_eq total 5;
  expect_eq (History_recent h 8) (Err tt).

(** ** server.rs *)

Definition stream_configuration_is_strict : test :=
  let payload := [4; 0; 0; 0; 0; 0; 2; 0; 12] in
  decoded ← unwrap (StreamConfiguration_decode payload);
  _ ← expect_eq (sc_decimation decoded) 4;
  _ ← expect_eq (sc_sources decoded) [0; 12];
  expect (is_err (StreamConfiguration_decode (take 8 payload))).

Definition identities_are_fixed_width : test :=
  _ ← expect_eq (take 15 (fixed_identity (str_bytes "magnetoelastic"))) (str_bytes "magnetoelastic" ++ [0]);
  expect_eq (fixed_identity (str_bytes "0123456789abcdefghijkl")) (str_bytes "0123456789abcdef").

(** ** config.rs *)

Definition duration_and_size_parsers_are_explicit : test :=
  _ ← expect_eq (parse_duration (str_bytes "10s")) (Ok (10 * 10 ^ 9));
  _ ← expect_eq (parse_duration (str_bytes "250ms")) (Ok (250 * 10 ^ 6));
  _ ← expect (is_err (parse_duration (str_bytes "10")));
  _ ← expect_eq (parse_size (str_bytes "1GiB")) (Ok (Z.shiftl 1 30));
  expect_eq (parse_size (str_bytes "2MB")) (Ok 2000000).

Definition recording_is_optional_and_reported_clearly : test :=
  without ← Config_from_args "device" None;
  _ ← expect_eq (cf_output_dir without) None;
  _ ← expect_eq (recording_notice without) "Captures are not being saved."%string;
  with_dir ← Config_from_args "device" (Some "tmp/captures"%string);
  let '(asked, result) := validate (fun _ => true) with_dir in
  _ ← unwrap result;
  _ ← expect_eq asked (Some "tmp/captures"%string);
  expect_eq (recording_notice with_dir) "Captures are being saved to tmp/captures."%string.

(** ** storage.rs *)

(** The file system of the tests, which never fails, with a clock that advances
    by [tick] at each call and files of 100 bytes. *)
Definition temp_disk (tick : Z) : Disk := {|
  dk_fails _ := false; dk_exists l p := bool_decide (p ∈ made l); dk_len _ := 100;
  dk_instant l := len l * tick; dk_utc _ := 0; dk_uuid _ := [1]; dk_timestamp _ := Some (str_bytes "20260101T000000");
  dk_broker_version := [] |}.

Module storage.
Definition metadata : SessionMetadata := {|
  sm_experiment := str_bytes "magnetoelastic"; sm_firmware := str_bytes "helic-daq test";
  sm_sample_rate_hz := f32_of_Z 8000; sm_decimation := 1; sm_configured_count := 0;
  sm_sources := [{| sr_name := str_bytes "adc0"; sr_unit := str_bytes "V" |}; {| sr_name := str_bytes "out"; sr_unit := str_bytes "V" |}];
  sm_started_utc_ns := 0 |}.

Definition packet : option Packet :=
  wire ← StreamHeader_encode (mkStreamHeader 2 7 100 3 1 2) (replicate (Z.to_nat STREAM_HEADER_LEN) 0);
  unwrap (Packet_decode (wire ++ ([f1; f32_of_Z 2; f32_of_Z 3; f32_of_Z 4] ≫= f32_to_le_bytes)) 0).

(** [start], [append] and [stop] of a session. *)
Definition session (disk : Disk) (segment_size : Z) : option (SegmentSession * list DiskCall * list DiskCall) :=
  packet ← packet;
  let '(st, r) := start disk metadata (SegmentSession_new segment_size, []) in
  _ ← unwrap r;
  let '(st, r) := append disk packet st in
  _ ← unwrap r;
  let '(stopped, r) := stop disk CloseStreamStop st in
  _ ← unwrap r;
  Some (fst st, snd st, snd stopped).

(** The values a data set of the closing calls was given, in order. *)
Definition written (name : string) (l : list DiskCall) : list Z :=
  omap (fun c => match c with WriteRaw n v => if String.eqb n name then Some v else None | _ => None end) l.
(** The files that remain: the targets of the renames. *)
Definition files (l : list DiskCall) : list (list Z) :=
  omap (fun c => match c with Rename _ q => Some q | _ => None end) l.
End storage.

Definition hdf5_session_round_trips_through_pure_rust_reader : test :=
  '(_, _, l) ← storage.session (temp_disk 1) (Z.shiftl 1 30);
  let records := read_records l in
  _ ← expect_eq (len (storage.files l)) 1;
  _ ← expect_eq (f32_of_le_bytes <$> flat_map (fun r => [take 4 (snd r); drop 4 (snd r)]) records)
        (f32_of_Z <$> [1; 2; 3; 4]);
  _ ← expect_eq (fst <$> records) [100; 101];
  expect_eq (of_le_bytes <$> frames PacketSequence l) [7].

(** The last flush lies seconds back. *)
Definition size_threshold_starts_a_linked_segment : test :=
  '(s, _, l) ← storage.session (temp_disk (10 ^ 9)) 1;
  _ ← expect_eq (se_segment_index s) 1;
  _ ← expect_eq (len (storage.files l)) 2;
  reason ← index (storage.written "close_reason" l) 0;
  _ ← expect_eq reason (reason_u8 CloseSegmentLimit);
  complete ← index (storage.written "session_complete" l) 0;
  expect_eq complete 0.

(** ** firmware/build/src/lib.rs *)

Definition compact_identity_distinguishes_clean_dirty_and_unknown : test :=
  _ ← expect_eq (format_firmware_id "0.2.5" (Some ("abcdef0", false))) (Some "0.2.5 abcdef0");
  _ ← expect_eq (format_firmware_id "0.2.5" (Some ("abcdef0", true))) (Some "0.2.5 abcdef0+");
  _ ← expect_eq (format_firmware_id "0.2.5" None) (Some "0.2.5 ?");
  longest ← format_firmware_id "0.100.0" (Some ("abcdef0", true));
  expect_eq (str_len longest) FIRMWARE_ID_LEN.

Definition compact_identity_rejects_an_overlong_dirty_version : test :=
  expect_none (format_firmware_id "0.1000.0" (Some ("abcdef0", true))).

(** ** The suite *)

Definition host_tests : list (string * test) := [
  ("history_is_bounded_by_whole_packets", history_is_bounded_by_whole_packets);
  ("recent_trims_only_the_oldest_packet", recent_trims_only_the_oldest_packet);
  ("stream_configuration_is_strict", stream_configuration_is_strict);
  ("identities_are_fixed_width", identities_are_fixed_width);
  ("duration_and_size_parsers_are_explicit", duration_and_size_parsers_are_explicit);
  ("recording_is_optional_and_reported_clearly", recording_is_optional_and_reported_clearly);
  ("hdf5_session_round_trips_through_pure_rust_reader", hdf5_session_round_trips_through_pure_rust_reader);
  ("size_threshold_starts_a_linked_segment", size_threshold_starts_a_linked_segment);
  ("compact_identity_distinguishes_clean_dirty_and_unknown", compact_identity_distinguishes_clean_dirty_and_unknown);
  ("compact_identity_rejects_an_overlong_dirty_version", compact_identity_rejects_an_overlong_dirty_version)]%string.

Example host_tests_pass : failing host_tests = [].
Proof. vm_compute. reflexivity. Qed.
