(* ===== verification/SystemTests.v ===== *)
(** * The system tests of the broker

    helic-broker/tests/end_to_end.rs on the model: the tasks of [run] between
    two clients and the simulated device of the file, whose state after an
    exchange is the fold of the requests the broker has forwarded so far.  Each
    step of the flow lets one task run until something can be observed. *)

From stdpp Require Import strings.
From S2P Require Import Prelude Float32 Text Proto Frame StreamPacket Beacon BrokerInfo History Upstream Broker Storage Capture Conformance HostTests.

#[export] Set Default Goal Selector "!".
Open Scope Z_scope.

(** ** The device *)

Record FakeState := { fs_configuration : option (Z * list Z); fs_target : option Z; fs_disarmed : bool; fs_reboots : Z }.
Definition FakeState_default : FakeState :=
  {| fs_configuration := None; fs_target := None; fs_disarmed := false; fs_reboots := 0 |}.

Definition parameter_page (request : list Z) : option (list Z) :=
  _ ← expect_eq request [0; 0];
  Some (le16 0 ++ le16 4 ++
    flat_map (fun '(name, code, count, writable) => str_bytes name ++ [0; code] ++ le16 count ++ [writable])
      [("firmware", 99, 16, 0); ("experiment", 99, 16, 0); ("arm", 73, 1, 1); ("mcu_reboot", 73, 1, 1)]%string).

Definition fixed_text (value : string) : list Z := str_bytes value ++ replicate (16 - String.length value) 0.

Fixpoint parameter_values (request : list Z) : list Z :=
  match request with
  | a :: b :: rest =>
      let i := of_le_bytes [a; b] in
      (if i =? 0 then fixed_text "helic-daq test" else if i =? 1 then fixed_text "magnetoelastic"
       else if (i =? 2) || (i =? 3) then le32 0 else []) ++ parameter_values rest
  | _ => []
  end.

(** The response to a request and the state after it; [None] is a panic of the
    device. *)
Definition fake_response (s : FakeState) (ty : Z) (payload : list Z) : option (FakeState * (Z * list Z)) :=
  if ty =? MsgType_u8 Status then
    Some (s, (ty, [VERSION] ++ le16 4 ++ [2] ++ f32_to_le_bytes (f32_of_Z 1000) ++ le32 42))
  else if ty =? MsgType_u8 GetParams then page ← parameter_page payload; Some (s, (ty, page))
  else if ty =? MsgType_u8 GetSources then
    Some (s, (ty, str_bytes "adc0" ++ [0] ++ str_bytes "V" ++ [0] ++ str_bytes "out" ++ [0] ++ str_bytes "V" ++ [0]))
  else if ty =? MsgType_u8 GetPar then Some (s, (ty, parameter_values payload))
  else if ty =? MsgType_u8 SetPar then
    let s := if bool_decide (payload = [2; 0; 0; 0; 0; 0]) then s <| fs_disarmed := true |> else s in
    let s := if bool_decide (payload = [3; 0] ++ le32 MCU_REBOOT_CONFIRMATION)
             then s <| fs_reboots := fs_reboots s + 1 |> <| fs_target := None |> <| fs_configuration := None |> else s in
    Some (s, (ty, []))
  else if ty =? MsgType_u8 StreamSetup then
    if negb (len payload =? 9) then Some (s, (MsgType_u8 MsgError, [6; ty]))
    else decimation ← u16_at payload 0; Some (s <| fs_configuration := Some (decimation, drop 7 payload) |>, (ty, []))
  else if ty =? MsgType_u8 StreamStart then port ← u16_at payload 0; Some (s <| fs_target := Some port |>, (ty, []))
  else if ty =? MsgType_u8 StreamStop then Some (s <| fs_target := None |>, (ty, []))
  else Some (s, (MsgType_u8 MsgError, [2; ty])).

(** The state after the requests of a log. *)
Definition fake_state (l : list Event) : FakeState :=
  fold_left (fun s e => match e with
    | Forwarded _ ty payload _ => match fake_response s ty payload with Some (s, _) => s | None => s end
    | _ => s
    end) l FakeState_default.

Definition fake_answer (s : FakeState) (request : list Z) : option (list Z) :=
  '(ty, seq, payload) ← unwrap (decode request);
  '(_, (ty, response)) ← fake_response s ty payload;
  Some (frame_bytes ty seq response).

(** The datagrams of the device. *)
Fixpoint fake_stream (n : nat) (sequence first_index decimation : Z) (sources : list Z) : list (list Z) :=
  match n with
  | O => []
  | S n =>
      let header := mkStreamHeader (len sources) sequence first_index 0 decimation 8 in
      (stream_header_bytes header ++ flat_map (fun record => flat_map (fun source =>
         f32_to_le_bytes (fadd (fadd (f32_of_Z first_index) (f32_of_Z record)) (fdiv (f32_of_Z source) (f32_of_Z 10))))
         sources) (seqZ 0 8))
      :: fake_stream n (wrapping_add 32 sequence 1) (wrapping_add 32 first_index (decimation * 8)) decimation sources
  end.

(** ** Running the broker *)

(** The bind of [option]; the tasks live above the universe of stdpp's. *)
#[local] Notation "'let?' p := e 'in' f" := (match e with Some p => f | None => None end)
  (at level 10, p pattern, e at level 200, f at level 200, only parsing).

(** Everything works, and the device answers in the state it is in. *)
Definition env_of (app : App) : Env :=
  {| ev_now := 0; ev_utc_ns := 0; ev_answer := fake_answer (fake_state (ap_log app)); ev_io := true; ev_storage := true |}.

(** Task [t] moves until [p] holds; [None] when it cannot. *)
Fixpoint until (fuel : nat) (t : Task) (p : App * Pool -> bool) (st : App * Pool) : option (App * Pool) :=
  if p st then Some st else
  match fuel with
  | O => None
  | S fuel => let? st := step t (env_of (fst st)) st in until fuel t p st
  end.

Definition waits (t : Task) (p : App * Pool -> bool) (st : App * Pool) : option (App * Pool) := until 80 t p st.

Definition replies (client : Z) (app : App) : list (Z * list Z) :=
  omap (fun e => match e with Replied c ty _ payload => if c =? client then Some (ty, payload) else None | _ => None end)
    (ap_log app).
Definition received (port : Z) (app : App) : list (list Z) :=
  omap (fun e => match e with
    | Relayed wire target | Replayed wire target => if snd target =? port then Some wire else None
    | _ => None
    end) (ap_log app).
Definition over (t : Task) (st : App * Pool) : bool :=
  match nth_error (snd st) t with Some (Ret _) => true | _ => false end.

(** [request]: the task of a client runs until one more reply is there. *)
Definition client_request (t : Task) (client : Z) (st : App * Pool) : option (App * Pool * (Z * list Z)) :=
  let n := length (replies client (fst st)) in
  let? st := waits t (fun st => bool_decide (n < length (replies client (fst st)))%nat) st in
  let? reply := last (replies client (fst st)) in
  Some (st, reply).
(** [connect_when_ready]: the first request is [Status]. *)
Definition connect (t : Task) (client : Z) (st : App * Pool) : option (App * Pool) :=
  let? (st, reply) := client_request t client st in
  let? _ := expect_eq (fst reply) (MsgType_u8 Status) in
  Some st.
Definition assert_ack (t : Task) (client ty : Z) (st : App * Pool) : option (App * Pool) :=
  let? (st, reply) := client_request t client st in
  let? _ := expect_eq reply (ty, []) in
  Some st.
(** [receive_packet]: the task of the datagrams runs until one more is relayed to a port. *)
Definition receive_packet (t : Task) (port : Z) (st : App * Pool) : option (App * Pool * StreamHeader) :=
  let n := length (received port (fst st)) in
  let? st := waits t (fun st => bool_decide (n < length (received port (fst st)))%nat) st in
  let? wire := last (received port (fst st)) in
  let? header := unwrap (StreamHeader_decode wire) in
  Some (st, header).

(** The files and calls of the recorder for what the broker asked of it. *)
Definition recorded (app : App) : list DiskCall :=
  let '(st, _, _) := worker (temp_disk 1) (SegmentSession_new (Z.shiftl 1 30), []) (omap recorder_command (ap_log app)) in
  snd st.

(** A client after its connection: [Status] comes first. *)
Definition accepted (peer_port : Z) (requests : list (Z * list Z)) (rest : list ClientInput) : RunInput :=
  RunAccept (1, peer_port) (((fun '(ty, payload) => InFrame ty 1 payload) <$> (MsgType_u8 Status, []) :: requests) ++ rest).

Definition fake_connection (packets : nat) : Connection (D := unit) := {|
  cn_peer_ip := 7; cn_udp := 40000; cn_device := (); cn_beacon := None;
  cn_datagrams := (fun wire => UdpDatagram wire 7) <$> fake_stream packets 0 0 1 [0; 1] |}.
Definition fake_device (d : unit) (request : list Z) : unit * option (list Z) := (d, fake_answer FakeState_default request).

(** [helic_broker::server::run], connected, with two clients accepted; the task
    of the datagrams comes before theirs. *)
Definition broker (recording : bool) (inputs : Inputs (D := unit)) : option (App * Pool) :=
  let config := {| cf_recording := recording; cf_mcu_stream_port := STREAM_PORT; cf_control_port := CONTROL_PORT;
                   cf_history := 2 * 10 ^ 9 |} in
  let services := if recording then 5%nat else 4%nat in
  let tasks n := fun st : App * Pool => bool_decide (length (snd st) = n) in
  let? st := waits 0%nat (tasks services) (App_new config, [run fake_device inputs]) in
  let? st := waits 2%nat (tasks (services + 1)%nat) st in
  waits 0%nat (tasks (services + 3)%nat) st.

(** ** The flow of two clients *)

Definition setup : list Z := [1; 0; 0; 0; 0; 0; 2; 0; 1].

Definition two_client_inputs : Inputs (D := unit) := {|
  in_run := [
    accepted 5000 [(MsgType_u8 StreamSetup, setup); (MsgType_u8 StreamStart, le16 6000)] [];
    accepted 5001 [(QUIET_STREAM_START, le16 6001); (BROKER_INFO, []); (GET_RECENT, le32 10);
                   (SET_CLIENT_QUIET, [0]); (MsgType_u8 StreamStop, [])] []];
  in_discovery := [(REQUEST, (1, 4999))]; in_connections := [Some (fake_connection 4)];
  in_heartbeats := 0; in_storage_errors := [] |}.

Definition run_two_client_flow (recording_enabled : bool) : test :=
  let? st := broker recording_enabled two_client_inputs in
  let '(udp, first, second) := if recording_enabled then (5, 6, 7)%nat else (4, 5, 6)%nat in
  let? st := connect first 1 st in
  let? st := connect second 2 st in
  (* discovery *)
  let? st := waits 1%nat (fun st => match last (ap_log (fst st)) with Some (Announced _ _) => true | _ => false end) st in
  let? announced := last (ap_log (fst st)) in
  let? beacon := match announced with Announced response _ => unwrap (BeaconResponse_decode response) | _ => None end in
  let? _ := expect_eq (br_control_port beacon) CONTROL_PORT in
  let? _ := expect_eq (take 15 (br_experiment beacon)) (str_bytes "magnetoelastic" ++ [0]) in
  let? _ := expect_eq (take 13 (br_firmware beacon)) (str_bytes "helic-broker ") in
  (* the first client starts *)
  let? st := assert_ack first 1 (MsgType_u8 StreamSetup) st in
  let? st := assert_ack first 1 (MsgType_u8 StreamStart) st in
  let? (st, first_packet) := receive_packet udp 6000 st in
  let? _ := expect_eq (sh_n_sources first_packet) 2 in
  (* the second joins quietly *)
  let? st := assert_ack second 2 QUIET_STREAM_START st in
  let? (st, _) := receive_packet udp 6000 st in
  let? (st, _) := receive_packet udp 6000 st in
  let? _ := expect_eq (received 6001 (fst st)) [] in
  let? (st, information) := client_request second 2 st in
  let? _ := expect_eq (fst information) BROKER_INFO in
  let? information := unwrap (BrokerInfo_decode (snd information)) in
  let? _ := expect (negb (Z.land (bi_state information) STATE_RUNNING =? 0)) in
  let? _ := expect (negb (Z.land (bi_state information) STATE_CLIENT_QUIET =? 0)) in
  let? _ := expect_eq (bi_connected_clients information) 2 in
  let? _ := expect_eq (take 2 (bi_sources information)) [0; 1] in
  (* the replay of ten records *)
  let? (st, response) := client_request second 2 st in
  let? _ := expect_eq response (GET_RECENT, le32 10) in
  let? st := waits second (fun st => bool_decide (length (received 6001 (fst st)) = 2%nat)) st in
  let? replayed := for_each (fun wire n => h ← unwrap (StreamHeader_decode wire); Some (n + sh_n_records h))
                     (received 6001 (fst st)) 0 in
  let? _ := expect_eq replayed 10 in
  let? st := assert_ack second 2 SET_CLIENT_QUIET st in
  let? (st, _) := receive_packet udp 6001 st in
  let? st := assert_ack second 2 (MsgType_u8 StreamStop) st in
  (* the recording *)
  let l := recorded (fst st) in
  let? _ := (if recording_enabled then
         _ ← expect_eq (len (storage.files l)) 1;
         _ ← expect (forallb (fun r => len (snd r) =? 2 * 4) (read_records l));
         expect (negb (len (read_records l) =? 0))
       else expect_eq (storage.files l) []) in
  (* both leave *)
  let? st := waits first (over first) st in
  let? st := waits second (over second) st in
  expect (fs_disarmed (fake_state (ap_log (fst st)))).

Definition two_clients_share_stream_replay_and_recording : test := run_two_client_flow true.
Definition two_clients_work_without_recording : test := run_two_client_flow false.

(** ** A reboot of the device *)

Definition reboot_inputs : Inputs (D := unit) := {|
  in_run := [
    accepted 5000 [(MsgType_u8 StreamSetup, setup); (MsgType_u8 StreamStart, le16 6000);
                   (MsgType_u8 SetPar, le16 3 ++ le32 MCU_REBOOT_CONFIRMATION)] [];
    accepted 5001 [] [InEpoch];
    accepted 5002 [(MsgType_u8 Status, [])] []];
  in_discovery := []; in_connections := [Some (fake_connection 1); None; Some (fake_connection 0)];
  in_heartbeats := 0; in_storage_errors := [] |}.

Definition mcu_reboot_closes_clients_reconnects_and_finalises_recording : test :=
  let? st := broker true reboot_inputs in
  let '(udp, first, second) := (5, 6, 7)%nat in
  let? st := connect first 1 st in
  let? st := connect second 2 st in
  let? st := assert_ack first 1 (MsgType_u8 StreamSetup) st in
  let? st := assert_ack first 1 (MsgType_u8 StreamStart) st in
  let? (st, _) := receive_packet udp 6000 st in
  let? st := assert_ack first 1 (MsgType_u8 SetPar) st in
  let? st := waits first (over first) st in
  let? st := waits second (over second) st in
  let? _ := expect_eq (fs_reboots (fake_state (ap_log (fst st)))) 1 in
  (* the connection is made again, and a third client is served *)
  let? st := waits 2%nat (fun st => bool_decide (length (snd st) = 9%nat)) st in
  let? st := waits 0%nat (fun st => bool_decide (length (snd st) = 10%nat)) st in
  let? st := connect 9%nat 3 st in
  let? (st, response) := client_request 9%nat 3 st in
  let? _ := expect_eq (fst response) (MsgType_u8 Status) in
  let l := recorded (fst st) in
  let? _ := expect_eq (len (storage.files l)) 1 in
  let? _ := expect_eq (storage.written "close_reason" l) [reason_u8 CloseMcuReboot] in
  let? _ := expect_eq (storage.written "clean_close" l) [1] in
  expect_eq (storage.written "session_complete" l) [0].

(** ** The suite *)

Definition system_tests : list (string * test) := [
  ("two_clients_share_stream_replay_and_recording", two_clients_share_stream_replay_and_recording);
  ("two_clients_work_without_recording", two_clients_work_without_recording);
  ("mcu_reboot_closes_clients_reconnects_and_finalises_recording", mcu_reboot_closes_clients_reconnects_and_finalises_recording)]%string.

Example system_tests_pass : failing system_tests = [].
Proof. vm_compute. reflexivity. Qed.
